(* ===== verification/_CoqProject ===== *)
-Q . S2P
Prelude.v
GoText.v
GoEncoding.v
GoTime.v
GoJson.v
GoJsonProofs.v
GoJsonPrefix.v
GoCrypto.v
GoPath.v
GoOs.v
GoAtomic.v
Keystore.v
KeystoreProofs.v
KeystoreLive.v
KeystoreHistory.v
KeystoreCodec.v
KeystoreTheorems.v
KeystoreJson.v
KeystoreCut.v
KeystoreSpec.v
KeystoreLock.v
Interleave.v
GoFs.v
FileUpload.v
FileUploadProofs.v
FileUploadTheorems.v
UploadRaces.v
UploadRacesTheorems.v
UploadRacesTrees.v
Config.v
Processes.v
CmdExec.v
ServerAudit.v
Server.v
ServerTheorems.v
ServerTLS.v
ServerTLSTheorems.v
Mcp.v
McpTheorems.v
ServerRun.v
ServerRunTheorems.v
Daemon.v
DaemonTheorems.v
Concurrent.v
ConcurrentTheorems.v
DaemonRun.v
ServiceTemplates.v
Service.v
ServiceSystemd.v
ServiceLaunchd.v
ServicePurge.v
ServiceTheorems.v
CliOutput.v
CliKey.v
CliProofs.v
CliKeyTheorems.v
CliService.v
CliServiceTheorems.v
CliServe.v
CliServeTheorems.v
Cli.v
CliTheorems.v
