(* ===== verification/Prelude.v ===== *)
(** * raxd: a verification development

    raxd is a daemon that lets the holders of API keys run commands and upload
    files on a host over TLS, and a command line that manages the keys and the
    system service.  This library models the Go code under [src/internal] and
    [src/cmd] as executable definitions and proves what makes it correct.  This
    file is the root: it holds this overview and the prelude (bytes, strings,
    results, the state monad with its [wp] calculus, shared tactics and hints).

    ** The parts and where they are

    - Libraries of Go as the code uses them: [GoText] (strings, numbers, host and
      port), [GoEncoding] (runes, hex, base64, verbs of fmt), [GoTime] (the
      calendar and RFC 3339), [GoJson], [GoJsonProofs] and [GoJsonPrefix]
      (encoding/json: the scanner, the spelling of values, decoding by type; that
      reading undoes writing, and that no document of an object begins another), [GoCrypto] (SHA-256), [GoPath] (filepath), [GoOs] (a flat disk with its trace, clock,
      randomness, faults and locks), [GoAtomic] (temp file and rename), [GoFs] (a
      tree with links, and [os.Root]).
    - Concurrency in general: [Interleave] (programs of atomic actions over any
      signature, pools of them, and what a mutex around each program gives).
    - [internal/keystore]: [Keystore] (keystore.go, crypto.go, record.go,
      errors.go, and acquireLock and releaseLock of lock.go), [KeystoreProofs]
      (a specification of each method over the database the file denotes),
      [KeystoreLive] (success when no call fails), [KeystoreHistory] (histories
      of operations and restarts), [KeystoreCodec] (a small instance of the JSON
      laws, for examples), [KeystoreTheorems]; [KeystoreJson] (the document
      encoding/json makes of a database, by the tags of record.go: the instance
      raxd runs with), [KeystoreCut] (a file that does not parse, such as one
      that was cut short); [KeystoreSpec] states an abstract store of
      credentials that any number of processes refine, operation by operation;
      [KeystoreLock] takes the methods apart into system calls and interleaves
      several processes.
    - [internal/fileupload]: [FileUpload], [FileUploadProofs],
      [FileUploadTheorems] (upload.go, quota.go, mode.go, config.go); [UploadRaces]
      has the uploads call by call, several at a time, [UploadRacesTheorems] and
      [UploadRacesTrees] what holds of them.
    - [internal/config]: [Config] (config.go, paths.go).
    - [internal/cmdexec]: [Processes] (the process table of a kernel with groups,
      signals, orphans and sub-reapers, and the four sysproc files over it),
      [CmdExec] (exec.go, cappedwriter.go).
    - [internal/server]: [ServerAudit] (audit.go), [Server] (middleware.go,
      auth.go, ratelimit.go, handlers.go, the router of server.go),
      [ServerTheorems]; [ServerTLS] and [ServerTLSTheorems] (tls.go);
      [ServerRun] and [ServerRunTheorems] ([New] and [Run] of server.go).
    - [internal/mcp]: [Mcp] and [McpTheorems] (the four tools and their audit).
    - The daemon: [Daemon] mounts the tools of [Mcp] behind the middleware chain
      of [Server], the way [serve] does; [DaemonTheorems].  [Concurrent] has its
      handler as a program of atomic actions and the system in which any number
      of requests, the collection of limiters and other processes interleave;
      [ConcurrentTheorems].  [DaemonRun] runs [Run] of server.go beside that
      system, from the moment the port is bound to the end of the process.
    - [internal/service]: [ServiceTemplates] (templates.go, with the part of
      text/template it needs), [Service] (service.go, exec.go, purge.go),
      [ServiceSystemd], [ServiceLaunchd], [ServicePurge] (the contract of
      [Purge] as a profile both managers satisfy), [ServiceTheorems].
    - The command line: [CliOutput] (the console; internal/banner and
      internal/version), [CliKey] (key.go), [CliService] (service.go),
      [CliServe] (serve.go), [Cli] (root.go, status.go, version.go, stub.go and
      main.go), with the rules of [CliProofs] and the theorems of
      [CliKeyTheorems], [CliServiceTheorems], [CliServeTheorems], [CliTheorems].

    ** How they interact

    [Cli.main] runs a command on a [system]: the disk of the key store, the tree
    of the uploads, the machine of the commands and the host of the service
    managers.  [CliServe.runServe] loads a [Config], opens the [Keystore], makes
    the tools of [Mcp] out of [CmdExec] and [FileUpload], hands them to
    [ServerRun.New], which loads the certificate ([ServerTLS]) and builds the
    chain ([Server]), and runs it over a list of requests.  Each layer is state
    passing over its own state, and [zoom] runs it on a component of the state
    above ([on_os], [on_proc], [on_tools], [on_sys], [on_part]); an error of Go
    is a value of [result], a panic is [None] or the flag of a [handler].

    These layers run one request after the other.  [Concurrent] breaks the same
    handler up at the points where requests can meet (the locks of the limiters
    and of the key store, a line of the log, the run of a command, an upload);
    the lemma [one_at_a_time] says that the pieces make the whole, and
    [UploadRaces] does the same to an upload.  [DaemonRun] adds the goroutine of
    [Run] to the system of [Concurrent], so that requests may be under way when
    serving ends.

    ** Interfaces

    What is not in the repository is a parameter with documented laws, and each
    has an instance that computes: [JsonCodec] and [JsonLaws] (encoding/json on a
    database, discharged by [KeystoreJson.json_codec_laws]), [GoTables] (Unicode
    case folding, url.Parse), [RateLimiter] (x/time/rate), [TlsCrypto] and [TlsLaws] (X.509, ECDSA, PEM pairs), [casts]
    (viper), [McpSdk] (which calls a request makes, and the answer),
    [TableWriter] (the failures of tablewriter, which no theorem excludes), [Environment] (what a command
    reads of its process), [AppState] (the state of the application behind the
    chain).  The outcomes of system calls are the faults of [GoOs] and [GoFs],
    those of host commands [h_exec]; [m_spawn] is what the next child process
    does, and [pstep] what processes may do to the table meanwhile.

    ** What the theorems show

    - The key store: every write is atomic at any crash point; revocations are
      final over any history; what [Create] returns is accepted, what [Verify]
      accepts is active; the operations of any number of processes and their
      answers are a trace of the abstract store, and every record keeps its
      type; the database survives its JSON file, and a file that was cut short,
      but not to nothing, is refused and left alone; two writers serialise, while
      three can undo a revocation (the lock is on an inode that a rename
      replaces: the example [revoke_lost_to_stale_lock]).
    - Uploads: confined to the root on any disk of the trace, all or nothing,
      within the quota on a root without links, never clobbering unasked unless a
      look at the target fails.
      Several at a time: never blocked for good, no torn file at any moment, and
      with a quota as if one came after the other.
    - Configuration, commands, tools: limits and gates before effects; one audit
      record per call; a command returns within the limit its request asks for, a
      timeout leaves nothing of its group running, and the reaping of a group
      ends.
    - The server: one verdict per request; the rate of a key is that of its own
      bucket, which a collection replaces when the key was idle past the time to
      live; the private key is only ever in files of mode 0600, and a pair is
      made once; the last use of a key survives a shutdown.
    - The daemon: tools act for the holder of an active key only, a revocation
      ends that at once and for good, and every record is in the holder's name.
      In any interleaving: a tool acts only after its request was accepted, at a
      moment when the key had been given out and not revoked; the log accounts
      for every command but those of requests under way.  At the end of the
      process: for every command, and with every last use saved, when [Shutdown]
      found all requests answered; a command can be left without its record when
      [Shutdown] gave up after its 30 seconds ([command_without_record]).
    - The service: its status is a document that can be read back; the unit
      cannot be injected into; installing is all or nothing when the file system
      does not fail, and undone by uninstalling; a purge deletes only its own, and only system accounts
      without a login shell.
    - The program: a run of [serve] in which all requests are answered records
      every command it starts and announces itself when the port is bound; a new key is shown once; a deleted key and a purged service accept
      nothing any more; data is destroyed behind two flags only; the exit code is
      1 exactly when an error was printed, but for a table that cannot be written.

    Each property has a claim number in its comment ([C1] is the most important)
    and, where it has hypotheses, a witness that applies it to concrete data.

    ** Bounds and fuel

    [Create] takes the number of draws [generateID] may make; [KeystoreTheorems]
    shows that one more than the number of ids in use is enough when the draws
    differ.  [runes_go] has the length of the string; the walk of [GoFs] follows
    at most [root_max_symlinks] links, as [os.Root] does, and otherwise fails;
    [reap_fuel] allows for every process of the table or of the schedule and for
    every pause of the 200 ms, and [Processes.reapGroupOrphans_terminates] shows
    that this is enough; the parser of
    IPv6 addresses makes nine rounds, one more than there are groups;
    [sha256_blocks] and the template parser have one unit per block and item; the
    JSON scanner has two units a character, which [scan_print] shows to be enough,
    and nests 10000 deep, as the library does.
    Integers of Go that can overflow are wrapped to their width ([wrap64],
    [wrap32u]).

    ** Not modelled

    - What happens inside an atomic action of [Concurrent] is not interleaved with
      the rest.  For the operations of the key store this is what its lock is
      for, and [KeystoreLock] says how far the lock does it: for two writers, not
      for three.  For uploads [UploadRaces] goes down to the calls; a call, also
      [MkdirAll] and the walk of the quota, is atomic there.
    - [ServerRun.Run] and [serve_all], and so [serve] and [main], answer every
      request before serving ends; [DaemonRun] has the runs that do not.
    - A panic in a tool is taken to reach [recoverMiddleware]: this depends on
      the goroutine the MCP library runs the tool in.  So does when a request
      counts as answered: here not before its tool has returned.
    - The disk keeps what was written: whether an [fsync] reached the medium is
      not modelled, only whether the call fails.
    - The clocks of the requests and of the commands are not related: the end of
      a request's context is given relative to the start of the command
      ([t_ctx_end]).  [Run] is modelled for Unix; of sysproc_stub.go there are
      the functions.  Descendants of a command that make themselves sub-reapers
      are not in [Processes].
    - The TLS and HTTP protocols, the JSON-RPC of the MCP library, cobra's parsing
      and help, the layout of tables and log lines: third-party code.
    - [NewAuditFn] and the setters of hooks are constants of the model.
    - The flat disk of the key store and the certificates, and the tree of the
      uploads and of [MkdirAll], are two disks: no theorem speaks of both.
    - Times are UTC; signals are the end of a run ([serve_ends]). *)

From Stdlib Require Export ZArith Lia List Bool Ascii String.
From Stdlib Require Import Init.Byte Strings.Byte.
From stdpp Require Export base tactics option list gmap strings.
Export Init.Byte.

Open Scope Z_scope.

(** ** Bytes

    A Go [[]byte] is a list of bytes; a Go [string] is a Rocq [string], which
    is a byte sequence too. *)
Abbreviation bytes := (list byte).

#[export] Instance byte_eq_dec : EqDecision byte := Byte.byte_eq_dec.

#[export] Instance byte_countable : Countable byte :=
  inj_countable Byte.to_N Byte.of_N Byte.of_to_N.

(** Unsigned value of a byte, and the byte of an integer (Go's [byte(z)],
    which keeps the low eight bits). *)
Definition byte_val (b : byte) : Z := Z.of_N (Byte.to_N b).

Definition byte_of_Z (z : Z) : byte :=
  match Byte.of_N (Z.to_N (z mod 256)) with
  | Some b => b
  | None => Byte.x00
  end.

Definition bytes_of_string (s : string) : bytes := String.list_byte_of_string s.
Definition string_of_bytes (b : bytes) : string := String.string_of_list_byte b.

Lemma byte_val_range b : 0 <= byte_val b < 256.
Proof.
  unfold byte_val. pose proof (Byte.to_N_bounded b) as H.
  change 255%N with (255)%N in H. lia.
Qed.

Lemma byte_of_val b : byte_of_Z (byte_val b) = b.
Proof.
  unfold byte_of_Z. rewrite Z.mod_small by apply byte_val_range.
  unfold byte_val. by rewrite N2Z.id, Byte.of_to_N.
Qed.

Lemma byte_val_of_Z z : byte_val (byte_of_Z z) = z mod 256.
Proof.
  unfold byte_of_Z.
  assert (0 <= z mod 256 < 256) by (apply Z.mod_pos_bound; lia).
  destruct (Byte.of_N (Z.to_N (z mod 256))) as [b|] eqn:E.
  - apply Byte.to_of_N in E. unfold byte_val. rewrite E. lia.
  - apply Byte.of_N_None_iff in E. lia.
Qed.

Lemma byte_val_inj b c : byte_val b = byte_val c → b = c.
Proof. intros H. by rewrite <-(byte_of_val b), H, byte_of_val. Qed.

Lemma string_of_bytes_of_string s : string_of_bytes (bytes_of_string s) = s.
Proof. apply String.string_of_list_byte_of_string. Qed.

Lemma bytes_of_string_of_bytes b : bytes_of_string (string_of_bytes b) = b.
Proof. apply String.list_byte_of_string_of_list_byte. Qed.

(** Concatenation of strings. *)
Lemma str_app_cons x (a b : string) : String x a +:+ b = String x (a +:+ b).
Proof. done. Qed.

Lemma str_app_assoc (a b c : string) : a +:+ (b +:+ c) = (a +:+ b) +:+ c.
Proof. induction a as [|x a IH]; [done|]. by rewrite !str_app_cons, IH. Qed.

Lemma str_app_nil_r (a : string) : a +:+ EmptyString = a.
Proof. induction a as [|x a IH]; [done|]. by rewrite !str_app_cons, IH. Qed.

Lemma str_app_length (a b : string) :
  String.length (a +:+ b) = (String.length a + String.length b)%nat.
Proof. induction a as [|x a IH]; [done|]. rewrite str_app_cons. simpl. by rewrite IH. Qed.

Lemma str_app_inj_l (a b c : string) : a +:+ b = a +:+ c → b = c.
Proof. induction a as [|x a IH]; [done|]. rewrite !str_app_cons. intros [= H]. by apply IH. Qed.

Lemma str_app_inj_tail (u v a b : string) :
  String.length a = String.length b → u +:+ a = v +:+ b → a = b.
Proof.
  intros Hl. revert v. induction u as [|x u IH]; intros v H.
  - destruct v as [|y v]; [done|]. apply (f_equal String.length) in H.
    rewrite !str_app_length in H. simpl in H. lia.
  - destruct v as [|y v].
    + apply (f_equal String.length) in H. rewrite !str_app_length in H. simpl in H. lia.
    + rewrite !str_app_cons in H. injection H as _ H. by eapply IH.
Qed.

(** ** Results

    Go's [(T, error)] pair, with [nil] errors on the left. *)
Inductive result (E A : Type) : Type :=
| Ok (a : A)
| Err (e : E).
Arguments Ok {E A} a.
Arguments Err {E A} e.

Definition is_ok {E A} (r : result E A) : bool :=
  match r with Ok _ => true | Err _ => false end.

Definition result_map_err {E F A} (f : E → F) (r : result E A) : result F A :=
  match r with Ok a => Ok a | Err e => Err (f e) end.

#[export] Instance result_eq_dec {E A} `{EqDecision E, EqDecision A} :
  EqDecision (result E A).
Proof. solve_decision. Defined.

(** ** State passing

    Code with effects is a function from the state before to its value and the
    state after.  Errors are values: a Go function that fails has still changed
    the state the way its last statement left it. *)
Definition M (S A : Type) : Type := S → A * S.

Definition ret {S A} (a : A) : M S A := λ s, (a, s).
Definition bind {S A B} (m : M S A) (k : A → M S B) : M S B :=
  λ s, let (a, s') := m s in k a s'.
Definition gets {S A} (f : S → A) : M S A := λ s, (f s, s).
Definition modify {S} (f : S → S) : M S unit := λ s, (tt, f s).

(** Running code over a component of a larger state. *)
Definition zoom {S T A} (get : T → S) (set : S → T → T) (m : M S A) : M T A :=
  λ t, let (a, s) := m (get t) in (a, set s t).

Declare Scope go_scope.
Delimit Scope go_scope with go.
Open Scope go_scope.

Notation "'let!' x ':=' m 'in' k" := (bind m (λ x, k))
  (at level 10, x binder, m at level 100, k at level 200) : go_scope.
Notation "'do!' m 'in' k" := (bind m (λ _, k))
  (at level 10, m at level 100, k at level 200) : go_scope.
(** [x, err := m; if err != nil { return err }; k] *)
Notation "'try!' x ':=' m 'in' k" :=
  (bind m (λ r, match r with Ok x => k | Err e => ret (Err e) end))
  (at level 10, x name, m at level 100, k at level 200) : go_scope.

(** *** Weakest preconditions

    [wp m Q s]: run from [s], the value and the final state satisfy [Q]. *)
Definition wp {S A} (m : M S A) (Q : A → S → Prop) (s : S) : Prop :=
  Q (m s).1 (m s).2.

Section wp_rules.
Context {S : Type}.

Lemma wp_ret {A} (a : A) Q (s : S) : Q a s → wp (ret a) Q s.
Proof. done. Qed.

Lemma wp_bind {A B} (m : M S A) (k : A → M S B) Q s :
  wp m (λ a, wp (k a) Q) s → wp (bind m k) Q s.
Proof. unfold wp, bind. by destruct (m s). Qed.

Lemma wp_bind_inv {A B} (m : M S A) (k : A → M S B) Q s :
  wp (bind m k) Q s → wp m (λ a, wp (k a) Q) s.
Proof. unfold wp, bind. by destruct (m s). Qed.

Lemma wp_gets {A} (f : S → A) Q s : Q (f s) s → wp (gets f) Q s.
Proof. done. Qed.

Lemma wp_modify (f : S → S) Q s : Q tt (f s) → wp (modify f) Q s.
Proof. done. Qed.

Lemma wp_mono {A} (m : M S A) (P Q : A → S → Prop) s :
  wp m P s → (∀ a s', P a s' → Q a s') → wp m Q s.
Proof. unfold wp; eauto. Qed.

Lemma wp_and {A} (m : M S A) (P Q : A → S → Prop) s :
  wp m P s → wp m Q s → wp m (λ a s', P a s' ∧ Q a s') s.
Proof. by unfold wp. Qed.

Lemma wp_run {A} (m : M S A) Q s a s' : m s = (a, s') → wp m Q s → Q a s'.
Proof. unfold wp. by intros ->. Qed.

Lemma wp_intro {A} (m : M S A) (Q : A → S → Prop) s :
  (∀ a s', m s = (a, s') → Q a s') → wp m Q s.
Proof. unfold wp. destruct (m s) eqn:E. eauto. Qed.
End wp_rules.

(** A property every step keeps is kept by the whole computation. *)
Definition preserves {S A} (I : S → Prop) (m : M S A) : Prop :=
  ∀ s, I s → I (m s).2.

Section preserves_rules.
Context {S : Type} (I : S → Prop).

Lemma preserves_ret {A} (a : A) : preserves I (ret a).
Proof. by intros s. Qed.

Lemma preserves_bind {A B} (m : M S A) (k : A → M S B) :
  preserves I m → (∀ a, preserves I (k a)) → preserves I (bind m k).
Proof.
  intros Hm Hk s Hs. unfold bind. specialize (Hm s Hs).
  destruct (m s) as [a s']. by apply Hk.
Qed.

Lemma preserves_gets {A} (f : S → A) : preserves I (gets f).
Proof. by intros s. Qed.

Lemma preserves_modify (f : S → S) :
  (∀ s, I s → I (f s)) → preserves I (modify f).
Proof. intros H s. apply H. Qed.
End preserves_rules.

Create HintDb go.
Create Rewrite HintDb go.
#[export] Hint Resolve preserves_ret preserves_bind preserves_gets : go.

(** Walk through a stateful program: one bind, one constructor at a time. *)
Ltac wp_step :=
  match goal with
  | |- wp (bind _ _) _ _ => apply wp_bind
  | |- wp (ret _) _ _ => apply wp_ret
  | |- wp (gets _) _ _ => apply wp_gets
  | |- wp (modify _) _ _ => apply wp_modify
  end.

(** One call of a program whose specification is [lem]. *)
Tactic Notation "wp_call" open_constr(lem) :=
  apply wp_bind; eapply wp_mono; [by eapply lem | cbn beta].

(** ** Machine integers *)

(** Go's [int] and [int64] arithmetic on the supported 64-bit targets. *)
Definition min_int64 : Z := - 2 ^ 63.
Definition max_int64 : Z := 2 ^ 63 - 1.
Definition int64_range (z : Z) : Prop := min_int64 ≤ z ≤ max_int64.
Definition wrap64 (z : Z) : Z := (z + 2 ^ 63) mod 2 ^ 64 - 2 ^ 63.

Lemma wrap64_range z : int64_range (wrap64 z).
Proof.
  unfold int64_range, wrap64, min_int64, max_int64.
  pose proof (Z.mod_pos_bound (z + 2 ^ 63) (2 ^ 64)) as H. lia.
Qed.

Lemma wrap64_id z : int64_range z → wrap64 z = z.
Proof.
  unfold int64_range, wrap64, min_int64, max_int64. intros H.
  rewrite Z.mod_small; lia.
Qed.

#[export] Hint Rewrite wrap64_id using (unfold int64_range, min_int64, max_int64; lia) : go.

(** [uint32], the width of [fs.FileMode]. *)
Definition wrap32u (z : Z) : Z := z mod 2 ^ 32.

(** ** Lists *)

Section list_lemmas.
Context {A : Type}.
Implicit Types l : list A.

(** The last element that satisfies a test: what a loop that overwrites its
    answer on every hit leaves behind. *)
Definition find_last (p : A → bool) l : option A :=
  fold_left (λ acc x, if p x then Some x else acc) l None.

Lemma fold_left_find_last_acc (p : A → bool) l acc :
  fold_left (λ acc x, if p x then Some x else acc) l acc =
    match find_last p l with Some x => Some x | None => acc end.
Proof.
  unfold find_last. revert acc.
  induction l as [|x l IH]; intros acc; simpl; [done|].
  rewrite (IH (if p x then Some x else acc)), (IH (if p x then Some x else None)).
  by destruct (fold_left _ l None), (p x).
Qed.

Lemma find_last_app (p : A → bool) l1 l2 :
  find_last p (l1 ++ l2) =
    match find_last p l2 with Some x => Some x | None => find_last p l1 end.
Proof.
  unfold find_last. rewrite fold_left_app.
  by rewrite fold_left_find_last_acc.
Qed.

Lemma find_last_snoc_hit (p : A → bool) l x :
  p x = true → find_last p (l ++ [x]) = Some x.
Proof. intros H. rewrite find_last_app. unfold find_last. simpl. by rewrite H. Qed.

Lemma find_last_Some (p : A → bool) l x :
  find_last p l = Some x → x ∈ l ∧ p x = true.
Proof.
  induction l as [|y l IH] using rev_ind; [done|].
  rewrite find_last_app. unfold find_last at 1. simpl.
  destruct (p y) eqn:E.
  - intros [= ->]. split; [set_solver|done].
  - intros H. destruct (IH H). split; [set_solver|done].
Qed.

Lemma find_last_None (p : A → bool) l :
  find_last p l = None ↔ ∀ x, x ∈ l → p x = false.
Proof.
  induction l as [|y l IH] using rev_ind.
  - split; [intros _ x Hx; by apply elem_of_nil in Hx | done].
  - rewrite find_last_app. unfold find_last at 1. simpl. destruct (p y) eqn:E.
    + split; [done|]. intros H. rewrite (H y) in E; [done|]. set_solver.
    + rewrite IH. split; intros H x Hx.
      * apply elem_of_app in Hx as [Hx|Hx]; [by apply H|].
        apply list_elem_of_singleton in Hx. by subst.
      * apply H. set_solver.
Qed.
End list_lemmas.

(** The least index of a decidable property that holds somewhere. *)
Lemma least_index (P : nat → Prop) `{!∀ k, Decision (P k)} k :
  P k → ∃ j, (j ≤ k)%nat ∧ P j ∧ ∀ i, (i < j)%nat → ¬ P i.
Proof.
  induction k as [k IH] using lt_wf_ind. intros Hk.
  destruct (decide (Forall (λ j, ¬ P j) (seq 0 k))) as [Hall|Hsome].
  - exists k. split_and!; [lia|done|]. intros i Hi. rewrite Forall_forall in Hall.
    apply Hall, elem_of_seq. lia.
  - apply not_Forall_Exists in Hsome; [|apply _].
    apply Exists_exists in Hsome as (j & Hj & Hjn). apply elem_of_seq in Hj.
    destruct (IH j) as (i & Hi & ?); [lia|by apply dec_stable|]. exists i. split; [lia|done].
Qed.

Lemma NoDup_subseteq_length {A} `{EqDecision A} (l k : list A) :
  NoDup l → l ⊆ k → (length l ≤ length k)%nat.
Proof. intros Hl Hs. by apply submseteq_length, NoDup_submseteq. Qed.

(** ** Case analysis for goals about executable definitions *)

(** Splits the first match or if it finds in the goal, keeping the equation. *)
Ltac split_match :=
  match goal with
  | |- context [match ?x with _ => _ end] => destruct x eqn:?
  end.

Ltac split_match_in H :=
  match type of H with
  | context [match ?x with _ => _ end] => destruct x eqn:?
  end.

(** Boolean comparisons of integers as propositions. *)
Ltac bool_to_Z :=
  repeat match goal with
  | H : (_ <? _) = true |- _ => apply Z.ltb_lt in H
  | H : (_ <? _) = false |- _ => apply Z.ltb_ge in H
  | H : (_ <=? _) = true |- _ => apply Z.leb_le in H
  | H : (_ <=? _) = false |- _ => apply Z.leb_gt in H
  | H : (_ >? _) = true |- _ => rewrite Z.gtb_ltb in H
  | H : (_ >? _) = false |- _ => rewrite Z.gtb_ltb in H
  | H : (_ =? _) = true |- _ => apply Z.eqb_eq in H
  | H : (_ =? _) = false |- _ => apply Z.eqb_neq in H
  | H : andb _ _ = true |- _ => apply andb_true_iff in H as [? ?]
  | H : orb _ _ = false |- _ => apply orb_false_iff in H as [? ?]
  | H : negb _ = true |- _ => apply negb_true_iff in H
  | H : negb _ = false |- _ => apply negb_false_iff in H
  end.
