(* ===== verification/GoText.v ===== *)
(** * GoText: the parts of Go's [strings], [strconv], [unicode/utf8], [net] and
    [fmt] that raxd calls, as executable definitions on byte strings.

    These are library definitions (nothing here has a line under [src/]); the
    components call them the way the Go code calls the package of the same
    name. *)

From stdpp Require Import pretty.
From S2P Require Import Prelude.
Open Scope Z_scope.
Open Scope go_scope.

(** ** [strings] *)

Definition chr (n : N) : ascii := Ascii.ascii_of_N n.
Definition code (c : ascii) : Z := Z.of_N (Ascii.N_of_ascii c).
Definition str1 (c : ascii) : string := String c EmptyString.

(** The newline and the double quote, which string literals do not hold. *)
Definition nl : ascii := chr 10.
Definition tab : ascii := chr 9.
Definition dquote : ascii := chr 34.

(** A text in double quotes. *)
Definition quoted (s : string) : string := str1 dquote +:+ s +:+ str1 dquote.

Definition str_len (s : string) : Z := Z.of_nat (String.length s).

Definition has_prefix (s p : string) : bool := String.prefix p s.

Fixpoint drop_str (n : nat) (s : string) : string :=
  match n, s with
  | O, _ => s
  | S n, String _ s' => drop_str n s'
  | S _, EmptyString => EmptyString
  end.

Definition trim_prefix (s p : string) : string :=
  if has_prefix s p then drop_str (String.length p) s else s.

Lemma has_prefix_split s w : has_prefix s w = true → ∃ r, s = w +:+ r.
Proof.
  unfold has_prefix. revert s. induction w as [|a w IH]; intros s; [by exists s|].
  destruct s as [|b s]; [done|]. simpl. destruct (ascii_dec a b) as [->|]; [|done].
  intros [r ->]%IH. by exists r.
Qed.

Lemma drop_str_app w r : drop_str (String.length w) (w +:+ r) = r.
Proof. induction w as [|a w IH]; [done|]. by rewrite str_app_cons. Qed.

Lemma has_prefix_app p s : has_prefix (p +:+ s) p = true.
Proof.
  induction p as [|a p IH]; [by destruct s|]. rewrite str_app_cons. unfold has_prefix in *. simpl.
  by destruct (ascii_dec a a).
Qed.

(** [strings.Contains s sub]. *)
Fixpoint contains_sub (s sub : string) : bool :=
  has_prefix s sub ||
  match s with
  | EmptyString => false
  | String _ s' => contains_sub s' sub
  end.

(** [strings.Split s (string c)]: never empty. *)
Fixpoint split_on (c : ascii) (s : string) : list string :=
  match s with
  | EmptyString => [EmptyString]
  | String a s' =>
      if decide (a = c) then EmptyString :: split_on c s'
      else match split_on c s' with
           | w :: ws => String a w :: ws
           | [] => [str1 a]
           end
  end.

(** [strings.SplitN s (string c) 2] as a pair when the separator occurs. *)
Fixpoint cut_on (c : ascii) (s : string) : option (string * string) :=
  match s with
  | EmptyString => None
  | String a s' =>
      if decide (a = c) then Some (EmptyString, s')
      else '(u, v) ← cut_on c s'; Some (String a u, v)
  end.

(** [strings.Join ss sep]. *)
Fixpoint join (sep : string) (ss : list string) : string :=
  match ss with
  | [] => EmptyString
  | [s] => s
  | s :: ss' => s +:+ sep +:+ join sep ss'
  end.

(** [strings.Repeat s n]; the code calls it with non-negative counts. *)
Fixpoint repeat_str (s : string) (n : nat) : string :=
  match n with O => EmptyString | S n => s +:+ repeat_str s n end.

Fixpoint str_rev_app (s acc : string) : string :=
  match s with EmptyString => acc | String a s' => str_rev_app s' (String a acc) end.
Definition str_rev (s : string) : string := str_rev_app s EmptyString.

Fixpoint str_forallb (p : ascii → bool) (s : string) : bool :=
  match s with EmptyString => true | String a s' => p a && str_forallb p s' end.

Fixpoint str_existsb (p : ascii → bool) (s : string) : bool :=
  match s with EmptyString => false | String a s' => p a || str_existsb p s' end.

(** [unicode.IsSpace] on the ASCII range. *)
Definition is_space_ascii (c : ascii) : bool :=
  let n := code c in ((9 <=? n) && (n <=? 13)) || (n =? 32).

(** The UTF-8 encodings of the non-ASCII runes [unicode.IsSpace] accepts:
    U+0085, U+00A0, U+1680, U+2000..U+200A, U+2028, U+2029, U+202F, U+205F and
    U+3000. *)
Definition wide_space2 (a b : ascii) : bool :=
  (code a =? 194) && ((code b =? 133) || (code b =? 160)).
Definition wide_space3 (a b c : ascii) : bool :=
  let a := code a in let b := code b in let c := code c in
  ((a =? 225) && (b =? 154) && (c =? 128))
  || ((a =? 226) && (b =? 128)
      && (((128 <=? c) && (c <=? 138)) || (c =? 168) || (c =? 169) || (c =? 175)))
  || ((a =? 226) && (b =? 129) && (c =? 159))
  || ((a =? 227) && (b =? 128) && (c =? 128)).

Fixpoint trim_left (s : string) : string :=
  match s with
  | EmptyString => EmptyString
  | String a s1 =>
      if is_space_ascii a then trim_left s1
      else match s1 with
           | String b s2 =>
               if wide_space2 a b then trim_left s2
               else match s2 with
                    | String c s3 => if wide_space3 a b c then trim_left s3 else s
                    | EmptyString => s
                    end
           | EmptyString => s
           end
  end.

(** The same from the right, on the reversed string. *)
Fixpoint trim_left_rev (s : string) : string :=
  match s with
  | EmptyString => EmptyString
  | String c s1 =>
      if is_space_ascii c then trim_left_rev s1
      else match s1 with
           | String b s2 =>
               if wide_space2 b c then trim_left_rev s2
               else match s2 with
                    | String a s3 => if wide_space3 a b c then trim_left_rev s3 else s
                    | EmptyString => s
                    end
           | EmptyString => s
           end
  end.

(** [strings.TrimSpace]. *)
Definition trim_space (s : string) : string :=
  str_rev (trim_left_rev (str_rev (trim_left s))).

(** [strings.Fields] on ASCII text (the kernel's [/proc] files). *)
Fixpoint fields_go (cur : string) (s : string) : list string :=
  let flush := if String.eqb cur EmptyString then [] else [str_rev cur] in
  match s with
  | EmptyString => flush
  | String a s' =>
      if is_space_ascii a then flush ++ fields_go EmptyString s'
      else fields_go (String a cur) s'
  end.
Definition fields (s : string) : list string := fields_go EmptyString s.

(** *** ASCII case folding *)

Definition is_ascii (s : string) : bool := str_forallb (λ c, code c <? 128) s.

Definition lower_char (c : ascii) : ascii :=
  if (65 <=? code c) && (code c <=? 90) then chr (Z.to_N (code c + 32)) else c.

Fixpoint lower_ascii (s : string) : string :=
  match s with
  | EmptyString => EmptyString
  | String a s' => String (lower_char a) (lower_ascii s')
  end.

(** The tables Go's [unicode] package adds for text outside ASCII, and the host
    part of [net/url]: code the model takes as it is. *)
Class GoTables := {
  unicode_to_lower : string → string;
  (** [u.Hostname()] after [url.Parse]; [None] when the parse fails. *)
  url_hostname : string → option string;
}.

(** [strings.ToLower]. *)
Definition to_lower `{GoTables} (s : string) : string :=
  if is_ascii s then lower_ascii s else unicode_to_lower s.

(** ** [net.SplitHostPort]

    The host and the port, or [None] for any of its address errors (the callers
    only test for an error). *)

(** Everything before, and after, the last occurrence of [c]. *)
Fixpoint cut_last (c : ascii) (s : string) : option (string * string) :=
  match s with
  | EmptyString => None
  | String a s' =>
      match cut_last c s' with
      | Some (u, v) => Some (String a u, v)
      | None => if decide (a = c) then Some (EmptyString, s') else None
      end
  end.

Definition has_char (c : ascii) (s : string) : bool :=
  str_existsb (λ a, bool_decide (a = c)) s.

Definition split_host_port (hostport : string) : option (string * string) :=
  '(before, port) ← cut_last ":" hostport;
  match hostport with
  | String "[" rest =>
      (* the first closing bracket stands just before the last colon *)
      '(host, behind) ← cut_on "]" rest;
      if bool_decide (behind = String ":" port)
         && negb (has_char "[" rest) && negb (has_char "]" behind)
      then Some (host, port) else None
  | _ =>
      if has_char ":" before || has_char "[" hostport || has_char "]" hostport
      then None else Some (before, port)
  end.

Example split_host_port_v4 : split_host_port "127.0.0.1:7822" = Some ("127.0.0.1", "7822").
Proof. reflexivity. Qed.
Example split_host_port_v6 : split_host_port "[::1]:7822" = Some ("::1", "7822").
Proof. reflexivity. Qed.
Example split_host_port_bare : split_host_port "localhost" = None.
Proof. reflexivity. Qed.
Example split_host_port_bare_v6 : split_host_port "[::1]" = None.
Proof. reflexivity. Qed.

(** ** [strconv] *)

Inductive num_err := ErrSyntax | ErrRange.

(** The text of [*strconv.NumError], after the function's name. *)
Definition num_err_msg (e : num_err) : string :=
  match e with ErrSyntax => "invalid syntax" | ErrRange => "value out of range" end.

#[export] Instance num_err_eq_dec : EqDecision num_err.
Proof. solve_decision. Defined.

(** Value of a digit, as [ParseUint] reads it before it compares with the base. *)
Definition digit_val (c : ascii) : option Z :=
  let n := code c in
  if (48 <=? n) && (n <=? 57) then Some (n - 48)
  else if (97 <=? n) && (n <=? 122) then Some (n - 97 + 10)
  else if (65 <=? n) && (n <=? 90) then Some (n - 65 + 10)
  else None.

(** The digit loop of [ParseUint] for an explicit base; [maxval] is
    [1<<bitSize - 1].  On overflow the loop stops with [maxval]. *)
Fixpoint parse_digits (base maxval : Z) (s : string) (n : Z) : Z * option num_err :=
  match s with
  | EmptyString => (n, None)
  | String c s' =>
      match digit_val c with
      | None => (0, Some ErrSyntax)
      | Some d =>
          if base <=? d then (0, Some ErrSyntax)
          else if maxval <? n * base + d then (maxval, Some ErrRange)
          else parse_digits base maxval s' (n * base + d)
      end
  end.

Definition parse_uint (s : string) (base bits : Z) : Z * option num_err :=
  match s with
  | EmptyString => (0, Some ErrSyntax)
  | _ => parse_digits base (2 ^ bits - 1) s 0
  end.

(** [strconv.ParseInt s base bits] for the bases 8 and 10 the code uses: an
    optional sign and digits; out of range the nearest bound is returned. *)
Definition parse_int (s : string) (base bits : Z) : Z * option num_err :=
  let '(neg, digits) :=
    match s with
    | String "+" s' => (false, s')
    | String "-" s' => (true, s')
    | _ => (false, s)
    end in
  let cutoff := 2 ^ (bits - 1) in
  match parse_uint digits base bits with
  | (_, Some ErrSyntax) => (0, Some ErrSyntax)
  | (un, _) =>
      if negb neg && (cutoff <=? un) then (cutoff - 1, Some ErrRange)
      else if neg && (cutoff <? un) then (- cutoff, Some ErrRange)
      else ((if neg then - un else un), None)
  end.

(** [strconv.Atoi] on a 64-bit target. *)
Definition atoi (s : string) : Z * option num_err := parse_int s 10 64.

(** What a digit string denotes in a base: the reference [parse_digits] is
    compared with. *)
Fixpoint digits_value (base : Z) (s : string) (n : Z) : option Z :=
  match s with
  | EmptyString => Some n
  | String c s' =>
      d ← digit_val c;
      if base <=? d then None else digits_value base s' (n * base + d)
  end.

Lemma digit_val_nonneg c d : digit_val c = Some d → 0 ≤ d.
Proof.
  unfold digit_val. intros H.
  repeat (case_match; bool_to_Z; simplify_eq; try lia).
Qed.

Lemma digits_value_ge base s n v :
  1 ≤ base → 0 ≤ n → digits_value base s n = Some v → n ≤ v.
Proof.
  intros Hb. revert n. induction s as [|c s IH]; intros n Hn H; simpl in H.
  - simplify_eq; lia.
  - destruct (digit_val c) as [d|] eqn:Ed; simplify_eq/=.
    apply digit_val_nonneg in Ed.
    destruct (base <=? d); simplify_eq.
    assert (0 ≤ n * base + d) by nia.
    specialize (IH _ H0 H). nia.
Qed.

Lemma parse_digits_ok base maxval s n v :
  1 ≤ base → 0 ≤ n ≤ maxval →
  parse_digits base maxval s n = (v, None) ↔
    digits_value base s n = Some v ∧ v ≤ maxval.
Proof.
  intros Hb. revert n. induction s as [|c s IH]; intros n Hn; simpl.
  - split; [intros; simplify_eq; split; [done|lia] | intros [? ?]; simplify_eq; done].
  - destruct (digit_val c) as [d|] eqn:Ed; simpl.
    2: { split; [done | by intros [? _]]. }
    apply digit_val_nonneg in Ed.
    destruct (base <=? d); [split; [done | by intros [? _]]|].
    destruct (Z.ltb_spec maxval (n * base + d)).
    + split; [done|]. intros [Hv ?].
      apply digits_value_ge in Hv; [nia|lia|nia].
    + rewrite IH by nia. done.
Qed.
