(* ===== verification/GoEncoding.v ===== *)
(** * GoEncoding: [unicode/utf8], [encoding/hex], [encoding/base64],
    [crypto/sha256] and the integer verbs of [fmt], as raxd calls them.

    Library definitions, executable; the round trips and length facts the
    components need are proved here once. *)

From Stdlib Require Import Strings.Byte.
From stdpp Require Import pretty.
From S2P Require Import Prelude GoText.
Open Scope Z_scope.
Open Scope go_scope.

(** ** [unicode/utf8] *)

(** Continuation bytes within given bounds. *)
Definition cont_in (lo hi : Z) (b : byte) : bool :=
  (lo <=? byte_val b) && (byte_val b <=? hi).
Definition cont : byte → bool := cont_in 128 191.

(** Bytes of the first rune of a non-empty string: [utf8.DecodeRune] returns
    the width, and width one with an error for anything that is not the
    shortest encoding of a scalar value. *)
Definition rune_width (s : bytes) : nat * bool :=
  match s with
  | [] => (0%nat, false)
  | a :: s1 =>
      let n := byte_val a in
      if n <? 128 then (1%nat, true)
      else match s1 with
      | b :: s2 =>
          if (194 <=? n) && (n <=? 223) then
            if cont b then (2%nat, true) else (1%nat, false)
          else match s2 with
          | c :: s3 =>
              let '(lo, hi) :=
                if n =? 224 then (160, 191) else if n =? 237 then (128, 159)
                else (128, 191) in
              if (224 <=? n) && (n <=? 239) then
                if cont_in lo hi b && cont c then (3%nat, true) else (1%nat, false)
              else match s3 with
              | d :: _ =>
                  let '(lo, hi) :=
                    if n =? 240 then (144, 191) else if n =? 244 then (128, 143)
                    else (128, 191) in
                  if (240 <=? n) && (n <=? 244) && cont_in lo hi b && cont c && cont d
                  then (4%nat, true) else (1%nat, false)
              | [] => (1%nat, false)
              end
          | [] => (1%nat, false)
          end
      | [] => (1%nat, false)
      end
  end.

Lemma rune_width_pos a s : (1 ≤ (rune_width (a :: s)).1)%nat.
Proof. unfold rune_width. repeat case_match; simpl; lia. Qed.
#[global] Arguments rune_width : simpl never.

(** The runes of a string, each with the bytes it takes and whether they are
    valid: the range loop, [[]rune(s)] and [RuneCountInString] all read it so.
    The fuel is the number of bytes. *)
Fixpoint runes_go (fuel : nat) (s : bytes) : list (bytes * bool) :=
  match fuel, s with
  | O, _ | _, [] => []
  | S fuel, _ =>
      let '(w, ok) := rune_width s in
      (take w s, ok) :: runes_go fuel (drop w s)
  end.

Definition runes (s : string) : list (bytes * bool) :=
  let b := bytes_of_string s in runes_go (length b) b.

(** [utf8.RuneCountInString]. *)
Definition rune_count (s : string) : nat := length (runes s).

(** [utf8.ValidString]. *)
Definition valid_utf8 (s : string) : bool := forallb snd (runes s).

Lemma runes_go_concat fuel s :
  (length s ≤ fuel)%nat → concat (map fst (runes_go fuel s)) = s.
Proof.
  revert s. induction fuel as [|fuel IH]; intros s Hl.
  - destruct s; [done|simpl in Hl; lia].
  - destruct s as [|a s]; [done|].
    simpl runes_go. pose proof (rune_width_pos a s) as Hw.
    destruct (rune_width (a :: s)) as [w ok]. simpl in Hw. cbn [map fst concat].
    rewrite IH by (rewrite length_drop; simpl in *; lia).
    apply take_drop.
Qed.

(** No rune is lost: a string is the concatenation of its runes. *)
Lemma runes_concat s : concat (map fst (runes s)) = bytes_of_string s.
Proof. by apply runes_go_concat. Qed.

Lemma runes_go_count fuel s : (length (runes_go fuel s) ≤ length s)%nat.
Proof.
  revert s. induction fuel as [|fuel IH]; intros s; [simpl; lia|].
  destruct s as [|a s]; [simpl; lia|].
  simpl runes_go. pose proof (rune_width_pos a s) as Hw.
  destruct (rune_width (a :: s)) as [w ok]. simpl in Hw. cbn [length].
  specialize (IH (drop w (a :: s))). rewrite length_drop in IH. simpl length in *. lia.
Qed.

Lemma rune_count_le s : (rune_count s ≤ length (bytes_of_string s))%nat.
Proof. apply runes_go_count. Qed.

(** ** [encoding/hex] *)

Definition hex_digit (n : Z) : ascii :=
  if n <? 10 then chr (Z.to_N (48 + n)) else chr (Z.to_N (87 + n)).

Fixpoint hex_encode (b : bytes) : string :=
  match b with
  | [] => EmptyString
  | x :: b' =>
      String (hex_digit (byte_val x / 16)) (String (hex_digit (byte_val x mod 16)) (hex_encode b'))
  end.

(** [strconv.Quote], behind the verb [%q]: exact for ASCII and for bytes that are
    no UTF-8; a valid rune outside ASCII counts as printable and is kept. *)
Definition quote_ascii (c : ascii) : string :=
  let n := code c in
  let esc c := String "\" (str1 c) in
  if n =? 34 then esc dquote else if n =? 92 then esc "\"%char
  else if n =? 7 then esc "a"%char else if n =? 8 then esc "b"%char
  else if n =? 9 then esc "t"%char else if n =? 10 then esc "n"%char
  else if n =? 11 then esc "v"%char else if n =? 12 then esc "f"%char
  else if n =? 13 then esc "r"%char
  else if (n <? 32) || (127 <=? n) then "\x" +:+ hex_encode [Ascii.byte_of_ascii c]
  else str1 c.

Definition quote_rune (r : bytes * bool) : string :=
  match r with
  | ([b], _) => quote_ascii (Ascii.ascii_of_byte b)
  | (bs, _) => string_of_bytes bs
  end.

Definition fmt_q (s : string) : string :=
  String dquote (String.concat "" (map quote_rune (runes s))) +:+ str1 dquote.

Example fmt_q_ex :
  fmt_q (String nl "a\é") = String dquote ("\na\\é" +:+ str1 dquote).
Proof. reflexivity. Qed.

Lemma hex_encode_length b : String.length (hex_encode b) = (2 * length b)%nat.
Proof. induction b as [|x b IH]; [done|]. simpl. rewrite IH. lia. Qed.

Lemma hex_digit_val n : 0 ≤ n < 16 → digit_val (hex_digit n) = Some n.
Proof.
  intros H. assert (n ∈ seqZ 0 16) as Hin by (apply elem_of_seqZ; lia).
  clear H. revert n Hin. apply Forall_forall. repeat constructor.
Qed.

Lemma hex_encode_inj a b : hex_encode a = hex_encode b → a = b.
Proof.
  revert b. induction a as [|x a IH]; intros [|y b] H; try done.
  simpl in H. injection H as H1 H2 H3. f_equal; [|by apply IH].
  apply byte_val_inj. pose proof (byte_val_range x). pose proof (byte_val_range y).
  apply (f_equal digit_val) in H1, H2.
  rewrite !hex_digit_val in H1 by (split; [apply Z.div_pos | apply Z.div_lt_upper_bound]; lia).
  rewrite !hex_digit_val in H2 by (apply Z.mod_pos_bound; lia).
  injection H1 as H1. injection H2 as H2.
  rewrite (Z.div_mod (byte_val x) 16), (Z.div_mod (byte_val y) 16) by lia. congruence.
Qed.

(** ** [encoding/base64] *)

(** The alphabets: [url] selects RawURLEncoding's last two characters. *)
Definition b64_char (url : bool) (n : Z) : ascii :=
  if n <? 26 then chr (Z.to_N (65 + n))
  else if n <? 52 then chr (Z.to_N (97 + (n - 26)))
  else if n <? 62 then chr (Z.to_N (48 + (n - 52)))
  else if n =? 62 then (if url then "-" else "+")%char
  else (if url then "_" else "/")%char.

Definition b64_val (c : ascii) : option Z :=
  let n := code c in
  if (65 <=? n) && (n <=? 90) then Some (n - 65)
  else if (97 <=? n) && (n <=? 122) then Some (n - 97 + 26)
  else if (48 <=? n) && (n <=? 57) then Some (n - 48 + 52)
  else if n =? 43 then Some 62
  else if n =? 47 then Some 63
  else None.

(** The six-bit digits of a 24-bit group, and the group's bytes. *)
Definition six (v : Z) (i : Z) : Z := v / 2 ^ (18 - 6 * i) mod 64.
Definition group3 (x y z : byte) : Z := byte_val x * 65536 + byte_val y * 256 + byte_val z.
Definition group4 (a b c d : Z) : Z := a * 2 ^ 18 + b * 2 ^ 12 + c * 2 ^ 6 + d.
Definition octet (v : Z) (i : Z) : byte := byte_of_Z (v / 2 ^ (16 - 8 * i)).

(** [EncodeToString]; [pad] is StdEncoding's padding. *)
Fixpoint b64_encode (url pad : bool) (s : bytes) : string :=
  let ch v i := b64_char url (six v i) in
  let fill := if pad then "="%string else EmptyString in
  match s with
  | [] => EmptyString
  | [x] =>
      let v := group3 x x00 x00 in
      String (ch v 0) (String (ch v 1) (fill +:+ fill))
  | [x; y] =>
      let v := group3 x y x00 in
      String (ch v 0) (String (ch v 1) (String (ch v 2) fill))
  | x :: y :: z :: s' =>
      let v := group3 x y z in
      String (ch v 0) (String (ch v 1) (String (ch v 2)
        (String (ch v 3) (b64_encode url pad s'))))
  end.

Definition std_encode (s : bytes) : string := b64_encode false true s.
Definition raw_url_encode (s : bytes) : string := b64_encode true false s.

(** The decoder skips newlines and carriage returns anywhere. *)
Fixpoint strip_newlines (s : string) : string :=
  match s with
  | EmptyString => EmptyString
  | String c s' =>
      if (code c =? 10) || (code c =? 13) then strip_newlines s'
      else String c (strip_newlines s')
  end.

(** Groups of four characters; padding ends the input. *)
Fixpoint b64_groups (s : string) : option bytes :=
  match s with
  | EmptyString => Some []
  | String a (String b (String c (String d s'))) =>
      va ← b64_val a; vb ← b64_val b;
      match b64_val c, b64_val d with
      | Some vc, Some vd =>
          let v := group4 va vb vc vd in
          rest ← b64_groups s';
          Some (octet v 0 :: octet v 1 :: octet v 2 :: rest)
      | Some vc, None =>
          if (d =? "=")%char && (s' =? "")%string
          then let v := group4 va vb vc 0 in Some [octet v 0; octet v 1] else None
      | None, _ =>
          if (c =? "=")%char && (d =? "=")%char && (s' =? "")%string
          then Some [octet (group4 va vb 0 0) 0] else None
      end
  | _ => None
  end.

(** [base64.StdEncoding.DecodeString], [None] for its [CorruptInputError]. *)
Definition std_decode (s : string) : option bytes := b64_groups (strip_newlines s).

(** [base64.StdEncoding.DecodedLen n]. *)
Definition decoded_len (n : Z) : Z := n / 4 * 3.

Lemma b64_val_char n : 0 ≤ n < 64 → b64_val (b64_char false n) = Some n.
Proof.
  intros H. assert (n ∈ seqZ 0 64) as Hin by (apply elem_of_seqZ; lia).
  clear H. revert n Hin. apply Forall_forall. repeat constructor.
Qed.

Lemma b64_char_visible url n :
  0 ≤ n < 64 → (code (b64_char url n) =? 10) || (code (b64_char url n) =? 13) = false.
Proof.
  intros H. assert (n ∈ seqZ 0 64) as Hin by (apply elem_of_seqZ; lia).
  clear H. revert n Hin. apply Forall_forall. destruct url; repeat constructor.
Qed.

Lemma six_range v i : 0 ≤ six v i < 64.
Proof. apply Z.mod_pos_bound; lia. Qed.

#[export] Hint Resolve six_range b64_val_char b64_char_visible : go.

Lemma six_group x y z :
  let v := group3 x y z in
  group4 (six v 0) (six v 1) (six v 2) (six v 3) = v.
Proof.
  unfold group4, six, group3.
  pose proof (byte_val_range x). pose proof (byte_val_range y). pose proof (byte_val_range z).
  change (2 ^ (18 - 6 * 0)) with 262144. change (2 ^ (18 - 6 * 1)) with 4096.
  change (2 ^ (18 - 6 * 2)) with 64. change (2 ^ (18 - 6 * 3)) with 1.
  change (2 ^ 18) with 262144. change (2 ^ 12) with 4096. change (2 ^ 6) with 64.
  Z.div_mod_to_equations. lia.
Qed.

Lemma octet_group3 x y z :
  let v := group3 x y z in octet v 0 = x ∧ octet v 1 = y ∧ octet v 2 = z.
Proof.
  unfold octet, group3.
  pose proof (byte_val_range x). pose proof (byte_val_range y). pose proof (byte_val_range z).
  change (2 ^ (16 - 8 * 0)) with 65536. change (2 ^ (16 - 8 * 1)) with 256.
  change (2 ^ (16 - 8 * 2)) with 1.
  repeat split; apply byte_val_inj; rewrite byte_val_of_Z; Z.div_mod_to_equations; lia.
Qed.

(** A byte list in steps of three. *)
Lemma bytes_ind3 (P : bytes → Prop) :
  P [] → (∀ x, P [x]) → (∀ x y, P [x; y]) →
  (∀ x y z s, P s → P (x :: y :: z :: s)) → ∀ s, P s.
Proof.
  intros H0 H1 H2 H3 s. remember (length s) as n eqn:E. revert s E.
  induction (lt_wf n) as [n _ IH]. intros [|x [|y [|z s]]] E; auto.
  apply H3. apply (IH (length s)); [simpl in E; lia|done].
Qed.

#[global] Arguments six : simpl never.
#[global] Arguments octet : simpl never.
#[global] Arguments group3 : simpl never.
#[global] Arguments group4 : simpl never.
#[global] Arguments b64_char : simpl never.
#[global] Arguments b64_val : simpl never.

Lemma strip_encode url pad s :
  strip_newlines (b64_encode url pad s) = b64_encode url pad s.
Proof.
  induction s as [|x|x y|x y z s IH] using bytes_ind3; [done|..];
    cbn [b64_encode strip_newlines];
    repeat (rewrite b64_char_visible by apply six_range);
    rewrite ?IH; destruct pad; reflexivity.
Qed.

(** The digits the padding drops are zero. *)
Lemma six_pad2 x :
  let v := group3 x x00 x00 in group4 (six v 0) (six v 1) 0 0 = v.
Proof.
  intros v. assert (six v 2 = 0 ∧ six v 3 = 0) as [E2 E3].
  { unfold v, six, group3. change (byte_val x00) with 0. pose proof (byte_val_range x).
    change (2 ^ (18 - 6 * 2)) with 64. change (2 ^ (18 - 6 * 3)) with 1.
    Z.div_mod_to_equations; lia. }
  pose proof (six_group x x00 x00) as E. cbv zeta in E. fold v in E.
  by rewrite E2, E3 in E.
Qed.

Lemma six_pad1 x y :
  let v := group3 x y x00 in group4 (six v 0) (six v 1) (six v 2) 0 = v.
Proof.
  intros v. assert (six v 3 = 0) as E3.
  { unfold v, six, group3. change (byte_val x00) with 0. change (2 ^ (18 - 6 * 3)) with 1.
    pose proof (byte_val_range x). pose proof (byte_val_range y).
    Z.div_mod_to_equations; lia. }
  pose proof (six_group x y x00) as E. cbv zeta in E. fold v in E.
  by rewrite E3 in E.
Qed.

Lemma groups_encode s : b64_groups (b64_encode false true s) = Some s.
Proof.
  induction s as [|x|x y|x y z s IH] using bytes_ind3; [done|..];
    cbn [b64_encode b64_groups String.append];
    rewrite ?b64_val_char by apply six_range; simpl;
    change (b64_val "="%char) with (@None Z); simpl.
  - rewrite six_pad2. by destruct (octet_group3 x x00 x00) as (-> & _ & _).
  - rewrite six_pad1. by destruct (octet_group3 x y x00) as (-> & -> & _).
  - rewrite IH. simpl. rewrite six_group.
    destruct (octet_group3 x y z) as (-> & -> & ->). done.
Qed.

(** Standard base64 round trip. *)
Lemma std_decode_encode s : std_decode (std_encode s) = Some s.
Proof. unfold std_decode, std_encode. by rewrite strip_encode, groups_encode. Qed.

(** Length of the padded encoding. *)
Lemma std_encode_length s :
  str_len (std_encode s) = (Z.of_nat (length s) + 2) / 3 * 4.
Proof.
  unfold std_encode, str_len.
  induction s as [|x|x y|x y z s IH] using bytes_ind3; try reflexivity.
  cbn [b64_encode String.length length].
  rewrite !Nat2Z.inj_succ, IH.
  replace (Z.succ (Z.succ (Z.succ (Z.of_nat (length s)))) + 2)
    with (Z.of_nat (length s) + 2 + 1 * 3) by lia.
  rewrite Z.div_add by lia. lia.
Qed.

(** Every decoded group has at most three bytes for four characters. *)
Lemma b64_groups_length s d :
  b64_groups s = Some d → 4 * Z.of_nat (length d) ≤ 3 * str_len s.
Proof.
  unfold str_len. remember (String.length s) as n eqn:E. revert s d E.
  induction (lt_wf n) as [n _ IH].
  intros [|a [|b [|c [|e s]]]] d E H; simpl in H; simplify_eq/=; try lia.
  destruct (b64_val a), (b64_val b); simplify_eq/=.
  destruct (b64_val c), (b64_val e); simplify_eq/=;
    repeat (case_match; simplify_eq/=); try lia.
  destruct (b64_groups s) as [r|] eqn:Er; simplify_eq/=.
  specialize (IH (String.length s) ltac:(lia) s r eq_refl Er). lia.
Qed.

Lemma strip_newlines_length s : str_len (strip_newlines s) ≤ str_len s.
Proof.
  unfold str_len. induction s as [|c s IH]; [done|]. simpl.
  case_match; simpl; lia.
Qed.

(** ** [fmt] integer verbs *)

(** [%d]. *)
Definition fmt_d (z : Z) : string := pretty z.

(** [%v] of a bool. *)
Definition fmt_bool (b : bool) : string := if b then "true" else "false".

(** [%04o] of a value below 2^32 (eleven octal digits). *)
Fixpoint octal_digits (fuel : nat) (z : Z) (acc : string) : string :=
  match fuel with
  | O => acc
  | S fuel =>
      if z =? 0 then acc
      else octal_digits fuel (z / 8) (String (chr (Z.to_N (48 + z mod 8))) acc)
  end.
Definition fmt_04o (z : Z) : string :=
  let s := octal_digits 11 z EmptyString in
  repeat_str "0" (4 - String.length s) +:+ s.

Example fmt_04o_0600 : fmt_04o 384 = "0600".
Proof. reflexivity. Qed.
