(* ===== verification/GoTime.v ===== *)
(** * GoTime: [time] as raxd uses it.

    A time is the number of nanoseconds since the zero instant, 1 January of
    year 1, UTC.  The calendar of [Time.Date], the layouts "2006-01-02" and
    RFC 3339 with nanoseconds, and the reading of the latter, which undoes the
    writing. *)

From S2P Require Import Prelude GoText GoEncoding.
Open Scope Z_scope.
Open Scope go_scope.

(** ** Dates

    [Format("2006-01-02")] of a time in nanoseconds since 1 January of year 1,
    UTC, in the proleptic Gregorian calendar. *)
Definition ns_per_day : Z := 86400 * 10 ^ 9.

(** Days since the epoch of the calendar, to year, month and day: 400, 100, 4
    and 1 year cycles, as [Time.Date] cuts them. *)
Definition days_before : list Z := [0; 31; 59; 90; 120; 151; 181; 212; 243; 273; 304; 334].

Definition is_leap (y : Z) : bool := (y mod 4 =? 0) && (negb (y mod 100 =? 0) || (y mod 400 =? 0)).

Definition month_start (leap : bool) (m : nat) : Z :=
  nth m days_before 365 + (if leap && (2 <=? Z.of_nat m) then 1 else 0).

Fixpoint month_of (leap : bool) (d : Z) (m : nat) : nat :=
  match m with
  | O => O
  | S m' => if month_start leap m <=? d then m else month_of leap d m'
  end.

Definition date_of (t : Z) : Z * Z * Z :=
  let d := t / ns_per_day in
  let n400 := d / 146097 in let d := d - n400 * 146097 in
  let n100 := d / 36524 in let n100 := n100 - n100 / 4 in let d := d - n100 * 36524 in
  let n4 := d / 1461 in let d := d - n4 * 1461 in
  let n1 := d / 365 in let n1 := n1 - n1 / 4 in let d := d - n1 * 365 in
  let y := 1 + n400 * 400 + n100 * 100 + n4 * 4 + n1 in
  let m := month_of (is_leap y) d 11 in
  (y, Z.of_nat m + 1, d - month_start (is_leap y) m + 1).

(** Decimal, with zeros on the left to [n] digits. *)
Definition zero_pad (n : nat) (z : Z) : string :=
  let s := fmt_d z in repeat_str "0" (n - String.length s) +:+ s.

Definition format_date (t : Z) : string :=
  let '(y, m, d) := date_of t in zero_pad 4 y +:+ "-" +:+ zero_pad 2 m +:+ "-" +:+ zero_pad 2 d.

Example format_date_ok :
  map format_date [0; 63870768000000000000; 63849600000000000000 - 1]
  = ["0001-01-01"; "2024-12-26"; "2024-04-24"]%string.
Proof. vm_compute. reflexivity. Qed.

(** ** RFC 3339 *)

(** [appendInt(b, z, n)] of a number with at most [n] digits. *)
Definition digit (z : Z) : ascii := chr (Z.to_N (48 + z)).
Fixpoint fixed (n : nat) (z : Z) : string :=
  match n with
  | O => EmptyString
  | S n' => fixed n' (z / 10) +:+ str1 (digit (z mod 10))
  end.

(** The fraction of a second without the zeros at its end: [k] digits are left. *)
Fixpoint frac_digits (k : nat) (z : Z) : string :=
  match k with
  | O => EmptyString
  | S k' => if z =? 0 then EmptyString
            else String (digit (z / 10 ^ Z.of_nat k')) (frac_digits k' (z mod 10 ^ Z.of_nat k'))
  end.

Definition second : Z := 10 ^ 9.

(** [t.Format(time.RFC3339Nano)] of a time in UTC. *)
Definition format_rfc3339 (t : Z) : string :=
  let '(y, m, d) := date_of t in
  let r := t mod ns_per_day in
  let s := r / second in
  let frac := frac_digits 9 (r mod second) in
  fixed 4 y +:+ "-" +:+ fixed 2 m +:+ "-" +:+ fixed 2 d +:+ "T"
  +:+ fixed 2 (s / 3600) +:+ ":" +:+ fixed 2 (s / 60 mod 60) +:+ ":" +:+ fixed 2 (s mod 60)
  +:+ (if String.eqb frac "" then "" else "." +:+ frac) +:+ "Z".

(** [t.MarshalJSON] refuses the years RFC 3339 cannot write. *)
Definition rfc3339_year (t : Z) : bool := let '(y, _, _) := date_of t in (0 <=? y) && (y <=? 9999).

Definition is_digit (c : ascii) : bool := (48 <=? code c) && (code c <=? 57).

(** Exactly [n] digits. *)
Fixpoint read_fixed (n : nat) (s : string) (acc : Z) : option (Z * string) :=
  match n, s with
  | O, _ => Some (acc, s)
  | S n', String c s' => if is_digit c then read_fixed n' s' (acc * 10 + (code c - 48)) else None
  | S _, EmptyString => None
  end.

(** A number of [n] digits between two bounds. *)
Definition read_range (n : nat) (lo hi : Z) (s : string) : option (Z * string) :=
  '(z, r) ← read_fixed n s 0; if (lo <=? z) && (z <=? hi) then Some (z, r) else None.

(** The digits of a fraction; those after the ninth do not count. *)
Fixpoint read_frac (k : nat) (s : string) : Z * string :=
  match s with
  | String c s' =>
      if is_digit c then
        match k with
        | S k' => let (v, r) := read_frac k' s' in ((code c - 48) * 10 ^ Z.of_nat k' + v, r)
        | O => read_frac O s'
        end
      else (0, s)
  | EmptyString => (0, s)
  end.

Definition expect (c : ascii) (s : string) : option string :=
  match s with String a s' => if bool_decide (a = c) then Some s' else None | EmptyString => None end.

Definition days_in (y m : Z) : Z :=
  let mi := Z.to_nat (m - 1) in
  (if Nat.eqb mi 11 then 365 + (if is_leap y then 1 else 0) else month_start (is_leap y) (S mi)) - month_start (is_leap y) mi.

(** Days from the zero instant to a date. *)
Definition days_of (y m d : Z) : Z :=
  let p := y - 1 in
  p * 365 + p / 4 - p / 100 + p / 400 + month_start (is_leap y) (Z.to_nat (m - 1)) + (d - 1).

(** The offset of the zone, in seconds. *)
Definition read_zone (s : string) : option Z :=
  match s with
  | String "Z" EmptyString => Some 0
  | String c s1 =>
      if bool_decide (c = "+"%char ∨ c = "-"%char) then
        '(h, s2) ← read_range 2 0 24 s1;
        s3 ← expect ":" s2;
        '(m, s4) ← read_range 2 0 60 s3;
        if String.eqb s4 "" then Some ((if bool_decide (c = "-"%char) then -1 else 1) * (h * 3600 + m * 60)) else None
      else None
  | EmptyString => None
  end.

(** The fraction of a second, after a point or a comma. *)
Definition read_fraction (s : string) : option (Z * string) :=
  match s with
  | String "." (String c _ as s1) | String "," (String c _ as s1) =>
      if is_digit c then Some (read_frac 9 s1) else None
  | _ => Some (0, s)
  end.

(** An hour, of one or two digits. *)
Definition read_hour (s : string) : option (Z * string) :=
  match s with
  | String c (String d _ as s1) => if is_digit d then read_range 2 0 23 s else read_range 1 0 23 s
  | _ => None
  end.

(** [parseStrictRFC3339], as an instant: the strict checks are disabled in the
    library, so that it reads what [time.Parse] reads. *)
Definition parse_rfc3339 (s : string) : option Z :=
  '(y, s) ← read_range 4 0 9999 s;
  s ← expect "-" s;
  '(m, s) ← read_range 2 1 12 s;
  s ← expect "-" s;
  '(d, s) ← read_range 2 1 (days_in y m) s;
  s ← expect "T" s;
  '(hh, s) ← read_hour s;
  s ← expect ":" s;
  '(mm, s) ← read_range 2 0 59 s;
  s ← expect ":" s;
  '(ss, s) ← read_range 2 0 59 s;
  '(ns, s) ← read_fraction s;
  off ← read_zone s;
  Some (days_of y m d * ns_per_day + (hh * 3600 + mm * 60 + ss - off) * second + ns).

Example rfc3339_ok :
  map format_rfc3339 [0; 63870768000000000000 + 5000000000; 63849600000000000000 - 500]
  = ["0001-01-01T00:00:00Z"; "2024-12-26T00:00:05Z"; "2024-04-24T23:59:59.9999995Z"]%string.
Proof. vm_compute. reflexivity. Qed.

Example parse_rfc3339_ok :
  map parse_rfc3339 ["2024-12-26T02:00:05+02:00"; "2024-12-26T0:00:05,5Z"; "2024-02-30T00:00:00Z";
                     "2024-12-26T00:00:60Z"; "2024-12-26"]%string
  = [Some (63870768000000000000 + 5000000000); Some (63870768000000000000 + 5500000000); None; None; None].
Proof. vm_compute. reflexivity. Qed.

(** *** The calendar is a bijection *)

(** A cycle that is cut one day short keeps its last day in the last part. *)
Lemma cut_cycle n len d :
  0 < len → 0 ≤ d ≤ 4 * len → n = d / len - d / len / 4 →
  0 ≤ n ≤ 3 ∧ 0 ≤ d - n * len ≤ len ∧ (d - n * len = len → n = 3).
Proof.
  intros Hl Hd ->.
  assert (0 ≤ d / len ≤ 4) as Hq.
  { split; [apply Z.div_pos; lia|]. apply Z.div_le_upper_bound; lia. }
  pose proof (Z.div_mod d len) as E. pose proof (Z.mod_pos_bound d len Hl) as B.
  revert E. revert B. generalize (d mod len). revert Hq. generalize (d / len). intros q Hq r Hr E.
  assert (d = len * q + r) as -> by lia.
  assert (q = 0 ∨ q = 1 ∨ q = 2 ∨ q = 3 ∨ q = 4) as [-> | [-> | [-> | [-> | ->]]]] by lia.
  all: match goal with |- context [?q / 4] => let v := eval vm_compute in (q / 4) in change (q / 4) with v end; lia.
Qed.

(** The year of a day, as the numbers of the cycles before it. *)
Lemma date_of_cycles t :
  ∃ a b c e r,
    0 ≤ b ≤ 3 ∧ 0 ≤ c ≤ 24 ∧ 0 ≤ e ≤ 3 ∧ 0 ≤ r
    ∧ t / ns_per_day = a * 146097 + b * 36524 + c * 1461 + e * 365 + r
    ∧ (let y := 1 + a * 400 + b * 100 + c * 4 + e in
       r ≤ 364 + (if is_leap y then 1 else 0)
       ∧ date_of t = (y, Z.of_nat (month_of (is_leap y) r 11) + 1,
                      r - month_start (is_leap y) (month_of (is_leap y) r 11) + 1)).
Proof.
  set (d0 := t / ns_per_day). set (a := d0 / 146097). set (d1 := d0 - a * 146097).
  assert (0 ≤ d1 < 146097) as H1 by (unfold d1, a; Z.div_mod_to_equations; lia).
  set (b := d1 / 36524 - d1 / 36524 / 4). set (d2 := d1 - b * 36524).
  destruct (cut_cycle b 36524 d1) as (Hb & Hd2 & Hbl); [lia..|done|]. fold d2 in Hd2, Hbl.
  set (c := d2 / 1461). set (d3 := d2 - c * 1461).
  assert (0 ≤ c ≤ 24 ∧ 0 ≤ d3 ≤ 1460 ∧ (c = 24 → d3 ≤ 1459 ∨ b = 3)) as (Hc & Hd3 & Hcl).
  { unfold d3, c. Z.div_mod_to_equations. lia. }
  set (e := d3 / 365 - d3 / 365 / 4). set (d4 := d3 - e * 365).
  destruct (cut_cycle e 365 d3) as (He & Hd4 & Hel); [lia..|done|]. fold d4 in Hd4, Hel.
  exists a, b, c, e, d4. split_and!; try lia. cbv zeta. split; [|done].
  destruct (decide (d4 = 365)) as [E|]; [|case_match; lia].
  assert (is_leap (1 + a * 400 + b * 100 + c * 4 + e) = true) as ->; [|lia].
  unfold is_leap. specialize (Hel E). subst e.
  rewrite andb_true_iff, orb_true_iff, negb_true_iff, !Z.eqb_eq, Z.eqb_neq.
  split; [Z.div_mod_to_equations; lia|].
  destruct (decide (c = 24)) as [E'|]; [right|left].
  - destruct (Hcl E'); [unfold d4 in E; lia|]. Z.div_mod_to_equations; lia.
  - Z.div_mod_to_equations; lia.
Qed.

(** The month of a day of the year holds that day. *)
Lemma month_of_spec leap r :
  0 ≤ r ≤ 364 + (if leap : bool then 1 else 0) →
  let m := month_of leap r 11 in
  (m ≤ 11)%nat ∧ month_start leap m ≤ r
  ∧ r - month_start leap m < (if Nat.eqb m 11 then 365 + (if leap then 1 else 0) else month_start leap (S m)) - month_start leap m.
Proof.
  intros Hr m. subst m. destruct leap; cbn [month_of]; unfold month_start; simpl nth; simpl Z.leb; simpl andb; cbv iota.
  all: repeat match goal with |- context [if ?x <=? ?y then _ else _] => destruct (Z.leb_spec x y); [simpl; lia|] end.
  all: simpl; lia.
Qed.

Lemma days_of_date_of t :
  let '(y, m, d) := date_of t in
  1 ≤ m ≤ 12 ∧ 1 ≤ d ≤ days_in y m ∧ days_of y m d = t / ns_per_day.
Proof.
  destruct (date_of_cycles t) as (a & b & c & e & r & Hb & Hc & He & Hr & Hd & H). cbv zeta in H.
  destruct H as [Hl ->].
  destruct (month_of_spec (is_leap (1 + a * 400 + b * 100 + c * 4 + e)) r) as (Hm & Hs & Hin); [lia|].
  unfold days_in, days_of.
  revert Hm Hs Hin. generalize (month_of (is_leap (1 + a * 400 + b * 100 + c * 4 + e)) r 11) as m.
  intros m Hm Hs Hin.
  replace (Z.to_nat (Z.of_nat m + 1 - 1)) with m by lia.
  split_and!; [lia..|]. rewrite Hd.
  set (p := 1 + a * 400 + b * 100 + c * 4 + e - 1).
  assert (p / 4 = 100 * a + 25 * b + c ∧ p / 100 = 4 * a + b ∧ p / 400 = a) as (-> & -> & ->)
    by (unfold p; Z.div_mod_to_equations; lia).
  unfold p. lia.
Qed.

(** *** Reading undoes writing *)

Lemma code_chr z : 0 ≤ z < 256 → code (chr (Z.to_N z)) = z.
Proof. intros H. unfold code, chr. rewrite Ascii.N_ascii_embedding by lia. lia. Qed.

Lemma code_digit v : 0 ≤ v < 10 → code (digit v) = 48 + v.
Proof. intros H. apply code_chr. lia. Qed.

Lemma is_digit_digit v : 0 ≤ v < 10 → is_digit (digit v) = true.
Proof. intros H. unfold is_digit. rewrite code_digit by done. apply andb_true_iff. rewrite !Z.leb_le. lia. Qed.

Lemma read_fixed_fixed n k z s acc :
  0 ≤ z < 10 ^ Z.of_nat n →
  read_fixed (n + k) (fixed n z +:+ s) acc = read_fixed k s (acc * 10 ^ Z.of_nat n + z).
Proof.
  revert k z s. induction n as [|n IH]; intros k z s Hz.
  - simpl. f_equal. change (10 ^ Z.of_nat 0) with 1 in *. lia.
  - rewrite Nat2Z.inj_succ, Z.pow_succ_r in * by lia.
    cbn [fixed]. rewrite <-str_app_assoc. replace (S n + k)%nat with (n + S k)%nat by lia.
    pose proof (Z.mod_pos_bound z 10). pose proof (Z.div_mod z 10).
    rewrite IH by (Z.div_mod_to_equations; lia).
    unfold str1. rewrite str_app_cons. cbn [read_fixed]. rewrite is_digit_digit, code_digit by lia.
    f_equal. lia.
Qed.

Lemma read_range_fixed n lo hi z s :
  lo ≤ z ≤ hi → 0 ≤ z < 10 ^ Z.of_nat n → read_range n lo hi (fixed n z +:+ s) = Some (z, s).
Proof.
  intros Hb Hz. unfold read_range.
  pose proof (read_fixed_fixed n 0 z s 0 Hz) as E. rewrite Nat.add_0_r in E. rewrite E. cbn [mbind option_bind read_fixed].
  rewrite Z.mul_0_l, Z.add_0_l. by rewrite (proj2 (Z.leb_le lo z)), (proj2 (Z.leb_le z hi)) by lia.
Qed.

(** No digit stands at the front. *)
Definition digit_free (s : string) : Prop :=
  match s with String c _ => is_digit c = false | EmptyString => True end.

Lemma read_frac_digits k z s :
  0 ≤ z < 10 ^ Z.of_nat k → digit_free s → read_frac k (frac_digits k z +:+ s) = (z, s).
Proof.
  intros Hz Hs.
  assert (∀ k, read_frac k s = (0, s)) as H0.
  { intros k'. destruct s as [|c s]; [by destruct k'|]. simpl in Hs. destruct k'; simpl; by rewrite Hs. }
  revert z Hz. induction k as [|k IH]; intros z Hz.
  - change (10 ^ Z.of_nat 0) with 1 in Hz. assert (z = 0) as -> by lia. apply H0.
  - rewrite Nat2Z.inj_succ, Z.pow_succ_r in Hz by lia.
    cbn [frac_digits]. destruct (Z.eqb_spec z 0) as [->|Hn]; [apply H0|].
    assert (0 < 10 ^ Z.of_nat k) as Hp by (apply Z.pow_pos_nonneg; lia).
    assert (0 ≤ z / 10 ^ Z.of_nat k < 10) as Hd
      by (split; [apply Z.div_pos; lia|apply Z.div_lt_upper_bound; lia]).
    rewrite str_app_cons. cbn [read_frac].
    rewrite is_digit_digit, code_digit, IH by (done || by apply Z.mod_pos_bound).
    f_equal. rewrite (Z.div_mod z (10 ^ Z.of_nat k)) at 3 by lia. lia.
Qed.

Lemma frac_digits_head k z :
  0 < z < 10 ^ Z.of_nat k → ∃ c s, frac_digits k z = String c s ∧ is_digit c = true.
Proof.
  destruct k as [|k]; [change (10 ^ Z.of_nat 0) with 1; lia|].
  rewrite Nat2Z.inj_succ, Z.pow_succ_r by lia. intros Hz. simpl.
  destruct (Z.eqb_spec z 0); [lia|]. eexists _, _. split; [done|].
  apply is_digit_digit. assert (0 < 10 ^ Z.of_nat k) by (apply Z.pow_pos_nonneg; lia).
  split; [apply Z.div_pos; lia|apply Z.div_lt_upper_bound; lia].
Qed.

Lemma days_in_bound y m : 1 ≤ m ≤ 12 → days_in y m ≤ 31.
Proof.
  intros Hm. assert (m ∈ seqZ 1 12) as H by (apply elem_of_seqZ; lia).
  unfold days_in. clear Hm. destruct (is_leap y); revert m H; apply Forall_forall; repeat constructor; discriminate.
Qed.

Lemma expect_char c s : expect c (String c EmptyString +:+ s) = Some s.
Proof. simpl. by rewrite bool_decide_true. Qed.

Lemma read_fraction_frac f :
  0 ≤ f < second →
  read_fraction ((if String.eqb (frac_digits 9 f) "" then "" else "." +:+ frac_digits 9 f) +:+ "Z")
  = Some (f, "Z"%string).
Proof.
  intros Hf. destruct (decide (f = 0)) as [->|Hn]; [done|].
  destruct (frac_digits_head 9 f) as (c & u & E & Hc); [unfold second in Hf; simpl; lia|].
  assert (read_frac 9 (String c u +:+ "Z") = (f, "Z"%string)) as Hr
    by (rewrite <-E; apply read_frac_digits; [unfold second in Hf; simpl; lia|done]).
  rewrite E. change (read_fraction _) with
    (if is_digit c then Some (read_frac 9 (String c u +:+ "Z")) else None).
  by rewrite Hc, Hr.
Qed.

Lemma read_hour_fixed z s : 0 ≤ z ≤ 23 → read_hour (fixed 2 z +:+ s) = Some (z, s).
Proof.
  intros Hz. assert (read_range 2 0 23 (fixed 2 z +:+ s) = Some (z, s)) as H
    by (apply read_range_fixed; simpl; lia).
  change (read_hour _) with
    (if is_digit (digit (z mod 10)) then read_range 2 0 23 (fixed 2 z +:+ s)
     else read_range 1 0 23 (fixed 2 z +:+ s)).
  by rewrite is_digit_digit by (apply Z.mod_pos_bound; lia).
Qed.

Theorem parse_format_rfc3339 t : rfc3339_year t = true → parse_rfc3339 (format_rfc3339 t) = Some t.
Proof.
  unfold rfc3339_year, parse_rfc3339, format_rfc3339. intros Hy.
  pose proof (days_of_date_of t) as Hd. destruct (date_of t) as [[y m] d].
  destruct Hd as (Hm & Hday & Hdays). bool_to_Z.
  pose proof (days_in_bound y m Hm) as Hin.
  set (r := t mod ns_per_day). set (s := r / second). set (f := r mod second).
  assert (t = t / ns_per_day * ns_per_day + r) as Ht by (unfold r; rewrite Z.mul_comm; apply Z.div_mod; done).
  assert (r = s * second + f) as Hr by (unfold s, f; rewrite Z.mul_comm; apply Z.div_mod; done).
  assert (0 ≤ r < ns_per_day) as Hrb by (apply Z.mod_pos_bound; done).
  assert (0 ≤ f < second) as Hf by (apply Z.mod_pos_bound; done).
  assert (0 ≤ s < 86400) as Hs by (change ns_per_day with (86400 * second) in Hrb; unfold second in *; lia).
  clearbody r s f.
  assert (s = s / 3600 * 3600 + s / 60 mod 60 * 60 + s mod 60
          ∧ 0 ≤ s / 3600 ≤ 23 ∧ 0 ≤ s / 60 mod 60 ≤ 59 ∧ 0 ≤ s mod 60 ≤ 59) as (Hsum & Hh & Hmi & Hse)
    by (Z.div_mod_to_equations; lia).
  rewrite (read_range_fixed 4) by (simpl; lia). cbn [mbind option_bind].
  do 5 (rewrite expect_char; cbn [mbind option_bind];
        first [rewrite read_hour_fixed by lia | rewrite (read_range_fixed 2) by (simpl; lia)];
        cbn [mbind option_bind]).
  rewrite read_fraction_frac by done. cbn [mbind option_bind].
  rewrite Hdays. change (read_zone "Z") with (Some 0). cbn [mbind option_bind]. f_equal. lia.
Qed.
