(* ===== verification/GoJson.v ===== *)
(** * GoJson: [encoding/json], the text of a document.

    A document is a tree that keeps strings and numbers as they are spelled:
    the scanner checks the spelling, and a decoder reads it later, by the type it
    wants.  [print_json] is the compact form [Marshal] writes, [json_string] the
    spelling it gives to a string, [scan] the reading of a document, [unquote]
    that of a string; a decoder merges a value into what is there, by the type it
    wants.  [GoJsonProofs] shows that reading undoes writing. *)

From S2P Require Import Prelude GoText GoEncoding GoTime.
Open Scope Z_scope.
Open Scope go_scope.

(** ** Documents *)

Inductive json :=
| JNull
| JBool (b : bool)
| JNum (lit : string)
| JStr (raw : string)
| JArr (l : list json)
| JObj (l : list (string * json)).

Section json_induction.
Variable P : json → Prop.
Hypothesis HNull : P JNull.
Hypothesis HBool : ∀ b, P (JBool b).
Hypothesis HNum : ∀ lit, P (JNum lit).
Hypothesis HStr : ∀ raw, P (JStr raw).
Hypothesis HArr : ∀ l, Forall P l → P (JArr l).
Hypothesis HObj : ∀ l, Forall (λ f, P f.2) l → P (JObj l).

Fixpoint json_tree_ind (v : json) : P v :=
  match v with
  | JNull => HNull
  | JBool b => HBool b
  | JNum lit => HNum lit
  | JStr raw => HStr raw
  | JArr l =>
      HArr l ((fix go l : Forall P l :=
        match l with [] => Forall_nil_2 _ | v :: l' => Forall_cons_2 _ _ _ (json_tree_ind v) (go l') end) l)
  | JObj l =>
      HObj l ((fix go l : Forall (λ f, P f.2) l :=
        match l with [] => Forall_nil_2 _ | f :: l' => Forall_cons_2 _ _ _ (json_tree_ind f.2) (go l') end) l)
  end.
End json_induction.

(** ** Writing *)

Definition json_bool (b : bool) : string := if b then "true" else "false".

(** The compact form. *)
Fixpoint print_json (v : json) : string :=
  match v with
  | JNull => "null"
  | JBool b => json_bool b
  | JNum lit => lit
  | JStr raw => quoted raw
  | JArr l => "[" +:+ join "," (map print_json l) +:+ "]"
  | JObj l => "{" +:+ join "," (map (λ f, quoted f.1 +:+ ":" +:+ print_json f.2) l) +:+ "}"
  end.

(** A flat object as an encoder with an indent of two spaces writes it. *)
Definition print_indented (l : list (string * json)) : string :=
  "{" +:+ join "," (map (λ f, str1 nl +:+ "  " +:+ quoted f.1 +:+ ": " +:+ print_json f.2) l)
  +:+ str1 nl +:+ "}".

(** A string as [encoding/json] spells it, with its HTML escapes. *)
Definition hex4 (n : Z) : string := "\u00" +:+ hex_encode [byte_of_Z n].

Definition json_ascii (c : ascii) : string :=
  let n := code c in
  let esc c := String "\" (str1 c) in
  if n =? 34 then esc dquote else if n =? 92 then esc "\"%char
  else if n =? 8 then esc "b"%char else if n =? 12 then esc "f"%char
  else if n =? 10 then esc "n"%char else if n =? 13 then esc "r"%char
  else if n =? 9 then esc "t"%char
  else if (n <? 32) || (n =? 60) || (n =? 62) || (n =? 38) then hex4 n
  else str1 c.

Definition json_rune (r : bytes * bool) : string :=
  match r with
  | (_, false) => "\ufffd"
  | ([b], true) => json_ascii (Ascii.ascii_of_byte b)
  | (bs, true) =>
      let s := string_of_bytes bs in
      if String.eqb s (string_of_bytes [xe2; x80; xa8]) then "\u2028"
      else if String.eqb s (string_of_bytes [xe2; x80; xa9]) then "\u2029" else s
  end.

Definition json_escape (s : string) : string := String.concat "" (map json_rune (runes s)).
Definition json_string (s : string) : string := quoted (json_escape s).

(** ** Scanning *)

Definition is_ws (c : ascii) : bool :=
  let n := code c in (n =? 32) || (n =? 9) || (n =? 10) || (n =? 13).

Fixpoint skip_ws (s : string) : string :=
  match s with
  | String c s' => if is_ws c then skip_ws s' else s
  | EmptyString => EmptyString
  end.

Definition is_hex (c : ascii) : bool :=
  match digit_val c with Some d => d <? 16 | None => false end.

(** The characters that may follow a backslash, but for [u]. *)
Definition is_escape (c : ascii) : bool :=
  bool_decide (c ∈ [dquote; "\"; "/"; "b"; "f"; "n"; "r"; "t"]%char).

(** The spelling of a string, after its quote, and what follows the other. *)
Fixpoint scan_string (s : string) : option (string * string) :=
  match s with
  | EmptyString => None
  | String c s1 =>
      if bool_decide (c = dquote) then Some (EmptyString, s1)
      else if bool_decide (c = "\"%char) then
        match s1 with
        | String "u" (String h1 (String h2 (String h3 (String h4 s2)))) =>
            if is_hex h1 && is_hex h2 && is_hex h3 && is_hex h4 then
              '(raw, r) ← scan_string s2;
              Some (String c (String "u" (String h1 (String h2 (String h3 (String h4 raw))))), r)
            else None
        | String e s2 =>
            if is_escape e then '(raw, r) ← scan_string s2; Some (String c (String e raw), r)
            else None
        | EmptyString => None
        end
      else if code c <? 32 then None
      else '(raw, r) ← scan_string s1; Some (String c raw, r)
  end.

(** The longest prefix of characters of a kind. *)
Fixpoint span (p : ascii → bool) (s : string) : string * string :=
  match s with
  | String c s' => if p c then let (u, r) := span p s' in (String c u, r) else (EmptyString, s)
  | EmptyString => (EmptyString, EmptyString)
  end.

(** A number, by its grammar.  No character of a number can follow one, so that
    the scanner takes all of them and looks at the whole. *)
Definition num_char (c : ascii) : bool :=
  is_digit c || bool_decide (c ∈ ["+"; "-"; "."; "e"; "E"]%char).

Definition digits1 (s : string) : option string :=
  match span is_digit s with (EmptyString, _) => None | (_, r) => Some r end.

Definition int_part (s : string) : option string :=
  match s with String "0" r => Some r | _ => digits1 s end.
Definition frac_part (s : string) : option string :=
  match s with String "." r => digits1 r | _ => Some s end.
Definition exp_part (s : string) : option string :=
  match s with
  | String "e" r | String "E" r =>
      match r with String "+" r' | String "-" r' => digits1 r' | _ => digits1 r end
  | _ => Some s
  end.

Definition valid_number (s : string) : bool :=
  match (r ← int_part (match s with String "-" r => r | _ => s end); r ← frac_part r; exp_part r) with
  | Some EmptyString => true
  | _ => false
  end.

Definition scan_number (s : string) : option (json * string) :=
  let (lit, r) := span num_char s in if valid_number lit then Some (JNum lit, r) else None.

(** A literal and what follows it. *)
Definition scan_word (w : string) (v : json) (s : string) : option (json * string) :=
  if has_prefix s w then Some (v, drop_str (String.length w) s) else None.

(** Values.  The first argument is fuel; the second is how deep arrays and
    objects may still nest. *)
Definition maxNestingDepth : Z := 10000.

Fixpoint scan_value (fuel : nat) (depth : Z) (s : string) : option (json * string) :=
  match fuel with
  | O => None
  | S fuel =>
      match skip_ws s with
      | EmptyString => None
      | String c r as s =>
          if bool_decide (c = dquote) then '(raw, r) ← scan_string r; Some (JStr raw, r)
          else if bool_decide (c = "["%char) then
            if depth <=? 0 then None
            else match skip_ws r with
                 | String "]" r => Some (JArr [], r)
                 | _ => '(l, r) ← scan_elems fuel (depth - 1) r; Some (JArr l, r)
                 end
          else if bool_decide (c = "{"%char) then
            if depth <=? 0 then None
            else match skip_ws r with
                 | String "}" r => Some (JObj [], r)
                 | _ => '(l, r) ← scan_members fuel (depth - 1) r; Some (JObj l, r)
                 end
          else if bool_decide (c = "t"%char) then scan_word "true" (JBool true) s
          else if bool_decide (c = "f"%char) then scan_word "false" (JBool false) s
          else if bool_decide (c = "n"%char) then scan_word "null" JNull s
          else scan_number s
      end
  end
with scan_elems (fuel : nat) (depth : Z) (s : string) : option (list json * string) :=
  match fuel with
  | O => None
  | S fuel =>
      '(v, r) ← scan_value fuel depth s;
      match skip_ws r with
      | String "," r => '(l, r) ← scan_elems fuel depth r; Some (v :: l, r)
      | String "]" r => Some ([v], r)
      | _ => None
      end
  end
with scan_members (fuel : nat) (depth : Z) (s : string) : option (list (string * json) * string) :=
  match fuel with
  | O => None
  | S fuel =>
      s ← expect dquote (skip_ws s);
      '(k, r) ← scan_string s;
      r ← expect ":" (skip_ws r);
      '(v, r) ← scan_value fuel depth r;
      match skip_ws r with
      | String "," r => '(l, r) ← scan_members fuel depth r; Some ((k, v) :: l, r)
      | String "}" r => Some ([(k, v)], r)
      | _ => None
      end
  end.

(** A whole document: every value takes a character, and two units of fuel. *)
Definition scan (s : string) : option json :=
  '(v, r) ← scan_value (2 * String.length s + 1) maxNestingDepth s;
  match skip_ws r with EmptyString => Some v | _ => None end.

(** ** The text of a string *)

(** [utf8.AppendRune]. *)
Definition rune_error : bytes := [xef; xbf; xbd].
Definition utf8_encode (r : Z) : bytes :=
  if r <? 128 then [byte_of_Z r]
  else if r <? 2048 then [byte_of_Z (192 + r / 64); byte_of_Z (128 + r mod 64)]
  else if ((55296 <=? r) && (r <=? 57343)) || (1114111 <? r) then rune_error
  else if r <? 65536 then
    [byte_of_Z (224 + r / 4096); byte_of_Z (128 + r / 64 mod 64); byte_of_Z (128 + r mod 64)]
  else
    [byte_of_Z (240 + r / 262144); byte_of_Z (128 + r / 4096 mod 64);
     byte_of_Z (128 + r / 64 mod 64); byte_of_Z (128 + r mod 64)].

(** The four digits after [\u]. *)
Definition hex_quad (s : bytes) : option (Z * bytes) :=
  match s with
  | a :: b :: c :: d :: r =>
      let '(n, e) := parse_uint (string_of_bytes [a; b; c; d]) 16 64 in
      match e with None => Some (n, r) | Some _ => None end
  | _ => None
  end.

(** [utf16.DecodeRune] of the halves of a pair. *)
Definition utf16_pair (r r1 : Z) : option Z :=
  if (55296 <=? r) && (r <? 56320) && (56320 <=? r1) && (r1 <? 57344)
  then Some ((r - 55296) * 1024 + (r1 - 56320) + 65536) else None.

Definition unescape (e : byte) : option byte :=
  match e with
  | x22 | x5c | x2f | x27 => Some e
  | x62 => Some x08 | x66 => Some x0c | x6e => Some x0a | x72 => Some x0d | x74 => Some x09
  | _ => None
  end.

(** After [\u] and its digits: the rune, and what is left. *)
Definition unquote_u (r : Z) (s : bytes) : bytes * bytes :=
  if (55296 <=? r) && (r <? 57344) then
    match s with
    | x5c :: x75 :: s1 =>
        match hex_quad s1 with
        | Some (r1, s2) =>
            match utf16_pair r r1 with Some q => (utf8_encode q, s2) | None => (rune_error, s) end
        | None => (rune_error, s)
        end
    | _ => (rune_error, s)
    end
  else (utf8_encode r, s).

(** [unquoteBytes]; [None] for what the scanner does not let through.  The fuel
    is the number of bytes. *)
Fixpoint unquote_go (fuel : nat) (s : bytes) : option bytes :=
  match fuel, s with
  | _, [] => Some []
  | O, _ => None
  | S fuel, x5c :: x75 :: s1 =>
      '(r, s2) ← hex_quad s1;
      let (u, s3) := unquote_u r s2 in app u <$> unquote_go fuel s3
  | S fuel, x5c :: e :: s1 => b ← unescape e; cons b <$> unquote_go fuel s1
  | S fuel, c :: _ =>
      if (byte_val c <? 32) || (byte_val c =? 34) || (byte_val c =? 92) then None
      else let (w, ok) := rune_width s in
           app (if ok then take w s else rune_error) <$> unquote_go fuel (drop w s)
  end.

Definition unquote (raw : string) : option string :=
  let b := bytes_of_string raw in string_of_bytes <$> unquote_go (length b) b.

(** ** Go values

    The spelling of strings, times (in UTC) and byte slices; an empty slice is
    taken for [nil]. *)

Definition enc_string (s : string) : json := JStr (json_escape s).
Definition enc_time (t : Z) : json := JStr (format_rfc3339 t).
Definition enc_bytes (b : bytes) : json := match b with [] => JNull | _ => JStr (std_encode b) end.

(** A decoder takes the value that is there, which [null] leaves alone but for
    slices. *)

Definition dec_string (cur : string) (v : json) : option string :=
  match v with JStr raw => unquote raw | JNull => Some cur | _ => None end.
Definition dec_bool (cur : bool) (v : json) : option bool :=
  match v with JBool b => Some b | JNull => Some cur | _ => None end.
Definition dec_int (cur : Z) (v : json) : option Z :=
  match v with
  | JNum lit => match parse_int lit 10 64 with (z, None) => Some z | _ => None end
  | JNull => Some cur
  | _ => None
  end.
(** [Time.UnmarshalJSON] takes the text between the quotes as it is spelled. *)
Definition dec_time (cur : Z) (v : json) : option Z :=
  match v with JStr raw => parse_rfc3339 raw | JNull => Some cur | _ => None end.

(** The elements of an array, decoded into those that are there. *)
Fixpoint dec_slice {A} (dec : A → json → option A) (zero : A) (cur : list A) (l : list json) :
    option (list A) :=
  match l with
  | [] => Some []
  | v :: l' =>
      x ← dec (match cur with c :: _ => c | [] => zero end) v;
      xs ← dec_slice dec zero (match cur with _ :: cur' => cur' | [] => [] end) l';
      Some (x :: xs)
  end.

Definition dec_byte (cur : byte) (v : json) : option byte :=
  match v with
  | JNum lit =>
      match parse_uint lit 10 64 with
      | (n, None) => if n <? 256 then Some (byte_of_Z n) else None
      | _ => None
      end
  | JNull => Some cur
  | _ => None
  end.

Definition dec_bytes (cur : bytes) (v : json) : option bytes :=
  match v with
  | JStr raw => s ← unquote raw; std_decode s
  | JNull => Some []
  | JArr l => dec_slice dec_byte x00 cur l
  | _ => None
  end.

(** [foldName]: the names of the fields are letters and underscores, for which
    case folding adds the long s and the Kelvin sign to ASCII. *)
Definition fold_rune (r : bytes * bool) : bytes :=
  match r.1 with
  | [b] => let n := byte_val b in if (97 <=? n) && (n <=? 122) then [byte_of_Z (n - 32)] else [b]
  | [xc5; xbf] => [x53]
  | [xe2; x84; xaa] => [x4b]
  | bs => bs
  end.
Definition fold_name (s : string) : string := string_of_bytes (concat (map fold_rune (runes s))).

(** The members of an object with a field's name, one after the other. *)
Definition dec_field {A} (name : string) (dec : A → json → option A) (ms : list (string * json)) (cur : A) :
    option A :=
  foldl (λ acc m, a ← acc; if String.eqb (fold_name m.1) (fold_name name) then dec a m.2 else Some a)
    (Some cur) ms.

Definition member_names : list (string * json) → option (list (string * json)) :=
  mapM (λ m, k ← unquote m.1; Some (k, m.2)).

Example unquote_ok :
  map unquote ["a\u00e9\n"; "\ud83d\ude00"; "\ud83dx"; "\x"]%string
  = [Some ("aé" +:+ str1 nl)%string; Some "😀"%string; Some "�x"%string; None].
Proof. vm_compute. reflexivity. Qed.

Example scan_ok :
  scan (String.concat "" [" { "; quoted "a\n"; " : [1, -0.5e3,true ,null], "; quoted "b"; ":{}} "])
  = Some (JObj [("a\n", JArr [JNum "1"; JNum "-0.5e3"; JBool true; JNull]); ("b", JObj [])])%string.
Proof. vm_compute. reflexivity. Qed.

Example scan_refuses :
  map scan ["01"; "[1,]"; "1 2"; "nul"; String dquote "a"; "{1:2}"; ""]%string = repeat None 7.
Proof. vm_compute. reflexivity. Qed.
