(* ===== verification/GoJsonProofs.v ===== *)
(** * GoJsonProofs: reading a JSON document undoes writing it.

    For strings, that [unquote] gives back what [json_escape] spelled and the
    scanner stops at its end; for numbers, that [ParseInt] undoes [%d]; for whole
    documents [scan_print], with enough fuel and depth. *)

From stdpp Require Import pretty.
From S2P Require Import Prelude GoText GoEncoding GoTime GoJson.
Open Scope Z_scope.
Open Scope go_scope.

(** ** A string is read back *)

Lemma bytes_of_app a b : bytes_of_string (a +:+ b) = bytes_of_string a ++ bytes_of_string b.
Proof.
  induction a as [|x a IH]; [done|]. rewrite str_app_cons.
  change (Ascii.byte_of_ascii x :: bytes_of_string (a +:+ b)
          = Ascii.byte_of_ascii x :: bytes_of_string a ++ bytes_of_string b). by rewrite IH.
Qed.

Lemma str_app_nil_l s : "" +:+ s = s.
Proof. done. Qed.

Lemma concat_cons x l : String.concat "" (x :: l) = x +:+ String.concat "" l.
Proof. destruct l; simpl; [by rewrite str_app_nil_r|done]. Qed.

(** A byte of a rune of several is outside ASCII. *)
Lemma wide_bytes s w :
  rune_width s = (w, true) → (2 ≤ w)%nat → Forall (λ b, 128 ≤ byte_val b) (take w s).
Proof.
  unfold rune_width, cont, cont_in. intros H Hw.
  repeat (case_match; simplify_eq; try lia).
  all: bool_to_Z; simpl; repeat constructor; lia.
Qed.

Lemma rune_width_1 a s : rune_width (a :: s) = (1%nat, true) → byte_val a < 128.
Proof.
  unfold rune_width. destruct (Z.ltb_spec (byte_val a) 128); [done|].
  intros H1. repeat (case_match; simplify_eq).
Qed.

Lemma rune_width_length s w : rune_width s = (w, true) → length (take w s) = w.
Proof. unfold rune_width. intros H. repeat (case_match; simplify_eq; try done). Qed.

(** A valid rune is known by its own bytes. *)
Lemma rune_width_take s w r : rune_width s = (w, true) → rune_width (take w s ++ r) = (w, true).
Proof.
  unfold rune_width. intros H.
  repeat (case_match; simplify_eq; simpl in *; try done);
  repeat match goal with H : ?x = _ |- context [?x] => rewrite H end; simpl; try done.
Qed.

(** The scanner passes over a piece of a string. *)
Definition scan_pre (u : string) : Prop :=
  ∀ s, scan_string (u +:+ s) = '(raw, r) ← scan_string s; Some (u +:+ raw, r).

Ltac scan_piece :=
  match goal with
  | |- scan_string (?u +:+ ?s) = _ =>
      let v := eval vm_compute in u in change u with v;
      rewrite ?str_app_cons, ?str_app_nil_l; simpl; destruct (scan_string s) as [[??]|]
  end.

Lemma scan_pre_nil : scan_pre "".
Proof. intros s. rewrite str_app_nil_l. by destruct (scan_string s) as [[??]|]. Qed.

Lemma scan_pre_app u v : scan_pre u → scan_pre v → scan_pre (u +:+ v).
Proof.
  intros Hu Hv s. rewrite <-str_app_assoc, Hu, Hv.
  destruct (scan_string s) as [[raw r]|]; [|done]. simpl. by rewrite str_app_assoc.
Qed.

Lemma scan_pre_char c : 32 ≤ code c → c ≠ dquote → c ≠ "\"%char → scan_pre (str1 c).
Proof.
  intros Hc Hq Hb s. unfold str1. rewrite str_app_cons.
  rewrite str_app_nil_l. cbn [scan_string].
  rewrite !bool_decide_false by done. destruct (Z.ltb_spec (code c) 32); [lia|].
  by destruct (scan_string s) as [[raw r]|].
Qed.

Lemma code_of_byte b : code (Ascii.ascii_of_byte b) = byte_val b.
Proof. by destruct b. Qed.

Lemma scan_pre_wide bs : Forall (λ b, 128 ≤ byte_val b) bs → scan_pre (string_of_bytes bs).
Proof.
  induction 1 as [|b bs Hb _ IH]; [apply scan_pre_nil|].
  change (string_of_bytes (b :: bs)) with (str1 (Ascii.ascii_of_byte b) +:+ string_of_bytes bs).
  apply scan_pre_app; [|done].
  apply scan_pre_char; [rewrite code_of_byte; lia|..]; intros E;
    apply (f_equal code) in E; rewrite code_of_byte in E; vm_compute (code _) in E; lia.
Qed.

Lemma scan_pre_ascii b : byte_val b < 128 → scan_pre (json_ascii (Ascii.ascii_of_byte b)).
Proof.
  intros Hb s. destruct b; try (vm_compute in Hb; discriminate).
  all: by scan_piece.
Qed.

(** What [rune_width] cuts off: a byte of ASCII, a rune of several bytes, or a
    byte that is no UTF-8. *)
Lemma rune_cases a s w ok :
  rune_width (a :: s) = (w, ok) →
  (ok = false ∧ w = 1%nat)
  ∨ (ok = true ∧ w = 1%nat ∧ byte_val a < 128)
  ∨ (ok = true ∧ (2 ≤ w)%nat ∧ Forall (λ b, 128 ≤ byte_val b) (take w (a :: s))).
Proof.
  intros H. destruct ok.
  - right. pose proof (rune_width_pos a s) as Hp. rewrite H in Hp. simpl in Hp.
    destruct (decide (w = 1%nat)) as [->|].
    + left. split_and!; [done..|]. by eapply rune_width_1.
    + right. split_and!; [done|lia|]. apply wide_bytes; [done|lia].
  - left. split; [done|]. revert H. unfold rune_width. intros H. repeat (case_match; simplify_eq; try done).
Qed.

Lemma scan_pre_rune a s w ok :
  rune_width (a :: s) = (w, ok) → scan_pre (json_rune (take w (a :: s), ok)).
Proof.
  intros H. destruct (rune_cases _ _ _ _ H) as [[-> ->]|[(-> & -> & Ha)|(-> & Hw & Hf)]].
  - intros t. by scan_piece.
  - by apply scan_pre_ascii.
  - destruct (take w (a :: s)) as [|b1 [|b2 bs]] eqn:E.
    1, 2: apply (f_equal length) in E; rewrite (rune_width_length _ _ H) in E; simpl in E; lia.
    cbn [json_rune].
    repeat case_match; [intros t; by scan_piece..|].
    by apply scan_pre_wide.
Qed.

Lemma scan_pre_runes fuel b : scan_pre (String.concat "" (map json_rune (runes_go fuel b))).
Proof.
  revert b. induction fuel as [|fuel IH]; intros b; [apply scan_pre_nil|].
  destruct b as [|a s]; [apply scan_pre_nil|]. cbn [runes_go].
  destruct (rune_width (a :: s)) as [w ok] eqn:E.
  cbn [map]. rewrite concat_cons. apply scan_pre_app; [by apply scan_pre_rune|apply IH].
Qed.

(** The scanner takes what the writer made of a string, and no more. *)
Lemma scan_string_escape s r :
  scan_string (json_escape s +:+ String dquote r) = Some (json_escape s, r).
Proof.
  unfold json_escape, runes. rewrite scan_pre_runes. simpl. by rewrite str_app_nil_r.
Qed.

(** One rune as it is spelled gives the rune back. *)
Lemma unquote_rune f a s w t :
  rune_width (a :: s) = (w, true) →
  unquote_go (S f) (bytes_of_string (json_rune (take w (a :: s), true)) ++ t)
  = app (take w (a :: s)) <$> unquote_go f t.
Proof.
  intros H. destruct (rune_cases _ _ _ _ H) as [[? _]|[(_ & -> & Ha)|(_ & Hw & Hf)]]; [done|..].
  - destruct a; try (vm_compute in Ha; discriminate).
    all: reflexivity.
  - pose proof (rune_width_length _ _ H) as Hl. pose proof (rune_width_take _ _ t H) as Ht.
    destruct (take w (a :: s)) as [|b1 [|b2 bs]] eqn:E; [simpl in Hl; lia..|].
    cbn [json_rune].
    assert (∀ q, string_of_bytes (b1 :: b2 :: bs) = string_of_bytes q → b1 :: b2 :: bs = q) as Hq
      by (intros q Eq; rewrite <-(bytes_of_string_of_bytes q), <-Eq; by rewrite bytes_of_string_of_bytes).
    destruct (String.eqb_spec (string_of_bytes (b1 :: b2 :: bs)) (string_of_bytes [xe2; x80; xa8])) as [E1|_];
      [by rewrite (Hq _ E1)|].
    destruct (String.eqb_spec (string_of_bytes (b1 :: b2 :: bs)) (string_of_bytes [xe2; x80; xa9])) as [E1|_];
      [by rewrite (Hq _ E1)|].
    rewrite bytes_of_string_of_bytes. clear Hq E. inversion Hf as [|?? Hb]; subst.
    change ((b1 :: b2 :: bs) ++ t) with (b1 :: b2 :: bs ++ t) in *.
    assert (unquote_go (S f) (b1 :: b2 :: bs ++ t) =
            if (byte_val b1 <? 32) || (byte_val b1 =? 34) || (byte_val b1 =? 92) then None
            else let (w, ok) := rune_width (b1 :: b2 :: bs ++ t) in
                 app (if ok then take w (b1 :: b2 :: bs ++ t) else rune_error)
                   <$> unquote_go f (drop w (b1 :: b2 :: bs ++ t))) as ->
      by (destruct b1; try reflexivity; vm_compute in Hb; by destruct Hb).
    rewrite Ht. destruct (Z.ltb_spec (byte_val b1) 32), (Z.eqb_spec (byte_val b1) 34), (Z.eqb_spec (byte_val b1) 92); try lia.
    cbn [orb]. change (b1 :: b2 :: bs ++ t) with ((b1 :: b2 :: bs) ++ t).
    by rewrite take_app_length', drop_app_length'.
Qed.

(** Spelling never shortens. *)
Lemma json_rune_length a s w :
  rune_width (a :: s) = (w, true) →
  (w ≤ length (bytes_of_string (json_rune (take w (a :: s), true))))%nat.
Proof.
  intros H. destruct (rune_cases _ _ _ _ H) as [[? _]|[(_ & -> & Ha)|(_ & Hw & Hf)]]; [done|..].
  - destruct a; try (vm_compute in Ha; discriminate); vm_compute; lia.
  - pose proof (rune_width_length _ _ H) as Hl. destruct (take w (a :: s)) as [|b1 [|b2 bs]] eqn:E; [simpl in Hl; lia..|].
    cbn [json_rune]. assert (w ≤ 4)%nat as Hw4 by (revert H; unfold rune_width; intros H; repeat (case_match; simplify_eq; try lia)).
    repeat case_match; try (vm_compute; lia). rewrite bytes_of_string_of_bytes. lia.
Qed.

Lemma json_runes_length fuel b :
  (length b ≤ fuel)%nat → forallb snd (runes_go fuel b) = true →
  (length b ≤ length (bytes_of_string (String.concat "" (map json_rune (runes_go fuel b)))))%nat.
Proof.
  revert b. induction fuel as [|fuel IH]; intros b Hl Hv; [lia|].
  destruct b as [|a s]; [simpl; lia|]. cbn [runes_go] in *.
  pose proof (rune_width_pos a s) as Hw. destruct (rune_width (a :: s)) as [w ok] eqn:E.
  simpl in Hw. cbn [map forallb snd] in *. apply andb_true_iff in Hv as [-> Hv].
  rewrite concat_cons, bytes_of_app, length_app. apply json_rune_length in E.
  assert (length (drop w (a :: s)) ≤ fuel)%nat as Hd by (rewrite length_drop; simpl in *; lia).
  specialize (IH _ Hd Hv). rewrite length_drop in IH. lia.
Qed.

Lemma unquote_runes fuel b f :
  (length b ≤ fuel)%nat → (fuel ≤ f)%nat → forallb snd (runes_go fuel b) = true →
  unquote_go f (bytes_of_string (String.concat "" (map json_rune (runes_go fuel b)))) = Some b.
Proof.
  revert b f. induction fuel as [|fuel IH]; intros b f Hl Hf Hv.
  - destruct b; [by destruct f|simpl in Hl; lia].
  - destruct b as [|a s]; [by destruct f|]. cbn [runes_go] in *.
    pose proof (rune_width_pos a s) as Hw. destruct (rune_width (a :: s)) as [w ok] eqn:E.
    simpl in Hw. cbn [map forallb snd] in *. apply andb_true_iff in Hv as [-> Hv].
    rewrite concat_cons, bytes_of_app. destruct f as [|f]; [lia|].
    rewrite unquote_rune by done. rewrite IH; [|rewrite length_drop; simpl in *; lia|lia|done].
    simpl. by rewrite take_drop.
Qed.

Theorem unquote_escape s : valid_utf8 s = true → unquote (json_escape s) = Some s.
Proof.
  intros Hv. unfold unquote, json_escape, valid_utf8, runes in *.
  rewrite unquote_runes by (try apply json_runes_length; done).
  simpl. by rewrite string_of_bytes_of_string.
Qed.

(** ** A number is read back *)

Lemma pretty_N_char_val x : (x < 10)%N → digit_val (pretty_N_char x) = Some (Z.of_N x) ∧ is_digit (pretty_N_char x) = true.
Proof.
  intros H. assert (Z.of_N x ∈ seqZ 0 10) as Hin by (apply elem_of_seqZ; lia).
  rewrite <-(N2Z.id x). revert Hin. generalize (Z.of_N x). apply Forall_forall. repeat constructor.
Qed.

Lemma pretty_N_go_value x s : digits_value 10 (pretty_N_go x s) 0 = digits_value 10 s (Z.of_N x).
Proof.
  revert s. induction (N.lt_wf_0 x) as [x _ IH]. intros s.
  destruct (decide (x = 0)%N) as [->|Hn]; [by rewrite pretty_N_go_0|].
  rewrite pretty_N_go_step by lia. rewrite IH by (apply N.div_lt; lia).
  pose proof (N.mod_lt x 10) as Hm. cbn [digits_value].
  destruct (pretty_N_char_val (x mod 10)) as [-> _]; [lia|]. cbn [mbind option_bind].
  destruct (Z.leb_spec 10 (Z.of_N (x mod 10))); [lia|]. f_equal.
  rewrite N2Z.inj_div, N2Z.inj_mod. pose proof (Z.div_mod (Z.of_N x) 10 ltac:(done)). lia.
Qed.

(** The first digit of a positive number is not zero; all are digits. *)
Lemma pretty_N_go_digits x s :
  (0 < x)%N → ∃ c u, pretty_N_go x s = String c (u +:+ s) ∧ is_digit c = true ∧ c ≠ "0"%char
                     ∧ str_forallb is_digit u = true.
Proof.
  revert s. induction (N.lt_wf_0 x) as [x _ IH]. intros s Hx.
  pose proof (N.mod_lt x 10) as Hm. rewrite pretty_N_go_step by lia.
  destruct (pretty_N_char_val (x mod 10)) as [Hv Hd]; [lia|].
  destruct (decide (x / 10 = 0)%N) as [E|Hn].
  - rewrite E, pretty_N_go_0. exists (pretty_N_char (x mod 10)), ""%string.
    split_and!; [done|done| |done]. intros E0. rewrite E0 in Hv. change (digit_val "0") with (Some 0) in Hv. injection Hv as Hv.
    assert (x mod 10 = 0)%N by lia. pose proof (N.div_mod x 10 ltac:(done)). lia.
  - destruct (IH (x / 10)%N) with (s := String (pretty_N_char (x mod 10)) s) as (c & u & -> & Hc & H0 & Hu);
      [apply N.div_lt; lia|by apply N.neq_0_lt_0|].
    exists c, (u +:+ str1 (pretty_N_char (x mod 10))).
    split_and!; [by rewrite <-str_app_assoc|done|done|].
    clear -Hu Hd. induction u as [|a u IH]; [simpl; by rewrite Hd|].
    rewrite str_app_cons. simpl in *. destruct (is_digit a); [by apply IH|done].
Qed.

Lemma fmt_d_shape z :
  fmt_d z = "0"%string ∧ z = 0
  ∨ ∃ c u, is_digit c = true ∧ c ≠ "0"%char ∧ str_forallb is_digit u = true
      ∧ digits_value 10 (String c u) 0 = Some (Z.abs z)
      ∧ fmt_d z = (if z <? 0 then String "-" (String c u) else String c u).
Proof.
  assert (∀ p, ∃ c u, pretty (N.pos p) = String c u ∧ is_digit c = true ∧ c ≠ "0"%char
    ∧ str_forallb is_digit u = true ∧ digits_value 10 (String c u) 0 = Some (Z.pos p)) as H.
  { intros p. destruct (pretty_N_go_digits (N.pos p) "") as (c & u & E & Hc & H0 & Hu); [lia|].
    rewrite str_app_nil_r in E. exists c, u. split_and!; [done..|].
    rewrite <-E. apply pretty_N_go_value. }
  destruct z as [|p|p]; [by left|right..]; destruct (H p) as (c & u & E & Hc & H0 & Hu & Hv).
  - exists c, u. split_and!; try done. 
  - exists c, u. split_and!; try done. unfold fmt_d. change (pretty (Z.neg p)) with ("-" +:+ pretty (N.pos p)).
    by rewrite E.
Qed.

Lemma span_all p u s :
  str_forallb p u = true → (match s with String c _ => p c = false | EmptyString => True end) →
  span p (u +:+ s) = (u, s).
Proof.
  intros Hu Hs. induction u as [|c u IH].
  - rewrite str_app_nil_l. destruct s as [|c s]; [done|]. simpl. by rewrite Hs.
  - rewrite str_app_cons. simpl in *. destruct (p c); [|done]. by rewrite IH.
Qed.

Lemma valid_number_digits c u :
  is_digit c = true → c ≠ "0"%char → str_forallb is_digit u = true →
  valid_number (String c u) = true ∧ valid_number (String "-" (String c u)) = true.
Proof.
  intros Hc H0 Hu.
  assert (digits1 (String c u) = Some EmptyString) as Hd.
  { unfold digits1. rewrite <-(str_app_nil_r (String c u)), span_all; [done|simpl; by rewrite Hc|done]. }
  assert (int_part (String c u) = Some EmptyString) as Hi.
  { rewrite <-Hd. unfold int_part. repeat case_match; congruence. }
  assert (c ≠ "-"%char) as Hn by (intros ->; done).
  split; unfold valid_number.
  - assert (match String c u with String "-" r => r | _ => String c u end = String c u) as ->
      by (repeat case_match; congruence). by rewrite Hi.
  - by rewrite Hi.
Qed.

Lemma valid_number_fmt_d z : valid_number (fmt_d z) = true.
Proof.
  destruct (fmt_d_shape z) as [[-> _]|(c & u & Hc & H0 & Hu & _ & ->)]; [done|].
  case_match; by apply valid_number_digits.
Qed.

Lemma num_chars_fmt_d z : str_forallb num_char (fmt_d z) = true.
Proof.
  assert (∀ u, str_forallb is_digit u = true → str_forallb num_char u = true) as Hd.
  { induction u as [|c u IH]; [done|]. simpl. unfold num_char at 1. destruct (is_digit c); [done|done]. }
  destruct (fmt_d_shape z) as [[-> _]|(c & u & Hc & H0 & Hu & _ & ->)]; [done|].
  case_match; simpl; unfold num_char at 1; rewrite ?Hc; by apply Hd.
Qed.

(** [ParseInt] undoes [%d] on the 64-bit integers. *)
Theorem parse_int_fmt_d z : int64_range z → parse_int (fmt_d z) 10 64 = (z, None).
Proof.
  unfold int64_range, min_int64, max_int64. intros Hz.
  destruct (fmt_d_shape z) as [[-> ->]|(c & u & Hc & H0 & Hu & Hv & ->)]; [done|].
  assert (parse_uint (String c u) 10 64 = (Z.abs z, None)) as Hp.
  { unfold parse_uint. apply parse_digits_ok; [lia|lia|]. split; [done|lia]. }
  unfold parse_int. destruct (Z.ltb_spec z 0) as [Hs|Hs].
  - rewrite Hp. cbn [negb andb]. destruct (Z.ltb_spec (2 ^ (64 - 1)) (Z.abs z)); [lia|]. f_equal. lia.
  - assert ((match String c u with String "+" s' => (false, s') | String "-" s' => (true, s')
             | _ => (false, String c u) end) = (false, String c u)) as ->.
    { repeat case_match; try done; simplify_eq; done. }
    rewrite Hp. cbn [negb andb]. destruct (Z.leb_spec (2 ^ (64 - 1)) (Z.abs z)); [lia|]. f_equal. lia.
Qed.

(** ** A document is read back *)

(** What the scanner can have produced: spellings it lets through. *)
Definition raw_ok (raw : string) : Prop := ∀ r, scan_string (raw +:+ String dquote r) = Some (raw, r).

Inductive wf_json : json → Prop :=
| wf_null : wf_json JNull
| wf_bool b : wf_json (JBool b)
| wf_num lit : str_forallb num_char lit = true → valid_number lit = true → wf_json (JNum lit)
| wf_str raw : raw_ok raw → wf_json (JStr raw)
| wf_arr l : Forall wf_json l → wf_json (JArr l)
| wf_obj l : Forall (λ f, raw_ok f.1 ∧ wf_json f.2) l → wf_json (JObj l).

Fixpoint json_depth (v : json) : Z :=
  match v with
  | JArr l => 1 + foldr (λ v n, Z.max (json_depth v) n) 0 l
  | JObj l => 1 + foldr (λ f n, Z.max (json_depth f.2) n) 0 l
  | _ => 0
  end.

(** The fuel a value takes. *)
Fixpoint json_size (v : json) : nat :=
  match v with
  | JArr l => S (foldr (λ v n, S (json_size v + n)) O l)
  | JObj l => S (foldr (λ f n, S (json_size f.2 + n)) O l)
  | _ => 1
  end.

Definition elems_size (l : list json) : nat := foldr (λ v n, S (json_size v + n)) O l.
Definition members_size (l : list (string * json)) : nat := foldr (λ f n, S (json_size f.2 + n)) O l.

Definition num_end (r : string) : Prop :=
  match r with String c _ => num_char c = false | EmptyString => True end.

(** The first character tells the kind of value. *)
Lemma number_head lit :
  str_forallb num_char lit = true → valid_number lit = true →
  ∃ c u, lit = String c u ∧ num_char c = true.
Proof.
  intros Hc Hv. destruct lit as [|c u]; [done|]. exists c, u. split; [done|].
  simpl in Hc. by apply andb_true_iff in Hc as [? _].
Qed.

Lemma num_char_not c d : num_char c = true → num_char d = false → c ≠ d.
Proof. intros H H' ->. congruence. Qed.

Lemma num_char_ws c : num_char c = true → is_ws c = false.
Proof.
  intros H. destruct (is_ws c) eqn:E; [|done]. unfold is_ws in E.
  assert (code c = 32 ∨ code c = 9 ∨ code c = 10 ∨ code c = 13) as Hc
    by (rewrite !orb_true_iff, !Z.eqb_eq in E; tauto).
  assert (c = chr (Z.to_N (code c))) as Ec
    by (unfold code, chr; by rewrite N2Z.id, Ascii.ascii_N_embedding).
  destruct Hc as [E1|[E1|[E1|E1]]]; rewrite E1 in Ec; subst c; vm_compute in H; discriminate.
Qed.

Lemma print_head v :
  wf_json v → ∃ c u, print_json v = String c u ∧ is_ws c = false ∧ c ≠ "]"%char ∧ c ≠ "}"%char.
Proof.
  destruct 1 as [|[]|lit Hc Hv|raw Hr|l Hl|l Hl]; try by eexists _, _.
  destruct (number_head lit Hc Hv) as (c & u & -> & Hn). exists c, u.
  split_and!; [done|by apply num_char_ws|by apply num_char_not..].
Qed.

Lemma scan_value_number fuel depth lit r :
  str_forallb num_char lit = true → valid_number lit = true → num_end r →
  scan_value (S fuel) depth (lit +:+ r) = Some (JNum lit, r).
Proof.
  intros Hc Hv Hr. destruct (number_head lit Hc Hv) as (c & u & -> & Hn).
  rewrite str_app_cons. cbn [scan_value skip_ws]. rewrite (num_char_ws c Hn).
  rewrite !(bool_decide_false (c = _)) by (by apply num_char_not).
  unfold scan_number. rewrite <-str_app_cons, span_all by done. by rewrite Hv.
Qed.

(** A value that is scanned whatever follows. *)
Definition scans (v : json) : Prop :=
  ∀ fuel depth r, (json_size v ≤ fuel)%nat → json_depth v ≤ depth → num_end r →
    scan_value fuel depth (print_json v +:+ r) = Some (v, r).

Lemma join_cons sep x y l : join sep (x :: y :: l) = x +:+ sep +:+ join sep (y :: l).
Proof. done. Qed.

Lemma scan_elems_print v l fuel depth r :
  Forall scans (v :: l) → (elems_size (v :: l) ≤ fuel)%nat → Forall (λ v, json_depth v ≤ depth) (v :: l) →
  scan_elems fuel depth (join "," (map print_json (v :: l)) +:+ String "]" r) = Some (v :: l, r).
Proof.
  revert v fuel. induction l as [|w l IH]; intros v fuel Hs Hf Hd;
    apply Forall_cons in Hs as [Hv Hs]; apply Forall_cons in Hd as [Hdv Hd];
    (destruct fuel as [|fuel]; [simpl in Hf; lia|]); cbn [elems_size foldr] in Hf; cbn [scan_elems].
  - cbn [map join]. by rewrite Hv by (lia || done).
  - cbn [map]. rewrite join_cons, <-!str_app_assoc. rewrite Hv by (lia || done).
    cbn [mbind option_bind]. change ("," +:+ ?s) with (String "," s). cbn [skip_ws].
    change (is_ws ",") with false. cbv iota.
    change (print_json w :: map print_json l) with (map print_json (w :: l)).
    rewrite IH; [done|done| |done]. cbn [elems_size foldr]. lia.
Qed.

Lemma expect_cons c s : expect c (String c s) = Some s.
Proof. unfold expect. by rewrite bool_decide_true. Qed.

(** Space before a value or a member does not matter. *)
Definition blank : string → bool := str_forallb is_ws.

Lemma skip_ws_blank w s : blank w = true → skip_ws (w +:+ s) = skip_ws s.
Proof.
  induction w as [|c w IH]; intros Hw; [done|]. unfold blank in *. rewrite str_app_cons. simpl in *.
  destruct (is_ws c); [by apply IH|done].
Qed.

Lemma scan_value_blank fuel depth w s :
  blank w = true → scan_value fuel depth (w +:+ s) = scan_value fuel depth s.
Proof. intros Hw. destruct fuel as [|fuel]; [done|]. cbn [scan_value]. by rewrite skip_ws_blank. Qed.

Lemma num_end_blank w s : blank w = true → num_end s → num_end (w +:+ s).
Proof.
  destruct w as [|c w]; [done|]. unfold blank. rewrite str_app_cons. simpl. intros Hw _.
  destruct (num_char c) eqn:E; [|done]. by rewrite (num_char_ws c E) in Hw.
Qed.

(** A member up to its value. *)
Lemma scan_member w1 w2 k v fuel depth r :
  blank w1 = true → blank w2 = true →
  raw_ok k → scans v → (json_size v ≤ fuel)%nat → json_depth v ≤ depth → num_end r →
  scan_members (S fuel) depth (w1 +:+ quoted k +:+ ":" +:+ w2 +:+ print_json v +:+ r) =
    match skip_ws r with
    | String "," r => '(l, r) ← scan_members fuel depth r; Some ((k, v) :: l, r)
    | String "}" r => Some ([(k, v)], r)
    | _ => None
    end.
Proof.
  intros Hw1 Hw2 Hk Hv Hf Hd Hr. cbn [scan_members]. rewrite skip_ws_blank by done.
  unfold quoted, str1. rewrite <-!str_app_assoc.
  rewrite !(str_app_cons dquote), !str_app_nil_l. cbn [skip_ws]. change (is_ws dquote) with false. cbv iota.
  rewrite expect_cons. cbn [mbind option_bind].
  rewrite Hk. cbn [mbind option_bind].
  change (expect ":" (skip_ws (":" +:+ ?s))) with (Some s). cbn [mbind option_bind].
  by rewrite scan_value_blank, Hv by done.
Qed.

Definition member_text (w1 w2 : string) (f : string * json) : string :=
  w1 +:+ quoted f.1 +:+ ":" +:+ w2 +:+ print_json f.2.

Lemma scan_members_print w1 w2 w3 f l fuel depth r :
  blank w1 = true → blank w2 = true → blank w3 = true →
  Forall (λ f, raw_ok f.1 ∧ scans f.2) (f :: l) → (members_size (f :: l) ≤ fuel)%nat →
  Forall (λ f, json_depth f.2 ≤ depth) (f :: l) →
  scan_members fuel depth (join "," (map (member_text w1 w2) (f :: l)) +:+ w3 +:+ String "}" r)
  = Some (f :: l, r).
Proof.
  intros Hw1 Hw2 Hw3.
  revert f fuel. induction l as [|g l IH]; intros [k v] fuel Hs Hf Hd;
    apply Forall_cons in Hs as [[Hk Hv] Hs]; apply Forall_cons in Hd as [Hdv Hd];
    (destruct fuel as [|fuel]; [simpl in Hf; lia|]); cbn [members_size foldr fst snd] in *;
    cbn [map].
  - cbn [join]. unfold member_text. cbn [fst snd]. rewrite <-!str_app_assoc, scan_member by (lia || by try apply num_end_blank).
    by rewrite skip_ws_blank.
  - rewrite join_cons. unfold member_text at 1. cbn [fst snd].
    rewrite <-!str_app_assoc, scan_member by (lia || done).
    change (skip_ws ("," +:+ ?s)) with (String "," s). cbv iota.
    change (member_text w1 w2 g :: map (member_text w1 w2) l) with (map (member_text w1 w2) (g :: l)).
    rewrite IH; [done|done| |done]. cbn [members_size foldr]. lia.
Qed.

Lemma unless_bracket {A} c u (g : string → A) o :
  c ≠ "]"%char → match String c u with String "]" r => g r | _ => o end = o.
Proof. intros H. by destruct c as [[] [] [] [] [] [] [] []]. Qed.

Lemma unless_brace {A} c u (g : string → A) o :
  c ≠ "}"%char → match String c u with String "}" r => g r | _ => o end = o.
Proof. intros H. by destruct c as [[] [] [] [] [] [] [] []]. Qed.

Lemma depths_below {A} (f : A → Z) l d :
  foldr (λ x n, Z.max (f x) n) 0 l ≤ d → Forall (λ x, f x ≤ d) l ∧ 0 ≤ d.
Proof.
  induction l as [|x l IH]; simpl; [done|]. intros H. destruct IH; [lia|].
  split; [constructor; [lia|done]|done].
Qed.

Lemma scan_value_print v : wf_json v → scans v.
Proof.
  intros Hwf. induction v as [|b|lit|raw|l IH|l IH] using json_tree_ind; intros fuel depth r Hf Hd Hr;
    (destruct fuel as [|fuel]; [simpl in Hf; lia|]); inversion Hwf; subst.
  - by destruct r.
  - by destruct b, r.
  - by apply scan_value_number.
  - cbn [print_json]. unfold quoted, str1. rewrite <-!str_app_assoc, !str_app_cons, !str_app_nil_l.
    cbn [scan_value skip_ws]. change (is_ws dquote) with false. cbv iota.
    rewrite bool_decide_true by done. by rewrite H0.
  - destruct l as [|w l]; [simpl in Hd; cbn [scan_value print_json map join]|].
    + change (skip_ws (("[" +:+ "" +:+ "]") +:+ r)) with (String "[" (String "]" r)).
      cbv iota. rewrite bool_decide_false, bool_decide_true by done.
      by destruct (Z.leb_spec depth 0); [lia|].
    + cbn [json_size json_depth] in Hf, Hd. destruct (depths_below json_depth (w :: l) (depth - 1)) as [Hds Hd0]; [simpl in *; lia|].
      assert (Forall scans (w :: l)) as Hs.
      { rewrite Forall_forall in IH, H0 |- *. intros x Hx. by apply IH, H0. }
      cbn [print_json]. rewrite <-!str_app_assoc.
      rewrite str_app_cons, str_app_nil_l. cbn [scan_value skip_ws].
      change (is_ws "[") with false. cbv iota.
      rewrite bool_decide_false, bool_decide_true by done.
      destruct (Z.leb_spec depth 0); [lia|].
      assert (∃ c u, skip_ws (join "," (map print_json (w :: l)) +:+ String "]" r) = String c u ∧ c ≠ "]"%char)
        as (c & u & E & Hc).
      { apply Forall_cons in H0 as [Hw _]. destruct (print_head w Hw) as (c & u & E & Hws & Hc & _).
        assert (∃ u', join "," (map print_json (w :: l)) = String c u') as [u' ->]
          by (destruct l; [exists u; exact E|]; cbn [map]; rewrite join_cons, E; by eexists).
        exists c, (u' +:+ String "]" r). rewrite str_app_cons. simpl. by rewrite Hws. }
      rewrite str_app_cons, str_app_nil_l, E. etrans; [exact (unless_bracket c u (λ r0, Some (JArr [], r0)) _ Hc)|].
      by rewrite scan_elems_print by (done || apply Nat.succ_le_mono, Hf).
  - destruct l as [|[k w] l]; [simpl in Hd; cbn [scan_value print_json map join]|].
    + change (skip_ws (("{" +:+ "" +:+ "}") +:+ r)) with (String "{" (String "}" r)).
      cbv iota. rewrite !bool_decide_false, bool_decide_true by done.
      by destruct (Z.leb_spec depth 0); [lia|].
    + cbn [json_size json_depth] in Hf, Hd.
      destruct (depths_below (λ f, json_depth f.2) ((k, w) :: l) (depth - 1)) as [Hds Hd0]; [simpl in *; lia|].
      assert (Forall (λ f, raw_ok f.1 ∧ scans f.2) ((k, w) :: l)) as Hs.
      { rewrite Forall_forall in IH, H0 |- *. intros x Hx. destruct (H0 x Hx). split; [done|by apply IH]. }
      cbn [print_json]. rewrite <-!str_app_assoc.
      rewrite str_app_cons, str_app_nil_l. cbn [scan_value skip_ws].
      change (is_ws "{") with false. cbv iota.
      rewrite !bool_decide_false, bool_decide_true by done.
      destruct (Z.leb_spec depth 0); [lia|].
      assert (∃ u, skip_ws (join "," (map (λ f, quoted f.1 +:+ ":" +:+ print_json f.2) ((k, w) :: l)) +:+ String "}" r)
                   = String dquote u) as (u & E) by (destruct l; by eexists).
      rewrite str_app_cons, str_app_nil_l, E. etrans; [exact (unless_brace dquote u (λ r0, Some (JObj [], r0)) _ ltac:(done))|].
      assert (scan_members fuel (depth - 1)
        (join "," (map (λ f, quoted f.1 +:+ ":" +:+ print_json f.2) ((k, w) :: l)) +:+ String "}" r)
        = Some ((k, w) :: l, r)) as ->; [|done].
      apply (scan_members_print "" "" ""); [done..|by apply Nat.succ_le_mono|done].
Qed.

(** Two units of fuel for a character are enough. *)
Lemma join_length l : l ≠ [] → (length l + foldr (λ s n, String.length s + n) O l ≤ String.length (join "," l) + 1)%nat.
Proof.
  induction l as [|x [|y l] IH]; [done|simpl; lia|]. intros _.
  rewrite join_cons, !str_app_length. specialize (IH ltac:(done)). simpl in *. lia.
Qed.

Lemma size_join {A} (size : A → nat) (text : A → string) l :
  Forall (λ x, size x ≤ 2 * String.length (text x))%nat l →
  (foldr (λ x n, S (size x + n)) O l ≤ 2 * String.length (join "," (map text l)) + 1)%nat.
Proof.
  intros Hl. destruct l as [|x l]; [simpl; lia|].
  assert (∀ l, Forall (λ x, size x ≤ 2 * String.length (text x))%nat l →
    foldr (λ x n, S (size x + n)) O l ≤ length l + 2 * foldr (λ s n, String.length s + n) O (map text l))%nat as Hsum.
  { clear. induction 1 as [|x l Hx _ IH]; simpl; lia. }
  specialize (Hsum _ Hl). pose proof (join_length (map text (x :: l)) ltac:(done)) as Hj.
  rewrite length_map in Hj. simpl length in *. lia.
Qed.

Lemma json_size_length v : wf_json v → (json_size v ≤ 2 * String.length (print_json v))%nat.
Proof.
  intros Hwf. induction v as [|b|lit|raw|l IH|l IH] using json_tree_ind; inversion Hwf; subst.
  - simpl. lia.
  - destruct b; simpl; lia.
  - destruct (number_head lit) as (c & u & -> & _); [done..|]. simpl. lia.
  - simpl. unfold quoted. rewrite !str_app_length. simpl. lia.
  - cbn [json_size print_json]. rewrite !str_app_length.
    assert (Forall (λ v, json_size v ≤ 2 * String.length (print_json v))%nat l) as Hj%size_join; [|simpl; lia].
    rewrite Forall_forall in *. auto.
  - cbn [json_size print_json]. rewrite !str_app_length.
    assert (Forall (λ f, json_size f.2 ≤ 2 * String.length (quoted f.1 +:+ ":" +:+ print_json f.2))%nat l)
      as Hj%(size_join (λ f, json_size f.2)); [|simpl; lia].
    rewrite Forall_forall in *. intros x Hx. rewrite !str_app_length. specialize (IH x Hx (proj2 (H0 x Hx))). lia.
Qed.

(** Reading a document gives the tree that was written. *)
Theorem scan_print v : wf_json v → json_depth v ≤ maxNestingDepth → scan (print_json v) = Some v.
Proof.
  intros Hwf Hd. unfold scan. pose proof (json_size_length v Hwf).
  rewrite <-(str_app_nil_r (print_json v)) at 2.
  by rewrite scan_value_print by (done || lia).
Qed.

(** A flat object as the indenting encoder writes it, and a line's end. *)
Theorem scan_print_indented l :
  Forall (λ f, raw_ok f.1 ∧ wf_json f.2 ∧ json_depth f.2 = 0) l → l ≠ [] →
  scan (print_indented l +:+ str1 nl) = Some (JObj l).
Proof.
  intros Hl Hne. destruct l as [|f l]; [done|].
  assert (Forall (λ f, raw_ok f.1 ∧ scans f.2) (f :: l)) as Hs
    by (eapply Forall_impl; [exact Hl|]; intros x (? & ? & _); split; [done|by apply scan_value_print]).
  assert (Forall (λ f, json_depth f.2 ≤ maxNestingDepth - 1) (f :: l)) as Hd
    by (eapply Forall_impl; [exact Hl|]; intros x (_ & _ & ->); done).
  set (w := (str1 nl +:+ "  ")%string).
  set (text := join "," (map (member_text w " ") (f :: l))).
  assert (print_indented (f :: l) +:+ str1 nl = String "{" (text +:+ str1 nl +:+ String "}" (str1 nl))) as ->.
  { unfold print_indented. by rewrite <-!str_app_assoc. }
  assert (members_size (f :: l) ≤ 2 * String.length text + 1)%nat as Hsz.
  { apply size_join. eapply Forall_impl; [exact Hl|]. intros x (_ & Hx & _).
    apply json_size_length in Hx. unfold member_text. rewrite !str_app_length. lia. }
  unfold scan. replace (2 * String.length _ + 1)%nat with (S (2 * String.length (text +:+ str1 nl +:+ String "}" (str1 nl)) + 2))
    by (simpl; lia).
  cbn [scan_value skip_ws]. change (is_ws "{") with false. cbv iota.
  rewrite !bool_decide_false, bool_decide_true by done. change (maxNestingDepth <=? 0) with false. cbv iota.
  assert (∃ u, skip_ws (text +:+ str1 nl +:+ String "}" (str1 nl)) = String dquote u) as (u & E)
    by (destruct l; by eexists).
  rewrite E. etrans.
  { apply (f_equal (λ o, '(v, r) ← o; match skip_ws r with EmptyString => Some v | _ => None end)).
    exact (unless_brace dquote u (λ r0, Some (JObj [], r0)) _ ltac:(done)). }
  unfold text. rewrite (scan_members_print w " " (str1 nl)); [done..| |done].
  rewrite !str_app_length. fold text. lia.
Qed.

(** The spellings the writers use. *)
Lemma raw_ok_escape s : raw_ok (json_escape s).
Proof. intros r. apply scan_string_escape. Qed.

Lemma wf_int z : wf_json (JNum (fmt_d z)).
Proof. constructor; [apply num_chars_fmt_d|apply valid_number_fmt_d]. Qed.

(** Text that needs no escape. *)
Definition plain_char (c : ascii) : bool :=
  (32 <=? code c) && (code c <? 128) && negb (bool_decide (c ∈ [dquote; "\"; "<"; ">"; "&"]%char)).
Definition plain : string → bool := str_forallb plain_char.

Lemma plain_app a b : plain a = true → plain b = true → plain (a +:+ b) = true.
Proof.
  unfold plain. intros Ha Hb. induction a as [|c a IH]; [done|].
  rewrite str_app_cons. simpl in *. destruct (plain_char c); [by apply IH|done].
Qed.

Lemma raw_ok_plain s : plain s = true → raw_ok s.
Proof.
  intros Hs r. assert (scan_pre s) as ->; [|by simpl; rewrite str_app_nil_r].
  induction s as [|c s IH]; [apply scan_pre_nil|].
  cbn [plain str_forallb] in Hs. apply andb_true_iff in Hs as [Hc Hs].
  change (String c s) with (str1 c +:+ s). apply scan_pre_app; [|by apply IH].
  unfold plain_char in Hc. bool_to_Z. apply bool_decide_eq_false in H0.
  apply scan_pre_char; [done|set_solver..].
Qed.

Lemma unquote_plain s : plain s = true → unquote s = Some s.
Proof.
  intros Hs. unfold unquote. assert (∀ f, (length (bytes_of_string s) ≤ f)%nat →
    unquote_go f (bytes_of_string s) = Some (bytes_of_string s)) as ->;
    [|simpl; by rewrite string_of_bytes_of_string|done].
  induction s as [|c s IH]; intros f Hf; [by destruct f|].
  cbn [plain str_forallb] in Hs. apply andb_true_iff in Hs as [Hc Hs].
  change (bytes_of_string (String c s)) with (Ascii.byte_of_ascii c :: bytes_of_string s) in *.
  destruct f as [|f]; [simpl in Hf; lia|]. specialize (IH Hs f ltac:(simpl in Hf; lia)).
  clear Hf. revert IH. generalize (bytes_of_string s). intros t IH.
  destruct c as [[] [] [] [] [] [] [] []]; try (vm_compute in Hc; discriminate).
  all: match goal with |- unquote_go (S ?f) (?b :: ?t) = _ =>
    let v := eval vm_compute in b in
    change (app [v] <$> unquote_go f t = Some (v :: t)); by rewrite IH end.
Qed.

(** ** Go values are read back *)

Lemma b64_plain n : 0 ≤ n < 64 → plain_char (b64_char false n) = true.
Proof.
  intros H. assert (n ∈ seqZ 0 64) as Hin by (apply elem_of_seqZ; lia).
  clear H. revert n Hin. apply Forall_forall. repeat constructor.
Qed.

Lemma std_encode_plain b : plain (std_encode b) = true.
Proof.
  unfold std_encode, plain. induction b as [|x|x y|x y z s IH] using bytes_ind3; [done|..];
    cbn [b64_encode str_forallb]; rewrite !b64_plain by apply six_range; done.
Qed.

Lemma digit_plain v : 0 ≤ v < 10 → plain_char (digit v) = true.
Proof.
  intros H. assert (v ∈ seqZ 0 10) as Hin by (apply elem_of_seqZ; lia).
  clear H. revert v Hin. apply Forall_forall. repeat constructor.
Qed.

Lemma fixed_plain n z : plain (fixed n z) = true.
Proof.
  revert z. induction n as [|n IH]; intros z; [done|]. cbn [fixed]. apply plain_app; [apply IH|].
  unfold str1. cbn [plain str_forallb]. by rewrite digit_plain by (apply Z.mod_pos_bound; lia).
Qed.

Lemma frac_plain k z : 0 ≤ z < 10 ^ Z.of_nat k → plain (frac_digits k z) = true.
Proof.
  revert z. induction k as [|k IH]; intros z Hz; [done|].
  rewrite Nat2Z.inj_succ, Z.pow_succ_r in Hz by lia. cbn [frac_digits]. case_match; [done|].
  assert (0 < 10 ^ Z.of_nat k) by (apply Z.pow_pos_nonneg; lia).
  cbn [plain str_forallb]. rewrite digit_plain, IH; [done|by apply Z.mod_pos_bound|].
  split; [apply Z.div_pos; lia|apply Z.div_lt_upper_bound; lia].
Qed.

Lemma format_rfc3339_plain t : plain (format_rfc3339 t) = true.
Proof.
  unfold format_rfc3339. destruct (date_of t) as [[y m] d].
  repeat (apply plain_app; [first [apply fixed_plain|done|idtac]|]); [|done].
  case_match; [done|]. apply plain_app; [done|]. apply frac_plain.
  change (10 ^ Z.of_nat 9) with second. by apply Z.mod_pos_bound.
Qed.

(** Each decoder undoes its encoder, whatever is there. *)
Lemma dec_enc_string cur s : valid_utf8 s = true → dec_string cur (enc_string s) = Some s.
Proof. apply unquote_escape. Qed.

Lemma dec_enc_time cur t : rfc3339_year t = true → dec_time cur (enc_time t) = Some t.
Proof. apply parse_format_rfc3339. Qed.

Lemma dec_enc_bytes cur b : dec_bytes cur (enc_bytes b) = Some b.
Proof.
  destruct b as [|x b]; [done|]. unfold enc_bytes, dec_bytes.
  rewrite unquote_plain by apply std_encode_plain. simpl. apply std_decode_encode.
Qed.

(** A field takes the members that have its name. *)
Lemma dec_field_miss {A} name (dec : A → json → option A) k v ms cur :
  String.eqb (fold_name k) (fold_name name) = false →
  dec_field name dec ((k, v) :: ms) cur = dec_field name dec ms cur.
Proof. intros E. unfold dec_field. cbn [foldl fst snd mbind option_bind]. by rewrite E. Qed.

Lemma dec_field_hit {A} name (dec : A → json → option A) k v ms cur x :
  String.eqb (fold_name k) (fold_name name) = true → dec cur v = Some x →
  dec_field name dec ((k, v) :: ms) cur = dec_field name dec ms x.
Proof. intros E Hx. unfold dec_field. cbn [foldl fst snd mbind option_bind]. by rewrite E, Hx. Qed.

Lemma dec_field_nil {A} name (dec : A → json → option A) cur : dec_field name dec [] cur = Some cur.
Proof. done. Qed.

Ltac dec_fields t :=
  repeat (first [rewrite dec_field_miss by reflexivity
                |erewrite dec_field_hit by first [reflexivity|t]
                |rewrite dec_field_nil]; cbn [mbind option_bind]).

Lemma wf_time t : wf_json (enc_time t).
Proof. apply wf_str, raw_ok_plain, format_rfc3339_plain. Qed.
Lemma wf_string s : wf_json (enc_string s).
Proof. apply wf_str, raw_ok_escape. Qed.
Lemma wf_bytes b : wf_json (enc_bytes b).
Proof. destruct b; [constructor|]. apply wf_str, raw_ok_plain, std_encode_plain. Qed.

#[export] Hint Resolve wf_time wf_string wf_bytes wf_int wf_bool wf_null : go.
