(* ===== verification/GoJsonPrefix.v ===== *)
(** * GoJsonPrefix: a JSON document says itself where it ends.

    The scanner looks no further than the end of a value, so that no document of
    an object is the beginning of another: a text that was cut off is refused. *)

From S2P Require Import Prelude GoText GoEncoding GoTime GoJson GoJsonProofs.
Open Scope Z_scope.
Open Scope go_scope.

Lemma skip_ws_more s q c r : skip_ws s = String c r → skip_ws (s +:+ q) = String c (r +:+ q).
Proof.
  induction s as [|a s IH]; [done|]. rewrite str_app_cons. cbn [skip_ws].
  destruct (is_ws a); [done|]. by intros [= -> ->].
Qed.

Lemma span_more p s q u c r : span p s = (u, String c r) → span p (s +:+ q) = (u, String c (r +:+ q)).
Proof.
  revert u. induction s as [|a s IH]; [done|]. intros u. rewrite str_app_cons. cbn [span].
  destruct (p a).
  - destruct (span p s) as [u' r']. intros [= <- ->]. by rewrite (IH u').
  - by intros [= <- -> ->].
Qed.

Lemma unless_u {A} e (x o : A) : e ≠ "u"%char → match e with "u"%char => x | _ => o end = o.
Proof. intros H. by destruct e as [[] [] [] [] [] [] [] []]. Qed.

Lemma scan_string_more s q raw r :
  scan_string s = Some (raw, r) → scan_string (s +:+ q) = Some (raw, r +:+ q).
Proof.
  assert (∃ n, (String.length s ≤ n)%nat) as [n Hn] by by eexists.
  revert s raw r Hn. induction n as [|n IH]; intros s raw r Hn; [by destruct s; [|simpl in Hn; lia]|].
  destruct s as [|c s1]; [done|]. rewrite str_app_cons. cbn [scan_string]. simpl in Hn.
  case_bool_decide; [by intros [= <- <-]|]. case_bool_decide.
  - destruct s1 as [|e s2]; [done|]. rewrite str_app_cons.
    destruct (decide (e = "u"%char)) as [->|Hu].
    + change (is_escape "u") with false. cbv iota.
      destruct s2 as [|h1 [|h2 [|h3 [|h4 s3]]]]; [done..|]. rewrite !str_app_cons.
      destruct (_ && _); [|done]. destruct (scan_string s3) as [[raw' r']|] eqn:E; [|done].
      rewrite (IH s3 raw' r') by (simpl in *; done || lia). by intros [= <- <-].
    + rewrite !unless_u by done. destruct (is_escape e); [|done].
      destruct (scan_string s2) as [[raw' r']|] eqn:E; [|done].
      rewrite (IH s2 raw' r') by (simpl in *; done || lia). by intros [= <- <-].
  - destruct (code c <? 32); [done|]. destruct (scan_string s1) as [[raw' r']|] eqn:E; [|done].
    rewrite (IH s1 raw' r') by (done || lia). by intros [= <- <-].
Qed.

Lemma scan_word_more w v s q u r :
  scan_word w v s = Some (u, r) → scan_word w v (s +:+ q) = Some (u, r +:+ q) ∧ u = v.
Proof.
  unfold scan_word. destruct (has_prefix s w) eqn:E; [|done]. intros [= <- <-].
  apply has_prefix_split in E as [r ->].
  rewrite <-str_app_assoc, has_prefix_app, !drop_str_app. done.
Qed.

Lemma expect_more c s q r : expect c s = Some r → expect c (s +:+ q) = Some (r +:+ q).
Proof. destruct s as [|a s]; [done|]. rewrite str_app_cons. simpl. case_bool_decide; [|done]. by intros [= ->]. Qed.

(** What the scanner does at the end of an array, or of an object. *)
Lemma at_bracket {A} c u (g : string → A) o :
  match String c u with String "]" r => g r | _ => o end = if bool_decide (c = "]"%char) then g u else o.
Proof. by destruct c as [[] [] [] [] [] [] [] []]. Qed.

Lemma at_brace {A} c u (g : string → A) o :
  match String c u with String "}" r => g r | _ => o end = if bool_decide (c = "}"%char) then g u else o.
Proof. by destruct c as [[] [] [] [] [] [] [] []]. Qed.

Lemma after_elem {A} c u (f g : string → A) o :
  match String c u with String "," r => f r | String "]" r => g r | _ => o end
  = if bool_decide (c = ","%char) then f u else if bool_decide (c = "]"%char) then g u else o.
Proof. by destruct c as [[] [] [] [] [] [] [] []]. Qed.

Lemma after_member {A} c u (f g : string → A) o :
  match String c u with String "," r => f r | String "}" r => g r | _ => o end
  = if bool_decide (c = ","%char) then f u else if bool_decide (c = "}"%char) then g u else o.
Proof. by destruct c as [[] [] [] [] [] [] [] []]. Qed.

Lemma scan_elems_blank fuel d s : skip_ws s = EmptyString → scan_elems fuel d s = None.
Proof. intros E. destruct fuel as [|[|fuel]]; [done..|]. cbn [scan_elems scan_value]. by rewrite E. Qed.

Lemma scan_members_blank fuel d s : skip_ws s = EmptyString → scan_members fuel d s = None.
Proof. intros E. destruct fuel as [|fuel]; [done|]. cbn [scan_members]. by rewrite E. Qed.

(** A number is over when something follows it. *)
Definition ended (v : json) (r : string) : Prop :=
  match v with JNum _ => r ≠ EmptyString | _ => True end.

Lemma scan_number_more s q v r :
  scan_number s = Some (v, r) → r ≠ EmptyString → scan_number (s +:+ q) = Some (v, r +:+ q).
Proof.
  unfold scan_number. destruct (span num_char s) as [lit [|c r']] eqn:E; [by destruct (valid_number lit); intros [= <- <-]|].
  intros Hv _. rewrite (span_more _ _ _ _ _ _ E). destruct (valid_number lit); [|done]. by injection Hv as <- <-.
Qed.

(** More text behind a value, and more fuel, change nothing. *)
Definition value_more (fuel fuel' : nat) (q : string) : Prop := ∀ d s v r,
  scan_value fuel d s = Some (v, r) → ended v r → scan_value fuel' d (s +:+ q) = Some (v, r +:+ q).
Definition elems_more (fuel fuel' : nat) (q : string) : Prop := ∀ d s l r,
  scan_elems fuel d s = Some (l, r) → scan_elems fuel' d (s +:+ q) = Some (l, r +:+ q).
Definition members_more (fuel fuel' : nat) (q : string) : Prop := ∀ d s l r,
  scan_members fuel d s = Some (l, r) → scan_members fuel' d (s +:+ q) = Some (l, r +:+ q).

Section more.
Variables (fuel fuel' : nat) (q : string).
Hypothesis IHv : value_more fuel fuel' q.
Hypothesis IHe : elems_more fuel fuel' q.
Hypothesis IHm : members_more fuel fuel' q.

Lemma value_more_S : value_more (S fuel) (S fuel') q.
Proof.
  intros d s v r. cbn [scan_value]. destruct (skip_ws s) as [|c t] eqn:Es; [done|].
  rewrite (skip_ws_more _ q _ _ Es). case_bool_decide.
  { destruct (scan_string t) as [[raw u]|] eqn:E; [|done]. rewrite (scan_string_more _ q _ _ E).
    by intros [= <- <-]. }
  case_bool_decide.
  { destruct (d <=? 0); [done|]. destruct (skip_ws t) as [|c' t'] eqn:Et; [by rewrite scan_elems_blank|].
    rewrite (skip_ws_more _ q _ _ Et). intros Hm _. cbv iota in Hm |- *.
    rewrite (at_bracket c' t' (λ r, Some (JArr [], r))) in Hm.
    rewrite (at_bracket c' (t' +:+ q) (λ r, Some (JArr [], r))).
    case_bool_decide; [by injection Hm as <- <-|].
    destruct (scan_elems fuel (d - 1) t) as [[l u]|] eqn:E; [|done]. rewrite (IHe _ _ _ _ E).
    by injection Hm as <- <-. }
  case_bool_decide.
  { destruct (d <=? 0); [done|]. destruct (skip_ws t) as [|c' t'] eqn:Et; [by rewrite scan_members_blank|].
    rewrite (skip_ws_more _ q _ _ Et). intros Hm _. cbv iota in Hm |- *.
    rewrite (at_brace c' t' (λ r, Some (JObj [], r))) in Hm.
    rewrite (at_brace c' (t' +:+ q) (λ r, Some (JObj [], r))).
    case_bool_decide; [by injection Hm as <- <-|].
    destruct (scan_members fuel (d - 1) t) as [[l u]|] eqn:E; [|done]. rewrite (IHm _ _ _ _ E).
    by injection Hm as <- <-. }
  rewrite <-str_app_cons. repeat case_bool_decide.
  1-3: intros Hw _; by apply scan_word_more.
  intros Hn. pose proof Hn as Hn'. unfold scan_number in Hn'.
  destruct (span num_char (String c t)) as [lit u], (valid_number lit); [|done].
  injection Hn' as <- <-. by apply scan_number_more.
Qed.

Lemma elems_more_S : elems_more (S fuel) (S fuel') q.
Proof.
  intros d s l r. cbn [scan_elems]. destruct (scan_value fuel d s) as [[v u]|] eqn:E; [|done].
  cbn [mbind option_bind]. destruct (skip_ws u) as [|c t] eqn:Eu; [done|].
  rewrite (IHv _ _ _ _ E) by (destruct v; [done..|by intros ->|done|done|done]).
  cbn [mbind option_bind]. rewrite (skip_ws_more _ q _ _ Eu).
  rewrite (after_elem c t (λ r, '(l, r) ← scan_elems fuel d r; Some (v :: l, r)) (λ r, Some ([v], r))).
  rewrite (after_elem c (t +:+ q) (λ r, '(l, r) ← scan_elems fuel' d r; Some (v :: l, r)) (λ r, Some ([v], r))).
  case_bool_decide.
  - destruct (scan_elems fuel d t) as [[l' r']|] eqn:E'; [|done]. rewrite (IHe _ _ _ _ E').
    by intros [= <- <-].
  - case_bool_decide; [|done]. by intros [= <- <-].
Qed.

Lemma members_more_S : members_more (S fuel) (S fuel') q.
Proof.
  intros d s l r. cbn [scan_members].
  destruct (skip_ws s) as [|a s1] eqn:Es; [done|]. rewrite (skip_ws_more _ q _ _ Es), <-str_app_cons.
  destruct (expect dquote (String a s1)) as [s2|] eqn:Ee; [|done]. rewrite (expect_more _ _ q _ Ee).
  cbn [mbind option_bind].
  destruct (scan_string s2) as [[k s3]|] eqn:Ek; [|done]. rewrite (scan_string_more _ q _ _ Ek).
  cbn [mbind option_bind].
  destruct (skip_ws s3) as [|b s4] eqn:E3; [done|]. rewrite (skip_ws_more _ q _ _ E3), <-str_app_cons.
  destruct (expect ":" (String b s4)) as [s5|] eqn:Ec; [|done]. rewrite (expect_more _ _ q _ Ec).
  cbn [mbind option_bind].
  destruct (scan_value fuel d s5) as [[v u]|] eqn:E; [|done].
  cbn [mbind option_bind]. destruct (skip_ws u) as [|c t] eqn:Eu; [done|].
  rewrite (IHv _ _ _ _ E) by (destruct v; [done..|by intros ->|done|done|done]).
  cbn [mbind option_bind]. rewrite (skip_ws_more _ q _ _ Eu).
  rewrite (after_member c t (λ r, '(l, r) ← scan_members fuel d r; Some ((k, v) :: l, r)) (λ r, Some ([(k, v)], r))).
  rewrite (after_member c (t +:+ q) (λ r, '(l, r) ← scan_members fuel' d r; Some ((k, v) :: l, r)) (λ r, Some ([(k, v)], r))).
  case_bool_decide.
  - destruct (scan_members fuel d t) as [[l' r']|] eqn:E'; [|done]. rewrite (IHm _ _ _ _ E').
    by intros [= <- <-].
  - case_bool_decide; [|done]. by intros [= <- <-].
Qed.
End more.

Lemma scan_more fuel fuel' q :
  (fuel ≤ fuel')%nat → value_more fuel fuel' q ∧ elems_more fuel fuel' q ∧ members_more fuel fuel' q.
Proof.
  revert fuel'. induction fuel as [|fuel IH]; intros fuel' Hle; [by split_and!|].
  destruct fuel' as [|fuel']; [lia|]. destruct (IH fuel') as (IHv & IHe & IHm); [lia|].
  split_and!; [by apply value_more_S|by apply elems_more_S|by apply members_more_S].
Qed.

(** No proper prefix of the text of an object is a document. *)
Theorem scan_prefix ms s q :
  s +:+ q = print_json (JObj ms) → wf_json (JObj ms) → json_depth (JObj ms) ≤ maxNestingDepth →
  q ≠ EmptyString → scan s = None.
Proof.
  intros Hs Hwf Hd Hq. destruct (scan s) as [v|] eqn:E; [|done]. exfalso.
  unfold scan in E. destruct (scan_value _ _ s) as [[v' r]|] eqn:Ev; [|done].
  cbn [mbind option_bind] in E. destruct (skip_ws r) eqn:Er; [|done]. injection E as ->.
  pose proof (scan_value_print _ Hwf (2 * String.length (s +:+ q) + 1)%nat maxNestingDepth "") as Hfull.
  rewrite str_app_nil_r, <-Hs in Hfull.
  assert (json_size (JObj ms) ≤ 2 * String.length (s +:+ q) + 1)%nat as Hsz
    by (rewrite Hs; pose proof (json_size_length _ Hwf); lia).
  specialize (Hfull Hsz Hd I).
  assert (ended v r) as Hend.
  { destruct s as [|c s]; [done|]. injection Hs as -> _. destruct v; try done. exfalso. revert Ev.
    rewrite Nat.add_1_r. cbn [scan_value skip_ws]. change (is_ws "{") with false. cbv iota.
    rewrite !bool_decide_false, bool_decide_true by done. change (maxNestingDepth <=? 0) with false. cbv iota.
    assert (∀ o : option (list (string * json) * string), ('(l, r) ← o; Some (JObj l, r)) ≠ Some (JNum lit, r)) as Ho
      by (by intros [[??]|]).
    destruct (skip_ws s) as [|b t]; [by apply Ho|].
    cbv iota. rewrite (at_brace b t (λ r, Some (JObj [], r))). case_bool_decide; [done|by apply Ho]. }
  destruct (scan_more (2 * String.length s + 1) (2 * String.length (s +:+ q) + 1) q) as (Hv & _);
    [rewrite str_app_length; lia|].
  rewrite (Hv _ _ _ _ Ev Hend) in Hfull. injection Hfull as _ Hrq.
  destruct r; [by apply Hq|]. by rewrite str_app_cons in Hrq.
Qed.
