(* ===== verification/GoCrypto.v ===== *)
(** * GoCrypto: SHA-256 and the constant-time comparison.

    [crypto/sha256] computes FIPS 180-4 and [crypto/subtle] compares byte
    slices; the key store calls both.  The definitions run, and the examples
    are the published test vectors. *)

From S2P Require Import Prelude GoText GoEncoding.
Open Scope Z_scope.
Open Scope go_scope.

(** ** 32-bit words *)

Definition w32 (z : Z) : Z := z mod 2 ^ 32.
Definition add32 (x y : Z) : Z := w32 (x + y).
Definition rotr (n x : Z) : Z := Z.lor (Z.shiftr x n) (w32 (Z.shiftl x (32 - n))).
Definition not32 (x : Z) : Z := Z.lxor x (2 ^ 32 - 1).

Definition ch32 (x y z : Z) : Z := Z.lxor (Z.land x y) (Z.land (not32 x) z).
Definition maj32 (x y z : Z) : Z :=
  Z.lxor (Z.lxor (Z.land x y) (Z.land x z)) (Z.land y z).
Definition big_sigma0 (x : Z) : Z := Z.lxor (Z.lxor (rotr 2 x) (rotr 13 x)) (rotr 22 x).
Definition big_sigma1 (x : Z) : Z := Z.lxor (Z.lxor (rotr 6 x) (rotr 11 x)) (rotr 25 x).
Definition small_sigma0 (x : Z) : Z := Z.lxor (Z.lxor (rotr 7 x) (rotr 18 x)) (Z.shiftr x 3).
Definition small_sigma1 (x : Z) : Z := Z.lxor (Z.lxor (rotr 17 x) (rotr 19 x)) (Z.shiftr x 10).

(** The constants of FIPS 180-4, by their definition: the first 32 bits of the
    fractional parts of the square roots of the first 8 primes, and of the cube
    roots of the first 64. *)
Definition prime (n : Z) : bool :=
  forallb (λ k, negb (n mod Z.of_nat k =? 0)) (seq 2 (Z.to_nat n - 2)).

Definition first_primes (n : nat) : list Z :=
  take n (filter (λ z, prime z = true) (seqZ 2 320)).

(** Integer cube root of a number below [2 ^ (3 * bits)], bit by bit. *)
Definition cube_root (bits : nat) (n : Z) : Z :=
  fold_left (λ r i, let r' := r + 2 ^ Z.of_nat i in if r' ^ 3 <=? n then r' else r)
            (rev (seq 0 bits)) 0.

Definition sha256_init : list Z :=
  Eval vm_compute in map (λ p, w32 (Z.sqrt (p * 2 ^ 64))) (first_primes 8).

Definition sha256_k : list Z :=
  Eval vm_compute in map (λ p, w32 (cube_root 36 (p * 2 ^ 96))) (first_primes 64).

(** ** Padding and parsing *)

Definition be_bytes (n : nat) (z : Z) : bytes :=
  map (λ i, byte_of_Z (z / 256 ^ Z.of_nat i)) (rev (seq 0 n)).

(** One bit, zeros, and the length in bits as eight bytes. *)
Definition sha256_pad (msg : bytes) : bytes :=
  let l := length msg in
  msg ++ [x80] ++ replicate ((119 - l mod 64) mod 64)%nat x00
      ++ be_bytes 8 (8 * Z.of_nat l).

Fixpoint be_words (s : bytes) : list Z :=
  match s with
  | a :: b :: c :: d :: s' =>
      (byte_val a * 16777216 + byte_val b * 65536 + byte_val c * 256 + byte_val d)
        :: be_words s'
  | _ => []
  end.

(** ** The compression function *)

(** The message schedule, kept in reverse while it grows. *)
Fixpoint schedule (n : nat) (rw : list Z) : list Z :=
  match n with
  | O => rev rw
  | S n =>
      let w i := nth (i - 1) rw 0 in
      let next := add32 (add32 (small_sigma1 (w 2%nat)) (w 7%nat))
                        (add32 (small_sigma0 (w 15%nat)) (w 16%nat)) in
      schedule n (next :: rw)
  end.

Definition sha256_round (st : list Z) (kw : Z * Z) : list Z :=
  match st with
  | [a; b; c; d; e; f; g; h] =>
      let t1 := add32 (add32 (add32 h (big_sigma1 e)) (ch32 e f g)) (add32 kw.1 kw.2) in
      let t2 := add32 (big_sigma0 a) (maj32 a b c) in
      [add32 t1 t2; a; b; c; add32 d t1; e; f; g]
  | _ => st
  end.

Definition sha256_block (h : list Z) (block : list Z) : list Z :=
  let w := schedule 48 (rev block) in
  zip_with add32 h (fold_left sha256_round (combine sha256_k w) h).

Fixpoint sha256_blocks (fuel : nat) (h : list Z) (ws : list Z) : list Z :=
  match fuel, ws with
  | O, _ | _, [] => h
  | S fuel, _ => sha256_blocks fuel (sha256_block h (take 16 ws)) (drop 16 ws)
  end.

(** [sha256.Sum256]. *)
Definition sha256 (msg : bytes) : bytes :=
  let ws := be_words (sha256_pad msg) in
  concat (map (be_bytes 4) (sha256_blocks (length ws) sha256_init ws)).

Example sha256_empty :
  hex_encode (sha256 []) =
    "e3b0c44298fc1c149afbf4c8996fb92427ae41e4649b934ca495991b7852b855".
Proof. vm_compute. reflexivity. Qed.

Example sha256_abc :
  hex_encode (sha256 (bytes_of_string "abc")) =
    "ba7816bf8f01cfea414140de5dae2223b00361a396177a9cb410ff61f20015ad".
Proof. vm_compute. reflexivity. Qed.

Example sha256_two_blocks :
  hex_encode (sha256 (bytes_of_string
    "abcdbcdecdefdefgefghfghighijhijkijkljklmklmnlmnomnopnopq")) =
    "248d6a61d20638b8e5c026930c3e6039a33ce45964ff2167f6ecedd419db06c1".
Proof. vm_compute. reflexivity. Qed.

(** ** Digest length *)

Lemma sha256_round_length st kw : length st = 8%nat → length (sha256_round st kw) = 8%nat.
Proof.
  intros H. do 9 (destruct st as [|? st]; simplify_eq/=). done.
Qed.

Lemma sha256_block_length h b : length h = 8%nat → length (sha256_block h b) = 8%nat.
Proof.
  intros Hh. unfold sha256_block.
  assert (∀ l st, length st = 8%nat → length (fold_left sha256_round l st) = 8%nat) as Hr.
  { induction l as [|kw l IH]; intros st Hst; [done|].
    simpl. by apply IH, sha256_round_length. }
  rewrite length_zip_with, (Hr _ _ Hh), Hh. done.
Qed.

Lemma sha256_blocks_length fuel h ws :
  length h = 8%nat → length (sha256_blocks fuel h ws) = 8%nat.
Proof.
  revert h ws. induction fuel as [|fuel IH]; intros h ws Hh; [done|].
  simpl. destruct ws; [done|]. by apply IH, sha256_block_length.
Qed.

Lemma be_bytes_length n z : length (be_bytes n z) = n.
Proof. unfold be_bytes. by rewrite length_map, length_rev, length_seq. Qed.

Lemma sha256_length msg : length (sha256 msg) = 32%nat.
Proof.
  unfold sha256. set (ws := be_words _). clearbody ws.
  pose proof (sha256_blocks_length (length ws) sha256_init ws eq_refl) as H.
  remember (sha256_blocks _ _ _) as l eqn:E. clear E.
  do 9 (destruct l as [|? l]; simplify_eq/=). reflexivity.
Qed.

(** ** [subtle.ConstantTimeCompare]

    1 when the slices have the same length and contents, 0 otherwise; the loop
    accumulates the differences of all bytes. *)
Definition constant_time_compare (x y : bytes) : Z :=
  if negb (Nat.eqb (length x) (length y)) then 0
  else
    let v := fold_left (λ acc p, Z.lor acc (Z.lxor (byte_val p.1) (byte_val p.2)))
                       (combine x y) 0 in
    if v =? 0 then 1 else 0.

Lemma ctc_fold_zero l acc :
  0 ≤ acc →
  fold_left (λ acc (p : byte * byte), Z.lor acc (Z.lxor (byte_val p.1) (byte_val p.2))) l acc = 0
    ↔ acc = 0 ∧ Forall (λ p, p.1 = p.2) l.
Proof.
  revert acc. induction l as [|[a b] l IH]; intros acc Hacc; simpl.
  - split; [intros ->; auto | by intros [-> _]].
  - assert (0 ≤ Z.lxor (byte_val a) (byte_val b)).
    { apply Z.lxor_nonneg. pose proof (byte_val_range a). pose proof (byte_val_range b). lia. }
    rewrite IH by (apply Z.lor_nonneg; lia).
    rewrite Z.lor_eq_0_iff, Z.lxor_eq_0_iff, Forall_cons. simpl.
    split.
    + intros [[-> Hab] Hl]. eauto using byte_val_inj.
    + intros [-> [-> Hl]]. auto.
Qed.

(** The comparison decides equality. *)
Lemma constant_time_compare_spec x y :
  constant_time_compare x y = 1 ↔ x = y.
Proof.
  unfold constant_time_compare. destruct (Nat.eqb_spec (length x) (length y)) as [Hl|Hl]; simpl.
  - set (v := fold_left _ _ _). destruct (Z.eqb_spec v 0) as [Hv|Hv].
    + split; [intros _|done]. apply ctc_fold_zero in Hv as [_ Hall]; [|done].
      clear v. revert y Hl Hall. induction x as [|a x IH]; intros [|b y] Hl Hall; try done.
      simpl in *. apply Forall_cons in Hall as [Hab Hall]. simpl in Hab. subst.
      f_equal. apply IH; [lia|done].
    + split; [done|]. intros ->. destruct Hv. apply ctc_fold_zero; [done|]. split; [done|].
      clear. induction y; simpl; by constructor.
  - split; [done|]. intros ->. done.
Qed.
