(* ===== verification/GoPath.v ===== *)
(** * GoPath: [path/filepath] on Unix.

    [Clean], [Join], [Dir], [Base], [IsAbs] and [IsLocal] are lexical functions of
    byte strings; they are defined here on the list of path components. *)

From S2P Require Import Prelude GoText.
Open Scope Z_scope.
Open Scope go_scope.

Definition slash : ascii := "/".

(** The components between slashes, the empty ones and the dots dropped. *)
Definition comps (p : string) : list string :=
  List.filter (λ c, negb (String.eqb c EmptyString) && negb (String.eqb c ".")) (split_on slash p).

Definition is_abs (p : string) : bool := has_prefix p "/".

(** Pop on [..]; at the front a relative path keeps it and a rooted one drops
    it.  [out] is reversed. *)
Fixpoint clean_go (rooted : bool) (cs : list string) (out : list string) : list string :=
  match cs with
  | [] => rev out
  | c :: cs' =>
      if String.eqb c ".." then
        match out with
        | o :: out' =>
            if String.eqb o ".." then clean_go rooted cs' (".."%string :: out)
            else clean_go rooted cs' out'
        | [] => clean_go rooted cs' (if rooted then [] else [".."%string])
        end
      else clean_go rooted cs' (c :: out)
  end.

Definition clean_comps (p : string) : list string := clean_go (is_abs p) (comps p) [].

(** [filepath.Clean]. *)
Definition clean (p : string) : string :=
  let cs := clean_comps p in
  if is_abs p then String slash (join "/" cs)
  else match cs with [] => "." | _ => join "/" cs end.

(** [filepath.Join]: empty leading elements are ignored. *)
Fixpoint path_join (elems : list string) : string :=
  match elems with
  | [] => EmptyString
  | e :: es => if String.eqb e EmptyString then path_join es else clean (join "/" (e :: es))
  end.

(** [filepath.Dir]: what stands before the last slash, cleaned. *)
Definition dir (p : string) : string :=
  match cut_last slash p with
  | Some (d, _) => clean (d +:+ "/")
  | None => "."
  end.

(** [filepath.IsLocal]: relative, not empty, and no escape by [..]. *)
Definition is_local (p : string) : bool :=
  if is_abs p || String.eqb p EmptyString then false
  else
    let dots := existsb (λ c, String.eqb c "." || String.eqb c "..") (split_on slash p) in
    let q := if dots then clean p else p in
    negb (String.eqb q ".." || has_prefix q "../").

Example clean_ex1 : clean "/a//b/./../c/" = "/a/c".
Proof. reflexivity. Qed.
Example clean_ex2 : clean "" = ".".
Proof. reflexivity. Qed.
Example clean_ex3 : clean "a/../../b" = "../b".
Proof. reflexivity. Qed.
Example clean_ex4 : clean "/../x" = "/x".
Proof. reflexivity. Qed.
Example dir_ex1 : dir "a/b/" = "a/b".
Proof. reflexivity. Qed.
Example dir_ex2 : dir "f" = ".".
Proof. reflexivity. Qed.
Example dir_ex3 : dir "/etc/raxd" = "/etc".
Proof. reflexivity. Qed.
Example dir_ex4 : dir "/etc" = "/".
Proof. reflexivity. Qed.
Example join_ex : path_join ["/home/u"; ".local"; "state"] = "/home/u/.local/state".
Proof. reflexivity. Qed.
Example local_ex1 : is_local "a/../b" = true.
Proof. reflexivity. Qed.
Example local_ex2 : is_local "a/../../b" = false.
Proof. reflexivity. Qed.
Example local_ex3 : is_local "..." = true.
Proof. reflexivity. Qed.

(** ** Component facts *)

Lemma split_on_no_sep c s w : w ∈ split_on c s → has_char c w = false.
Proof.
  revert w. induction s as [|a s IH]; intros w Hw; simpl in Hw.
  - apply list_elem_of_singleton in Hw. by subst.
  - destruct (decide (a = c)).
    + apply elem_of_cons in Hw as [->|Hw]; [done|by apply IH].
    + destruct (split_on c s) as [|w0 ws] eqn:E.
      * apply list_elem_of_singleton in Hw. subst. unfold has_char. simpl.
        by rewrite bool_decide_eq_false_2.
      * apply elem_of_cons in Hw as [->|Hw].
        -- unfold has_char. simpl. rewrite bool_decide_eq_false_2 by done. simpl.
           apply (IH w0). set_solver.
        -- apply IH. set_solver.
Qed.

(** A component: not empty, no dot, no slash. *)
Definition good_comp (c : string) : Prop :=
  c ≠ EmptyString ∧ c ≠ "."%string ∧ has_char slash c = false.

Lemma comps_good p : Forall good_comp (comps p).
Proof.
  apply Forall_forall. intros c Hc. unfold comps in Hc.
  apply list_elem_of_In, filter_In in Hc as [Hin Hp].
  apply andb_true_iff in Hp as [H1 H2].
  apply negb_true_iff, String.eqb_neq in H1. apply negb_true_iff, String.eqb_neq in H2.
  apply list_elem_of_In, split_on_no_sep in Hin. by split_and!.
Qed.

Lemma clean_go_good rooted cs out :
  Forall good_comp cs → Forall good_comp out → Forall good_comp (clean_go rooted cs out).
Proof.
  assert (good_comp "..") as Hdd by by split_and!.
  revert out. induction cs as [|c cs IH]; intros out Hcs Hout; simpl.
  - by apply Forall_rev.
  - apply Forall_cons in Hcs as [Hc Hcs]. destruct (String.eqb c "..").
    + destruct out as [|o out].
      * apply IH; [done|]. destruct rooted; auto.
      * apply Forall_cons in Hout as [Ho Hout].
        destruct (String.eqb o ".."); apply IH; auto.
    + apply IH; auto.
Qed.

(** A rooted path has no [..] left after cleaning. *)
Lemma clean_go_rooted cs out :
  Forall (λ c, c ≠ ".."%string) out → Forall (λ c, c ≠ ".."%string) (clean_go true cs out).
Proof.
  revert out. induction cs as [|c cs IH]; intros out Hout; simpl.
  - by apply Forall_rev.
  - destruct (String.eqb_spec c "..") as [->|Hc].
    + destruct out as [|o out]; [by apply IH|].
      apply Forall_cons in Hout as [Ho Hout].
      destruct (String.eqb_spec o ".."); [done|]. by apply IH.
    + apply IH. by constructor.
Qed.

Lemma clean_comps_abs p :
  is_abs p = true → Forall (λ c, good_comp c ∧ c ≠ ".."%string) (clean_comps p).
Proof.
  intros H. unfold clean_comps. rewrite H. apply Forall_and. split.
  - apply clean_go_good; [apply comps_good|constructor].
  - apply clean_go_rooted. constructor.
Qed.

(** Components that need no cleaning are kept. *)
Lemma clean_go_id rooted cs out :
  Forall (λ c, c ≠ ".."%string) cs → clean_go rooted cs out = rev out ++ cs.
Proof.
  revert out. induction cs as [|c cs IH]; intros out H; simpl.
  - by rewrite app_nil_r.
  - apply Forall_cons in H as [Hc Hcs].
    destruct (String.eqb_spec c ".."); [done|]. rewrite IH by done.
    simpl. by rewrite <-app_assoc.
Qed.

(** Splitting undoes joining. *)
Lemma split_app_sep c u v :
  has_char c u = false → split_on c (u +:+ String c v) = u :: split_on c v.
Proof.
  induction u as [|a u IH]; intros H.
  - simpl. by rewrite decide_True.
  - unfold has_char in H. simpl in H. apply orb_false_iff in H as [Ha Hu].
    apply bool_decide_eq_false in Ha. simpl. rewrite decide_False by done.
    by rewrite IH.
Qed.

Lemma split_no_sep c u : has_char c u = false → split_on c u = [u].
Proof.
  induction u as [|a u IH]; intros H; [done|].
  unfold has_char in H. simpl in H. apply orb_false_iff in H as [Ha Hu].
  apply bool_decide_eq_false in Ha. simpl. rewrite decide_False by done. by rewrite IH.
Qed.

Lemma split_join cs :
  cs ≠ [] → Forall good_comp cs → split_on slash (join "/" cs) = cs.
Proof.
  induction cs as [|c cs IH]; intros Hne H; [done|].
  apply Forall_cons in H as [(_ & _ & Hc) Hcs]. destruct cs as [|c' cs].
  - by apply split_no_sep.
  - change (join "/" (c :: c' :: cs)) with (c +:+ String slash (join "/" (c' :: cs))).
    rewrite split_app_sep by done. by rewrite IH.
Qed.

Lemma filter_good cs :
  Forall good_comp cs →
  List.filter (λ c, negb (String.eqb c EmptyString) && negb (String.eqb c ".")) cs = cs.
Proof.
  induction cs as [|c cs IH]; intros H; [done|].
  apply Forall_cons in H as [(H1 & H2 & _) Hcs]. simpl.
  apply String.eqb_neq in H1, H2. rewrite H1, H2. simpl. by rewrite IH.
Qed.

Lemma comps_join cs : Forall good_comp cs → comps (join "/" cs) = cs.
Proof.
  intros H. unfold comps. destruct cs as [|c cs]; [done|].
  rewrite split_join by done. by apply filter_good.
Qed.

(** ** A file in a directory *)

Lemma split_app c u v : split_on c (u +:+ String c v) = split_on c u ++ split_on c v.
Proof.
  induction u as [|a u IH].
  - simpl. by rewrite decide_True.
  - rewrite str_app_cons. simpl. rewrite IH. destruct (decide (a = c)); [done|].
    by destruct (split_on c u) as [|w ws] eqn:E; [destruct u; simpl in E; repeat case_match|].
Qed.

Lemma comps_in_dir d c : good_comp c → comps (d +:+ String slash c) = comps d ++ [c].
Proof.
  intros (H1 & H2 & H3). unfold comps. rewrite split_app, List.filter_app. f_equal.
  rewrite split_no_sep by done. simpl. apply String.eqb_neq in H1, H2. by rewrite H1, H2.
Qed.

Lemma clean_go_snoc rooted cs c out :
  c ≠ ".."%string → clean_go rooted (cs ++ [c]) out = clean_go rooted cs out ++ [c].
Proof.
  intros Hc. revert out. induction cs as [|x cs IH]; intros out; simpl.
  - apply String.eqb_neq in Hc. by rewrite Hc.
  - destruct (String.eqb x ".."); [|apply IH].
    destruct out as [|o out]; [apply IH|]. destruct (String.eqb o ".."); apply IH.
Qed.

Lemma join_snoc sep l c : ∃ u, join sep (l ++ [c]) = u +:+ c.
Proof.
  induction l as [|x l [u IH]]; [by exists EmptyString|].
  exists (x +:+ sep +:+ u). change ((x :: l) ++ [c]) with (x :: (l ++ [c])).
  destruct (l ++ [c]) as [|y k] eqn:E; [by destruct l|].
  change (join sep (x :: y :: k)) with (x +:+ sep +:+ join sep (y :: k)).
  by rewrite IH, !str_app_assoc.
Qed.

(** [filepath.Join] with a plain name ends in that name. *)
Lemma path_join_ends d c :
  good_comp c → c ≠ ".."%string → ∃ u, path_join [d; c] = u +:+ c.
Proof.
  intros Hg Hc. assert (∀ e, ∃ u, clean (e +:+ String slash c) = u +:+ c) as Hclean.
  { intros e. unfold clean, clean_comps. rewrite comps_in_dir, clean_go_snoc by done.
    destruct (join_snoc "/" (clean_go (is_abs (e +:+ String slash c)) (comps e) []) c) as [u Hu].
    destruct (is_abs _).
    - exists (String slash u). by rewrite Hu, str_app_cons.
    - destruct (_ ++ [c]) eqn:E; [by destruct (clean_go _ _ _)|]. exists u. by rewrite <-Hu. }
  unfold path_join. destruct (String.eqb_spec d EmptyString) as [->|]; [|apply Hclean].
  pose proof Hg as (H1 & _). apply String.eqb_neq in H1. rewrite H1. simpl.
  unfold clean, clean_comps, comps. pose proof Hg as (_ & _ & Hs).
  rewrite split_no_sep by done. fold (comps c). rewrite filter_good by by constructor.
  apply String.eqb_neq in Hc. simpl. rewrite Hc. simpl. destruct (is_abs c).
  - by exists (str1 slash).
  - by exists EmptyString.
Qed.
