(* ===== verification/GoOs.v ===== *)
(** * GoOs: the operating system as raxd's single-file protocols see it.

    The key store and the certificate store work on a few files named by fixed
    paths, so the disk is a map from path to file.  The state also carries what
    the code takes from its surroundings: the clock, the [crypto/rand] stream,
    the names [os.CreateTemp] draws, and a list of faults.  Every fallible call
    takes the next fault: [Some] makes it fail (a failed write leaves a prefix
    of its data), [None] or an exhausted list lets it go through.  [os_trace]
    keeps every earlier content of the disk, latest first, so that a theorem can
    speak about a crash between any two calls. *)

From S2P Require Import Prelude GoText.
Open Scope Z_scope.
Open Scope go_scope.

Record file := File { f_mode : Z; f_data : bytes }.

#[export] Instance file_eq_dec : EqDecision file.
Proof. solve_decision. Defined.

(** A fault: the message of the error, and how many bytes a write got through. *)
Record fault := Fault { fault_msg : string; fault_written : nat }.

Abbreviation disk := (gmap string file).

Record os := Os {
  os_files : disk;
  os_trace : list disk;
  os_now : Z;
  os_rand : nat → byte;
  os_rpos : nat;
  os_tmp : list string;
  os_faults : list (option fault);
  os_locks : list string;
}.

(** An error of a system call; [os.IsNotExist] tells the first kind apart. *)
Inductive oserr := NotExist | OsErr (msg : string).

Definition oserr_msg (e : oserr) : string :=
  match e with NotExist => "no such file or directory" | OsErr m => m end.

(** ** Field updates *)

Definition set_files (d : disk) (s : os) : os :=
  {| os_files := d; os_trace := os_files s :: os_trace s; os_now := os_now s;
     os_rand := os_rand s; os_rpos := os_rpos s; os_tmp := os_tmp s;
     os_faults := os_faults s; os_locks := os_locks s |}.

Definition set_faults (l : list (option fault)) (s : os) : os :=
  {| os_files := os_files s; os_trace := os_trace s; os_now := os_now s;
     os_rand := os_rand s; os_rpos := os_rpos s; os_tmp := os_tmp s;
     os_faults := l; os_locks := os_locks s |}.

Definition set_rpos (n : nat) (s : os) : os :=
  {| os_files := os_files s; os_trace := os_trace s; os_now := os_now s;
     os_rand := os_rand s; os_rpos := n; os_tmp := os_tmp s;
     os_faults := os_faults s; os_locks := os_locks s |}.

Definition set_tmp (l : list string) (s : os) : os :=
  {| os_files := os_files s; os_trace := os_trace s; os_now := os_now s;
     os_rand := os_rand s; os_rpos := os_rpos s; os_tmp := l;
     os_faults := os_faults s; os_locks := os_locks s |}.

Definition set_locks (l : list string) (s : os) : os :=
  {| os_files := os_files s; os_trace := os_trace s; os_now := os_now s;
     os_rand := os_rand s; os_rpos := os_rpos s; os_tmp := os_tmp s;
     os_faults := os_faults s; os_locks := l |}.

(** ** Calls *)

Definition next_fault : M os (option fault) := λ s,
  match os_faults s with
  | [] => (None, s)
  | f :: fs => (f, set_faults fs s)
  end.

(** A call that fails when a fault is due and otherwise runs. *)
Definition fallible {A} (body : M os (result oserr A)) : M os (result oserr A) :=
  let! f := next_fault in
  match f with
  | Some e => ret (Err (OsErr (fault_msg e)))
  | None => body
  end.

(** [time.Now()]. *)
Definition now : M os Z := gets os_now.

(** [rand.Read] of [n] bytes; since Go 1.24 it does not fail. *)
Definition rand_read (n : nat) : M os bytes := λ s,
  (map (λ i, os_rand s (os_rpos s + i)%nat) (seq 0 n), set_rpos (os_rpos s + n)%nat s).

(** [os.Stat]: mode and size. *)
Definition stat (p : string) : M os (result oserr (Z * Z)) :=
  fallible (λ s,
    match os_files s !! p with
    | Some f => (Ok (f_mode f, Z.of_nat (length (f_data f))), s)
    | None => (Err NotExist, s)
    end).

Definition read_file (p : string) : M os (result oserr bytes) :=
  fallible (λ s,
    match os_files s !! p with
    | Some f => (Ok (f_data f), s)
    | None => (Err NotExist, s)
    end).

(** [os.OpenFile p O_RDONLY]. *)
Definition open_read (p : string) : M os (result oserr unit) :=
  fallible (λ s,
    match os_files s !! p with
    | Some _ => (Ok tt, s)
    | None => (Err NotExist, s)
    end).

(** [os.OpenFile p (O_RDWR|O_CREATE) mode]. *)
Definition open_create (p : string) (mode : Z) : M os (result oserr unit) :=
  fallible (λ s,
    match os_files s !! p with
    | Some _ => (Ok tt, s)
    | None => (Ok tt, set_files (<[p := File mode []]> (os_files s)) s)
    end).

(** [os.CreateTemp]: mode 0600, a name no file has.  The drawn name comes from
    [os_tmp]; when the name is taken the call fails. *)
Definition create_temp (d prefix suffix : string) : M os (result oserr string) :=
  fallible (λ s,
    let n := match os_tmp s with n :: _ => n | [] => "0"%string end in
    let p := d +:+ "/" +:+ prefix +:+ n +:+ suffix in
    let s := set_tmp (tail (os_tmp s)) s in
    match os_files s !! p with
    | Some _ => (Err (OsErr "file exists"), s)
    | None => (Ok p, set_files (<[p := File 384 []]> (os_files s)) s)
    end).

(** Calls on an open file, which is named by its path: nobody renames it while
    it is open. *)
Definition update_file (p : string) (f : file → file) : M os unit := λ s,
  match os_files s !! p with
  | Some x => (tt, set_files (<[p := f x]> (os_files s)) s)
  | None => (tt, s)
  end.

Definition chmod (p : string) (mode : Z) : M os (result oserr unit) :=
  fallible (do! update_file p (λ f, File mode (f_data f)) in ret (Ok tt)).

Definition write (p : string) (data : bytes) : M os (result oserr unit) :=
  let! f := next_fault in
  match f with
  | Some e =>
      do! update_file p (λ f, File (f_mode f) (f_data f ++ take (fault_written e) data)) in
      ret (Err (OsErr (fault_msg e)))
  | None =>
      do! update_file p (λ f, File (f_mode f) (f_data f ++ data)) in ret (Ok tt)
  end.

Definition sync (p : string) : M os (result oserr unit) := fallible (ret (Ok tt)).
Definition close (p : string) : M os (result oserr unit) := fallible (ret (Ok tt)).

Definition rename (a b : string) : M os (result oserr unit) :=
  fallible (λ s,
    match os_files s !! a with
    | Some f => (Ok tt, set_files (<[b := f]> (delete a (os_files s))) s)
    | None => (Err NotExist, s)
    end).

Definition remove (p : string) : M os (result oserr unit) :=
  fallible (λ s,
    match os_files s !! p with
    | Some _ => (Ok tt, set_files (delete p (os_files s)) s)
    | None => (Err NotExist, s)
    end).

(** [syscall.Flock] on an open file, and its release; only the bookkeeping of
    held locks (who waits for whom is the subject of the lock component). *)
Definition flock (p : string) : M os (result oserr unit) :=
  fallible (λ s, (Ok tt, set_locks (p :: os_locks s) s)).
Fixpoint drop_first (p : string) (l : list string) : list string :=
  match l with
  | [] => []
  | q :: l' => if String.eqb q p then l' else q :: drop_first p l'
  end.
Definition funlock (p : string) : M os unit :=
  modify (λ s, set_locks (drop_first p (os_locks s)) s).

(** ** Rules for the calls *)

Lemma set_faults_id s : set_faults (os_faults s) s = s.
Proof. by destruct s. Qed.

Section os_rules.
Implicit Types s : os.

Lemma wp_next_fault Q s :
  (∀ l f, Q f (set_faults l s)) → wp next_fault Q s.
Proof.
  intros H. unfold wp, next_fault. destruct (os_faults s) as [|f l] eqn:E; simpl; [|done].
  specialize (H [] None). rewrite <-E in H. by rewrite set_faults_id in H.
Qed.

Lemma wp_fallible {A} (body : M os (result oserr A)) Q s :
  (∀ l m, Q (Err (OsErr m)) (set_faults l s)) →
  (∀ l, wp body Q (set_faults l s)) →
  wp (fallible body) Q s.
Proof.
  intros He Hb. unfold fallible. apply wp_bind, wp_next_fault.
  intros l [f|]; [apply He | apply Hb].
Qed.

Lemma wp_update_file p g Q s :
  (∀ x, os_files s !! p = Some x → Q tt (set_files (<[p := g x]> (os_files s)) s)) →
  (os_files s !! p = None → Q tt s) →
  wp (update_file p g) Q s.
Proof. unfold wp, update_file. intros H1 H2. destruct (os_files s !! p); eauto. Qed.

Lemma wp_create_temp d prefix suffix Q s :
  (∀ l m t, Q (Err (OsErr m)) (set_tmp t (set_faults l s))) →
  (∀ l t p, os_files s !! p = None → (∃ n, p = d +:+ "/" +:+ prefix +:+ n +:+ suffix) →
    Q (Ok p) (set_files (<[p := File 384 []]> (os_files s)) (set_tmp t (set_faults l s)))) →
  wp (create_temp d prefix suffix) Q s.
Proof.
  intros He Hok. apply wp_fallible.
  - intros l m. specialize (He l m (os_tmp s)). by destruct s.
  - intros l. unfold wp. simpl. destruct (os_files s !! _) eqn:E; simpl; eauto.
Qed.

(** A call on the open file [p], which exists. *)
Lemma wp_chmod p m x Q s :
  os_files s !! p = Some x →
  (∀ l e, Q (Err (OsErr e)) (set_faults l s)) →
  (∀ l, Q (Ok tt) (set_files (<[p := File m (f_data x)]> (os_files s)) (set_faults l s))) →
  wp (chmod p m) Q s.
Proof.
  intros Hx He Hok. apply wp_fallible; [done|]. intros l. apply wp_bind, wp_update_file; simpl.
  - intros y Hy. simplify_eq. apply Hok.
  - congruence.
Qed.

Lemma wp_write p data x Q s :
  os_files s !! p = Some x →
  (∀ l e n, Q (Err (OsErr e))
     (set_files (<[p := File (f_mode x) (f_data x ++ take n data)]> (os_files s)) (set_faults l s))) →
  (∀ l, Q (Ok tt)
     (set_files (<[p := File (f_mode x) (f_data x ++ data)]> (os_files s)) (set_faults l s))) →
  wp (write p data) Q s.
Proof.
  intros Hx He Hok. unfold write. apply wp_bind, wp_next_fault.
  intros l [f|]; apply wp_bind, wp_update_file; simpl; try congruence;
    intros y Hy; simplify_eq; [apply He | apply Hok].
Qed.

Lemma wp_sync p Q s :
  (∀ l e, Q (Err (OsErr e)) (set_faults l s)) →
  (∀ l, Q (Ok tt) (set_faults l s)) → wp (sync p) Q s.
Proof. intros He Hok. by apply wp_fallible. Qed.

Lemma wp_close p Q s :
  (∀ l e, Q (Err (OsErr e)) (set_faults l s)) →
  (∀ l, Q (Ok tt) (set_faults l s)) → wp (close p) Q s.
Proof. intros He Hok. by apply wp_fallible. Qed.

Lemma wp_rename a b x Q s :
  os_files s !! a = Some x →
  (∀ l e, Q (Err (OsErr e)) (set_faults l s)) →
  (∀ l, Q (Ok tt) (set_files (<[b := x]> (delete a (os_files s))) (set_faults l s))) →
  wp (rename a b) Q s.
Proof.
  intros Hx He Hok. apply wp_fallible; [done|]. intros l. unfold wp. simpl.
  rewrite Hx. simpl. apply Hok.
Qed.

Lemma wp_remove p Q s :
  (∀ l e, Q (Err (OsErr e)) (set_faults l s)) →
  (∀ l, os_files s !! p = None → Q (Err NotExist) (set_faults l s)) →
  (∀ l x, os_files s !! p = Some x →
     Q (Ok tt) (set_files (delete p (os_files s)) (set_faults l s))) →
  wp (remove p) Q s.
Proof.
  intros He Hn Hok. apply wp_fallible; [done|]. intros l. unfold wp. simpl.
  destruct (os_files s !! p) eqn:E; simpl; eauto.
Qed.

Lemma wp_read_file p Q s :
  (∀ l e, Q (Err (OsErr e)) (set_faults l s)) →
  (∀ l, os_files s !! p = None → Q (Err NotExist) (set_faults l s)) →
  (∀ l x, os_files s !! p = Some x → Q (Ok (f_data x)) (set_faults l s)) →
  wp (read_file p) Q s.
Proof.
  intros He Hn Hok. apply wp_fallible; [done|]. intros l. unfold wp. simpl.
  destruct (os_files s !! p) eqn:E; simpl; eauto.
Qed.

Lemma wp_open_read p Q s :
  (∀ l e, Q (Err (OsErr e)) (set_faults l s)) →
  (∀ l, os_files s !! p = None → Q (Err NotExist) (set_faults l s)) →
  (∀ l x, os_files s !! p = Some x → Q (Ok tt) (set_faults l s)) →
  wp (open_read p) Q s.
Proof.
  intros He Hn Hok. apply wp_fallible; [done|]. intros l. unfold wp. simpl.
  destruct (os_files s !! p) eqn:E; simpl; eauto.
Qed.

Lemma wp_open_create p m Q s :
  (∀ l e, Q (Err (OsErr e)) (set_faults l s)) →
  (∀ l x, os_files s !! p = Some x → Q (Ok tt) (set_faults l s)) →
  (∀ l, os_files s !! p = None →
     Q (Ok tt) (set_files (<[p := File m []]> (os_files s)) (set_faults l s))) →
  wp (open_create p m) Q s.
Proof.
  intros He Hx Hn. apply wp_fallible; [done|]. intros l. unfold wp. simpl.
  destruct (os_files s !! p) eqn:E; simpl; eauto.
Qed.

Lemma wp_flock p Q s :
  (∀ l e, Q (Err (OsErr e)) (set_faults l s)) →
  (∀ l, Q (Ok tt) (set_locks (p :: os_locks s) (set_faults l s))) →
  wp (flock p) Q s.
Proof. intros He Hok. apply wp_fallible; [done|]. intros l. apply Hok. Qed.

Lemma wp_funlock p Q s :
  Q tt (set_locks (drop_first p (os_locks s)) s) → wp (funlock p) Q s.
Proof. done. Qed.

Lemma wp_rand_read n Q s :
  (∀ b, length b = n → Q b (set_rpos (os_rpos s + n)%nat s)) → wp (rand_read n) Q s.
Proof. intros H. unfold wp. simpl. apply H. by rewrite length_map, length_seq. Qed.

Lemma wp_now Q s : Q (os_now s) s → wp now Q s.
Proof. done. Qed.
End os_rules.

(** ** Machines on which no call fails *)

(** No fault is due. *)
Definition quiet (s : os) : Prop := os_faults s = [].

Lemma wp_fallible_quiet {A} (body : M os (result oserr A)) Q s :
  quiet s → wp body Q s → wp (fallible body) Q s.
Proof.
  intros Hq H. unfold wp, fallible, bind, next_fault. rewrite Hq. exact H.
Qed.

(** A call on an open file. *)
Lemma update_quiet t f s :
  quiet s → is_Some (os_files s !! t) →
  wp (update_file t f) (λ _ s', quiet s' ∧ is_Some (os_files s' !! t)) s.
Proof.
  intros Hq [x Hx]. apply wp_update_file; [|congruence]. intros y Hy.
  split; [done|]. simpl. rewrite lookup_insert_eq. eauto.
Qed.
