(* ===== verification/GoAtomic.v ===== *)
(** * GoAtomic: replacing a file in one step.

    The key store and the certificate store write a file the same way: a temp
    file of mode 0600 in the same directory, chmod, write, sync, close, rename.
    These lemmas follow the temp file through the calls; whatever fails, the
    disk is the one before (perhaps with the temp file beside it) or the one
    with the complete new file. *)

From S2P Require Import Prelude GoText GoOs.
Open Scope Z_scope.
Open Scope go_scope.

Section write.
(** The target, the temp file, the final mode and content, what is known of the
    content, and the state before. *)
Variables (p t : string) (perm : Z) (data : bytes) (ok : Prop) (s0 : os).

(** What the temp file is like: mode 0600 or the final one, and a part of the
    content. *)
Definition temp_ok (f : file) : Prop :=
  (f_mode f = 384 ∨ f_mode f = perm) ∧ f_data f `prefix_of` data.

(** The three kinds of disk a write goes through: the one before, the one
    before plus the temp file, and the one with the new file. *)
Inductive write_disk : disk → Prop :=
| WD_before : write_disk (os_files s0)
| WD_temp f : t ≠ p → temp_ok f → write_disk (<[t := f]> (os_files s0))
| WD_after : ok → write_disk (<[p := File perm data]> (os_files s0)).

(** Nothing but the disk moved since [s0], and only through such disks. *)
Definition write_frame (s : os) : Prop :=
  os_locks s = os_locks s0 ∧ os_now s = os_now s0 ∧
  ∃ ds, os_trace s = ds ++ os_trace s0 ∧ Forall write_disk ds.

Definition at_temp (x : file) (s : os) : Prop :=
  t ≠ p ∧ os_files s = <[t := x]> (os_files s0) ∧ temp_ok x ∧ write_frame s.
Definition at_before (s : os) : Prop := os_files s = os_files s0 ∧ write_frame s.
Definition at_after (s : os) : Prop :=
  os_files s = <[p := File perm data]> (os_files s0) ∧ write_frame s.

Lemma frame_step d s :
  write_disk (os_files s) → write_frame s → write_frame (set_files d s).
Proof.
  intros Hd (Hl & Hn & ds & Ht & Hds). split_and!; [done..|].
  exists (os_files s :: ds). simpl. rewrite Ht. split; [done|]. by constructor.
Qed.

Lemma frame_faults l s : write_frame s → write_frame (set_faults l s).
Proof. done. Qed.

Lemma at_temp_lookup x s : at_temp x s → os_files s !! t = Some x.
Proof. intros (_ & -> & _). apply lookup_insert_eq. Qed.

Lemma at_temp_update x y l s :
  at_temp x s → temp_ok y →
  at_temp y (set_files (<[t := y]> (os_files s)) (set_faults l s)).
Proof.
  intros (Hne & Hf & Hm & Hfr) Hy. split_and!; [done| |done|].
  - simpl. rewrite Hf. apply insert_insert_eq.
  - apply frame_step, frame_faults, Hfr. simpl. rewrite Hf. by constructor.
Qed.

Lemma at_temp_chmod x s :
  at_temp x s →
  wp (chmod t perm) (λ r s', match r with
    | Ok _ => at_temp (File perm (f_data x)) s' | Err _ => at_temp x s' end) s.
Proof.
  intros H. pose proof H as (_ & _ & [_ Hp] & _).
  eapply wp_chmod; [by apply at_temp_lookup| |]; intros.
  - exact H.
  - apply at_temp_update with x; [done|]. split; [by right|done].
Qed.

Lemma at_temp_write m s :
  at_temp (File m []) s →
  wp (write t data) (λ r s', match r with
    | Ok _ => at_temp (File m data) s' | Err _ => ∃ y, at_temp y s' end) s.
Proof.
  intros H. pose proof H as (_ & _ & [Hm _] & _).
  eapply wp_write; [by apply at_temp_lookup| |]; intros.
  - eexists. apply at_temp_update with (File m []); [done|]. split; [done|].
    simpl. eexists. by rewrite take_drop.
  - by apply at_temp_update with (File m []).
Qed.

Lemma at_temp_sync x s : at_temp x s → wp (sync t) (λ _ s', at_temp x s') s.
Proof. intros H. by apply wp_sync. Qed.

Lemma at_temp_close x s : at_temp x s → wp (close t) (λ _ s', at_temp x s') s.
Proof. intros H. by apply wp_close. Qed.

Lemma at_temp_remove x s :
  os_files s0 !! t = None → at_temp x s →
  wp (remove t) (λ _ s', at_temp x s' ∨ at_before s') s.
Proof.
  intros Hn H. pose proof H as (Hne & Hf & Hm & Hfr). apply wp_remove; intros; [by left|by left|].
  right. split.
  - simpl. rewrite Hf. rewrite delete_insert_eq. by apply delete_id.
  - apply frame_step, frame_faults, Hfr. simpl. rewrite Hf. by constructor.
Qed.

Lemma at_temp_rename s :
  os_files s0 !! t = None → at_temp (File perm data) s →
  wp (rename t p) (λ r s', match r with
    | Ok _ => at_after s' | Err _ => at_temp (File perm data) s' end) s.
Proof.
  intros Hn H. pose proof H as (Hne & Hf & Hm & Hfr).
  eapply wp_rename; [by eapply at_temp_lookup| |]; intros; [exact H|].
  split.
  - simpl. rewrite Hf, delete_insert_eq. by rewrite delete_id.
  - apply frame_step, frame_faults, Hfr. simpl. rewrite Hf. by constructor.
Qed.

(** The temp file is closed and removed, as far as that works. *)
Definition gone_or_left (s : os) : Prop := (∃ y, at_temp y s) ∨ at_before s.

Lemma at_temp_close_remove x s :
  os_files s0 !! t = None → at_temp x s →
  wp (do! close t in remove t) (λ _ s', gone_or_left s') s.
Proof.
  intros Hn H. wp_call at_temp_close. intros ? s1 H1.
  eapply wp_mono; [by eapply at_temp_remove|]. intros ? s2 [H2|H2]; [left; eauto|by right].
Qed.
End write.

Lemma write_frame_refl p t perm data ok s l u :
  write_frame p t perm data ok s (set_tmp u (set_faults l s)).
Proof. split_and!; [done..|]. by exists []. Qed.

(** The temp file right after [os.CreateTemp]. *)
Lemma at_temp_created p t perm data ok s l u :
  t ≠ p →
  at_temp p t perm data ok s (File 384 [])
    (set_files (<[t := File 384 []]> (os_files s)) (set_tmp u (set_faults l s))).
Proof.
  intros Hne. split_and!; [done..| |].
  { split; [by left|]. apply prefix_nil. }
  apply frame_step; [exact (WD_before p t perm data ok s)|apply write_frame_refl].
Qed.
