(* ===== verification/Keystore.v ===== *)
(** * Keystore: [internal/keystore], the API key database.

    [crypto.go] and [record.go] (key bodies, salts, ids, hashes, the record and
    its disk form), [lock.go] as one operation sees it, and the methods of
    [Store] in [keystore.go], each a program over the operating system of
    [GoOs] and the in-memory usage buffer.  The interleaving of several
    processes over the advisory lock is the subject of [KeystoreLock]. *)

From S2P Require Import Prelude GoText GoEncoding GoCrypto GoPath GoOs.
Open Scope Z_scope.
Open Scope go_scope.

(** ** Data *)

(** [time.Time]: nanoseconds since the zero instant, year 1. *)
Abbreviation Time := Z (only parsing).
Definition zero_time : Time := 0.

Record KeyRecord := {
  ID : string;
  Label : string;
  Created : Time;
  LastUsed : Time;
  RevokedAt : Time;
  Revoked : bool;
  Fingerprint_ : string;
  hash : bytes;
  salt : bytes;
}.

Record dbRecord := {
  d_ID : string;
  d_Label : string;
  d_Created : Time;
  d_LastUsed : Time;
  d_RevokedAt : Time;
  d_Revoked : bool;
  d_Fingerprint : string;
  d_Hash : bytes;
  d_Salt : bytes;
}.

Definition toDBRecord (r : KeyRecord) : dbRecord :=
  {| d_ID := ID r; d_Label := Label r; d_Created := Created r;
     d_LastUsed := LastUsed r; d_RevokedAt := RevokedAt r; d_Revoked := Revoked r;
     d_Fingerprint := Fingerprint_ r; d_Hash := hash r; d_Salt := salt r |}.

Definition fromDBRecord (d : dbRecord) : KeyRecord :=
  {| ID := d_ID d; Label := d_Label d; Created := d_Created d;
     LastUsed := d_LastUsed d; RevokedAt := d_RevokedAt d; Revoked := d_Revoked d;
     Fingerprint_ := d_Fingerprint d; hash := d_Hash d; salt := d_Salt d |}.

Record Database := { Version : Z; Keys : list dbRecord }.

Definition dbVersion : Z := 1.
Definition empty_db : Database := {| Version := dbVersion; Keys := [] |}.

Definition with_LastUsed (t : Time) (r : KeyRecord) : KeyRecord :=
  {| ID := ID r; Label := Label r; Created := Created r; LastUsed := t;
     RevokedAt := RevokedAt r; Revoked := Revoked r; Fingerprint_ := Fingerprint_ r;
     hash := hash r; salt := salt r |}.

Definition d_with_LastUsed (t : Time) (d : dbRecord) : dbRecord :=
  {| d_ID := d_ID d; d_Label := d_Label d; d_Created := d_Created d; d_LastUsed := t;
     d_RevokedAt := d_RevokedAt d; d_Revoked := d_Revoked d;
     d_Fingerprint := d_Fingerprint d; d_Hash := d_Hash d; d_Salt := d_Salt d |}.

Definition d_revoke (t : Time) (d : dbRecord) : dbRecord :=
  {| d_ID := d_ID d; d_Label := d_Label d; d_Created := d_Created d;
     d_LastUsed := d_LastUsed d; d_RevokedAt := t; d_Revoked := true;
     d_Fingerprint := d_Fingerprint d; d_Hash := d_Hash d; d_Salt := d_Salt d |}.

#[export] Instance dbRecord_eq_dec : EqDecision dbRecord.
Proof. solve_decision. Defined.
#[export] Instance Database_eq_dec : EqDecision Database.
Proof. solve_decision. Defined.

(** ** Errors *)

Inductive kerr :=
| ErrNotFound
| ErrAlreadyRevoked
| ErrCorrupt (detail : string)
| ErrLabelTooLong
| ErrStore (msg : string).

#[export] Instance kerr_eq_dec : EqDecision kerr.
Proof. solve_decision. Defined.

(** [err.Error()]. *)
Definition kerr_msg (e : kerr) : string :=
  match e with
  | ErrNotFound => "key not found"
  | ErrAlreadyRevoked => "key is already revoked"
  | ErrCorrupt d =>
      "key store is corrupted or unreadable" +:+ (if String.eqb d "" then "" else ": " +:+ d)
  | ErrLabelTooLong => "label is too long (max 64 characters)"
  | ErrStore m => m
  end.

(** [errors.Is err ErrCorrupt]. *)
Definition is_corrupt (e : kerr) : bool :=
  match e with ErrCorrupt _ => true | _ => false end.

(** ** crypto.go *)

Definition keyBodyBytes : nat := 32.
Definition saltBytes : nat := 16.
Definition idBytes : nat := 8.
Definition keyPrefix : string := "rax_" +:+ "live_".

Definition generateBody : M os string :=
  let! buf := rand_read keyBodyBytes in
  ret (keyPrefix +:+ raw_url_encode buf).

Definition generateSalt : M os bytes := rand_read saltBytes.

(** The loop runs until a draw is not taken; [fuel] bounds the draws and [None]
    says the bound was reached. *)
Fixpoint generateID (fuel : nat) (existing : list string) : M os (option string) :=
  match fuel with
  | O => ret None
  | S fuel =>
      let! buf := rand_read idBytes in
      let id := hex_encode buf in
      if bool_decide (id ∈ existing) then generateID fuel existing
      else ret (Some id)
  end.

Definition hashKey (presented : string) (salt : bytes) : bytes :=
  sha256 (bytes_of_string presented ++ salt).

Definition Fingerprint (presented : string) : string :=
  hex_encode (take 6 (sha256 (bytes_of_string presented))).

(** ** The JSON codec

    [encoding/json] on [Database].  Client theorems use these laws: what
    [Marshal] wrote, [Unmarshal] reads back as long as every string is UTF-8
    (the encoder replaces other bytes), and no document is empty; [Marshal] fails
    on years RFC 3339 cannot write only.  [KeystoreJson] is the library's codec,
    which has these laws. *)
Class JsonCodec := {
  json_marshal : Database → option bytes;
  json_unmarshal : bytes → option Database;
}.

Definition text_ok (d : dbRecord) : bool :=
  valid_utf8 (d_ID d) && valid_utf8 (d_Label d) && valid_utf8 (d_Fingerprint d).
Definition db_text_ok (db : Database) : bool := forallb text_ok (Keys db).

(** From year 1 until the end of 9999. *)
Definition year_10000 : Time := 3652059 * (86400 * 10 ^ 9).
Definition time_ok (t : Time) : bool := (0 <=? t) && (t <? year_10000).
Definition times_ok (d : dbRecord) : bool :=
  time_ok (d_Created d) && time_ok (d_LastUsed d) && time_ok (d_RevokedAt d).
Definition db_times_ok (db : Database) : bool :=
  (min_int64 <=? Version db) && (Version db <=? max_int64) && forallb times_ok (Keys db).

Class JsonLaws `{JsonCodec} := {
  unmarshal_marshal db data :
    db_text_ok db = true → json_marshal db = Some data → json_unmarshal data = Some db;
  marshal_nonempty db : json_marshal db ≠ Some [];
  marshal_some db : db_times_ok db = true → is_Some (json_marshal db);
}.

(** ** lock.go, as one operation sees it *)

Inductive lockMode := lockShared | lockExclusive.

Definition flock_file (path : string) : M os (result kerr (option string)) :=
  let! r := flock path in
  match r with
  | Err e =>
      do! close path in
      ret (Err (ErrStore ("key store is locked by another process: " +:+ oserr_msg e)))
  | Ok _ => ret (Ok (Some path))
  end.

(** [Ok None] says that the file is absent (shared mode only). *)
Definition acquireLock (path : string) (mode : lockMode) : M os (result kerr (option string)) :=
  match mode with
  | lockShared =>
      let! r := open_read path in
      match r with
      | Err NotExist => ret (Ok None)
      | Err e => ret (Err (ErrStore ("cannot open key store: " +:+ oserr_msg e)))
      | Ok _ => flock_file path
      end
  | lockExclusive =>
      let! r := open_create path 384 in
      match r with
      | Err e => ret (Err (ErrStore ("cannot open key store: " +:+ oserr_msg e)))
      | Ok _ => flock_file path
      end
  end.

Definition releaseLock (f : option string) : M os unit :=
  match f with
  | None => ret tt
  | Some p => do! funlock p in do! close p in ret tt
  end.

(** ** keystore.go *)

Section store.
Context `{JsonCodec}.

(** *** The file *)

Definition readDB (path : string) : M os (result kerr Database) :=
  let! r := read_file path in
  match r with
  | Err NotExist => ret (Ok empty_db)
  | Err e => ret (Err (ErrCorrupt (oserr_msg e)))
  | Ok [] => ret (Ok empty_db)
  | Ok data =>
      match json_unmarshal data with
      | None => ret (Err (ErrCorrupt EmptyString))
      | Some db => ret (Ok db)
      end
  end.

(** [_ = tmp.Close(); _ = os.Remove(tmpName)] before an error return. *)
Definition discard_tmp (tmp : string) (e : kerr) : M os (result kerr unit) :=
  do! close tmp in do! remove tmp in ret (Err e).

(** temp file, chmod 0600, write, sync, close, rename, fsync of the directory. *)
Definition writeDB (path : string) (db : Database) : M os (result kerr unit) :=
  match json_marshal db with
  | None => ret (Err (ErrStore "cannot serialise key store"))
  | Some data =>
      let! r := create_temp (dir path) ".keys-" ".tmp" in
      match r with
      | Err e => ret (Err (ErrStore ("cannot create temp file for key store: " +:+ oserr_msg e)))
      | Ok tmp =>
          let! r := chmod tmp 384 in
          match r with
          | Err e => discard_tmp tmp (ErrStore ("cannot set temp file permissions: " +:+ oserr_msg e))
          | Ok _ =>
          let! r := write tmp data in
          match r with
          | Err e => discard_tmp tmp (ErrStore ("cannot write key store: " +:+ oserr_msg e))
          | Ok _ =>
          let! r := sync tmp in
          match r with
          | Err e => discard_tmp tmp (ErrStore ("cannot sync key store: " +:+ oserr_msg e))
          | Ok _ =>
          let! r := close tmp in
          match r with
          | Err e =>
              do! remove tmp in
              ret (Err (ErrStore ("cannot close temp key store: " +:+ oserr_msg e)))
          | Ok _ =>
          let! r := rename tmp path in
          match r with
          | Err e =>
              do! remove tmp in
              ret (Err (ErrStore ("cannot commit key store: " +:+ oserr_msg e)))
          | Ok _ =>
              (* fsync of the directory: best effort *)
              let! d := fallible (ret (Ok tt)) in
              match d with
              | Ok _ => do! sync (dir path) in do! close (dir path) in ret (Ok tt)
              | Err _ => ret (Ok tt)
              end
          end end end end end
      end
  end.

(** *** The store *)

Record Store := { path : string; usageBuf : gmap string Time }.

(** A process: its store object and the machine it runs on. *)
Record proc := { p_store : Store; p_os : os }.

Definition on_os {A} (m : M os A) : M proc A :=
  zoom p_os (λ o p, {| p_store := p_store p; p_os := o |}) m.

Definition set_usageBuf (f : gmap string Time → gmap string Time) : M proc unit :=
  modify (λ p, {| p_store := {| path := path (p_store p); usageBuf := f (usageBuf (p_store p)) |};
                  p_os := p_os p |}).

(** [defer releaseLock(lf)]: the body, then the release. *)
Definition deferring {A} (lf : option string) (body : M proc A) : M proc A :=
  let! r := body in do! on_os (releaseLock lf) in ret r.

(** [Open] builds the store, or fails when a non-empty file does not parse. *)
Definition Open (path : string) : M os (result kerr Store) :=
  let store := {| path := path; usageBuf := ∅ |} in
  let! info := stat path in
  match info with
  | Ok (_, size) =>
      if 0 <? size then
        let! r := read_file path in
        match r with
        | Err e => ret (Err (ErrCorrupt (oserr_msg e)))
        | Ok data =>
            match json_unmarshal data with
            | None => ret (Err (ErrCorrupt EmptyString))
            | Some _ => ret (Ok store)
            end
        end
      else ret (Ok store)
  | Err _ => ret (Ok store)
  end.

(** [fuel] bounds the draws of [generateID]; [None]: still drawing. *)
Definition Create (fuel : nat) (label : string) :
    M proc (option (result kerr (string * KeyRecord))) :=
  if (64 <? Z.of_nat (rune_count label)) then ret (Some (Err ErrLabelTooLong)) else
  let! p := gets (λ p, path (p_store p)) in
  let! lk := on_os (acquireLock p lockExclusive) in
  match lk with
  | Err e => ret (Some (Err e))
  | Ok lf =>
      deferring lf
        (let! r := on_os (readDB p) in
         match r with
         | Err e => ret (Some (Err e))
         | Ok db =>
             let existing := map d_ID (Keys db) in
             let! body := on_os generateBody in
             let! slt := on_os generateSalt in
             let h := hashKey body slt in
             let! oid := on_os (generateID fuel existing) in
             match oid with
             | None => ret None
             | Some id =>
                 let fp := Fingerprint body in
                 let! t := on_os now in
                 let rec := {| ID := id; Label := label; Created := t; LastUsed := zero_time;
                               RevokedAt := zero_time; Revoked := false; Fingerprint_ := fp;
                               hash := h; salt := slt |} in
                 let db' := {| Version := Version db; Keys := Keys db ++ [toDBRecord rec] |} in
                 let! w := on_os (writeDB p db') in
                 match w with
                 | Err e => ret (Some (Err e))
                 | Ok _ => ret (Some (Ok (body, rec)))
                 end
             end
         end)
  end.

Definition List : M proc (result kerr (list KeyRecord)) :=
  let! p := gets (λ p, path (p_store p)) in
  let! lk := on_os (acquireLock p lockShared) in
  match lk with
  | Err e => ret (Err e)
  | Ok None => ret (Ok [])
  | Ok lf =>
      deferring lf
        (let! r := on_os (readDB p) in
         match r with
         | Err e => ret (Err e)
         | Ok db =>
             ret (Ok (map fromDBRecord (List.filter (λ d, negb (d_Revoked d)) (Keys db))))
         end)
  end.

(** The scan of [Revoke]: the first record with the id decides. *)
Fixpoint revoke_first (id : string) (t : Time) (ks : list dbRecord) :
    result kerr (list dbRecord) :=
  match ks with
  | [] => Err ErrNotFound
  | k :: ks' =>
      if String.eqb (d_ID k) id then
        if d_Revoked k then Err ErrAlreadyRevoked else Ok (d_revoke t k :: ks')
      else
        match revoke_first id t ks' with
        | Ok ks'' => Ok (k :: ks'')
        | Err e => Err e
        end
  end.

Definition Revoke (id : string) : M proc (result kerr unit) :=
  let! p := gets (λ p, path (p_store p)) in
  let! lk := on_os (acquireLock p lockExclusive) in
  match lk with
  | Err e => ret (Err e)
  | Ok lf =>
      deferring lf
        (let! r := on_os (readDB p) in
         match r with
         | Err e => ret (Err e)
         | Ok db =>
             let! t := on_os now in
             match revoke_first id t (Keys db) with
             | Err e => ret (Err e)
             | Ok ks => on_os (writeDB p {| Version := Version db; Keys := ks |})
             end
         end)
  end.

(** Every active record is compared; the last match wins. *)
Definition candidate (presented : string) (d : dbRecord) : bool :=
  negb (d_Revoked d)
  && (constant_time_compare (hashKey presented (d_Salt d)) (d_Hash d) =? 1).

Definition Verify (presented : string) : M proc (result kerr (option KeyRecord)) :=
  let! p := gets (λ p, path (p_store p)) in
  let! lk := on_os (acquireLock p lockShared) in
  match lk with
  | Err e => ret (Err e)
  | Ok None => ret (Ok None)
  | Ok lf =>
      deferring lf
        (let! r := on_os (readDB p) in
         match r with
         | Err e => ret (Err e)
         | Ok db =>
             match find_last (candidate presented) (Keys db) with
             | None => ret (Ok None)
             | Some d =>
                 let! ts := on_os now in
                 do! set_usageBuf (insert (d_ID d) ts) in
                 ret (Ok (Some (with_LastUsed ts (fromDBRecord d))))
             end
         end)
  end.

(** The update loop of [FlushUsage]. *)
Definition apply_usage (snapshot : gmap string Time) (ks : list dbRecord) : list dbRecord :=
  map (λ k, match snapshot !! d_ID k with
            | None => k
            | Some t => if d_Revoked k then k else d_with_LastUsed t k
            end) ks.

(** Entries of the snapshot that the buffer does not have again. *)
Definition restore (snapshot : gmap string Time) : M proc unit :=
  set_usageBuf (λ buf, buf ∪ snapshot).

Definition FlushUsage : M proc (result kerr unit) :=
  let! snapshot := gets (λ p, usageBuf (p_store p)) in
  if decide (snapshot = ∅) then ret (Ok tt) else
  do! set_usageBuf (λ _, ∅) in
  let! p := gets (λ p, path (p_store p)) in
  let! lk := on_os (acquireLock p lockExclusive) in
  match lk with
  | Err e => do! restore snapshot in ret (Err e)
  | Ok lf =>
      deferring lf
        (let! r := on_os (readDB p) in
         match r with
         | Err e => do! restore snapshot in ret (Err e)
         | Ok db =>
             on_os (writeDB p {| Version := Version db;
                                 Keys := apply_usage snapshot (Keys db) |})
         end)
  end.

End store.
