(* ===== verification/KeystoreProofs.v ===== *)
(** * KeystoreProofs: what the key store promises.

    The file is abstracted to the database it denotes ([db_at]); every method
    of [Store] refines an operation on databases, whatever system call fails on
    the way, and [writeDB] replaces the file in one step. *)

From S2P Require Import Prelude GoText GoEncoding GoCrypto GoPath GoOs GoAtomic Keystore.
Open Scope Z_scope.
Open Scope go_scope.

(** ** ASCII strings are UTF-8 *)

Lemma byte_val_of_ascii c : byte_val (Ascii.byte_of_ascii c) = code c.
Proof. destruct c as [[] [] [] [] [] [] [] []]; reflexivity. Qed.

Lemma runes_go_ascii fuel s :
  Forall (λ b, byte_val b < 128) s → forallb snd (runes_go fuel s) = true.
Proof.
  revert s. induction fuel as [|fuel IH]; intros s Hs; [done|].
  destruct s as [|a s]; [done|]. apply Forall_cons in Hs as [Ha Hs].
  simpl runes_go. unfold rune_width. apply Z.ltb_lt in Ha. rewrite Ha. simpl.
  rewrite drop_0. by apply IH.
Qed.

Lemma ascii_valid_utf8 s : is_ascii s = true → valid_utf8 s = true.
Proof.
  intros H. unfold valid_utf8, runes. apply runes_go_ascii.
  induction s as [|c s IH]; [constructor|].
  unfold is_ascii in H. simpl in H. apply andb_true_iff in H as [Hc Hs].
  unfold bytes_of_string. simpl. constructor; [|by apply IH].
  rewrite byte_val_of_ascii. by apply Z.ltb_lt.
Qed.

Lemma hex_digit_ascii n : 0 ≤ n < 16 → (code (hex_digit n) <? 128) = true.
Proof.
  intros H. assert (n ∈ seqZ 0 16) as Hin by (apply elem_of_seqZ; lia).
  clear H. revert n Hin. apply Forall_forall. repeat constructor.
Qed.

Lemma hex_encode_ascii b : is_ascii (hex_encode b) = true.
Proof.
  induction b as [|x b IH]; [done|]. unfold is_ascii in *. simpl.
  pose proof (byte_val_range x). rewrite IH.
  rewrite !hex_digit_ascii; [done|apply Z.mod_pos_bound; lia|].
  split; [apply Z.div_pos|apply Z.div_lt_upper_bound]; lia.
Qed.

#[export] Hint Resolve ascii_valid_utf8 hex_encode_ascii : go.

(** ** Programs of a process *)

Lemma wp_on_os {A} (m : M os A) Q p :
  wp m (λ a o, Q a {| p_store := p_store p; p_os := o |}) (p_os p) → wp (on_os m) Q p.
Proof. unfold wp, on_os, zoom. by destruct (m (p_os p)). Qed.

Lemma wp_deferring {A} lf (body : M proc A) Q p :
  wp body (λ a p', wp (on_os (releaseLock lf)) (λ _, Q a) p') p → wp (deferring lf body) Q p.
Proof.
  intros H. apply wp_bind. eapply wp_mono; [exact H|]. intros a p' Hr.
  apply wp_bind. eapply wp_mono; [exact Hr|]. by intros.
Qed.

Lemma wp_releaseLock p Q s :
  (∀ l, Q tt (set_faults l (set_locks (drop_first p (os_locks s)) s))) →
  wp (releaseLock (Some p)) Q s.
Proof.
  intros H. apply wp_bind, wp_funlock, wp_bind, wp_close; intros; apply wp_ret, H.
Qed.

(** ** The database a file denotes *)

Section abstraction.
Context `{J : JsonCodec}.

Definition db_of_data (data : bytes) : option Database :=
  match data with [] => Some empty_db | _ => json_unmarshal data end.

(** No file is an empty store; a file that does not parse denotes nothing. *)
Definition db_at (p : string) (d : disk) : option Database :=
  match d !! p with
  | None => Some empty_db
  | Some f => db_of_data (f_data f)
  end.

(** ** Locking *)

(** What taking a lock may do to the disk: create the empty file. *)
Definition touched (p : string) (s s' : os) : Prop :=
  (os_files s' = os_files s
   ∨ os_files s !! p = None ∧ os_files s' = <[p := File 384 []]> (os_files s))
  ∧ os_now s' = os_now s.

Lemma touched_db p s s' : touched p s s' → db_at p (os_files s') = db_at p (os_files s).
Proof.
  intros [[->|[Hn ->]] _]; [done|]. unfold db_at. by rewrite lookup_insert_eq, Hn.
Qed.

Lemma wp_flock_file p Q s :
  (∀ s' e, touched p s s' → os_locks s' = os_locks s → Q (Err (ErrStore e)) s') →
  (∀ s', touched p s s' → os_locks s' = p :: os_locks s →
     os_files s' !! p = os_files s !! p → Q (Ok (Some p)) s') →
  wp (flock_file p) Q s.
Proof.
  intros He Hok. apply wp_bind, wp_flock; intros.
  - apply wp_bind, wp_close; intros; apply wp_ret, He; repeat split; by left.
  - apply wp_ret, Hok; repeat split; by left.
Qed.

(** Exclusive: afterwards the file exists. *)
Lemma wp_acquire_exclusive p Q s :
  (∀ s' e, touched p s s' → os_locks s' = os_locks s → Q (Err (ErrStore e)) s') →
  (∀ s', touched p s s' → os_locks s' = p :: os_locks s →
     is_Some (os_files s' !! p) → Q (Ok (Some p)) s') →
  wp (acquireLock p lockExclusive) Q s.
Proof.
  intros He Hok. apply wp_bind, wp_open_create.
  - intros l e. apply wp_ret, He; repeat split; by left.
  - intros l x Hx. apply wp_flock_file; simpl.
    + intros s' e [Hd Hn] Hl. apply He; [|done]. split; [|done]. exact Hd.
    + intros s' [Hd Hn] Hl Hf. apply Hok; [split; [exact Hd|done]|done|].
      rewrite Hf. eauto.
  - intros l Hx. apply wp_flock_file; simpl.
    + intros s' e [Hd Hn] Hl. apply He; [|done]. split; [|done].
      destruct Hd as [Hd|[Hd _]]; simpl in Hd; [by right|].
      rewrite lookup_insert_eq in Hd. done.
    + intros s' [Hd Hn] Hl Hf. apply Hok; [|done|].
      * split; [|done]. destruct Hd as [Hd|[Hd _]]; simpl in Hd; [by right|].
        rewrite lookup_insert_eq in Hd. done.
      * rewrite Hf, lookup_insert_eq. eauto.
Qed.

(** No call has written: the disk and its history are the same. *)
Definition same_disk (s s' : os) : Prop :=
  os_files s' = os_files s ∧ os_trace s' = os_trace s ∧ os_now s' = os_now s.

(** Shared: an absent file is reported as such. *)
Lemma wp_acquire_shared p Q s :
  (∀ s' e, same_disk s s' → os_locks s' = os_locks s → Q (Err (ErrStore e)) s') →
  (∀ s', same_disk s s' → os_locks s' = os_locks s →
     os_files s !! p = None → Q (Ok None) s') →
  (∀ s', same_disk s s' → os_locks s' = p :: os_locks s → Q (Ok (Some p)) s') →
  wp (acquireLock p lockShared) Q s.
Proof.
  intros He Hn Hok. apply wp_bind, wp_open_read.
  - intros l e. by apply wp_ret, He.
  - intros l Hx. by apply wp_ret, Hn.
  - intros l x Hx. apply wp_bind, wp_flock; intros.
    + apply wp_bind, wp_close; intros; by apply wp_ret, He.
    + by apply wp_ret, Hok.
Qed.

(** ** Reading *)

Lemma wp_readDB p Q s :
  (∀ l m, Q (Err (ErrCorrupt m)) (set_faults l s)) →
  (∀ l db, db_at p (os_files s) = Some db → Q (Ok db) (set_faults l s)) →
  wp (readDB p) Q s.
Proof.
  intros He Hok. apply wp_bind, wp_read_file.
  - intros. apply wp_ret, He.
  - intros l Hx. apply wp_ret, Hok. unfold db_at. by rewrite Hx.
  - intros l x Hx. destruct (f_data x) as [|b data] eqn:E.
    + apply wp_ret, Hok. unfold db_at. by rewrite Hx, E.
    + destruct (json_unmarshal (b :: data)) as [db|] eqn:Eu.
      * apply wp_ret, Hok. unfold db_at. by rewrite Hx, E.
      * apply wp_ret, He.
Qed.

(** ** The atomic replacement *)

Lemma discard_tmp_spec p t data ok s0 x e s :
  os_files s0 !! t = None → at_temp p t 384 data ok s0 x s →
  wp (discard_tmp t e) (λ r s', r = Err e ∧ gone_or_left p t 384 data ok s0 s') s.
Proof.
  intros Hn H. pose proof (at_temp_close_remove _ _ _ _ _ _ x s Hn H) as Hc.
  apply wp_bind_inv in Hc. apply wp_bind. eapply wp_mono; [exact Hc|]. intros ? s1 H1.
  apply wp_bind. eapply wp_mono; [exact H1|]. intros ? s2 H2. by apply wp_ret.
Qed.

(** What [writeDB] leaves behind: the new database, or the old one, possibly
    beside a private temp file that could not be removed. *)
Definition write_result (p : string) (db : Database) (s : os)
    (r : result kerr unit) (s' : os) : Prop :=
  match r with
  | Ok _ => ∃ t data, json_marshal db = Some data ∧ at_after p t 384 data (json_marshal db = Some data) s s'
  | Err e => (∃ m, e = ErrStore m) ∧
      ∃ t data, (os_files s' = os_files s
                 ∨ (t ≠ p ∧ os_files s !! t = None
                    ∧ ∃ y, temp_ok 384 data y ∧ os_files s' = <[t := y]> (os_files s)))
                ∧ write_frame p t 384 data (json_marshal db = Some data) s s'
  end.

(** The tail of [writeDB] once the temp file is there. *)
Lemma write_result_err p t data db s s' e :
  os_files s !! t = None → t ≠ p →
  gone_or_left p t 384 data (json_marshal db = Some data) s s' →
  write_result p db s (Err (ErrStore e)) s'.
Proof.
  intros Hn Hne [[y (_ & Hf & Hm & Hfr)]|[Hf Hfr]];  (split; [eauto|]); exists t, data;
    (split; [|done]); [right|by left].
  do 2 (split; [done|]). by exists y.
Qed.

Lemma writeDB_spec p db s :
  is_Some (os_files s !! p) → wp (writeDB p db) (write_result p db s) s.
Proof.
  intros [f Hp]. unfold writeDB. destruct (json_marshal db) as [data|] eqn:Ej.
  2: { apply wp_ret. split; [eauto|]. exists p, []. split; [by left|].
       split_and!; [done..|]. by exists []. }
  apply wp_bind, wp_create_temp.
  { intros l m u. apply wp_ret. split; [eauto|]. exists p, data.
    split; [by left | apply write_frame_refl]. }
  intros l u t Ht _.
  assert (t ≠ p) as Hne by congruence.
  pose proof (at_temp_created p t 384 data (json_marshal db = Some data) s l u Hne) as H0. revert H0. generalize (set_files (<[t := File 384 []]> (os_files s)) (set_tmp u (set_faults l s))).
  intros s0 H0.
  assert (∀ y e s1, at_temp p t 384 data (json_marshal db = Some data) s y s1 →
    wp (discard_tmp t (ErrStore e)) (write_result p db s) s1) as Hdiscard.
  { intros y e s1 H1. eapply wp_mono; [by eapply discard_tmp_spec|].
    intros r s2 [-> H2]. by eapply write_result_err. }
  assert (∀ y e s1, at_temp p t 384 data (json_marshal db = Some data) s y s1 →
    wp (bind (remove t) (λ _, ret (Err (ErrStore e)))) (write_result p db s) s1) as Hremove.
  { intros y e s1 H1. wp_call at_temp_remove.
    intros r s2 H2. apply wp_ret. eapply write_result_err; [done..|].
    destruct H2; [left; eauto|by right]. }
  wp_call at_temp_chmod. intros [[]|e] s1 H1; [|by eapply Hdiscard].
  wp_call at_temp_write.
  intros [[]|e] s2 H2; [|destruct H2 as [y H2]; by eapply Hdiscard].
  simpl in H2.
  wp_call at_temp_sync. intros [[]|e] s3 H3; [|by eapply Hdiscard].
  wp_call at_temp_close. intros [[]|e] s4 H4; [|by eapply Hremove].
  wp_call at_temp_rename. intros [[]|e] s5 H5; [|by eapply Hremove].
  assert (∀ l', at_after p t 384 data (json_marshal db = Some data) s (set_faults l' s5)) as H6 by done.
  apply wp_bind, wp_fallible; [intros; apply wp_ret; exists t, data; split; [done|apply H6]|].
  intros l1. apply wp_ret, wp_bind, wp_sync; intros l2; intros;
    apply wp_bind, wp_close; intros; apply wp_ret; exists t, data; (split; [done|apply H6]).
Qed.

(** In terms of databases: the new one or the old one. *)
Lemma write_result_db `{!JsonLaws} p db s r s' :
  db_text_ok db = true → write_result p db s r s' →
  os_locks s' = os_locks s ∧ os_now s' = os_now s ∧
  match r with
  | Ok _ => db_at p (os_files s') = Some db
  | Err e => (∃ m, e = ErrStore m) ∧ db_at p (os_files s') = db_at p (os_files s)
  end.
Proof.
  intros Ht. destruct r as [[]|e]; simpl.
  - intros (t & data & Hj & Hf & Hl & Hn & _). split_and!; [done..|].
    unfold db_at. rewrite Hf, lookup_insert_eq. simpl.
    pose proof (unmarshal_marshal _ _ Ht Hj) as Hu.
    destruct data; [by apply marshal_nonempty in Hj|done].
  - intros (He & t & data & Hf & Hl & Hn & _). split_and!; [done..|].
    destruct Hf as [->|(Hne & Hnone & y & _ & ->)]; [done|].
    unfold db_at. by rewrite lookup_insert_ne.
Qed.

End abstraction.

(** ** The methods of [Store] on databases *)

Section methods.
Context `{J : JsonCodec} `{!JsonLaws}.

Definition store_db (p : proc) : option Database :=
  db_at (path (p_store p)) (os_files (p_os p)).

(** An error that says nothing about the database. *)
Definition io_error (e : kerr) : Prop := (∃ m, e = ErrStore m) ∨ (∃ m, e = ErrCorrupt m).

Lemma drop_first_cons p l : drop_first p (p :: l) = l.
Proof. simpl. by rewrite String.eqb_refl. Qed.

Lemma revoke_first_text id t ks ks' :
  forallb text_ok ks = true → revoke_first id t ks = Ok ks' → forallb text_ok ks' = true.
Proof.
  revert ks'. induction ks as [|k ks IH]; intros ks' Ht Hr; [done|].
  simpl in *. apply andb_true_iff in Ht as [Hk Hks].
  destruct (String.eqb (d_ID k) id).
  - destruct (d_Revoked k); simplify_eq/=. rewrite Hks, andb_true_r. exact Hk.
  - destruct (revoke_first id t ks) as [ks0|] eqn:E; simplify_eq/=.
    rewrite Hk. simpl. by apply IH.
Qed.

Lemma apply_usage_text snap ks :
  forallb text_ok ks = true → forallb text_ok (apply_usage snap ks) = true.
Proof.
  induction ks as [|k ks IH]; [done|]. simpl. intros [Hk Hks]%andb_true_iff.
  rewrite IH, andb_true_r by done. by repeat case_match.
Qed.

(** *** Critical sections

    The methods share two shapes: read and rewrite the database under the
    exclusive lock, or read it under the shared one. *)

Definition proc_at (st : Store) (s : os) : proc := {| p_store := st; p_os := s |}.

(** The process after the deferred release. *)
Definition released (pth : string) (l : list (option fault)) (p : proc) : proc :=
  proc_at (p_store p)
    (set_faults l (set_locks (drop_first pth (os_locks (p_os p))) (p_os p))).

Lemma wp_exclusive {A} pth (X Y : kerr → M proc A) (B : Database → M proc A) Q st s db :
  db_at pth (os_files s) = Some db →
  (∀ s' m, touched pth s s' → os_locks s' = os_locks s → wp (X (ErrStore m)) Q (proc_at st s')) →
  (∀ s' m, touched pth s s' → os_locks s' = pth :: os_locks s →
     wp (Y (ErrCorrupt m)) (λ r p', ∀ l, Q r (released pth l p')) (proc_at st s')) →
  (∀ s', touched pth s s' → os_locks s' = pth :: os_locks s → is_Some (os_files s' !! pth) →
     wp (B db) (λ r p', ∀ l, Q r (released pth l p')) (proc_at st s')) →
  wp (let! lk := on_os (acquireLock pth lockExclusive) in
      match lk with
      | Err e => X e
      | Ok lf =>
          deferring lf
            (let! r := on_os (readDB pth) in
             match r with Err e => Y e | Ok db => B db end)
      end) Q (proc_at st s).
Proof.
  intros Hdb HX HY HB. apply wp_bind, wp_on_os, wp_acquire_exclusive; simpl.
  { intros s1 e Htc Hl. by apply HX. }
  intros s1 Htc Hl Hex. apply wp_deferring, wp_bind, wp_on_os, wp_readDB; simpl.
  - intros l m. eapply wp_mono; [by apply HY|]. intros r p' HQ.
    apply wp_on_os, wp_releaseLock. intros l'. apply HQ.
  - intros l db1 Hread. rewrite (touched_db _ _ _ Htc), Hdb in Hread. injection Hread as <-.
    eapply wp_mono; [by apply HB|]. intros r p' HQ.
    apply wp_on_os, wp_releaseLock. intros l'. apply HQ.
Qed.

Lemma wp_shared {A} pth (X Y : kerr → M proc A) (N : M proc A) (B : Database → M proc A) Q st s db :
  db_at pth (os_files s) = Some db →
  (∀ s' m, same_disk s s' → os_locks s' = os_locks s → wp (X (ErrStore m)) Q (proc_at st s')) →
  (∀ s', same_disk s s' → os_locks s' = os_locks s → db = empty_db → wp N Q (proc_at st s')) →
  (∀ s' m, same_disk s s' → os_locks s' = pth :: os_locks s →
     wp (Y (ErrCorrupt m)) (λ r p', ∀ l, Q r (released pth l p')) (proc_at st s')) →
  (∀ s', same_disk s s' → os_locks s' = pth :: os_locks s →
     wp (B db) (λ r p', ∀ l, Q r (released pth l p')) (proc_at st s')) →
  wp (let! lk := on_os (acquireLock pth lockShared) in
      match lk with
      | Err e => X e
      | Ok None => N
      | Ok lf =>
          deferring lf
            (let! r := on_os (readDB pth) in
             match r with Err e => Y e | Ok db => B db end)
      end) Q (proc_at st s).
Proof.
  intros Hdb HX HN HY HB. apply wp_bind, wp_on_os, wp_acquire_shared; simpl.
  - intros s1 e Hf Hl. by apply HX.
  - intros s1 Hf Hl Hnone. apply HN; [done..|]. unfold db_at in Hdb. rewrite Hnone in Hdb.
    by injection Hdb.
  - intros s1 Hf Hl. apply wp_deferring, wp_bind, wp_on_os, wp_readDB; simpl.
    + intros l m. eapply wp_mono; [by apply HY|]. intros r p' HQ.
      apply wp_on_os, wp_releaseLock. intros l'. apply HQ.
    + intros l db1 Hread. rewrite (proj1 Hf), Hdb in Hread. injection Hread as <-.
      eapply wp_mono; [by apply HB|]. intros r p' HQ.
      apply wp_on_os, wp_releaseLock. intros l'. apply HQ.
Qed.

(** The end of an exclusive section: the database is written. *)
Definition committed (st : Store) (db : Database) (s0 : os)
    (r : result kerr unit) (p : proc) : Prop :=
  p_store p = st ∧ os_locks (p_os p) = os_locks s0 ∧
  match r with
  | Ok _ => db_at (path st) (os_files (p_os p)) = Some db
  | Err e => (∃ m, e = ErrStore m) ∧
      db_at (path st) (os_files (p_os p)) = db_at (path st) (os_files s0)
  end.

Lemma commit_spec db st s0 s :
  touched (path st) s0 s → os_locks s = path st :: os_locks s0 →
  is_Some (os_files s !! path st) → db_text_ok db = true →
  wp (on_os (writeDB (path st) db))
     (λ r p', ∀ l, committed st db s0 r (released (path st) l p')) (proc_at st s).
Proof.
  intros Htc Hl Hex Ht. apply wp_on_os. eapply wp_mono; [by apply writeDB_spec|].
  intros r s2 Hw l. apply write_result_db in Hw; [|done]. destruct Hw as (Hl2 & _ & Hw).
  unfold released, committed. simpl. simpl in Hl2.
  rewrite Hl2, Hl, drop_first_cons. do 2 (split; [done|]).
  destruct r as [[]|e]; [done|]. destruct Hw as [Hm Hw]. split; [done|].
  simpl in *. by rewrite Hw, (touched_db _ _ _ Htc).
Qed.

(** *** Specifications *)

Lemma Revoke_spec id p db :
  store_db p = Some db → db_text_ok db = true →
  wp (Revoke id) (λ r p', p_store p' = p_store p ∧ os_locks (p_os p') = os_locks (p_os p) ∧
    match r with
    | Ok _ => ∃ ks, revoke_first id (os_now (p_os p)) (Keys db) = Ok ks
              ∧ store_db p' = Some {| Version := Version db; Keys := ks |}
    | Err e => store_db p' = store_db p ∧
        (io_error e ∨ revoke_first id (os_now (p_os p)) (Keys db) = Err e)
    end) p.
Proof.
  destruct p as [st s]. unfold store_db. simpl. intros Hdb Ht.
  apply wp_bind, wp_gets, (wp_exclusive _ _ _ _ _ _ _ db); [done|..].
  - intros s1 m Htc Hl. apply wp_ret. do 2 (split; [done|]).
    split; [apply (touched_db _ _ _ Htc)|left; left; eauto].
  - intros s1 m Htc Hl. apply wp_ret. intros l. simpl. rewrite Hl, drop_first_cons.
    do 2 (split; [done|]). split; [apply (touched_db _ _ _ Htc)|left; right; eauto].
  - intros s1 Htc Hl Hex. apply wp_bind, wp_on_os, wp_now. simpl. rewrite (proj2 Htc).
    destruct (revoke_first id (os_now s) (Keys db)) as [ks|e] eqn:Er.
    + eapply wp_mono; [apply commit_spec; [done..|by eapply revoke_first_text]|].
      intros r p' HQ l. specialize (HQ l) as (Hst & Hlk & HQ). simpl in *. rewrite Hst.
      do 2 (split; [done|]). destruct r as [[]|e]; [by eauto|].
      destruct HQ as [Hm HQ]. split; [done|]. left; by left.
    + apply wp_ret. intros l. simpl. rewrite Hl, drop_first_cons.
      do 2 (split; [done|]). split; [apply (touched_db _ _ _ Htc)|by right].
Qed.

(** Shared methods leave the disk, its history and the locks alone. *)
Definition read_only (p p' : proc) : Prop :=
  same_disk (p_os p) (p_os p') ∧ os_locks (p_os p') = os_locks (p_os p)
  ∧ path (p_store p') = path (p_store p).

Lemma Verify_spec k p db :
  store_db p = Some db →
  wp (Verify k) (λ r p', read_only p p' ∧
    match r with
    | Ok None => find_last (candidate k) (Keys db) = None ∧ p_store p' = p_store p
    | Ok (Some rec) => ∃ d, find_last (candidate k) (Keys db) = Some d
        ∧ rec = with_LastUsed (os_now (p_os p)) (fromDBRecord d)
        ∧ usageBuf (p_store p') = <[d_ID d := os_now (p_os p)]> (usageBuf (p_store p))
    | Err e => io_error e ∧ p_store p' = p_store p
    end) p.
Proof.
  destruct p as [st s]. unfold store_db, read_only. simpl. intros Hdb.
  apply wp_bind, wp_gets, (wp_shared _ _ _ _ _ _ _ _ db); [done|..].
  - intros s1 m Hd Hl. apply wp_ret. simpl. split; [done|]. split; [left; eauto|done].
  - intros s1 Hd Hl ->. by apply wp_ret.
  - intros s1 m Hd Hl. apply wp_ret. intros l. simpl. rewrite Hl, drop_first_cons.
    split; [done|]. split; [right; eauto|done].
  - intros s1 Hd Hl. destruct (find_last (candidate k) (Keys db)) as [d|] eqn:E.
    + apply wp_bind, wp_on_os, wp_now, wp_bind, wp_modify, wp_ret. intros l. simpl.
      rewrite Hl, drop_first_cons. split; [done|].
      exists d. by rewrite (proj2 (proj2 Hd)).
    + apply wp_ret. intros l. simpl. by rewrite Hl, drop_first_cons.
Qed.

Lemma List_spec p db :
  store_db p = Some db →
  wp List (λ r p', read_only p p' ∧ p_store p' = p_store p ∧
    match r with
    | Ok rs => rs = map fromDBRecord (List.filter (λ d, negb (d_Revoked d)) (Keys db))
    | Err e => io_error e
    end) p.
Proof.
  destruct p as [st s]. unfold store_db, read_only. simpl. intros Hdb.
  apply wp_bind, wp_gets, (wp_shared _ _ _ _ _ _ _ _ db); [done|..].
  - intros s1 m Hd Hl. apply wp_ret. simpl. do 2 (split; [done|]). left; eauto.
  - intros s1 Hd Hl ->. by apply wp_ret.
  - intros s1 m Hd Hl. apply wp_ret. intros l. simpl. rewrite Hl, drop_first_cons.
    do 2 (split; [done|]). right; eauto.
  - intros s1 Hd Hl. apply wp_ret. intros l. simpl. by rewrite Hl, drop_first_cons.
Qed.

Lemma FlushUsage_spec p db :
  store_db p = Some db → db_text_ok db = true →
  wp FlushUsage (λ r p', os_locks (p_os p') = os_locks (p_os p)
    ∧ path (p_store p') = path (p_store p) ∧
    match r with
    | Ok _ => usageBuf (p_store p') = ∅
        ∧ store_db p' = Some {| Version := Version db;
                                Keys := apply_usage (usageBuf (p_store p)) (Keys db) |}
    | Err e => io_error e ∧ store_db p' = store_db p
        ∧ (usageBuf (p_store p') = usageBuf (p_store p) ∨ usageBuf (p_store p') = ∅)
    end) p.
Proof.
  destruct p as [st s]. unfold store_db. simpl. intros Hdb Ht.
  apply wp_bind, wp_gets. simpl. case_decide as Hbuf.
  { apply wp_ret. simpl. split_and!; [done..|].
    rewrite Hdb, Hbuf. destruct db as [v ks]. simpl. do 2 f_equal.
    unfold apply_usage. clear. induction ks as [|k ks IH]; [done|]. simpl.
    by rewrite lookup_empty, <-IH. }
  apply wp_bind, wp_modify, wp_bind, wp_gets. simpl.
  set (st0 := {| path := path st; usageBuf := ∅ |}).
  apply (wp_exclusive _ _ _ _ _ st0 s db); [done|..].
  - intros s1 m Htc Hl. apply wp_bind, wp_modify, wp_ret. simpl.
    do 2 (split; [done|]). split; [left; eauto|].
    split; [apply (touched_db _ _ _ Htc)|left; by rewrite (left_id_L ∅ (∪))].
  - intros s1 m Htc Hl. apply wp_bind, wp_modify, wp_ret. intros l. simpl.
    rewrite Hl, drop_first_cons. do 2 (split; [done|]). split; [right; eauto|].
    split; [apply (touched_db _ _ _ Htc)|left; by rewrite (left_id_L ∅ (∪))].
  - intros s1 Htc Hl Hex. eapply wp_mono.
    { apply (commit_spec _ st0 s); [done..|]. by apply apply_usage_text. }
    intros r p' HQ l. specialize (HQ l) as (Hst & Hlk & HQ). simpl in *. rewrite Hst.
    do 2 (split; [done|]). destruct r as [[]|e]; [done|].
    destruct HQ as [Hm HQ]. split; [by left|]. split; [done|by right].
Qed.

Lemma Open_spec pth s :
  wp (Open pth) (λ r s', same_disk s s' ∧ os_locks s' = os_locks s
    ∧ match r with Ok st => st = {| path := pth; usageBuf := ∅ |} | Err e => is_corrupt e = true end) s.
Proof.
  unfold Open, stat. apply wp_bind, wp_fallible; [by intros; apply wp_ret|]. intros l.
  unfold wp at 1. simpl. destruct (os_files s !! pth) as [f|] eqn:Ef; simpl; [|done].
  destruct (_ <? _); [|by apply wp_ret]. apply wp_bind, wp_read_file.
  - by intros; apply wp_ret.
  - by intros; apply wp_ret.
  - intros l' x _. by destruct (json_unmarshal (f_data x)); apply wp_ret.
Qed.

(** *** Creation *)

(** The [k]-th id that [generateID] would draw from a state. *)
Definition drawn_id (k : nat) (s : os) : string :=
  hex_encode (rand_read idBytes (set_rpos (os_rpos s + k * idBytes)%nat s)).1.

Lemma set_rpos_id s : set_rpos (os_rpos s) s = s.
Proof. by destruct s. Qed.

Lemma set_rpos_set n m s : set_rpos n (set_rpos m s) = set_rpos n s.
Proof. done. Qed.

(** The loop answers with the first draw that is not taken. *)
Lemma generateID_first fuel existing k s :
  (k < fuel)%nat → drawn_id k s ∉ existing →
  (∀ j, (j < k)%nat → drawn_id j s ∈ existing) →
  generateID fuel existing s
    = (Some (drawn_id k s), set_rpos (os_rpos s + S k * idBytes)%nat s).
Proof.
  revert k s. induction fuel as [|fuel IH]; intros k s Hk Hn Ht; [lia|].
  unfold generateID; fold generateID. unfold bind at 1. cbn zeta.
  destruct (rand_read idBytes s) as [buf s1] eqn:E.
  assert (hex_encode buf = drawn_id 0 s) as ->.
  { unfold drawn_id. by rewrite Nat.add_0_r, set_rpos_id, E. }
  assert (s1 = set_rpos (os_rpos s + idBytes)%nat s) as -> by (by injection E).
  destruct k as [|k].
  - rewrite bool_decide_eq_false_2 by done. unfold ret. do 2 f_equal.
  - rewrite bool_decide_eq_true_2 by (apply Ht; lia).
    assert (∀ j, drawn_id j (set_rpos (os_rpos s + idBytes)%nat s) = drawn_id (S j) s) as Hd.
    { intros j. unfold drawn_id. rewrite set_rpos_set. cbn [os_rpos set_rpos].
      by replace (os_rpos s + idBytes + j * idBytes)%nat
        with (os_rpos s + S j * idBytes)%nat by lia. }
    rewrite (IH k); [|lia|by rewrite Hd|intros j Hj; rewrite Hd; apply Ht; lia].
    rewrite Hd, set_rpos_set. cbn [os_rpos set_rpos]. do 2 f_equal. lia.
Qed.

Lemma generateID_spec fuel existing s :
  wp (generateID fuel existing) (λ r s', (∃ n, s' = set_rpos n s) ∧ (
    match r with
    | None => True
    | Some id => (id ∉ existing) ∧ ∃ b, length b = idBytes ∧ id = hex_encode b
    end)) s.
Proof.
  revert s. induction fuel as [|fuel IH]; intros s.
  { apply wp_ret. split; [|done]. exists (os_rpos s). by destruct s. }
  apply wp_bind, wp_rand_read. intros b Hb. cbv zeta. case_bool_decide as Hin.
  - eapply wp_mono; [apply IH|]. intros r s' [[n ->] Hr]. split; [|done]. by exists n.
  - apply wp_ret. split; [eauto|]. split; [done|eauto].
Qed.

(** Distinct draws: one more than the taken ids is enough. *)
Lemma generateID_total existing s :
  NoDup (map (λ k, drawn_id k s) (seq 0 (S (length existing)))) →
  ∃ id, (generateID (S (length existing)) existing s).1 = Some id.
Proof.
  intros Hnd.
  destruct (decide (Exists (λ k, drawn_id k s ∉ existing) (seq 0 (S (length existing)))))
    as [(k & Hk & Hn)%Exists_exists|Hno].
  - apply elem_of_seq in Hk.
    destruct (least_index (λ j, drawn_id j s ∉ existing) k Hn) as (j & Hj & Hjn & Hmin).
    exists (drawn_id j s). rewrite (generateID_first _ _ j); [done|lia|done|].
    intros i Hi. destruct (decide (drawn_id i s ∈ existing)) as [|Hni]; [done|].
    by destruct (Hmin i Hi).
  - exfalso. assert (map (λ k, drawn_id k s) (seq 0 (S (length existing))) ⊆ existing) as Hsub.
    { intros x (k & -> & Hk)%list_elem_of_fmap.
      destruct (decide (drawn_id k s ∈ existing)) as [|Hn]; [done|].
      destruct Hno. apply Exists_exists. eauto. }
    apply NoDup_subseteq_length in Hsub; [|done].
    rewrite length_map, length_seq in Hsub. lia.
Qed.

Definition fresh_record (key label : string) (t : Time) (existing : list string)
    (rec : KeyRecord) : Prop :=
  Label rec = label ∧ Created rec = t ∧ LastUsed rec = zero_time ∧ RevokedAt rec = zero_time
  ∧ Revoked rec = false ∧ Fingerprint_ rec = Fingerprint key
  ∧ hash rec = hashKey key (salt rec) ∧ length (salt rec) = saltBytes
  ∧ (ID rec ∉ existing) ∧ (∃ b, length b = idBytes ∧ ID rec = hex_encode b)
  ∧ (∃ b, length b = keyBodyBytes ∧ key = keyPrefix +:+ raw_url_encode b).

Lemma fresh_record_text key label t ex rec :
  valid_utf8 label = true → fresh_record key label t ex rec → text_ok (toDBRecord rec) = true.
Proof.
  intros Hl (HL & _ & _ & _ & _ & HF & _ & _ & _ & (b & _ & HI) & _).
  unfold text_ok. simpl. rewrite HL, HF, HI, Hl, andb_true_r.
  rewrite (ascii_valid_utf8 (hex_encode b)) by auto with go.
  by apply ascii_valid_utf8, hex_encode_ascii.
Qed.

Lemma touched_rpos pth n s s' : touched pth s s' → touched pth s (set_rpos n s').
Proof. done. Qed.

Lemma Create_spec fuel label p db :
  store_db p = Some db → db_text_ok db = true → valid_utf8 label = true →
  wp (Create fuel label) (λ r p', p_store p' = p_store p ∧ os_locks (p_os p') = os_locks (p_os p) ∧
    match r with
    | Some (Ok (key, rec)) =>
        (rune_count label ≤ 64)%nat
        ∧ fresh_record key label (os_now (p_os p)) (map d_ID (Keys db)) rec
        ∧ store_db p' = Some {| Version := Version db; Keys := Keys db ++ [toDBRecord rec] |}
    | Some (Err e) => store_db p' = store_db p
        ∧ (io_error e ∨ e = ErrLabelTooLong ∧ (64 < rune_count label)%nat)
    | None => store_db p' = store_db p
    end) p.
Proof.
  destruct p as [st s]. unfold store_db. simpl. intros Hdb Ht Hlab. unfold Create.
  destruct (Z.ltb_spec 64 (Z.of_nat (rune_count label))) as [Hlen|Hlen].
  { apply wp_ret. do 3 (split; [done|]). right. split; [done|lia]. }
  apply wp_bind, wp_gets, (wp_exclusive _ _ _ _ _ _ _ db); [done|..].
  - intros s1 m Htc Hl. apply wp_ret. do 2 (split; [done|]).
    split; [apply (touched_db _ _ _ Htc)|left; left; eauto].
  - intros s1 m Htc Hl. apply wp_ret. intros l. simpl. rewrite Hl, drop_first_cons.
    do 2 (split; [done|]). split; [apply (touched_db _ _ _ Htc)|left; right; eauto].
  - intros s1 Htc Hl Hex.
    apply wp_bind, wp_on_os, wp_bind, wp_rand_read. intros kb Hkb. apply wp_ret.
    apply wp_bind, wp_on_os, wp_rand_read. intros slt Hslt.
    apply wp_bind, wp_on_os. eapply wp_mono; [apply generateID_spec|].
    intros r s2 [[n ->] Hid]. destruct r as [id|].
    + destruct Hid as [Hfresh Hid]. apply wp_bind, wp_on_os, wp_now, wp_bind.
      simpl. rewrite (proj2 Htc).
      match goal with |- context [toDBRecord ?r] => set (rec := r) end.
      assert (fresh_record (keyPrefix +:+ raw_url_encode kb) label (os_now s)
                (map d_ID (Keys db)) rec) as Hrec.
      { repeat (split; [done|]). eauto. }
      eapply wp_mono.
      { apply (commit_spec _ st s); [done..|]. unfold db_text_ok. simpl.
        rewrite forallb_app. simpl. rewrite (fresh_record_text _ _ _ _ _ Hlab Hrec).
        by rewrite andb_true_r. }
      intros r p' HQ. destruct r as [[]|e]; apply wp_ret; intros l;
        specialize (HQ l) as (Hst & Hlk & HQ); simpl in *; rewrite Hst;
        do 2 (split; [done|]).
      * split; [lia|]. by split.
      * destruct HQ as [Hm HQ]. split; [done|]. left; by left.
    + apply wp_ret. intros l. simpl. rewrite Hl, drop_first_cons.
      do 2 (split; [done|]). apply (touched_db _ _ _ Htc).
Qed.

End methods.
