(* ===== verification/KeystoreLive.v ===== *)
(** * KeystoreLive: the key store makes progress.

    The specifications of [KeystoreProofs] allow an input/output error at every
    call.  Here: when no system call fails, none of them is reported, and the
    methods give the answer their database calls for. *)

From S2P Require Import Prelude GoText GoEncoding GoCrypto GoPath GoOs Keystore KeystoreProofs.
Open Scope Z_scope.
Open Scope go_scope.

(** The name [os.CreateTemp] will draw is free. *)
Definition temp_path (p : string) (s : os) : string :=
  dir p +:+ "/" +:+ ".keys-" +:+ (match os_tmp s with n :: _ => n | [] => "0"%string end)
    +:+ ".tmp".
Definition temp_free (p : string) (s : os) : Prop :=
  temp_path p s ≠ p ∧ os_files s !! temp_path p s = None.

Section live.
Context `{J : JsonCodec}.

(** What taking the lock keeps: no fault, the temp names, the clock, the random
    stream, and all files but perhaps the store's own. *)
Definition still (p : string) (s s' : os) : Prop :=
  quiet s' ∧ os_tmp s' = os_tmp s ∧ os_now s' = os_now s ∧
  os_rand s' = os_rand s ∧ os_rpos s' = os_rpos s ∧
  (os_files s' = os_files s ∨ ∃ f, os_files s' = <[p := f]> (os_files s)).

Lemma still_temp p s s' : still p s s' → temp_free p s → temp_free p s'.
Proof.
  intros (_ & Ht & _ & _ & _ & Hf) [Hne Hfree]. unfold temp_free, temp_path in *. rewrite Ht.
  split; [done|]. destruct Hf as [->|[f ->]]; [done|]. by rewrite lookup_insert_ne.
Qed.

Lemma acquire_exclusive_quiet p s :
  quiet s →
  wp (acquireLock p lockExclusive)
     (λ r s', r = Ok (Some p) ∧ is_Some (os_files s' !! p) ∧ still p s s') s.
Proof.
  intros Hq. apply wp_bind, wp_fallible_quiet; [done|]. unfold wp at 1. simpl.
  destruct (os_files s !! p) as [f|] eqn:E; simpl;
    (apply wp_bind, wp_fallible_quiet; [done|]; split; [done|]).
  - simpl. rewrite E. split; [eauto|]. split_and!; [done..|]. by left.
  - simpl. rewrite lookup_insert_eq. split; [eauto|]. split_and!; [done..|]. eauto.
Qed.

Lemma acquire_shared_quiet p s :
  quiet s → wp (acquireLock p lockShared)
    (λ r s', (r = Ok None ∨ r = Ok (Some p)) ∧ quiet s' ∧ os_files s' = os_files s) s.
Proof.
  intros Hq. apply wp_bind, wp_fallible_quiet; [done|]. unfold wp at 1. simpl.
  destruct (os_files s !! p) as [f|] eqn:E; simpl.
  - apply wp_bind, wp_fallible_quiet; [done|]. split; [by right|done].
  - split; [by left|done].
Qed.

Lemma readDB_quiet p s db :
  quiet s → db_at p (os_files s) = Some db →
  wp (readDB p) (λ r s', r = Ok db ∧ s' = s) s.
Proof.
  unfold db_at, db_of_data. intros Hq Hdb. apply wp_bind, wp_fallible_quiet; [done|].
  unfold wp at 1. simpl. destruct (os_files s !! p) as [[m data]|]; simplify_eq/=.
  - destruct data; simplify_eq; [done|]. rewrite Hdb. done.
  - done.
Qed.

Lemma releaseLock_quiet p s :
  quiet s → wp (releaseLock (Some p)) (λ _ s', quiet s' ∧ os_files s' = os_files s) s.
Proof. intros Hq. apply wp_bind, wp_funlock, wp_bind, wp_fallible_quiet; [done|]. done. Qed.

Lemma writeDB_quiet p db s :
  quiet s → temp_free p s → is_Some (json_marshal db) →
  wp (writeDB p db) (λ r s', r = Ok tt ∧ quiet s') s.
Proof.
  intros Hq [Hne Hfree] [data Hj]. unfold writeDB. rewrite Hj.
  apply wp_bind, wp_fallible_quiet; [done|]. unfold wp at 1. cbn zeta.
  unfold temp_path in *. simpl in Hfree |- *. rewrite Hfree. simpl.
  match goal with |- context [set_files ?d ?s1] => set (s0 := set_files d s1) end.
  match goal with |- context [chmod ?t] => set (tmp := t) in * end.
  assert (quiet s0 ∧ is_Some (os_files s0 !! tmp)) as [Hq0 Hx0].
  { split; [done|]. simpl. rewrite lookup_insert_eq. eauto. }
  clearbody s0.
  apply wp_bind, wp_fallible_quiet; [done|]. apply wp_bind.
  eapply wp_mono; [by apply update_quiet|]. intros _ s1 [Hq1 Hx1]. apply wp_ret.
  apply wp_bind. unfold write. apply wp_bind. unfold wp at 1, next_fault. rewrite Hq1. simpl.
  apply wp_bind. eapply wp_mono; [by apply update_quiet|]. intros _ s2 [Hq2 [x2 Hx2]].
  apply wp_ret, wp_bind, wp_fallible_quiet; [done|].
  apply wp_ret, wp_bind, wp_fallible_quiet; [done|].
  apply wp_ret, wp_bind, wp_fallible_quiet; [done|].
  unfold wp at 1. rewrite Hx2. simpl.
  apply wp_bind, wp_fallible_quiet; [done|]. apply wp_ret.
  apply wp_bind, wp_fallible_quiet; [done|]. apply wp_ret.
  apply wp_bind, wp_fallible_quiet; [done|]. apply wp_ret. by apply wp_ret.
Qed.

(** ** The methods *)

Context `{!JsonLaws}.

(** The operations write times that can be written, when those they find, read
    off the clock or have buffered are. *)
Lemma marshal_keys db ks :
  db_times_ok db = true → (forallb times_ok (Keys db) = true → forallb times_ok ks = true) →
  is_Some (json_marshal {| Version := Version db; Keys := ks |}).
Proof.
  intros Hdb Hks. apply marshal_some. unfold db_times_ok in *. bool_to_Z.
  simpl. rewrite !andb_true_iff, !Z.leb_le. auto.
Qed.

Lemma revoke_first_times id t ks ks' :
  revoke_first id t ks = Ok ks' → time_ok t = true → forallb times_ok ks = true →
  forallb times_ok ks' = true.
Proof.
  revert ks'. induction ks as [|k ks IH]; intros ks' Hr Ht Hks; [done|].
  cbn [revoke_first forallb] in *. apply andb_true_iff in Hks as [Hk Hks].
  destruct (String.eqb (d_ID k) id).
  - destruct (d_Revoked k); simplify_eq. cbn [forallb]. rewrite Hks, andb_true_r.
    unfold times_ok in *. bool_to_Z. simpl. by rewrite !andb_true_iff.
  - destruct (revoke_first id t ks) as [ks''|]; simplify_eq. cbn [forallb]. by rewrite Hk, IH.
Qed.

Lemma apply_usage_times buf ks :
  (∀ id t, buf !! id = Some t → time_ok t = true) → forallb times_ok ks = true →
  forallb times_ok (apply_usage buf ks) = true.
Proof.
  intros Hb Hks. induction ks as [|k ks IH]; [done|].
  cbn [forallb] in Hks. apply andb_true_iff in Hks as [Hk Hks].
  change (apply_usage buf (k :: ks)) with
    ((match buf !! d_ID k with
      | None => k | Some t => if d_Revoked k then k else d_with_LastUsed t k end) :: apply_usage buf ks).
  cbn [forallb]. rewrite IH, andb_true_r by done.
  destruct (buf !! d_ID k) as [t|] eqn:E; [|done]. destruct (d_Revoked k); [done|].
  apply Hb in E. unfold times_ok in *. bool_to_Z. simpl. by rewrite !andb_true_iff.
Qed.

Lemma Verify_quiet k p db :
  quiet (p_os p) → store_db p = Some db →
  wp (Verify k) (λ r p', quiet (p_os p') ∧ is_ok r = true) p.
Proof.
  intros Hq Hdb. apply wp_bind, wp_gets, wp_bind, wp_on_os.
  eapply wp_mono; [by apply acquire_shared_quiet|]. intros r s1 [[-> | ->] [Hq1 Hf1]]; [done|].
  apply wp_deferring, wp_bind, wp_on_os. eapply wp_mono.
  { apply (readDB_quiet _ _ db); [done|]. simpl. by rewrite Hf1. }
  intros r s2 [-> ->]. destruct (find_last (candidate k) (Keys db)) as [d|].
  - apply wp_bind, wp_on_os, wp_now, wp_bind, wp_modify, wp_ret, wp_on_os.
    eapply wp_mono; [by apply releaseLock_quiet|]. by intros _ s3 [Hq3 _].
  - apply wp_ret, wp_on_os. eapply wp_mono; [by apply releaseLock_quiet|].
    by intros _ s3 [Hq3 _].
Qed.

(** An exclusive section whose body is quiet. *)
Lemma exclusive_quiet {A} pth (X Y : kerr → M proc A) (B : Database → M proc A) (P : A → Prop) st s db :
  quiet s → db_at pth (os_files s) = Some db →
  (∀ s', still pth s s' → is_Some (os_files s' !! pth) →
     wp (B db) (λ r p', P r ∧ quiet (p_os p')) (proc_at st s')) →
  wp (let! lk := on_os (acquireLock pth lockExclusive) in
      match lk with
      | Err e => X e
      | Ok lf =>
          deferring lf
            (let! r := on_os (readDB pth) in
             match r with Err e => Y e | Ok db => B db end)
      end) (λ r p', P r ∧ quiet (p_os p')) (proc_at st s).
Proof.
  intros Hq Hdb HB. apply wp_bind, wp_on_os. eapply wp_mono.
  { apply wp_and; [by apply acquire_exclusive_quiet|].
    apply (wp_acquire_exclusive pth (λ r s', db_at pth (os_files s') = Some db));
      intros; by erewrite touched_db. }
  intros r s1 [(-> & Hx & Hst) Hdb1]. pose proof Hst as [Hq1 _].
  apply wp_deferring, wp_bind, wp_on_os. eapply wp_mono; [by apply (readDB_quiet _ _ db)|].
  intros r s2 [-> ->]. eapply wp_mono; [by apply HB|]. intros r p' [HP Hq'].
  apply wp_on_os. eapply wp_mono; [by apply releaseLock_quiet|]. by intros _ s3 [? _].
Qed.

Lemma commit_quiet st s db s' :
  still (path st) s s' → temp_free (path st) s → is_Some (json_marshal db) →
  wp (on_os (writeDB (path st) db)) (λ r p', r = Ok tt ∧ quiet (p_os p')) (proc_at st s').
Proof.
  intros Hst Hfree Hj. apply wp_on_os. eapply wp_mono; [|intros r s2 H2; exact H2].
  apply writeDB_quiet; [apply Hst| by eapply still_temp | done].
Qed.

Lemma Revoke_quiet id p db :
  quiet (p_os p) → temp_free (path (p_store p)) (p_os p) → store_db p = Some db →
  db_times_ok db = true → time_ok (os_now (p_os p)) = true →
  wp (Revoke id) (λ r p', r = (match revoke_first id (os_now (p_os p)) (Keys db) with
                               | Ok _ => Ok tt | Err e => Err e end)
                          ∧ quiet (p_os p')) p.
Proof.
  destruct p as [st s]. simpl. intros Hq Hfree Hdb Hj Hnow.
  apply wp_bind, wp_gets. simpl.
  apply (exclusive_quiet _ _ _ _ (λ r, r = _) _ _ db); [done..|]. intros s1 Hst Hx.
  apply wp_bind, wp_on_os, wp_now. simpl. pose proof Hst as (Hq1 & _ & -> & _).
  destruct (revoke_first id (os_now s) (Keys db)) as [ks|e] eqn:E; [|by apply wp_ret].
  apply (commit_quiet st s); [done..|]. apply marshal_keys; [done|].
  intros Hks. by eapply revoke_first_times.
Qed.

Lemma FlushUsage_quiet p db :
  quiet (p_os p) → temp_free (path (p_store p)) (p_os p) → store_db p = Some db →
  db_times_ok db = true →
  (∀ id t, usageBuf (p_store p) !! id = Some t → time_ok t = true) →
  wp FlushUsage (λ r p', r = Ok tt ∧ quiet (p_os p')) p.
Proof.
  destruct p as [st s]. simpl. intros Hq Hfree Hdb Hj Hbuf.
  apply wp_bind, wp_gets. case_decide; [by apply wp_ret|].
  apply wp_bind, wp_modify, wp_bind, wp_gets. simpl.
  set (st0 := {| path := path st; usageBuf := ∅ |}).
  apply (exclusive_quiet _ _ _ _ (λ r, r = Ok tt) st0 _ db); [done..|]. intros s1 Hst Hx.
  apply (commit_quiet st0 s); [done..|]. apply marshal_keys; [done|].
  intros Hks. by apply apply_usage_times.
Qed.

(** The draws of ids start after the key body and the salt. *)
Definition after_secrets (s : os) : os :=
  set_rpos (os_rpos s + keyBodyBytes + saltBytes)%nat s.

Lemma drawn_id_ext k s s' :
  os_rand s' = os_rand s → os_rpos s' = os_rpos s → drawn_id k s' = drawn_id k s.
Proof. intros Hr Hp. unfold drawn_id. simpl. by rewrite Hr, Hp. Qed.

Lemma generateID_some fuel existing k s :
  (k < fuel)%nat → drawn_id k s ∉ existing →
  wp (generateID fuel existing) (λ r s', is_Some r ∧ ∃ n, s' = set_rpos n s) s.
Proof.
  intros Hk Hn. destruct (least_index (λ j, drawn_id j s ∉ existing) k Hn) as (j & Hj & Hjn & Hmin).
  unfold wp. rewrite (generateID_first _ _ j); [simpl; eauto|lia|done|].
  intros i Hi. destruct (decide (drawn_id i s ∈ existing)) as [|Hni]; [done|].
  by destruct (Hmin i Hi).
Qed.

Lemma Create_quiet fuel label p db k :
  quiet (p_os p) → temp_free (path (p_store p)) (p_os p) → store_db p = Some db →
  db_times_ok db = true → time_ok (os_now (p_os p)) = true →
  (rune_count label ≤ 64)%nat →
  (k < fuel)%nat → drawn_id k (after_secrets (p_os p)) ∉ map d_ID (Keys db) →
  wp (Create fuel label) (λ r p', (∃ kr, r = Some (Ok kr)) ∧ quiet (p_os p')) p.
Proof.
  destruct p as [st s]. simpl. intros Hq Hfree Hdb Hj Hnow Hlen Hk Hid. unfold Create.
  destruct (Z.ltb_spec 64 (Z.of_nat (rune_count label))) as [?|_]; [lia|].
  apply wp_bind, wp_gets. simpl.
  apply (exclusive_quiet _ _ _ _ (λ r, ∃ kr, r = Some (Ok kr)) _ _ db); [done..|].
  intros s1 Hst Hx. pose proof Hst as (_ & _ & _ & Hr & Hp & _).
  apply wp_bind, wp_on_os, wp_bind. unfold wp at 1. simpl. apply wp_ret.
  apply wp_bind, wp_on_os. unfold wp at 1. simpl.
  apply wp_bind, wp_on_os. eapply wp_mono.
  { apply (generateID_some _ _ k); [done|].
    rewrite (drawn_id_ext _ (after_secrets s)); [done|exact Hr|].
    simpl. by rewrite Hp. }
  intros oid s2 [[id ->] [n ->]]. apply wp_bind, wp_on_os, wp_now, wp_bind.
  apply wp_on_os.
  eapply wp_mono; [apply writeDB_quiet; [apply Hst|exact (still_temp _ _ _ Hst Hfree)|]|].
  { apply marshal_keys; [done|]. intros Hks. rewrite forallb_app, Hks. simpl.
    destruct Hst as (_ & _ & -> & _). unfold times_ok. simpl. by rewrite Hnow. }
  intros r s3 [-> Hq3]. apply wp_ret. eauto.
Qed.
End live.
