(* ===== verification/KeystoreHistory.v ===== *)
(** * KeystoreHistory: the key store over any sequence of operations.

    A step relation over processes (an operation of [Store], a change of the
    surroundings, a restart) and the order [db_le] in which a database may
    grow: records are only appended, their identity and secrets are never
    rewritten, and a revoked record is final. *)

From stdpp Require Import relations.
From S2P Require Import Prelude GoText GoEncoding GoCrypto GoPath GoOs Keystore KeystoreProofs.
Open Scope Z_scope.
Open Scope go_scope.

(** ** How a database grows *)

Definition rec_le (d d' : dbRecord) : Prop :=
  d_ID d' = d_ID d ∧ d_Label d' = d_Label d ∧ d_Created d' = d_Created d
  ∧ d_Fingerprint d' = d_Fingerprint d ∧ d_Hash d' = d_Hash d ∧ d_Salt d' = d_Salt d
  ∧ (d_Revoked d = true → d' = d).

#[export] Instance rec_le_preorder : PreOrder rec_le.
Proof.
  split.
  - by intros d.
  - intros a b c (H1 & H2 & H3 & H4 & H5 & H6 & H7) (K1 & K2 & K3 & K4 & K5 & K6 & K7).
    split_and!; try congruence. intros Ha. rewrite <-(H7 Ha) in Ha |- *. auto.
Qed.

Definition db_le (db db' : Database) : Prop :=
  Version db' = Version db ∧
  ∃ old new, Keys db' = old ++ new ∧ Forall2 rec_le (Keys db) old.

#[export] Instance db_le_preorder : PreOrder db_le.
Proof.
  split.
  - intros db. split; [done|]. exists (Keys db), []. by rewrite app_nil_r.
  - intros a b c [Hv (o1 & n1 & Hb & H1)] [Hw (o2 & n2 & Hc & H2)].
    split; [congruence|]. rewrite Hb in H2.
    apply Forall2_app_inv_l in H2 as (o3 & n3 & H3 & _ & ->).
    exists o3, (n3 ++ n2). rewrite Hc, app_assoc. split; [done|]. by etrans.
Qed.

Lemma db_le_revoked db db' d :
  db_le db db' → d ∈ Keys db → d_Revoked d = true → d ∈ Keys db'.
Proof.
  intros [_ (o & n & -> & HF)] [i Hi]%list_elem_of_lookup Hr.
  destruct (Forall2_lookup_l _ _ _ _ _ HF Hi) as (d' & Hd' & Hle).
  apply elem_of_app. left. apply list_elem_of_lookup. exists i.
  by rewrite <-(proj2 (proj2 (proj2 (proj2 (proj2 (proj2 Hle))))) Hr).
Qed.

(** ** The three rewrites of the database *)

Lemma revoke_first_le id t ks ks' : revoke_first id t ks = Ok ks' → Forall2 rec_le ks ks'.
Proof.
  revert ks'. induction ks as [|k ks IH]; intros ks' Hr; [done|]. simpl in Hr.
  destruct (String.eqb (d_ID k) id).
  - destruct (d_Revoked k) eqn:E; simplify_eq. constructor; [|done].
    split_and!; try done. congruence.
  - destruct (revoke_first id t ks); simplify_eq. by constructor; [|apply IH].
Qed.

Lemma apply_usage_le snap ks : Forall2 rec_le ks (apply_usage snap ks).
Proof.
  induction ks as [|k ks IH]; simpl; constructor; [|done].
  destruct (snap !! d_ID k); [|done]. destruct (d_Revoked k) eqn:E; [done|].
  split_and!; try done. congruence.
Qed.

Lemma rec_le_ids ks ks' : Forall2 rec_le ks ks' → map d_ID ks' = map d_ID ks.
Proof.
  induction 1 as [|d d' ks ks' [Hid _] _ IH]; [done|]. simpl. by rewrite IH, Hid.
Qed.

Lemma same_length_le v ks ks' :
  Forall2 rec_le ks ks' → db_le {| Version := v; Keys := ks |} {| Version := v; Keys := ks' |}.
Proof. intros H. split; [done|]. exists ks', []. by rewrite app_nil_r. Qed.

(** ** Well-formed databases *)

Definition wf_db (db : Database) : Prop :=
  db_text_ok db = true ∧ NoDup (map d_ID (Keys db)).

#[export] Instance wf_db_dec db : Decision (wf_db db).
Proof. unfold wf_db. apply _. Defined.

Lemma wf_db_rewrite v ks ks' :
  wf_db {| Version := v; Keys := ks |} → Forall2 rec_le ks ks' →
  wf_db {| Version := v; Keys := ks' |}.
Proof.
  intros [Ht Hn] HF. split; [|simpl; by rewrite (rec_le_ids _ _ HF)].
  unfold db_text_ok in *. simpl in *. clear Hn.
  induction HF as [|d d' ks ks' (Hi & Hl & _ & Hf & _) _ IH]; [done|].
  simpl in *. apply andb_true_iff in Ht as [Hd Ht]. rewrite (IH Ht), andb_true_r.
  unfold text_ok in *. by rewrite Hi, Hl, Hf.
Qed.

(** ** Operations and histories *)

Inductive op :=
| OpCreate (fuel : nat) (label : string)
| OpList
| OpVerify (presented : string)
| OpRevoke (id : string)
| OpFlush.

Definition op_ok (o : op) : Prop :=
  match o with OpCreate _ label => valid_utf8 label = true | _ => True end.

Section history.
Context `{J : JsonCodec} `{!JsonLaws}.

Definition exec (o : op) : M proc unit :=
  match o with
  | OpCreate fuel label => do! Create fuel label in ret tt
  | OpList => do! List in ret tt
  | OpVerify k => do! Verify k in ret tt
  | OpRevoke id => do! Revoke id in ret tt
  | OpFlush => do! FlushUsage in ret tt
  end.

(** An operation; new surroundings (clock, randomness, faults, temp names); a
    restarted process, which opens the same path with some buffer. *)
Inductive step (p : proc) : proc → Prop :=
| step_op o : op_ok o → step p (exec o p).2
| step_env s' : os_files s' = os_files (p_os p) → os_locks s' = os_locks (p_os p) →
    step p {| p_store := p_store p; p_os := s' |}
| step_restart buf :
    step p {| p_store := {| path := path (p_store p); usageBuf := buf |}; p_os := p_os p |}.

Lemma exec_grows o p db :
  op_ok o → store_db p = Some db → wf_db db →
  wp (exec o) (λ _ p', path (p_store p') = path (p_store p)
    ∧ os_locks (p_os p') = os_locks (p_os p)
    ∧ ∃ db', store_db p' = Some db' ∧ wf_db db' ∧ db_le db db') p.
Proof.
  intros Hok Hdb Hwf. pose proof Hwf as [Ht Hn].
  assert (∀ p', store_db p' = store_db p →
    ∃ db', store_db p' = Some db' ∧ wf_db db' ∧ db_le db db') as Hsame.
  { intros p' Hp'. exists db. split; [congruence|]. by split. }
  assert (∀ p', read_only p p' → store_db p' = store_db p) as Hro.
  { intros p' [(Hf & _) [_ Hpath]]. unfold store_db. by rewrite Hpath, Hf. }
  destruct o as [fuel label| |k|id|]; simpl.
  - wp_call Create_spec. intros r p' (Hst & Hl & Hr). apply wp_ret.
    rewrite Hst, Hl. do 2 (split; [done|]).
    destruct r as [[[key rec]|e]|]; [|by apply Hsame, Hr|by apply Hsame].
    destruct Hr as (_ & Hrec & Hr). eexists. split; [exact Hr|].
    pose proof Hrec as (_ & _ & _ & _ & _ & _ & _ & _ & Hid & _). split; [split|].
    + unfold db_text_ok. simpl. rewrite forallb_app. simpl.
      rewrite (fresh_record_text _ _ _ _ _ Hok Hrec). by rewrite andb_true_r.
    + simpl. rewrite map_app. simpl. apply NoDup_app. split; [done|].
      split; [|apply NoDup_singleton]. intros x Hx ->%list_elem_of_singleton. done.
    + split; [done|]. by exists (Keys db), [toDBRecord rec].
  - wp_call List_spec. intros r p' (Hp & _). apply wp_ret.
    pose proof Hp as (_ & Hl & Hpath). do 2 (split; [done|]). by apply Hsame, Hro.
  - wp_call Verify_spec. intros r p' (Hp & _). apply wp_ret.
    pose proof Hp as (_ & Hl & Hpath). do 2 (split; [done|]). by apply Hsame, Hro.
  - wp_call Revoke_spec. intros r p' (Hst & Hl & Hr). apply wp_ret.
    rewrite Hst, Hl. do 2 (split; [done|]). destruct r as [[]|e]; [|by apply Hsame, Hr].
    destruct Hr as (ks & Hrf & Hr). pose proof (revoke_first_le _ _ _ _ Hrf) as HF.
    eexists. split; [exact Hr|]. destruct db as [v ks0].
    split; [by eapply wf_db_rewrite|by apply same_length_le].
  - wp_call FlushUsage_spec. intros r p' (Hl & Hpath & Hr). apply wp_ret.
    do 2 (split; [done|]). destruct r as [[]|e].
    2: { apply Hsame, Hr. }
    destruct Hr as (_ & Hr). eexists. split; [exact Hr|]. destruct db as [v ks0].
    pose proof (apply_usage_le (usageBuf (p_store p)) ks0).
    split; [by eapply wf_db_rewrite|by apply same_length_le].
Qed.

Lemma step_grows p p' db :
  step p p' → store_db p = Some db → wf_db db →
  path (p_store p') = path (p_store p) ∧ os_locks (p_os p') = os_locks (p_os p)
  ∧ ∃ db', store_db p' = Some db' ∧ wf_db db' ∧ db_le db db'.
Proof.
  intros [o Hok|s' Hf Hl|buf] Hdb Hwf.
  - exact (exec_grows o p db Hok Hdb Hwf).
  - do 2 (split; [done|]). exists db. unfold store_db in *. simpl. by rewrite Hf.
  - do 2 (split; [done|]). by exists db.
Qed.

Lemma history_grows p p' db :
  rtc step p p' → store_db p = Some db → wf_db db →
  path (p_store p') = path (p_store p) ∧ os_locks (p_os p') = os_locks (p_os p)
  ∧ ∃ db', store_db p' = Some db' ∧ wf_db db' ∧ db_le db db'.
Proof.
  intros Hs. revert db. induction Hs as [p|p q r Hpq _ IH]; intros db Hdb Hwf.
  { do 2 (split; [done|]). by exists db. }
  destruct (step_grows _ _ _ Hpq Hdb Hwf) as (Hp & Hl & db1 & Hdb1 & Hwf1 & Hle1).
  destruct (IH _ Hdb1 Hwf1) as (Hp' & Hl' & db2 & Hdb2 & Hwf2 & Hle2).
  split; [congruence|]. split; [congruence|]. exists db2. do 2 (split; [done|]). by etrans.
Qed.

End history.
