(* ===== verification/KeystoreCodec.v ===== *)
(** * KeystoreCodec: a codec with the laws the key store asks of JSON.

    The key store is proved against [JsonCodec] and [JsonLaws]; this instance
    (every field a positive, the document its bits) shows that the laws can be
    met, and lets the examples run. *)

From stdpp Require Import countable.
From S2P Require Import Prelude GoText GoEncoding GoCrypto GoPath GoOs Keystore.
Open Scope Z_scope.

Definition enc_record (d : dbRecord) : list positive :=
  [encode (d_ID d); encode (d_Label d); encode (d_Created d); encode (d_LastUsed d);
   encode (d_RevokedAt d); encode (d_Revoked d); encode (d_Fingerprint d);
   encode (d_Hash d); encode (d_Salt d)].

Definition dec_record (l : list positive) : option dbRecord :=
  match l with
  | [a; b; c; d; e; f; g; h; i] =>
      a ← decode a; b ← decode b; c ← decode c; d ← decode d; e ← decode e;
      f ← decode f; g ← decode g; h ← decode h; i ← decode i;
      Some {| d_ID := a; d_Label := b; d_Created := c; d_LastUsed := d; d_RevokedAt := e;
              d_Revoked := f; d_Fingerprint := g; d_Hash := h; d_Salt := i |}
  | _ => None
  end.

Lemma dec_enc_record d : dec_record (enc_record d) = Some d.
Proof. unfold dec_record, enc_record. rewrite !decode_encode. simpl.
  repeat (rewrite decode_encode; simpl). by destruct d. Qed.

#[export] Instance dbRecord_countable : Countable dbRecord :=
  inj_countable enc_record dec_record dec_enc_record.

#[export] Instance Database_countable : Countable Database.
Proof.
  refine (inj_countable' (λ db, (Version db, Keys db))
            (λ x, {| Version := x.1; Keys := x.2 |}) _). by intros [].
Defined.

Fixpoint pos_bytes (p : positive) : bytes :=
  match p with
  | xH => [x01]
  | xO q => x02 :: pos_bytes q
  | xI q => x03 :: pos_bytes q
  end.

Fixpoint bytes_pos (b : bytes) : option positive :=
  match b with
  | [] => None
  | x :: b' =>
      match x with
      | x01 => match b' with [] => Some xH | _ => None end
      | x02 => xO <$> bytes_pos b'
      | x03 => xI <$> bytes_pos b'
      | _ => None
      end
  end.

Lemma bytes_pos_of p : bytes_pos (pos_bytes p) = Some p.
Proof. induction p as [p IH|p IH|]; simpl; by rewrite ?IH. Qed.

#[export] Instance bit_codec : JsonCodec := {|
  json_marshal db := Some (pos_bytes (encode db));
  json_unmarshal data := p ← bytes_pos data; decode p;
|}.

#[export] Instance bit_codec_laws : JsonLaws.
Proof.
  split.
  - intros db data _ [= <-]. simpl. rewrite bytes_pos_of. simpl. apply decode_encode.
  - intros db [= H]. by destruct (encode db).
  - intros db _. simpl. eauto.
Qed.

(** ** A machine to run examples on *)

(** A random stream with every byte value, a clock, two free temp names. *)
Definition demo_os (files : disk) (faults : list (option fault)) : os :=
  {| os_files := files; os_trace := []; os_now := 1000;
     os_rand := λ n, byte_of_Z (Z.of_nat n); os_rpos := 0; os_tmp := ["17"%string; "18"%string];
     os_faults := faults; os_locks := [] |}.

Definition demo_path : string := "/etc/raxd/keys.db".

Definition demo_key : string := "rax_live_demo".

Definition demo_record (id : string) (revoked : bool) : dbRecord :=
  {| d_ID := id; d_Label := "laptop"; d_Created := 5; d_LastUsed := 0;
     d_RevokedAt := if revoked then 7 else 0; d_Revoked := revoked; d_Fingerprint := "f0";
     d_Hash := hashKey demo_key [x01; x02]; d_Salt := [x01; x02] |}.

Definition demo_db : Database :=
  {| Version := 1; Keys := [demo_record "aa" true; demo_record "bb" false] |}.

Definition demo_file : file := File 384 (pos_bytes (encode demo_db)).

Definition demo_proc (faults : list (option fault)) : proc :=
  {| p_store := {| path := demo_path; usageBuf := ∅ |};
     p_os := demo_os {[demo_path := demo_file]} faults |}.
