(* ===== verification/KeystoreTheorems.v ===== *)
(** * KeystoreTheorems: the guarantees of the key store. *)

From stdpp Require Import relations.
From S2P Require Import Prelude GoText GoEncoding GoCrypto GoPath GoOs GoAtomic Keystore KeystoreProofs KeystoreLive KeystoreHistory KeystoreCodec.
Open Scope Z_scope.
Open Scope go_scope.

(** ** Auxiliary facts *)

(** The record a revocation hits: the first with the id. *)
Lemma revoke_first_ok id t ks ks' :
  revoke_first id t ks = Ok ks' ↔
  ∃ i d, ks !! i = Some d ∧ d_ID d = id ∧ d_Revoked d = false
    ∧ (∀ j d', (j < i)%nat → ks !! j = Some d' → d_ID d' ≠ id)
    ∧ ks' = <[i := d_revoke t d]> ks.
Proof.
  revert ks'. induction ks as [|k ks IH]; intros ks'; simpl.
  { split; [done|]. intros (i & d & Hd & _). by destruct i. }
  destruct (String.eqb_spec (d_ID k) id) as [Hid|Hid].
  - destruct (d_Revoked k) eqn:Er; split; try done.
    + intros ([|i] & d & Hd & Hdi & Hr & Hj & _); simplify_eq/=; [congruence|].
      by destruct (Hj 0%nat k ltac:(lia) eq_refl).
    + intros [= <-]. exists 0%nat, k. split_and!; try done. lia.
    + intros ([|i] & d & Hd & Hdi & Hr & Hj & ->); simplify_eq/=; [done|].
      by destruct (Hj 0%nat k ltac:(lia) eq_refl).
  - destruct (revoke_first id t ks) as [ks1|e] eqn:E; split.
    + intros [= <-]. destruct (proj1 (IH ks1) eq_refl) as (i & d & Hd & Hdi & Hr & Hj & ->).
      exists (S i), d. split_and!; try done. intros [|j] d' Hlt Hd'; simplify_eq/=; [done|].
      apply (Hj j); [lia|done].
    + intros ([|i] & d & Hd & Hdi & Hr & Hj & ->); simplify_eq/=. f_equal.
      assert (Ok (E:=kerr) ks1 = Ok (<[i := d_revoke t d]> ks)) as Heq; [|congruence].
      apply IH. exists i, d. split_and!; try done. intros j d' Hlt. apply (Hj (S j)). lia.
    + done.
    + intros ([|i] & d & Hd & Hdi & Hr & Hj & ->); simplify_eq/=.
      exfalso. assert (Err e = Ok (<[i := d_revoke t d]> ks)) as Heq; [|done].
      apply IH. exists i, d. split_and!; try done. intros j d' Hlt. apply (Hj (S j)). lia.
Qed.

Lemma revoke_first_err id t ks e :
  revoke_first id t ks = Err e →
  (e = ErrNotFound ∧ id ∉ map d_ID ks)
  ∨ (e = ErrAlreadyRevoked ∧ ∃ d, d ∈ ks ∧ d_ID d = id ∧ d_Revoked d = true).
Proof.
  induction ks as [|k ks IH]; simpl.
  { intros [= <-]. left. split; [done|]. apply not_elem_of_nil. }
  destruct (String.eqb_spec (d_ID k) id) as [Hid|Hid].
  - destruct (d_Revoked k) eqn:Er; [|done]. intros [= <-]. right. split; [done|].
    exists k. split; [apply list_elem_of_here|done].
  - destruct (revoke_first id t ks) as [ks1|e1]; [done|]. intros [= ->].
    destruct (IH eq_refl) as [[-> Hni]|(-> & d & Hd & Hrest)].
    + left. split; [done|]. apply not_elem_of_cons. by split.
    + right. split; [done|]. exists d. split; [by apply list_elem_of_further|done].
Qed.

(** In a store with unique ids, no active record shares the id of a revoked one. *)
Lemma unique_id ks d d' :
  NoDup (map d_ID ks) → d ∈ ks → d' ∈ ks → d_ID d = d_ID d' → d = d'.
Proof.
  induction ks as [|k ks IH]; simpl; intros Hn Hd Hd' Hid; [by apply elem_of_nil in Hd|].
  apply NoDup_cons in Hn as [Hk Hn].
  apply elem_of_cons in Hd as [->|Hd]; apply elem_of_cons in Hd' as [->|Hd'];
    [done| | |by apply IH].
  - destruct Hk. rewrite Hid. by apply list_elem_of_fmap_2.
  - destruct Hk. rewrite <-Hid. by apply list_elem_of_fmap_2.
Qed.

Lemma candidate_spec k d :
  candidate k d = true ↔ d_Revoked d = false ∧ d_Hash d = hashKey k (d_Salt d).
Proof.
  unfold candidate. rewrite andb_true_iff, negb_true_iff, Z.eqb_eq, constant_time_compare_spec.
  by split; intros [? ?].
Qed.

Lemma with_LastUsed_of_to t rec :
  with_LastUsed t (fromDBRecord (toDBRecord rec)) = with_LastUsed t rec.
Proof. by destruct rec. Qed.

Section theorems.
Context `{J : JsonCodec} `{!JsonLaws}.

(** What a crash may expose while a database is being written. *)
Definition old_or_new (p t : string) (db : Database) (s : os) (d : disk) : Prop :=
  (db_at p d = db_at p (os_files s) ∨ db_at p d = Some db)
  ∧ ∀ q f, d !! q = Some f →
      os_files s !! q = Some f ∨ ((q = p ∨ q = t) ∧ f_mode f = 384).

Lemma db_at_marshalled p db data d :
  db_text_ok db = true → json_marshal db = Some data →
  db_at p (<[p := File 384 data]> d) = Some db.
Proof.
  intros Ht Hj. unfold db_at. rewrite lookup_insert_eq. simpl.
  pose proof (unmarshal_marshal _ _ Ht Hj) as Hu.
  destruct data; [by apply marshal_nonempty in Hj|done].
Qed.

Lemma write_disk_old_or_new p t db data s d :
  db_text_ok db = true → write_disk p t 384 data (json_marshal db = Some data) s d →
  old_or_new p t db s d.
Proof.
  intros Ht [|f Hne Hm|Hj].
  - split; [by left|]. by left.
  - split; [left; unfold db_at; by rewrite lookup_insert_ne|].
    intros q g [[<- <-]|[Hq Hg]]%lookup_insert_Some; [right|by left].
    split; [by right|by destruct Hm as [[] _]].
  - split; [right; by apply db_at_marshalled|].
    intros q g [[<- <-]|[Hq Hg]]%lookup_insert_Some; [by right; auto|by left].
Qed.

(** C6: [writeDB] is atomic.  On every disk the machine goes through during the
    call (a crash can expose any of them), and whatever call fails, the store
    denotes the old database or the new one, and the only file that appears or
    changes beside it is one temp file, with mode 0600; success means the new
    database is there, failure that the old one is. *)
Theorem writeDB_crash_atomic p db s :
  is_Some (os_files s !! p) → db_text_ok db = true →
  wp (writeDB p db) (λ r s',
    (∃ ds t, os_trace s' = ds ++ os_trace s ∧ Forall (old_or_new p t db s) (os_files s' :: ds))
    ∧ db_at p (os_files s') = (match r with Ok _ => Some db | Err _ => db_at p (os_files s) end)) s.
Proof.
  intros Hp Ht. eapply wp_mono; [by apply writeDB_spec|].
  intros r s' Hw. pose proof (write_result_db _ _ _ _ _ Ht Hw) as (_ & _ & Hdb).
  destruct r as [[]|e]; simpl in *.
  - destruct Hw as (t & data & Hj & Hf & _ & _ & ds & Htr & HF). split; [|done].
    exists ds, t. split; [done|]. constructor.
    + rewrite Hf. by eapply write_disk_old_or_new, WD_after.
    + eapply Forall_impl; [exact HF|]. intros d. by apply write_disk_old_or_new.
  - destruct Hw as (_ & t & data & Hf & _ & _ & ds & Htr & HF). split; [|apply Hdb].
    exists ds, t. split; [done|]. constructor.
    + destruct Hf as [->|(Hne & _ & y & Hm & ->)];
        eapply (write_disk_old_or_new _ _ _ data); try done; [by constructor|].
      by constructor.
    + eapply Forall_impl; [exact HF|]. intros d. by apply write_disk_old_or_new.
Qed.

(** C29: A key that [Create] returned is accepted by the next [Verify], which
    answers with the very record of that key (its last use set to now), even if
    other records should collide with it; the only other outcome is an
    input/output error, and on a machine where no call fails there is none. *)
Theorem Create_Verify_roundtrip fuel label p db :
  store_db p = Some db → db_text_ok db = true → valid_utf8 label = true →
  wp (Create fuel label) (λ r p1, ∀ key rec, r = Some (Ok (key, rec)) →
    ∀ s2, os_files s2 = os_files (p_os p1) →
    wp (Verify key) (λ v _, match v with
      | Ok o => o = Some (with_LastUsed (os_now s2) rec)
      | Err e => io_error e ∧ os_faults s2 ≠ []
      end) {| p_store := p_store p1; p_os := s2 |}) p.
Proof.
  intros Hdb Ht Hl. eapply wp_mono; [by apply Create_spec|].
  intros r p1 (_ & _ & Hr) key rec ->. destruct Hr as (_ & Hrec & Hdb1). intros s2 Hs2.
  set (p2 := {| p_store := p_store p1; p_os := s2 |}).
  assert (store_db p2 = Some {| Version := Version db; Keys := Keys db ++ [toDBRecord rec] |})
    as Hdb2 by (unfold store_db in *; simpl; by rewrite Hs2).
  eapply wp_mono.
  { apply wp_and; [by apply Verify_spec|].
    apply (wp_intro _ (λ v _, os_faults s2 = [] → is_ok v = true)).
    intros v p3 Hrun Hq. exact (proj2 (wp_run _ _ _ _ _ Hrun (Verify_quiet key p2 _ Hq Hdb2))). }
  intros v p3 [[_ Hv] Hq]. destruct Hrec as (_ & _ & _ & _ & Hrev & _ & Hh & _).
  assert (find_last (candidate key) (Keys db ++ [toDBRecord rec]) = Some (toDBRecord rec)) as Hfl.
  { apply find_last_snoc_hit, candidate_spec. by simpl. }
  simpl in Hv. rewrite Hfl in Hv. destruct v as [[rec'|]|e].
  - destruct Hv as (d & [= <-] & -> & _). by rewrite with_LastUsed_of_to.
  - by destruct Hv.
  - split; [by destruct Hv|]. intros Hnil. by apply Hq in Hnil.
Qed.

(** [Create] succeeds whenever no system call fails, the clock and the stored
    times are before the year 10000, the label has at most 64 characters, and one
    of the next [fuel] ids drawn is free: it then has appended exactly one record,
    active and never used, with a fresh id, the salted hash and the fingerprint of
    the key it returns, and released its lock. *)
Theorem Create_appends fuel label p db k :
  store_db p = Some db → wf_db db → valid_utf8 label = true →
  quiet (p_os p) → temp_free (path (p_store p)) (p_os p) →
  db_times_ok db = true → time_ok (os_now (p_os p)) = true →
  (rune_count label ≤ 64)%nat →
  (k < fuel)%nat → drawn_id k (after_secrets (p_os p)) ∉ map d_ID (Keys db) →
  wp (Create fuel label) (λ r p', ∃ key rec, r = Some (Ok (key, rec))
    ∧ fresh_record key label (os_now (p_os p)) (map d_ID (Keys db)) rec
    ∧ store_db p' = Some {| Version := Version db; Keys := Keys db ++ [toDBRecord rec] |}
    ∧ os_locks (p_os p') = os_locks (p_os p)) p.
Proof.
  intros Hdb [Ht Hn] Hl Hq Hfree Hj Hnow Hlen Hk Hid. eapply wp_mono.
  { apply wp_and; [by apply Create_spec|by eapply Create_quiet]. }
  intros r p' [(_ & Hlk & Hr) [[[key rec] ->] _]]. destruct Hr as (_ & Hrec & Hdb').
  exists key, rec. by split_and!.
Qed.

(** [Revoke] on a machine where no call fails, before the year 10000: [nil]
    exactly when the first record with that id is active, and then that record,
    and no other, is marked revoked now; [ErrNotFound] when no record has the id; [ErrAlreadyRevoked]
    when one has it and is revoked; errors leave the database as it was. *)
Theorem Revoke_refines id p db :
  store_db p = Some db → wf_db db → quiet (p_os p) →
  temp_free (path (p_store p)) (p_os p) →
  db_times_ok db = true → time_ok (os_now (p_os p)) = true →
  wp (Revoke id) (λ r p', os_locks (p_os p') = os_locks (p_os p) ∧
    match r with
    | Ok _ => ∃ i d, Keys db !! i = Some d ∧ d_ID d = id ∧ d_Revoked d = false
        ∧ store_db p' = Some {| Version := Version db;
                                Keys := <[i := d_revoke (os_now (p_os p)) d]> (Keys db) |}
    | Err ErrNotFound => (id ∉ map d_ID (Keys db)) ∧ store_db p' = Some db
    | Err ErrAlreadyRevoked =>
        (∃ d, d ∈ Keys db ∧ d_ID d = id ∧ d_Revoked d = true) ∧ store_db p' = Some db
    | Err _ => False
    end) p.
Proof.
  intros Hdb [Ht Hn] Hq Hfree Hj Hnow. eapply wp_mono.
  { apply wp_and; [by apply Revoke_spec|by apply (Revoke_quiet id p db)]. }
  intros r p' [(_ & Hlk & Hr) [Heq _]]. split; [done|].
  destruct (revoke_first id (os_now (p_os p)) (Keys db)) as [ks|e] eqn:E; subst r.
  - destruct Hr as (ks' & [= <-] & Hs). apply revoke_first_ok in E.
    destruct E as (i & d & Hd & Hi & Hrv & _ & ->). eauto 10.
  - destruct Hr as [Hs _]. rewrite Hdb in Hs.
    apply revoke_first_err in E as [[-> Hni]|[-> Hex]]; by split.
Qed.

(** What [Verify] accepts.  It writes nothing: the disk, its history and
    the locks are untouched.  It answers with a record exactly when some active
    record's stored hash is the salted hash of the presented key, the record it
    returns is such a record, and only its id gets a buffered time stamp. *)
Theorem Verify_sound_complete k p db :
  store_db p = Some db →
  wp (Verify k) (λ r p', read_only p p' ∧
    match r with
    | Ok (Some rec) => ∃ d, d ∈ Keys db ∧ d_Revoked d = false
        ∧ d_Hash d = hashKey k (d_Salt d)
        ∧ rec = with_LastUsed (os_now (p_os p)) (fromDBRecord d)
        ∧ usageBuf (p_store p') = <[ID rec := os_now (p_os p)]> (usageBuf (p_store p))
    | Ok None => p_store p' = p_store p
        ∧ ∀ d, d ∈ Keys db → d_Revoked d = false → d_Hash d ≠ hashKey k (d_Salt d)
    | Err e => p_store p' = p_store p ∧ io_error e ∧ os_faults (p_os p) ≠ []
    end) p.
Proof.
  intros Hdb. eapply wp_mono.
  { apply wp_and; [by apply Verify_spec|].
    apply (wp_intro _ (λ v _, quiet (p_os p) → is_ok v = true)). intros v p3 Hrun Hq.
    exact (proj2 (wp_run _ _ _ _ _ Hrun (Verify_quiet k p _ Hq Hdb))). }
  intros r p' [[Hro Hr] Hq]. split; [done|]. destruct r as [[rec|]|e].
  - destruct Hr as (d & Hd & -> & Hbuf). apply find_last_Some in Hd as [Hin Hc].
    apply candidate_spec in Hc as [Hrv Hh]. eauto 10.
  - destruct Hr as [Hf Hst]. split; [done|]. intros d Hin Hrv Hh.
    apply find_last_None with (x := d) in Hf; [|done].
    assert (candidate k d = true) by (by apply candidate_spec). congruence.
  - destruct Hr as [Hio Hst]. split_and!; [done..|]. intros Hnil. by apply Hq in Hnil.
Qed.

(** C7: Over any sequence of operations, failures, restarts and changes of the
    clock, from a well-formed database: the file always denotes a well-formed
    database (unique ids), which extends the first one (records are kept in
    order with their id, label, hash and salt; revoked records are never
    touched again), and every lock taken has been released. *)
Theorem history_append_only p p' db :
  rtc step p p' → store_db p = Some db → wf_db db →
  os_locks (p_os p') = os_locks (p_os p)
  ∧ ∃ db', store_db p' = Some db' ∧ wf_db db' ∧ db_le db db'.
Proof.
  intros Hs Hdb Hwf. by destruct (history_grows _ _ _ Hs Hdb Hwf) as (_ & Hl & Hdb').
Qed.

(** After a revocation and any history, the active records have other ids. *)
Lemma revoked_stays id p p1 p2 db :
  store_db p = Some db → wf_db db →
  Revoke id p = (Ok tt, p1) → rtc step p1 p2 →
  ∃ db2, store_db p2 = Some db2 ∧ ∀ e, e ∈ Keys db2 → d_Revoked e = false → d_ID e ≠ id.
Proof.
  intros Hdb Hwf Hrun Hs. pose proof Hwf as [Ht Hn].
  pose proof (wp_run _ _ _ _ _ Hrun (Revoke_spec id p db Hdb Ht)) as (_ & _ & ks & Hrf & Hdb1).
  pose proof Hrf as (i & d & Hd & Hi & Hr & _ & Hks)%revoke_first_ok.
  destruct db as [v ks0]. simpl in *.
  assert (wf_db {| Version := v; Keys := ks |}) as Hwf1
    by (eapply wf_db_rewrite; [done|by eapply revoke_first_le]).
  destruct (history_grows _ _ _ Hs Hdb1 Hwf1) as (_ & _ & db2 & Hdb2 & [_ Hn2] & Hle).
  set (d' := d_revoke (os_now (p_os p)) d).
  assert (d' ∈ Keys db2) as Hd2.
  { eapply db_le_revoked; [exact Hle| |done]. simpl. rewrite Hks.
    apply list_elem_of_insert. by eapply lookup_lt_Some. }
  exists db2. split; [done|]. intros e Hin Hrv Heq.
  assert (e = d') as -> by (eapply unique_id; [done..|]; simpl; congruence).
  done.
Qed.

(** A revocation is final.  Once [Revoke id] has returned [nil], no later
    [Verify], after any history of operations, answers with a record of that
    id. *)
Theorem revoked_never_verified id k p p1 p2 db :
  store_db p = Some db → wf_db db →
  Revoke id p = (Ok tt, p1) → rtc step p1 p2 →
  wp (Verify k) (λ r _, ∀ rec, r = Ok (Some rec) → ID rec ≠ id) p2.
Proof.
  intros Hdb Hwf Hrun Hs. destruct (revoked_stays _ _ _ _ _ Hdb Hwf Hrun Hs) as (db2 & Hdb2 & Hne).
  eapply wp_mono; [by apply Verify_spec|]. intros r p3 [_ Hv] rec ->.
  destruct Hv as (e & He & -> & _). apply find_last_Some in He as [Hin [Hrv _]%candidate_spec].
  by apply Hne.
Qed.

(** [FlushUsage] persists exactly the buffered time stamps of active
    records: on success the buffer is empty and every record is as before,
    except that an active one with a buffered time has it as its last use; on
    failure the database is unchanged. *)
Theorem FlushUsage_exact p db :
  store_db p = Some db → wf_db db →
  wp FlushUsage (λ r p', os_locks (p_os p') = os_locks (p_os p) ∧
    match r with
    | Ok _ => usageBuf (p_store p') = ∅ ∧ ∃ ks,
        store_db p' = Some {| Version := Version db; Keys := ks |}
        ∧ length ks = length (Keys db)
        ∧ ∀ i d, Keys db !! i = Some d →
            ks !! i = Some (match usageBuf (p_store p) !! d_ID d with
                            | Some t => if d_Revoked d then d else d_with_LastUsed t d
                            | None => d
                            end)
    | Err e => io_error e ∧ store_db p' = Some db
    end) p.
Proof.
  intros Hdb [Ht Hn]. eapply wp_mono; [by apply FlushUsage_spec|].
  intros r p' (Hl & _ & Hr). split; [done|]. destruct r as [[]|e].
  - destruct Hr as [Hb Hs]. split; [done|]. eexists. split; [exact Hs|].
    unfold apply_usage. rewrite length_map. split; [done|]. intros i d Hd.
    rewrite list_lookup_fmap, Hd. simpl. by destruct (usageBuf (p_store p) !! d_ID d).
  - destruct Hr as (Hio & Hs & _). split; [done|]. congruence.
Qed.

(** The id loop stops: when the first [n + 1] draws differ from each other,
    where [n] ids are taken, [n + 1] iterations find one that is free, and the
    id is 16 hexadecimal characters. *)
Theorem generateID_terminates existing s :
  NoDup (map (λ k, drawn_id k s) (seq 0 (S (length existing)))) →
  ∃ id, (generateID (S (length existing)) existing s).1 = Some id
    ∧ (id ∉ existing) ∧ String.length id = 16%nat.
Proof.
  intros Hn. destruct (generateID_total existing s Hn) as [id Hid]. exists id.
  pose proof (generateID_spec (S (length existing)) existing s) as [_ Hs].
  rewrite Hid in Hs. destruct Hs as (Hf & b & Hb & ->).
  split_and!; [done..|]. rewrite hex_encode_length, Hb. done.
Qed.

End theorems.

(** ** Instances: a store with one revoked and one active key *)

Lemma demo_wf : wf_db demo_db.
Proof. split; [reflexivity|]. by apply (bool_decide_unpack (NoDup _)). Qed.

Lemma db_of_data_encoded db : db_of_data (pos_bytes (encode db)) = Some db.
Proof.
  unfold db_of_data. destruct (pos_bytes (encode db)) eqn:E; [by destruct (encode db)|].
  rewrite <-E. simpl. rewrite bytes_pos_of. apply decode_encode.
Qed.

Lemma demo_store faults : store_db (demo_proc faults) = Some demo_db.
Proof.
  unfold store_db, db_at. cbn [p_store p_os path demo_proc os_files demo_os].
  rewrite lookup_singleton_eq. apply db_of_data_encoded.
Qed.

(** The definitions above are for evaluation, not for unification. *)
#[local] Opaque demo_db demo_file.

Lemma demo_temp_free : temp_free demo_path (p_os (demo_proc [])).
Proof. split; [done|reflexivity]. Qed.

Lemma demo_times : db_times_ok demo_db = true.
Proof. reflexivity. Qed.

(** A crash-prone write: the sync fails, the old store stays. *)
Lemma writeDB_crash_atomic_witness :
  let s := p_os (demo_proc [None; None; None; Some (Fault "io" 0)]) in
  is_Some (os_files s !! demo_path) ∧ db_text_ok empty_db = true
  ∧ (writeDB demo_path empty_db s).1 ≠ Ok tt
  ∧ db_at demo_path (os_files (writeDB demo_path empty_db s).2) = Some demo_db.
Proof.
  intros s. assert (is_Some (os_files s !! demo_path)) as Hs by (vm_compute; eauto).
  pose proof (writeDB_crash_atomic demo_path empty_db s Hs eq_refl) as [_ H].
  split; [exact Hs|]. split; [reflexivity|]. split; [vm_compute; discriminate|].
  rewrite H. assert ((writeDB demo_path empty_db s).1 = Err (ErrStore "cannot sync key store: io"))
    as Hr by (vm_compute; reflexivity).
  rewrite Hr. exact (demo_store [None; None; None; Some (Fault "io" 0)]).
Defined.

Lemma demo_Create_quiet :
  wp (Create 1 "phone") (λ r p', (∃ kr, r = Some (Ok kr)) ∧ quiet (p_os p')) (demo_proc []).
Proof.
  apply (Create_quiet 1 "phone" _ demo_db 0);
    [reflexivity|exact demo_temp_free|exact (demo_store [])|exact demo_times|reflexivity|vm_compute; lia|lia|].
  apply (bool_decide_unpack (_ ∉ _)). vm_compute. exact I.
Qed.

Lemma Create_Verify_roundtrip_witness :
  ∃ key rec p1, Create 1 "phone" (demo_proc []) = (Some (Ok (key, rec)), p1)
  ∧ (Verify key {| p_store := p_store p1; p_os := demo_os (os_files (p_os p1)) [] |}).1
    = Ok (Some (with_LastUsed 1000 rec)).
Proof.
  pose proof (Create_Verify_roundtrip 1 "phone" (demo_proc []) demo_db (demo_store [])
    eq_refl eq_refl) as H.
  pose proof demo_Create_quiet as [[[key rec] Hkr] _]. unfold wp in H.
  destruct (Create 1 "phone" (demo_proc [])) as [r p1]. simpl in Hkr. subst r.
  exists key, rec, p1. split; [reflexivity|].
  specialize (H key rec eq_refl (demo_os (os_files (p_os p1)) []) eq_refl). cbv beta in H.
  cbn [snd] in H.
  destruct (Verify key _) as [[o|e] p2]; cbn [fst] in *; [by subst o|by destruct H].
Defined.

Lemma Create_appends_witness :
  let p := demo_proc [] in
  ∃ key rec, (Create 1 "phone" p).1 = Some (Ok (key, rec)) ∧ Label rec = "phone"%string
    ∧ store_db (Create 1 "phone" p).2 =
      Some {| Version := 1; Keys := Keys demo_db ++ [toDBRecord rec] |}.
Proof.
  intros p. destruct (Create_appends 1 "phone" p demo_db 0 (demo_store []) demo_wf eq_refl eq_refl
    demo_temp_free demo_times eq_refl ltac:(vm_compute; lia) ltac:(lia)) as (key & rec & Hr & Hf & Hs & _).
  - apply (bool_decide_unpack (_ ∉ _)). vm_compute; reflexivity.
  - exists key, rec. split; [done|]. split; [apply Hf|done].
Defined.

Lemma Revoke_refines_witness :
  let p := demo_proc [] in
  (Revoke "bb" p).1 = Ok tt ∧ (Revoke "aa" p).1 = Err ErrAlreadyRevoked
  ∧ ∃ i d, Keys demo_db !! i = Some d ∧ d_ID d = "bb"%string ∧
    store_db (Revoke "bb" p).2 = Some {| Version := 1; Keys := <[i := d_revoke 1000 d]> (Keys demo_db) |}.
Proof.
  intros p. split; [vm_compute; reflexivity|]. split; [vm_compute; reflexivity|].
  pose proof (Revoke_refines "bb" p demo_db (demo_store []) demo_wf eq_refl demo_temp_free
    demo_times eq_refl) as [_ H].
  assert ((Revoke "bb" p).1 = Ok tt) as Hr by (vm_compute; reflexivity). rewrite Hr in H.
  destruct H as (i & d & Hd & Hi & _ & Hs). eauto.
Defined.

Lemma Verify_sound_complete_witness :
  let p := demo_proc [] in
  ∃ rec, (Verify demo_key p).1 = Ok (Some rec) ∧ ID rec = "bb"%string
    ∧ read_only p (Verify demo_key p).2.
Proof.
  intros p. pose proof (Verify_sound_complete demo_key p demo_db (demo_store [])) as [Hro _].
  assert (∃ rec, (Verify demo_key p).1 = Ok (Some rec) ∧ ID rec = "bb"%string)
    as (rec & Hr & Hid) by (eexists; split; [vm_compute; reflexivity|reflexivity]).
  eauto.
Defined.

(** Flush, restart, revoke: the history of a server and a command. *)
Lemma history_append_only_witness :
  let p := demo_proc [] in
  let p2 := (exec (OpRevoke "bb") (exec (OpVerify demo_key) p).2).2 in
  rtc step p p2 ∧ ∃ db', store_db p2 = Some db' ∧ wf_db db' ∧ db_le demo_db db'.
Proof.
  intros p p2. assert (rtc step p p2) as Hs.
  { eapply rtc_l; [apply (step_op _ (OpVerify demo_key)); exact I|].
    apply rtc_once, (step_op _ (OpRevoke "bb")). exact I. }
  split; [exact Hs|]. apply (history_append_only p p2 demo_db Hs (demo_store []) demo_wf).
Defined.

Lemma revoked_never_verified_witness :
  let p := demo_proc [] in
  ∃ p1, Revoke "bb" p = (Ok tt, p1)
    ∧ ∀ rec, (Verify demo_key p1).1 = Ok (Some rec) → ID rec ≠ "bb"%string.
Proof.
  intros p. destruct (Revoke "bb" p) as [r p1] eqn:E.
  assert (r = Ok tt) as -> by (trans (Revoke "bb" p).1; [rewrite E; reflexivity|vm_compute; reflexivity]).
  exists p1. split; [reflexivity|].
  apply (revoked_never_verified "bb" demo_key p p1 p1 demo_db (demo_store []) demo_wf E).
  apply rtc_refl.
Defined.

Lemma FlushUsage_exact_witness :
  let p := (Verify demo_key (demo_proc [])).2 in
  (FlushUsage p).1 = Ok tt ∧ ∃ ks,
    store_db (FlushUsage p).2 = Some {| Version := 1; Keys := ks |}
    ∧ ks !! 1%nat = Some (d_with_LastUsed 1000 (demo_record "bb" false)).
Proof.
  intros p. assert (store_db p = Some demo_db) as Hp.
  { pose proof (Verify_spec demo_key (demo_proc []) demo_db (demo_store [])) as [[[Hf _] [_ Hpath]] _].
    unfold store_db. fold p in Hf, Hpath. rewrite Hf, Hpath. apply (demo_store []). }
  pose proof (FlushUsage_exact p demo_db Hp demo_wf) as [_ H].
  assert ((FlushUsage p).1 = Ok tt) as Hr by (vm_compute; reflexivity).
  split; [exact Hr|]. rewrite Hr in H. destruct H as (_ & ks & Hs & _ & Hks). exists ks.
  split; [exact Hs|]. rewrite (Hks 1%nat (demo_record "bb" false)); [|done].
  assert (usageBuf (p_store p) !! "bb"%string = Some 1000) as Hb by (vm_compute; reflexivity).
  simpl. by rewrite Hb.
Defined.

Lemma generateID_terminates_witness :
  let s := demo_os ∅ [] in
  let taken := [drawn_id 0 s; "ff"%string] in
  ∃ id, (generateID 3 taken s).1 = Some id ∧ (id ∉ taken) ∧ String.length id = 16%nat.
Proof.
  intros s taken. apply (generateID_terminates taken s).
  apply (bool_decide_unpack (NoDup _)). vm_compute; reflexivity.
Defined.

(** ** A write that fails loses the buffered time stamps

    [FlushUsage] gives the buffer back when the lock or the read fails, but not
    when the write does. *)
Theorem FlushUsage_write_failure_drops_usage :
  let p := (Verify demo_key (demo_proc [])).2 in
  let p0 := {| p_store := p_store p;
               p_os := set_faults [None; None; None; Some (Fault "no space" 0)] (p_os p) |} in
  let p1 := (FlushUsage p0).2 in
  usageBuf (p_store p0) = {["bb"%string := 1000]}
  ∧ (FlushUsage p0).1 = Err (ErrStore "cannot create temp file for key store: no space")
  ∧ usageBuf (p_store p1) = ∅
  ∧ os_files (p_os p1) = os_files (p_os p0).
Proof. split_and!; vm_compute; reflexivity. Qed.
