(* ===== verification/KeystoreJson.v ===== *)
(** * KeystoreJson: the document of the key store.

    [json.Marshal] and [json.Unmarshal] on the [Database] of
    [internal/keystore/record.go], by the tags of its fields: what [Marshal]
    makes of the Go types, and how [Unmarshal] merges a document into the zero
    value.  It is the codec the key store runs with: [json_codec_laws] discharges
    the laws the theorems on the key store ask for, and
    [database_survives_its_file] is the round trip through a file.

    A slice is its elements: [nil] and an empty slice are both written [null]; a
    time is its instant, which is written in UTC, as raxd takes it.
    When a document gives a slice twice, the elements that were cut off in
    between are forgotten. *)

From S2P Require Import Prelude GoText GoEncoding GoTime GoJson GoJsonProofs GoCrypto GoPath GoOs GoAtomic Keystore KeystoreProofs KeystoreLive KeystoreCodec KeystoreTheorems.
Open Scope Z_scope.
Open Scope go_scope.

(** ** Writing *)

Definition enc_dbRecord (d : dbRecord) : json :=
  JObj [("id", enc_string (d_ID d)); ("label", enc_string (d_Label d));
        ("created", enc_time (d_Created d)); ("last_used", enc_time (d_LastUsed d));
        ("revoked_at", enc_time (d_RevokedAt d)); ("revoked", JBool (d_Revoked d));
        ("fingerprint", enc_string (d_Fingerprint d));
        ("hash", enc_bytes (d_Hash d)); ("salt", enc_bytes (d_Salt d))]%string.

Definition enc_Database (db : Database) : json :=
  JObj [("version", JNum (fmt_d (Version db)));
        ("keys", match Keys db with [] => JNull | ks => JArr (map enc_dbRecord ks) end)]%string.

(** ** Reading *)

Definition zero_dbRecord : dbRecord :=
  {| d_ID := ""; d_Label := ""; d_Created := 0; d_LastUsed := 0; d_RevokedAt := 0;
     d_Revoked := false; d_Fingerprint := ""; d_Hash := []; d_Salt := [] |}.

Definition dec_dbRecord (cur : dbRecord) (v : json) : option dbRecord :=
  match v with
  | JNull => Some cur
  | JObj ms =>
      ms ← member_names ms;
      id ← dec_field "id" dec_string ms (d_ID cur);
      label ← dec_field "label" dec_string ms (d_Label cur);
      created ← dec_field "created" dec_time ms (d_Created cur);
      last_used ← dec_field "last_used" dec_time ms (d_LastUsed cur);
      revoked_at ← dec_field "revoked_at" dec_time ms (d_RevokedAt cur);
      revoked ← dec_field "revoked" dec_bool ms (d_Revoked cur);
      fingerprint ← dec_field "fingerprint" dec_string ms (d_Fingerprint cur);
      hash ← dec_field "hash" dec_bytes ms (d_Hash cur);
      salt ← dec_field "salt" dec_bytes ms (d_Salt cur);
      Some {| d_ID := id; d_Label := label; d_Created := created; d_LastUsed := last_used;
              d_RevokedAt := revoked_at; d_Revoked := revoked; d_Fingerprint := fingerprint;
              d_Hash := hash; d_Salt := salt |}
  | _ => None
  end.

Definition dec_keys (cur : list dbRecord) (v : json) : option (list dbRecord) :=
  match v with
  | JNull => Some []
  | JArr l => dec_slice dec_dbRecord zero_dbRecord cur l
  | _ => None
  end.

Definition dec_Database (cur : Database) (v : json) : option Database :=
  match v with
  | JNull => Some cur
  | JObj ms =>
      ms ← member_names ms;
      version ← dec_field "version" dec_int ms (Version cur);
      keys ← dec_field "keys" dec_keys ms (Keys cur);
      Some {| Version := version; Keys := keys |}
  | _ => None
  end.

(** ** The codec *)

(** A year RFC 3339 cannot write is the one thing [Marshal] fails on; a version
    outside the range of [int] cannot occur. *)
Definition years_ok (d : dbRecord) : bool :=
  rfc3339_year (d_Created d) && rfc3339_year (d_LastUsed d) && rfc3339_year (d_RevokedAt d).

#[local] Instance json_codec : JsonCodec := {|
  json_marshal db :=
    if (min_int64 <=? Version db) && (Version db <=? max_int64) && forallb years_ok (Keys db)
    then Some (bytes_of_string (print_json (enc_Database db))) else None;
  json_unmarshal data :=
    v ← scan (string_of_bytes data); dec_Database {| Version := 0; Keys := [] |} v;
|}.

(** ** Its laws *)

(** The range of the law is inside that of RFC 3339. *)
Lemma time_ok_year t : time_ok t = true → rfc3339_year t = true.
Proof.
  unfold time_ok, rfc3339_year. intros Ht. bool_to_Z.
  destruct (date_of_cycles t) as (a & b & c & e & r & Hb & Hc & He & Hr & Hd & E).
  cbv zeta in E. destruct E as [Hr' ->]. assert (r ≤ 365) by (destruct (is_leap _) in Hr'; lia).
  assert (0 ≤ t / ns_per_day < 3652059) as Hday.
  { split; [by apply Z.div_pos|]. apply Z.div_lt_upper_bound; [done|]. unfold year_10000, ns_per_day in *. lia. }
  apply andb_true_iff. rewrite !Z.leb_le. lia.
Qed.

Lemma dec_enc_dbRecord cur d :
  text_ok d = true → years_ok d = true → dec_dbRecord cur (enc_dbRecord d) = Some d.
Proof.
  unfold text_ok, years_ok. intros Ht Hy. bool_to_Z. unfold dec_dbRecord, enc_dbRecord.
  match goal with |- (member_names ?ms ≫= _) = _ => change (member_names ms) with (Some ms) end.
  cbn [mbind option_bind].
  dec_fields ltac:(first [by apply dec_enc_string|by apply dec_enc_time|apply dec_enc_bytes]).
  by destruct d.
Qed.

Lemma dec_enc_keys cur ks :
  forallb text_ok ks = true → forallb years_ok ks = true →
  dec_slice dec_dbRecord zero_dbRecord cur (map enc_dbRecord ks) = Some ks.
Proof.
  revert cur. induction ks as [|k ks IH]; intros cur Ht Hy; [done|].
  cbn [forallb map dec_slice] in *. apply andb_true_iff in Ht as [Htk Ht], Hy as [Hyk Hy].
  rewrite dec_enc_dbRecord by done. cbn [mbind option_bind]. by rewrite IH.
Qed.

Lemma dec_enc_Database cur db :
  db_text_ok db = true → int64_range (Version db) → forallb years_ok (Keys db) = true → dec_Database cur (enc_Database db) = Some db.
Proof.
  unfold db_text_ok. intros Ht Hv0 Hy. unfold dec_Database, enc_Database.
  match goal with |- (member_names ?ms ≫= _) = _ => change (member_names ms) with (Some ms) end.
  cbn [mbind option_bind].
  assert (∀ cur, dec_int cur (JNum (fmt_d (Version db))) = Some (Version db)) as Hv
    by (intros c; cbn [dec_int]; by rewrite parse_int_fmt_d).
  assert (∀ cur, dec_keys cur (match Keys db with [] => JNull | ks => JArr (map enc_dbRecord ks) end)
                 = Some (Keys db)) as Hk.
  { intros c. destruct (Keys db) as [|k ks] eqn:E; [done|]. cbn [dec_keys]. by apply dec_enc_keys. }
  dec_fields ltac:(first [apply Hv|apply Hk]). by destruct db.
Qed.

(** What is written is a document. *)
Lemma wf_dbRecord d : wf_json (enc_dbRecord d).
Proof.
  apply wf_obj. repeat (apply Forall_cons_2; [split; [by apply raw_ok_plain|cbn [snd]; auto with go]|]).
  apply Forall_nil_2.
Qed.

Lemma wf_Database db : wf_json (enc_Database db).
Proof.
  apply wf_obj. repeat (apply Forall_cons_2; [split; [by apply raw_ok_plain|cbn [snd]]|]); [..|apply Forall_nil_2].
  - auto with go.
  - destruct (Keys db) as [|k ks]; [constructor|]. apply wf_arr, Forall_forall.
    intros v (d & -> & _)%list_elem_of_fmap. apply wf_dbRecord.
Qed.

Lemma depth_Database db : json_depth (enc_Database db) ≤ 3.
Proof.
  unfold enc_Database. cbn [json_depth foldr snd].
  assert (∀ ks, 0 ≤ foldr (λ v n, Z.max (json_depth v) n) 0 (map enc_dbRecord ks) ≤ 1) as H.
  { induction ks as [|k ks IH]; [simpl; lia|]. cbn [map foldr].
    assert (json_depth (enc_dbRecord k) = 1) as -> by (unfold enc_dbRecord, enc_bytes; by destruct (d_Hash k), (d_Salt k)).
    lia. }
  destruct (Keys db) as [|k ks]; [simpl; lia|]. cbn [json_depth]. specialize (H (k :: ks)). lia.
Qed.

Lemma times_years d : times_ok d = true → years_ok d = true.
Proof. unfold times_ok, years_ok. intros H. bool_to_Z. by rewrite !time_ok_year. Qed.

(** The laws: what [Marshal] writes of a database whose
    strings are UTF-8, [Unmarshal] reads back, whatever the labels hold; a
    database with times from year 1 to 9999 can be written; and no document is
    empty. *)
#[local] Instance json_codec_laws : JsonLaws.
Proof.
  split.
  - intros db data Ht Hm. cbn [json_marshal json_unmarshal json_codec] in *.
    destruct (_ && _) eqn:E in Hm; [|done].
    assert (data = bytes_of_string (print_json (enc_Database db))) as -> by congruence. bool_to_Z.
    rewrite string_of_bytes_of_string, scan_print;
      [|apply wf_Database|pose proof (depth_Database db); unfold maxNestingDepth; lia].
    cbn [mbind option_bind]. by apply dec_enc_Database.
  - intros db [= H]. cbn [json_marshal json_codec] in H. by case_match.
  - intros db Hdb. cbn [json_marshal json_codec]. unfold db_times_ok in Hdb. bool_to_Z.
    assert (forallb years_ok (Keys db) = true) as ->.
    { rewrite forallb_forall in *. auto using times_years. }
    rewrite (proj2 (Z.leb_le _ _) H), (proj2 (Z.leb_le _ _) H1). simpl. eauto.
Qed.

(** The file of the demo database, the quotes made visible. *)
Fixpoint show_quotes (s : string) : string :=
  match s with
  | EmptyString => EmptyString
  | String c s' => String (if bool_decide (c = dquote) then "'"%char else c) (show_quotes s')
  end.

Example marshal_demo :
  option_map (λ b, show_quotes (string_of_bytes b))
    (json_marshal {| Version := 1; Keys := [{| d_ID := "bb"; d_Label := "<a>"; d_Created := 5;
       d_LastUsed := 0; d_RevokedAt := 63870768000000000000; d_Revoked := true; d_Fingerprint := "f0";
       d_Hash := [x01; x02]; d_Salt := [] |}] |})
  = Some ("{'version':1,'keys':[{'id':'bb','label':'\u003ca\u003e'," +:+
          "'created':'0001-01-01T00:00:00.000000005Z','last_used':'0001-01-01T00:00:00Z'," +:+
          "'revoked_at':'2024-12-26T00:00:00Z','revoked':true,'fingerprint':'f0'," +:+
          "'hash':'AQI=','salt':null}]}")%string.
Proof. vm_compute. reflexivity. Qed.

(** ** Through the file *)

Lemma Open_quiet p s db :
  quiet s → db_at p (os_files s) = Some db →
  wp (Open p) (λ r _, r = Ok {| path := p; usageBuf := ∅ |}) s.
Proof.
  intros Hq Hdb. unfold Open, stat. apply wp_bind, wp_fallible_quiet; [done|]. unfold wp at 1. simpl.
  unfold db_at, db_of_data in Hdb.
  destruct (os_files s !! p) as [[m data]|] eqn:Ef; [|done]. simpl in *.
  destruct data as [|b data]; [done|].
  unfold read_file. apply wp_bind, wp_fallible_quiet; [done|]. unfold wp at 1. rewrite Ef. simpl in *.
  destruct (scan _) as [v|]; [simpl in *|done]. by rewrite Hdb.
Qed.

(** C39: The database survives its file.  When no call fails, a database whose
    strings are UTF-8 (any label, with quotes, angle brackets or control
    characters) and whose times lie between the years 1 and 9999 is written, as
    one JSON document in a file of mode 0600, and from that file [Open] succeeds
    and [readDB] reads the same database: every record, time, hash and salt. *)
Theorem database_survives_its_file p db s :
  quiet s → temp_free p s → is_Some (os_files s !! p) →
  db_text_ok db = true → db_times_ok db = true →
  let '(r, s') := writeDB p db s in
  r = Ok tt
  ∧ os_files s' !! p = Some (File 384 (bytes_of_string (print_json (enc_Database db))))
  ∧ (Open p s').1 = Ok {| path := p; usageBuf := ∅ |}
  ∧ (readDB p s').1 = Ok db.
Proof.
  intros Hq Hfree Hp Ht Hy. destruct (marshal_some db Hy) as [data Hj].
  pose proof (writeDB_quiet p db s Hq Hfree (mk_is_Some _ _ Hj)) as Hr.
  pose proof (writeDB_spec p db s Hp) as Hw. unfold wp in *.
  destruct (writeDB p db s) as [r s']. cbn [fst snd] in *. destruct Hr as [-> Hq'].
  pose proof (write_result_db _ _ _ _ _ Ht Hw) as (_ & _ & Hdb).
  destruct Hw as (t & data' & Hj' & Hf & _).
  split; [done|]. split.
  { rewrite Hf, lookup_insert_eq. cbn [json_marshal json_codec] in Hj'.
    destruct (_ && _) in Hj'; [|done]. do 2 f_equal. congruence. }
  split; [exact (Open_quiet p s' db Hq' Hdb)|]. apply (readDB_quiet p s' db Hq' Hdb).
Qed.

Definition awkward_db : Database :=
  {| Version := 1; Keys := [{| d_ID := "aa"; d_Label := "<" +:+ quoted "é" +:+ str1 nl; d_Created := 5;
       d_LastUsed := 0; d_RevokedAt := 63870768000000000000; d_Revoked := true; d_Fingerprint := "f0";
       d_Hash := [x01; xff]; d_Salt := [] |}] |}.

Lemma database_survives_its_file_witness :
  let s := p_os (demo_proc []) in
  (readDB demo_path (writeDB demo_path awkward_db s).2).1 = Ok awkward_db.
Proof.
  intros s. pose proof (database_survives_its_file demo_path awkward_db s eq_refl demo_temp_free
    ltac:(vm_compute; eauto) eq_refl eq_refl) as H.
  destruct (writeDB demo_path awkward_db s) as [r s']. apply H.
Defined.

(** The file a first key leaves on an empty disk. *)
Example first_key_file :
  let p := (Create 1 "phone" {| p_store := {| path := demo_path; usageBuf := ∅ |}; p_os := demo_os ∅ [] |}).2 in
  (λ f, (f_mode f, show_quotes (string_of_bytes (f_data f)))) <$> os_files (p_os p) !! demo_path
  = Some (384, ("{'version':1,'keys':[{'id':'3031323334353637','label':'phone'," +:+
                "'created':'0001-01-01T00:00:00.000001Z','last_used':'0001-01-01T00:00:00Z'," +:+
                "'revoked_at':'0001-01-01T00:00:00Z','revoked':false,'fingerprint':'28cc2704e789'," +:+
                "'hash':'Ft6ElX5AK5bJQa7QvF+QgiplGgbhuL77qlm/a9fhZks=','salt':'ICEiIyQlJicoKSorLC0uLw=='}]}")%string).
Proof. vm_compute. reflexivity. Qed.
