(* ===== verification/KeystoreCut.v ===== *)
(** * KeystoreCut: a key store file that does not parse.

    Whatever calls fail besides, every operation refuses it and leaves it alone,
    so that it can be repaired.  With the document of [KeystoreJson] this is the
    fate of every file that was cut short: no proper prefix of a database is a
    database with fewer keys. *)

From S2P Require Import Prelude GoText GoEncoding GoTime GoJson GoJsonProofs GoJsonPrefix GoCrypto GoPath GoOs GoAtomic.
From S2P Require Import Keystore KeystoreProofs KeystoreLive KeystoreHistory KeystoreCodec KeystoreTheorems KeystoreJson.
Open Scope Z_scope.
Open Scope go_scope.

Section unreadable.
Context `{J : JsonCodec}.

(** The files and the locks are those of before. *)
Definition left_alone (s s' : os) : Prop := os_files s' = os_files s ∧ os_locks s' = os_locks s.

(** A way out of a section, entered with the store [st], fails and leaves the
    store [st']. *)
Definition bails {A} (P : A → Prop) (st st' : Store) (X : kerr → M proc A) : Prop :=
  ∀ e s, wp (X e) (λ r p', P r ∧ p_store p' = st' ∧ p_os p' = s) (proc_at st s).

Lemma bails_ret {A} (P : A → Prop) st (f : kerr → A) : (∀ e, P (f e)) → bails P st st (λ e, ret (f e)).
Proof. intros H e s. by apply wp_ret. Qed.

Lemma unreadable_file p s : db_at p (os_files s) = None → ∃ f, os_files s !! p = Some f.
Proof. unfold db_at. destruct (os_files s !! p); [eauto|done]. Qed.

Lemma readDB_unreadable p s :
  db_at p (os_files s) = None → wp (readDB p) (λ r s', (∃ m, r = Err (ErrCorrupt m)) ∧ left_alone s s') s.
Proof. intros Hn. apply wp_readDB; [intros; split; [eauto|done]|]. intros l db Hdb. congruence. Qed.

Lemma refuse_exclusive {A} (P : A → Prop) st st' pth X Y (B : Database → M proc A) s :
  db_at pth (os_files s) = None → bails P st st' X → bails P st st' Y →
  wp (let! lk := on_os (acquireLock pth lockExclusive) in
      match lk with
      | Err e => X e
      | Ok lf =>
          deferring lf
            (let! r := on_os (readDB pth) in
             match r with Err e => Y e | Ok db => B db end)
      end) (λ r p', P r ∧ p_store p' = st' ∧ left_alone s (p_os p')) (proc_at st s).
Proof.
  intros Hn HX HY. destruct (unreadable_file _ _ Hn) as [f Hf].
  assert (∀ s', touched pth s s' → os_files s' = os_files s) as Htc
    by (intros s' [[H|[H _]] _]; [done|congruence]).
  apply wp_bind, wp_on_os, wp_acquire_exclusive; simpl.
  - intros s1 e H Hl. eapply wp_mono; [apply HX|]. intros r p' (Hr & Hst & ->). split; [done|]. split; [done|split; auto].
  - intros s1 H Hl _. apply Htc in H. apply wp_deferring, wp_bind, wp_on_os.
    assert (db_at pth (os_files s1) = None) as Hn1 by (by rewrite H).
    eapply wp_mono; [by apply readDB_unreadable|]. intros r s2 [[m ->] [Hf2 Hl2]].
    simpl in Hf2, Hl2.
    eapply wp_mono; [apply HY|]. intros r p' (Hr & Hst & Hp). apply wp_on_os, wp_releaseLock. intros l.
    split; [done|]. split; [done|]. split; simpl; [by rewrite Hp, Hf2|]. rewrite Hp. simpl. rewrite Hl2, Hl. apply drop_first_cons.
Qed.

Lemma refuse_shared {A} (P : A → Prop) st st' pth X Y (N : M proc A) (B : Database → M proc A) s :
  db_at pth (os_files s) = None → bails P st st' X → bails P st st' Y →
  wp (let! lk := on_os (acquireLock pth lockShared) in
      match lk with
      | Err e => X e
      | Ok None => N
      | Ok lf =>
          deferring lf
            (let! r := on_os (readDB pth) in
             match r with Err e => Y e | Ok db => B db end)
      end) (λ r p', P r ∧ p_store p' = st' ∧ left_alone s (p_os p')) (proc_at st s).
Proof.
  intros Hn HX HY. destruct (unreadable_file _ _ Hn) as [f Hf].
  apply wp_bind, wp_on_os, wp_acquire_shared; simpl.
  - intros s1 e (H & _) Hl. eapply wp_mono; [apply HX|]. intros r p' (Hr & Hst & ->). split; [done|]. split; [done|split; auto].
  - intros s1 _ _ H. congruence.
  - intros s1 (H & _) Hl. apply wp_deferring, wp_bind, wp_on_os.
    assert (db_at pth (os_files s1) = None) as Hn1 by (by rewrite H).
    eapply wp_mono; [by apply readDB_unreadable|]. intros r s2 [[m ->] [Hf2 Hl2]].
    simpl in Hf2, Hl2.
    eapply wp_mono; [apply HY|]. intros r p' (Hr & Hst & Hp). apply wp_on_os, wp_releaseLock. intros l.
    split; [done|]. split; [done|]. split; simpl; [by rewrite Hp, Hf2|]. rewrite Hp. simpl. rewrite Hl2, Hl. apply drop_first_cons.
Qed.

Definition fails {E A} (r : result E A) : Prop := is_ok r = false.

(** The methods on such a file. *)
Definition refuses {A} (P : A → Prop) (m : M proc A) : Prop :=
  ∀ p, store_db p = None →
    wp m (λ r p', P r ∧ p_store p' = p_store p ∧ left_alone (p_os p) (p_os p')) p.

Lemma Verify_refuses k : refuses fails (Verify k).
Proof.
  intros [st s] Hn. apply wp_bind, wp_gets. simpl. apply (refuse_shared fails); [done|by apply bails_ret..].
Qed.

Lemma List_refuses : refuses fails List.
Proof.
  intros [st s] Hn. apply wp_bind, wp_gets. simpl. apply (refuse_shared fails); [done|by apply bails_ret..].
Qed.

Lemma Revoke_refuses id : refuses fails (Revoke id).
Proof.
  intros [st s] Hn. apply wp_bind, wp_gets. simpl. apply (refuse_exclusive fails); [done|by apply bails_ret..].
Qed.

Lemma Create_refuses fuel label : refuses (λ r, ∃ e, r = Some (Err e)) (Create fuel label).
Proof.
  intros [st s] Hn. unfold Create. destruct (_ <? _); [apply wp_ret; split; [eauto|done]|].
  apply wp_bind, wp_gets. simpl. apply refuse_exclusive; [done|apply bails_ret; eauto..].
Qed.

(** A flush that is not to write anything does not look at the file; one that
    is fails, and has its buffer back. *)
Lemma FlushUsage_refuses p :
  store_db p = None →
  wp FlushUsage (λ r p', (usageBuf (p_store p) ≠ ∅ → fails r)
    ∧ p_store p' = p_store p ∧ left_alone (p_os p) (p_os p')) p.
Proof.
  destruct p as [st s]. intros Hn. apply wp_bind, wp_gets. case_decide as Hb; [by apply wp_ret|].
  apply wp_bind, wp_modify, wp_bind, wp_gets. simpl.
  assert (bails (λ r : result kerr unit, usageBuf st ≠ ∅ → fails r)
            {| path := path st; usageBuf := ∅ |} st
            (λ e, do! restore (usageBuf st) in ret (Err e))) as Hr.
  { intros e s'. apply wp_bind, wp_modify, wp_ret. split; [done|]. split; [|done].
    simpl. rewrite (left_id_L ∅ (∪)). by destruct st. }
  by apply (refuse_exclusive _ {| path := path st; usageBuf := ∅ |}).
Qed.

Lemma exec_leaves_alone o p :
  store_db p = None → p_store (exec o p).2 = p_store p ∧ left_alone (p_os p) (p_os (exec o p).2).
Proof.
  intros Hn.
  assert (∀ A (P : A → Prop) m,
    wp m (λ r p', P r ∧ p_store p' = p_store p ∧ left_alone (p_os p) (p_os p')) p →
    wp (do! m in ret tt) (λ _ p', p_store p' = p_store p ∧ left_alone (p_os p) (p_os p')) p) as H.
  { intros A P m Hm. apply wp_bind. eapply wp_mono; [exact Hm|]. intros a p' [_ Ha]. by apply wp_ret. }
  destruct o; eapply H;
    [by apply Create_refuses|by apply List_refuses|by apply Verify_refuses|by apply Revoke_refuses
    |by apply FlushUsage_refuses].
Qed.

(** [Open] does not look at the file only when its [os.Stat] fails. *)
Definition stat_works (s : os) : Prop := ∀ f fs, os_faults s ≠ Some f :: fs.

Lemma wp_fallible_works {A} (body : M os (result oserr A)) Q s :
  stat_works s → (∀ l, wp body Q (set_faults l s)) → wp (fallible body) Q s.
Proof.
  intros Hw Hb. unfold fallible, wp, bind, next_fault. unfold stat_works in Hw.
  destruct (os_faults s) as [|[f|] fs] eqn:E; [|by destruct (Hw f fs)|apply Hb].
  specialize (Hb []). rewrite <-E, set_faults_id in Hb. exact Hb.
Qed.
End unreadable.

(** ** A file that was cut short *)

#[local] Existing Instance json_codec.

Lemma split_bytes n s :
  string_of_bytes (take n (bytes_of_string s)) +:+ string_of_bytes (drop n (bytes_of_string s)) = s.
Proof.
  rewrite <-(string_of_bytes_of_string (_ +:+ _)), bytes_of_app, !bytes_of_string_of_bytes, take_drop.
  apply string_of_bytes_of_string.
Qed.

Lemma cut_document db data n :
  json_marshal db = Some data → (n < length data)%nat → json_unmarshal (take n data) = None.
Proof.
  intros Hm Hn. cbn [json_marshal json_unmarshal json_codec] in *.
  destruct (_ && _) in Hm; [|done].
  assert (data = bytes_of_string (print_json (enc_Database db))) as -> by congruence.
  erewrite scan_prefix; [done|exact (split_bytes n (print_json (enc_Database db)))|apply wf_Database|..].
  - etrans; [apply (depth_Database db)|done].
  - intros E. apply (f_equal bytes_of_string) in E. rewrite bytes_of_string_of_bytes in E.
    apply (f_equal length) in E. rewrite length_drop in E.
    change (length (bytes_of_string "")) with O in E. lia.
Qed.

Lemma cut_store db data n m p s :
  json_marshal db = Some data → (0 < n < length data)%nat →
  os_files s !! p = Some (File m (take n data)) → db_at p (os_files s) = None.
Proof.
  intros Hm Hn Hf. unfold db_at. rewrite Hf. simpl.
  pose proof (cut_document db data n Hm ltac:(lia)) as Hu.
  destruct (take n data) as [|b bs] eqn:E; [|done].
  apply (f_equal length) in E. rewrite length_take in E. simpl in E. lia.
Qed.

(** C8: A key store file that was cut short is refused, not read as a store with
    fewer keys.  When the file holds a proper prefix of a document other than the
    empty one (an empty file is a new store), then, whatever calls fail besides:
    no operation changes a file, keeps a lock or loses a buffered use; [Verify]
    accepts no key and does not answer that a key is unknown either, it fails;
    [Create], [List] and [Revoke] fail, and so does [FlushUsage] when it has
    something to write; and [Open] reports [ErrCorrupt], unless its [os.Stat]
    is among the calls that fail (then it does not look at the file). *)
Theorem cut_store_refused db data n m st s :
  json_marshal db = Some data → (0 < n < length data)%nat →
  os_files s !! path st = Some (File m (take n data)) →
  let p := proc_at st s in
  (∀ o, p_store (exec o p).2 = st ∧ left_alone s (p_os (exec o p).2))
  ∧ (∀ key, is_ok (Verify key p).1 = false)
  ∧ (∀ fuel label, ∃ e, (Create fuel label p).1 = Some (Err e))
  ∧ is_ok (List p).1 = false
  ∧ (∀ id, is_ok (Revoke id p).1 = false)
  ∧ (usageBuf st ≠ ∅ → is_ok (FlushUsage p).1 = false)
  ∧ (stat_works s → ∃ d, (Open (path st) s).1 = Err (ErrCorrupt d)).
Proof.
  intros Hm Hn Hf p. pose proof (cut_store db data n m (path st) s Hm Hn Hf) as Hdb.
  split_and!.
  - intros o. by apply (exec_leaves_alone o p).
  - intros key. by destruct (Verify_refuses key p Hdb).
  - intros fuel label. by destruct (Create_refuses fuel label p Hdb).
  - by destruct (List_refuses p Hdb).
  - intros id. by destruct (Revoke_refuses id p Hdb).
  - by destruct (FlushUsage_refuses p Hdb).
  - intros Hw. assert (wp (Open (path st)) (λ r _, ∃ d, r = Err (ErrCorrupt d)) s) as H; [|exact H].
    unfold Open, stat. apply wp_bind, wp_fallible_works; [done|]. intros l. unfold wp at 1. cbn [os_files set_faults]. rewrite Hf.
    cbn [fst snd f_mode f_data].
    assert (length (take n data) = n) as -> by (rewrite length_take; lia).
    destruct (Z.ltb_spec 0 (Z.of_nat n)); [|lia].
    unfold read_file. apply wp_bind, wp_fallible; [intros; apply wp_ret; eauto|].
    intros l'. unfold wp at 1. cbn [os_files set_faults]. rewrite Hf.
    cbn [fst snd f_data]. rewrite (cut_document db data n Hm) by lia. apply wp_ret. eauto.
Qed.

(** A file that lost its last byte. *)
Definition awkward_data : bytes := default [] (json_marshal awkward_db).

Lemma marshal_awkward : json_marshal awkward_db = Some awkward_data.
Proof. vm_compute. reflexivity. Qed.

Lemma awkward_length : length awkward_data = 233%nat.
Proof. vm_compute. reflexivity. Qed.

Lemma cut_store_refused_witness :
  let s := demo_os {[demo_path := File 384 (take 232 awkward_data)]} [] in
  let st := {| path := demo_path; usageBuf := {["aa"%string := 7]} |} in
  (∃ d, (Open demo_path s).1 = Err (ErrCorrupt d))
  ∧ is_ok (Verify demo_key (proc_at st s)).1 = false
  ∧ is_ok (FlushUsage (proc_at st s)).1 = false.
Proof.
  intros s st.
  destruct (cut_store_refused awkward_db awkward_data 232 384 st s
    marshal_awkward ltac:(rewrite awkward_length; lia) (lookup_singleton_eq _ _)) as (_ & Hv & _ & _ & _ & Hf & Ho).
  split_and!; [apply Ho; intros f fs; discriminate|apply Hv|apply Hf; vm_compute; discriminate].
Defined.
