(* ===== verification/KeystoreSpec.v ===== *)
(** * KeystoreSpec: what the key store promises, without files, locks or order.

    The abstract store is a map from ids to credentials and one buffer of time
    stamps for each process that has the store open; its steps say what each
    operation may answer and what it does to the map.  Any number of processes
    on one database file refine it: every trace of operations and answers of the
    program is one of the abstract store.  An operation is taken as a whole, as
    its lock is meant to make it; [KeystoreLock] shows how far the lock does.
    The schema of the records, which the abstraction hides, is an invariant of
    its own. *)

From stdpp Require Import relations.
From S2P Require Import Prelude GoText GoEncoding GoCrypto GoPath GoOs Keystore KeystoreProofs KeystoreHistory KeystoreCodec KeystoreTheorems.
Open Scope Z_scope.
Open Scope go_scope.

(** ** The abstract store *)

(** What opens a credential is given by its lock: a hash and a salt. *)
Record cred := {
  c_label : string;
  c_created : Time;
  c_used : Time;
  c_fp : string;
  c_hash : bytes;
  c_salt : bytes;
  c_revoked : option Time;
}.

Definition active (c : cred) : Prop := c_revoked c = None.
Definition opens (c : cred) (key : string) : Prop := c_hash c = hashKey key (c_salt c).

Definition cred_revoke (t : Time) (c : cred) : cred :=
  {| c_label := c_label c; c_created := c_created c; c_used := c_used c; c_fp := c_fp c;
     c_hash := c_hash c; c_salt := c_salt c; c_revoked := Some t |}.
Definition cred_use (t : Time) (c : cred) : cred :=
  {| c_label := c_label c; c_created := c_created c; c_used := t; c_fp := c_fp c;
     c_hash := c_hash c; c_salt := c_salt c; c_revoked := c_revoked c |}.

(** The buffered times of the active credentials. *)
Definition flush (buf : gmap string Time) (C : gmap string cred) : gmap string cred :=
  map_imap (λ id c, Some (match buf !! id, c_revoked c with
                          | Some t, None => cred_use t c
                          | _, _ => c
                          end)) C.

(** What a caller sees of an operation. *)
Inductive reply :=
| RSpent
| RCreated (key : string) (rec : KeyRecord)
| RListed (l : list KeyRecord)
| RAccepted (rec : KeyRecord)
| RRefused
| RRevoked
| RFlushed
| RError (e : kerr).

(** A record shows a credential: everything but the secrets. *)
Definition shows (id : string) (c : cred) (rec : KeyRecord) : Prop :=
  ID rec = id ∧ Label rec = c_label c ∧ Created rec = c_created c ∧ LastUsed rec = c_used c
  ∧ Fingerprint_ rec = c_fp c ∧ Revoked rec = false.

(** One operation at time [t] by a process with the buffer [buf]. *)
Inductive spec_op (t : Time) (buf : gmap string Time) (C : gmap string cred) :
    op → reply → gmap string cred → gmap string Time → Prop :=
| SCreate fuel label key rec c :
    C !! ID rec = None → (rune_count label ≤ 64)%nat → active c → opens c key →
    c_label c = label → c_created c = t → c_fp c = Fingerprint key → c_salt c = salt rec →
    shows (ID rec) c rec →
    spec_op t buf C (OpCreate fuel label) (RCreated key rec) (<[ID rec := c]> C) buf
| SLabel fuel label :
    (64 < rune_count label)%nat →
    spec_op t buf C (OpCreate fuel label) (RError ErrLabelTooLong) C buf
| SSpent fuel label : spec_op t buf C (OpCreate fuel label) RSpent C buf
| SList l :
    NoDup (map ID l) →
    (∀ rec, rec ∈ l → ∃ c, C !! ID rec = Some c ∧ active c ∧ shows (ID rec) c rec) →
    (∀ id c, C !! id = Some c → active c → ∃ rec, rec ∈ l ∧ ID rec = id) →
    spec_op t buf C OpList (RListed l) C buf
| SAccept key rec c :
    C !! ID rec = Some c → active c → opens c key → shows (ID rec) (cred_use t c) rec →
    spec_op t buf C (OpVerify key) (RAccepted rec) C (<[ID rec := t]> buf)
| SRefuse key :
    (∀ id c, C !! id = Some c → active c → ¬ opens c key) →
    spec_op t buf C (OpVerify key) RRefused C buf
| SRevoke id c :
    C !! id = Some c → active c →
    spec_op t buf C (OpRevoke id) RRevoked (<[id := cred_revoke t c]> C) buf
| SUnknown id :
    C !! id = None → spec_op t buf C (OpRevoke id) (RError ErrNotFound) C buf
| SAgain id c :
    C !! id = Some c → ¬ active c →
    spec_op t buf C (OpRevoke id) (RError ErrAlreadyRevoked) C buf
| SFlush : spec_op t buf C OpFlush RFlushed (flush buf C) ∅
| SFail o e buf' :
    io_error e → buf' = buf ∨ o = OpFlush ∧ buf' = ∅ → spec_op t buf C o (RError e) C buf'.

(** Processes come and go, and operate. *)
Inductive label := LOpen (i : nat) | LExit (i : nat) | LHost | LOp (i : nat) (t : Time) (o : op) (r : reply).

Record spec := { creds : gmap string cred; pending : gmap nat (gmap string Time) }.

Inductive spec_step : spec → label → spec → Prop :=
| SpecOpen i s : pending s !! i = None →
    spec_step s (LOpen i) {| creds := creds s; pending := <[i := ∅]> (pending s) |}
| SpecExit i s :
    spec_step s (LExit i) {| creds := creds s; pending := delete i (pending s) |}
| SpecHost s : spec_step s LHost s
| SpecOp i t o r s buf C' buf' :
    pending s !! i = Some buf → spec_op t buf (creds s) o r C' buf' →
    spec_step s (LOp i t o r) {| creds := C'; pending := <[i := buf']> (pending s) |}.

(** Traces of a labelled step relation. *)
Inductive trace {S : Type} (R : S → label → S → Prop) : S → list label → S → Prop :=
| trace_nil s : trace R s [] s
| trace_snoc s ls s1 l s2 : trace R s ls s1 → R s1 l s2 → trace R s (ls ++ [l]) s2.

(** ** The program *)

Section program.
Context `{J : JsonCodec} `{!JsonLaws}.

(** The processes that have the database at [y_path] open, on one machine. *)
Record sys := { y_os : os; y_path : string; y_bufs : gmap nat (gmap string Time) }.

Definition proc_of (y : sys) (buf : gmap string Time) : proc :=
  {| p_store := {| path := y_path y; usageBuf := buf |}; p_os := y_os y |}.

Definition run_op (o : op) : M proc reply :=
  match o with
  | OpCreate fuel label =>
      let! r := Create fuel label in
      ret (match r with
           | None => RSpent
           | Some (Ok (key, rec)) => RCreated key rec
           | Some (Err e) => RError e
           end)
  | OpList => let! r := List in ret (match r with Ok l => RListed l | Err e => RError e end)
  | OpVerify k =>
      let! r := Verify k in
      ret (match r with Ok (Some rec) => RAccepted rec | Ok None => RRefused | Err e => RError e end)
  | OpRevoke id => let! r := Revoke id in ret (match r with Ok _ => RRevoked | Err e => RError e end)
  | OpFlush => let! r := FlushUsage in ret (match r with Ok _ => RFlushed | Err e => RError e end)
  end.

(** [LHost]: the clock, the randomness, the temp names or the faults change, or
    files other than the database. *)
Inductive sys_step : sys → label → sys → Prop :=
| SysOpen i y : y_bufs y !! i = None → (Open (y_path y) (y_os y)).1 = Ok {| path := y_path y; usageBuf := ∅ |} →
    sys_step y (LOpen i)
      {| y_os := (Open (y_path y) (y_os y)).2; y_path := y_path y; y_bufs := <[i := ∅]> (y_bufs y) |}
| SysExit i y :
    sys_step y (LExit i) {| y_os := y_os y; y_path := y_path y; y_bufs := delete i (y_bufs y) |}
| SysHost y s : os_files s !! y_path y = os_files (y_os y) !! y_path y →
    sys_step y LHost {| y_os := s; y_path := y_path y; y_bufs := y_bufs y |}
| SysOp i o y buf r p' :
    y_bufs y !! i = Some buf → op_ok o → run_op o (proc_of y buf) = (r, p') →
    sys_step y (LOp i (os_now (y_os y)) o r)
      {| y_os := p_os p'; y_path := y_path y; y_bufs := <[i := usageBuf (p_store p')]> (y_bufs y) |}.

(** ** The abstraction *)

Definition cred_of (d : dbRecord) : cred :=
  {| c_label := d_Label d; c_created := d_Created d; c_used := d_LastUsed d; c_fp := d_Fingerprint d;
     c_hash := d_Hash d; c_salt := d_Salt d;
     c_revoked := if d_Revoked d then Some (d_RevokedAt d) else None |}.

Definition creds_of (ks : list dbRecord) : gmap string cred :=
  list_to_map (map (λ d, (d_ID d, cred_of d)) ks).

Definition abstracts (y : sys) (s : spec) : Prop :=
  pending s = y_bufs y ∧ ∃ db, db_at (y_path y) (os_files (y_os y)) = Some db ∧ wf_db db
    ∧ creds s = creds_of (Keys db).

(** ** The map of a list of records *)

Lemma creds_of_cons d ks : creds_of (d :: ks) = <[d_ID d := cred_of d]> (creds_of ks).
Proof. done. Qed.

Lemma creds_ids ks : (map (λ d, (d_ID d, cred_of d)) ks).*1 = map d_ID ks.
Proof. induction ks as [|d ks IH]; [done|]. simpl. by f_equal. Qed.

Lemma creds_lookup ks id c :
  NoDup (map d_ID ks) → creds_of ks !! id = Some c ↔ ∃ d, d ∈ ks ∧ d_ID d = id ∧ cred_of d = c.
Proof.
  intros Hn. unfold creds_of. rewrite <-elem_of_list_to_map by by rewrite creds_ids.
  rewrite list_elem_of_fmap. split.
  - intros (d & [= -> ->] & Hd). eauto.
  - intros (d & Hd & <- & <-). eauto.
Qed.

Lemma creds_lookup_None ks id : id ∉ map d_ID ks → creds_of ks !! id = None.
Proof. intros Hn. apply not_elem_of_list_to_map. by rewrite creds_ids. Qed.

Lemma creds_snoc ks d : d_ID d ∉ map d_ID ks → creds_of (ks ++ [d]) = <[d_ID d := cred_of d]> (creds_of ks).
Proof.
  intros Hn. unfold creds_of. rewrite map_app. apply list_to_map_snoc. by rewrite creds_ids.
Qed.

Lemma creds_insert ks i d d' :
  NoDup (map d_ID ks) → ks !! i = Some d → d_ID d' = d_ID d →
  creds_of (<[i := d']> ks) = <[d_ID d := cred_of d']> (creds_of ks).
Proof.
  revert i. induction ks as [|k ks IH]; intros i Hn Hi Hid; [done|].
  apply NoDup_cons in Hn as [Hk Hn]. destruct i as [|i]; simplify_eq/=.
  - rewrite !creds_of_cons, Hid. by rewrite insert_insert_eq.
  - rewrite !creds_of_cons, (IH i Hn Hi Hid). apply insert_insert_ne. intros Heq. apply Hk.
    rewrite Heq. apply list_elem_of_fmap_2. by eapply list_elem_of_lookup_2.
Qed.

Lemma creds_usage buf ks : creds_of (apply_usage buf ks) = flush buf (creds_of ks).
Proof.
  induction ks as [|k ks IH].
  { unfold flush, creds_of. simpl. by rewrite map_imap_empty. }
  change (apply_usage buf (k :: ks)) with
    ((match buf !! d_ID k with None => k | Some t => if d_Revoked k then k else d_with_LastUsed t k end)
     :: apply_usage buf ks).
  rewrite !creds_of_cons, IH. unfold flush. rewrite map_imap_insert.
  destruct (buf !! d_ID k) as [t|]; [|done]. unfold cred_of at 2 3. simpl.
  destruct (d_Revoked k) eqn:Er; simpl; unfold cred_of, cred_use; simpl; by rewrite Er.
Qed.

Lemma cred_of_active d : active (cred_of d) ↔ d_Revoked d = false.
Proof. unfold active. simpl. by destruct (d_Revoked d). Qed.

Lemma shows_record d : d_Revoked d = false → shows (d_ID d) (cred_of d) (fromDBRecord d).
Proof. intros Hr. by split_and!. Qed.

(** ** The simulation *)

(** One operation, from a database that the map abstracts. *)
Definition op_sim (o : op) (p : proc) (db : Database) (r : reply) (p' : proc) : Prop :=
  ∃ db', store_db p' = Some db' ∧ wf_db db'
    ∧ spec_op (os_now (p_os p)) (usageBuf (p_store p)) (creds_of (Keys db)) o r
        (creds_of (Keys db')) (usageBuf (p_store p')).

Lemma op_sim_same o p db r p' :
  store_db p' = Some db → wf_db db →
  spec_op (os_now (p_os p)) (usageBuf (p_store p)) (creds_of (Keys db)) o r
    (creds_of (Keys db)) (usageBuf (p_store p')) →
  op_sim o p db r p'.
Proof. by exists db. Qed.

(** The database after a call of [exec], which the history lemmas are about. *)
Lemma run_op_exec o p : (run_op o p).2 = (exec o p).2.
Proof.
  destruct o; unfold run_op, exec, bind; simpl.
  - by destruct (Create fuel label0 p).
  - by destruct (List p).
  - by destruct (Verify presented p).
  - by destruct (Revoke id p).
  - by destruct (FlushUsage p).
Qed.

Lemma run_op_grows o p db :
  op_ok o → store_db p = Some db → wf_db db →
  ∃ db', store_db (run_op o p).2 = Some db' ∧ wf_db db'.
Proof.
  intros Hok Hdb Hwf. rewrite run_op_exec.
  destruct (exec_grows o p db Hok Hdb Hwf) as (_ & _ & db' & H1 & H2 & _). eauto.
Qed.

Lemma read_only_db p p' : read_only p p' → store_db p' = store_db p.
Proof. intros [(Hf & _) [_ Hpath]]. unfold store_db. by rewrite Hpath, Hf. Qed.

(** A run of an operation is a run of the method and its answer. *)
Ltac run_of H E :=
  unfold run_op, bind in H;
  match type of H with (let (_, _) := ?m ?p in _) = _ => destruct (m p) as [x p1] eqn:E end;
  injection H as <- <-.

Lemma create_sim fuel label p db r p' :
  valid_utf8 label = true → store_db p = Some db → wf_db db →
  run_op (OpCreate fuel label) p = (r, p') → op_sim (OpCreate fuel label) p db r p'.
Proof.
  intros Hok Hdb Hwf Hrun. pose proof Hwf as [Ht Hn].
  destruct (run_op_grows (OpCreate fuel label) p db Hok Hdb Hwf) as (db' & Hdb' & Hwf').
  rewrite Hrun in Hdb'. simpl in Hdb'. run_of Hrun E.
  destruct (wp_run _ _ _ _ _ E (Create_spec fuel label p db Hdb Ht Hok)) as (Hst & _ & Hr).
  destruct x as [[[key rec]|e]|].
  - destruct Hr as (Hlen & Hf & Hs). rewrite Hs in Hdb'. injection Hdb' as <-.
    destruct Hf as (HL & HC & HU & _ & HR & HF & HH & _ & Hid & _).
    eexists. split; [exact Hs|]. split; [done|]. simpl. rewrite Hst, creds_snoc by done.
    assert (active (cred_of (toDBRecord rec))) as Ha by by apply cred_of_active.
    apply (SCreate _ _ _ fuel label key rec); try done; by apply creds_lookup_None.
  - apply op_sim_same; [destruct Hr; congruence|done|]. rewrite Hst. destruct Hr as [_ [Hio|[-> Hlen]]].
    + by apply SFail; [|left].
    + by apply SLabel.
  - apply op_sim_same; [congruence|done|]. rewrite Hst. apply SSpent.
Qed.

Lemma list_sim p db r p' :
  store_db p = Some db → wf_db db → run_op OpList p = (r, p') → op_sim OpList p db r p'.
Proof.
  intros Hdb Hwf Hrun. pose proof Hwf as [Ht Hn]. run_of Hrun E.
  destruct (wp_run _ _ _ _ _ E (List_spec p db Hdb)) as (Hro & Hst & Hr).
  apply op_sim_same; [rewrite <-Hdb; by apply read_only_db|done|]. rewrite Hst.
  destruct x as [l|e]; [|by apply SFail; [|left]]. subst l. apply SList.
  - rewrite map_map. simpl. change (λ x, ID (fromDBRecord x)) with d_ID.
    clear -Hn. induction (Keys db) as [|d ks IH]; [done|]. simpl in *.
    apply NoDup_cons in Hn as [Hd Hn]. destruct (d_Revoked d); simpl; [by apply IH|].
    constructor; [|by apply IH]. intros (d' & Hd' & Hin)%list_elem_of_fmap. apply Hd. rewrite Hd'.
    apply list_elem_of_fmap_2, list_elem_of_In. apply list_elem_of_In, filter_In in Hin. by destruct Hin.
  - intros rec (d & -> & Hd)%list_elem_of_fmap. apply list_elem_of_In, filter_In in Hd as [Hd Hr].
    apply negb_true_iff in Hr. exists (cred_of d). split; [|split; [by apply cred_of_active|by apply shows_record]].
    apply creds_lookup; [done|]. exists d. by rewrite list_elem_of_In.
  - intros id c (d & Hd & Hid & Hc)%creds_lookup Ha; [|done]. subst c. apply cred_of_active in Ha.
    exists (fromDBRecord d). split; [|done]. apply list_elem_of_fmap_2, list_elem_of_In, filter_In.
    by rewrite <-list_elem_of_In, Ha.
Qed.

Lemma verify_sim k p db r p' :
  store_db p = Some db → wf_db db → run_op (OpVerify k) p = (r, p') → op_sim (OpVerify k) p db r p'.
Proof.
  intros Hdb Hwf Hrun. pose proof Hwf as [Ht Hn]. run_of Hrun E.
  destruct (wp_run _ _ _ _ _ E (Verify_spec k p db Hdb)) as (Hro & Hr).
  apply op_sim_same; [rewrite <-Hdb; by apply read_only_db|done|].
  destruct x as [[rec|]|e].
  - destruct Hr as (d & [Hd [Hrv Hh]%candidate_spec]%find_last_Some & -> & ->).
    apply (SAccept _ _ _ k (with_LastUsed (os_now (p_os p)) (fromDBRecord d)) (cred_of d)); simpl.
    + apply creds_lookup; [done|]. by exists d.
    + by apply cred_of_active.
    + done.
    + by split_and!.
  - destruct Hr as [Hno ->]. apply SRefuse. intros id c (d & Hd & Hid & <-)%creds_lookup Ha Ho; [|done].
    apply cred_of_active in Ha. pose proof (proj1 (find_last_None _ _) Hno d Hd) as Hc.
    by rewrite (proj2 (candidate_spec k d) (conj Ha Ho)) in Hc.
  - destruct Hr as [Hio ->]. by apply SFail; [|left].
Qed.

Lemma revoke_sim id p db r p' :
  store_db p = Some db → wf_db db → run_op (OpRevoke id) p = (r, p') → op_sim (OpRevoke id) p db r p'.
Proof.
  intros Hdb Hwf Hrun. pose proof Hwf as [Ht Hn].
  destruct (run_op_grows (OpRevoke id) p db I Hdb Hwf) as (db' & Hdb' & Hwf').
  rewrite Hrun in Hdb'. simpl in Hdb'. run_of Hrun E.
  destruct (wp_run _ _ _ _ _ E (Revoke_spec id p db Hdb Ht)) as (Hst & _ & Hr).
  destruct x as [[]|e].
  - destruct Hr as (ks & (i & d & Hd & Hid & Hrv & _ & ->)%revoke_first_ok & Hs).
    rewrite Hs in Hdb'. injection Hdb' as <-. eexists. split; [exact Hs|]. split; [done|]. simpl.
    rewrite Hst, (creds_insert _ _ d) by done. rewrite <-Hid.
    change (cred_of (d_revoke (os_now (p_os p)) d)) with (cred_revoke (os_now (p_os p)) (cred_of d)).
    apply SRevoke; [|by apply cred_of_active]. apply creds_lookup; [done|]. exists d.
    split; [by eapply list_elem_of_lookup_2|done].
  - destruct Hr as [Hs Hr]. apply op_sim_same; [congruence|done|]. rewrite Hst.
    destruct Hr as [Hio|[[-> Hni]|(-> & d & Hd & Hid & Hrv)]%revoke_first_err].
    + by apply SFail; [|left].
    + by apply SUnknown, creds_lookup_None.
    + apply (SAgain _ _ _ id (cred_of d)); [apply creds_lookup; eauto|]. rewrite cred_of_active. by rewrite Hrv.
Qed.

Lemma flush_sim p db r p' :
  store_db p = Some db → wf_db db → run_op OpFlush p = (r, p') → op_sim OpFlush p db r p'.
Proof.
  intros Hdb Hwf Hrun. pose proof Hwf as [Ht Hn].
  destruct (run_op_grows OpFlush p db I Hdb Hwf) as (db' & Hdb' & Hwf').
  rewrite Hrun in Hdb'. simpl in Hdb'. run_of Hrun E.
  destruct (wp_run _ _ _ _ _ E (FlushUsage_spec p db Hdb Ht)) as (_ & _ & Hr).
  destruct x as [[]|e].
  - destruct Hr as [Hb Hs]. rewrite Hs in Hdb'. injection Hdb' as <-.
    eexists. split; [exact Hs|]. split; [done|]. simpl. rewrite Hb, creds_usage. apply SFlush.
  - destruct Hr as (Hio & Hs & Hbuf). apply op_sim_same; [congruence|done|].
    apply SFail; [done|]. destruct Hbuf as [->| ->]; [by left|by right].
Qed.

Lemma op_simulation o p db r p' :
  op_ok o → store_db p = Some db → wf_db db → run_op o p = (r, p') → op_sim o p db r p'.
Proof.
  destruct o; simpl; intros Hok Hdb Hwf Hrun;
    eauto using create_sim, list_sim, verify_sim, revoke_sim, flush_sim.
Qed.

Lemma run_op_path o p db :
  op_ok o → store_db p = Some db → wf_db db → path (p_store (run_op o p).2) = path (p_store p).
Proof.
  intros Hok Hdb Hwf. rewrite run_op_exec. by destruct (exec_grows o p db Hok Hdb Hwf).
Qed.

(** A step of the program is one of the abstract store. *)
Lemma step_simulation y l y' s :
  sys_step y l y' → abstracts y s → ∃ s', spec_step s l s' ∧ abstracts y' s'.
Proof.
  intros Hstep (Hp & db & Hdb & Hwf & Hc).
  destruct Hstep as [i y Hi _|i y|y o Hf|i o y buf r p' Hi Hok Hrun].
  - destruct (Open_spec (y_path y) (y_os y)) as ((Hf & _) & _ & _).
    eexists. split; [apply SpecOpen; by rewrite Hp|]. split; [simpl; by rewrite Hp|].
    exists db. simpl. by rewrite Hf.
  - eexists. split; [apply SpecExit|]. split; [simpl; by rewrite Hp|]. by exists db.
  - exists s. split; [apply SpecHost|]. split; [done|]. exists db. split; [|done].
    unfold db_at in *. simpl. by rewrite Hf.
  - pose proof (run_op_path o (proc_of y buf) db Hok Hdb Hwf) as Hpath. rewrite Hrun in Hpath.
    destruct (op_simulation o (proc_of y buf) db r p' Hok Hdb Hwf Hrun) as (db' & Hdb' & Hwf' & Hop).
    eexists. split; [eapply SpecOp; [by rewrite Hp|rewrite Hc; exact Hop]|].
    split; [simpl; by rewrite Hp|]. exists db'. split; [|done]. unfold store_db in Hdb'.
    simpl in Hpath. by rewrite Hpath in Hdb'.
Qed.

Lemma trace_simulation y ls y' s :
  trace sys_step y ls y' → abstracts y s → ∃ s', trace spec_step s ls s' ∧ abstracts y' s'.
Proof.
  intros Ht Ha. induction Ht as [y|y ls y1 l y2 _ IH Hstep]; [exists s; by split; [constructor|]|].
  destruct (IH Ha) as (s1 & Ht1 & Ha1). destruct (step_simulation _ _ _ _ Hstep Ha1) as (s2 & Hs & Ha2).
  exists s2. split; [by eapply trace_snoc|done].
Qed.

(** ** The schema of the records *)

(** Ids of 16 and fingerprints of 12 hexadecimal digits, labels of at most 64
    characters in UTF-8, hashes of 32 and salts of 16 bytes, and no revocation
    time without a revocation. *)
Definition hex_of (n : nat) (s : string) : Prop := ∃ b, length b = n ∧ s = hex_encode b.

Record schema (d : dbRecord) : Prop := {
  sch_id : hex_of 8 (d_ID d);
  sch_fp : hex_of 6 (d_Fingerprint d);
  sch_label : (rune_count (d_Label d) ≤ 64)%nat ∧ valid_utf8 (d_Label d) = true;
  sch_hash : length (d_Hash d) = 32%nat;
  sch_salt : length (d_Salt d) = 16%nat;
  sch_revoked : d_Revoked d = false → d_RevokedAt d = zero_time;
}.

Definition schema_db (db : Database) : Prop :=
  Version db = 1 ∧ NoDup (map d_ID (Keys db)) ∧ Forall schema (Keys db).

Lemma hex_of_ascii n s : hex_of n s → valid_utf8 s = true.
Proof. intros (b & _ & ->). apply ascii_valid_utf8, hex_encode_ascii. Qed.

Lemma schema_wf db : schema_db db → wf_db db.
Proof.
  intros (_ & Hn & Hs). split; [|done]. unfold db_text_ok. apply forallb_forall. intros d Hd.
  apply list_elem_of_In in Hd. rewrite Forall_forall in Hs. destruct (Hs d Hd) as [Hi Hf [_ Hl] _ _ _].
  unfold text_ok. by rewrite (hex_of_ascii _ _ Hi), (hex_of_ascii _ _ Hf), Hl.
Qed.

Lemma schema_fresh key label t ex rec :
  (rune_count label ≤ 64)%nat → valid_utf8 label = true → fresh_record key label t ex rec →
  schema (toDBRecord rec).
Proof.
  intros Hl Hu (HL & _ & _ & HR & _ & HF & HH & HS & _ & Hid & _). constructor; simpl; try done.
  - rewrite HF. eexists. split; [|reflexivity]. rewrite length_take, sha256_length. lia.
  - by rewrite HL.
  - rewrite HH. apply sha256_length.
Qed.

Lemma schema_revoke t d : schema d → schema (d_revoke t d).
Proof. by intros []. Qed.

Lemma schema_use t d : schema d → schema (d_with_LastUsed t d).
Proof. by intros []. Qed.

Lemma schema_rewrite v ks ks' :
  schema_db {| Version := v; Keys := ks |} → Forall2 rec_le ks ks' → Forall schema ks' →
  schema_db {| Version := v; Keys := ks' |}.
Proof.
  intros (Hv & Hn & _) HF Hs. split_and!; [done| |done]. simpl. by rewrite (rec_le_ids _ _ HF).
Qed.

Lemma run_op_schema o p db :
  op_ok o → store_db p = Some db → schema_db db →
  ∃ db', store_db (run_op o p).2 = Some db' ∧ schema_db db'.
Proof.
  intros Hok Hdb Hs. pose proof (schema_wf _ Hs) as [Ht Hn]. destruct (run_op o p) as [r p'] eqn:Hrun.
  simpl. destruct db as [v ks]. pose proof Hs as (Hv & _ & Hall). simpl in Hall.
  assert (∀ q, store_db q = store_db p → ∃ db', store_db q = Some db' ∧ schema_db db') as Hsame.
  { intros q ->. eauto. }
  destruct o as [fuel label| |k|id|]; run_of Hrun E.
  - destruct (wp_run _ _ _ _ _ E (Create_spec fuel label p _ Hdb Ht Hok)) as (_ & _ & Hr).
    destruct x as [[[key rec]|e]|]; [|by apply Hsame, Hr|by apply Hsame].
    destruct Hr as (Hlen & Hf & Hd). eexists. split; [exact Hd|].
    pose proof Hf as (_ & _ & _ & _ & _ & _ & _ & _ & Hid & _). split_and!; [done| |].
    + simpl. rewrite map_app. apply NoDup_app. split; [done|]. split; [|apply NoDup_singleton].
      intros i Hi ->%list_elem_of_singleton. done.
    + apply Forall_app. split; [done|]. constructor; [|constructor]. by eapply schema_fresh.
  - destruct (wp_run _ _ _ _ _ E (List_spec p _ Hdb)) as (Hro & _). by apply Hsame, read_only_db.
  - destruct (wp_run _ _ _ _ _ E (Verify_spec k p _ Hdb)) as (Hro & _). by apply Hsame, read_only_db.
  - destruct (wp_run _ _ _ _ _ E (Revoke_spec id p _ Hdb Ht)) as (_ & _ & Hr).
    destruct x as [[]|e]; [|by apply Hsame, Hr]. destruct Hr as (ks' & Hrf & Hd).
    eexists. split; [exact Hd|]. apply (schema_rewrite _ _ _ Hs); [by eapply revoke_first_le|].
    apply revoke_first_ok in Hrf as (i & d & Hi & _ & _ & _ & ->).
    apply Forall_insert; [done|]. apply schema_revoke. by eapply Forall_lookup_1.
  - destruct (wp_run _ _ _ _ _ E (FlushUsage_spec p _ Hdb Ht)) as (_ & _ & Hr).
    destruct x as [[]|e]; [|by apply Hsame, Hr]. destruct Hr as (_ & Hd).
    eexists. split; [exact Hd|]. apply (schema_rewrite _ _ _ Hs); [apply apply_usage_le|].
    unfold apply_usage. apply Forall_map. eapply Forall_impl; [exact Hall|]. intros d Hsd. simpl.
    destruct (usageBuf (p_store p) !! d_ID d); [|done]. destruct (d_Revoked d); [done|].
    by apply schema_use.
Qed.

(** ** Facts about traces of the abstract store *)

Lemma trace_inv {S} (R : S → label → S → Prop) (Q : list label → S → Prop) s ls s' :
  trace R s ls s' → Q [] s → (∀ ls s1 l s2, Q ls s1 → R s1 l s2 → Q (ls ++ [l]) s2) → Q ls s'.
Proof. intros Ht H0 Hs. induction Ht; eauto. Qed.

(** Where a credential comes from, and what the trace says of it. *)
Definition granted (ls : list label) (id : string) (c : cred) : Prop :=
  ∃ i t fuel key rec, LOp i t (OpCreate fuel (c_label c)) (RCreated key rec) ∈ ls
    ∧ ID rec = id ∧ salt rec = c_salt c ∧ opens c key.

Definition history_inv (ls : list label) (s : spec) : Prop :=
  (∀ id c, creds s !! id = Some c → granted ls id c)
  ∧ (∀ i t id, LOp i t (OpRevoke id) RRevoked ∈ ls → ∃ c, creds s !! id = Some c ∧ ¬ active c).

Lemma granted_more ls l id c : granted ls id c → granted (ls ++ [l]) id c.
Proof.
  intros (i & t & fuel & key & rec & Hin & Hrest). exists i, t, fuel, key, rec. split; [|done].
  apply elem_of_app. by left.
Qed.

Lemma granted_same ls id c c' :
  c_label c' = c_label c → c_salt c' = c_salt c → c_hash c' = c_hash c → granted ls id c → granted ls id c'.
Proof. intros Hl Hs Hh. unfold granted, opens. by rewrite Hl, Hs, Hh. Qed.

(** A step that keeps every credential, up to its use, and revokes none. *)
Lemma history_inv_kept ls l s s' :
  history_inv ls s →
  (∀ id c', creds s' !! id = Some c' → ∃ c, creds s !! id = Some c ∧ c_label c' = c_label c
      ∧ c_salt c' = c_salt c ∧ c_hash c' = c_hash c) →
  (∀ id c, creds s !! id = Some c → ¬ active c → ∃ c', creds s' !! id = Some c' ∧ ¬ active c') →
  (∀ i t id, l = LOp i t (OpRevoke id) RRevoked → ∃ c', creds s' !! id = Some c' ∧ ¬ active c') →
  history_inv (ls ++ [l]) s'.
Proof.
  intros [Hg Hr] Hback Hrev Hl. split.
  - intros id c' Hc'. destruct (Hback id c' Hc') as (c & Hc & H1 & H2 & H3).
    by apply granted_more, (granted_same _ _ c), Hg.
  - intros i t id [Hin|Hin%list_elem_of_singleton]%elem_of_app; [|by eapply Hl].
    destruct (Hr _ _ _ Hin) as (c & Hc & Ha). by eapply Hrev.
Qed.

Lemma spec_step_inv ls s l s' : history_inv ls s → spec_step s l s' → history_inv (ls ++ [l]) s'.
Proof.
  intros Hi Hstep.
  assert (∀ l s', creds s' = creds s → (∀ i t id, l ≠ LOp i t (OpRevoke id) RRevoked) →
    history_inv (ls ++ [l]) s') as Hsame.
  { intros l0 s0 He Hl. apply (history_inv_kept ls l0 s s0 Hi); rewrite ?He; eauto 10.
    intros i t id ->. by destruct (Hl i t id). }
  destruct Hstep as [i s _|i s|s|i t o r s buf C' buf' _ Hop]; [by apply Hsame..|].
  destruct Hop as [fuel label key rec c Hn Hlen Ha Ho Hlab Hct Hfp Hsalt _| | | | | |id c Hc Ha| | | |o e buf'];
    try by apply Hsame.
  - destruct Hi as [Hg Hr]. split; simpl.
    + intros id c' [[<- <-]|[_ Hc']]%lookup_insert_Some; [|by apply granted_more, Hg].
      exists i, t, fuel, key, rec. split_and!; try done. rewrite Hlab. apply elem_of_app. right.
      by apply list_elem_of_singleton.
    + intros j t' id [Hin|Hin%list_elem_of_singleton]%elem_of_app; [|done].
      destruct (Hr _ _ _ Hin) as (c' & Hc' & Hna). exists c'. split; [|done].
      rewrite lookup_insert_ne; [done|]. intros <-. congruence.
  - apply (history_inv_kept ls _ s _ Hi); simpl.
    + intros id' c' [[<- <-]|[_ Hc']]%lookup_insert_Some; eauto 10.
    + intros id' c' Hc' Hna. destruct (decide (id = id')) as [<-|]; [|by rewrite lookup_insert_ne by done; eauto].
      by rewrite lookup_insert_eq; eexists.
    + intros j t' id' [= -> -> <-]. rewrite lookup_insert_eq. by eexists.
  - apply (history_inv_kept ls _ s _ Hi); simpl.
    + intros id c'. unfold flush. rewrite map_lookup_imap.
      destruct (creds s !! id) as [c|] eqn:Ec; [|done]. simpl. intros [= <-]. exists c.
      split; [done|]. by repeat case_match.
    + intros id c Hc Hna. unfold flush. rewrite map_lookup_imap, Hc. simpl. eexists. split; [done|].
      unfold active in Hna. destruct (c_revoked c) eqn:E; [|done]. by destruct (buf !! id); unfold active; rewrite E.
    + done.
Qed.

(** ** Guarantees *)

(** C3: The key store refines its specification.  Whatever any number of
    processes do on one database file, in any order of their operations (each
    taken as a whole), with any failures, restarts and other changes of the
    machine: the operations and the answers their callers see are a trace of the
    abstract store, and the database and the buffers stay those of the abstract
    state. *)
Theorem store_refines_spec y ls y' s :
  trace sys_step y ls y' → abstracts y s →
  ∃ s', trace spec_step s ls s' ∧ abstracts y' s'.
Proof. apply trace_simulation. Qed.

(** C12: Every record has the shape of its type.  From a database whose version
    is 1, whose ids differ and whose records have ids and fingerprints of 16 and
    12 hexadecimal digits, labels of at most 64 characters, hashes of 32 and
    salts of 16 bytes and a revocation time only when revoked, every trace of
    operations of any processes leads to such a database. *)
Theorem store_keeps_schema y ls y' db :
  db_at (y_path y) (os_files (y_os y)) = Some db → schema_db db → trace sys_step y ls y' →
  ∃ db', db_at (y_path y') (os_files (y_os y')) = Some db' ∧ schema_db db'.
Proof.
  intros Hdb Hs Ht. induction Ht as [y|y ls y1 l y2 _ IH Hstep]; [by eauto|].
  destruct (IH Hdb) as (db1 & Hdb1 & Hs1).
  destruct Hstep as [i y1 _ _|i y1|y1 o Hf|i o y1 buf r p' _ Hok Hrun].
  - destruct (Open_spec (y_path y1) (y_os y1)) as ((Hf & _) & _ & _). exists db1. simpl. by rewrite Hf.
  - by exists db1.
  - exists db1. split; [|done]. unfold db_at in *. simpl. by rewrite Hf.
  - pose proof (run_op_path o (proc_of y1 buf) db1 Hok Hdb1 (schema_wf _ Hs1)) as Hp.
    destruct (run_op_schema o (proc_of y1 buf) db1 Hok Hdb1 Hs1) as (db2 & Hdb2 & Hs2).
    rewrite Hrun in Hp, Hdb2. simpl in Hp, Hdb2. exists db2. split; [|done]. simpl.
    unfold store_db in Hdb2. by rewrite Hp in Hdb2.
Qed.

(** Access is granted before it is had, and until it is taken.  In a trace
    from a store without keys, when [Verify] accepts a token with a record, then
    a [Create] before had answered with a record of that id and label, whose key
    has the same salted hash as the token (it is the token, or a collision of
    SHA-256), and no [Revoke] before had acknowledged the revocation of that
    id. *)
Theorem accepted_was_granted y ls y1 y2 v j t k rec :
  db_at (y_path y) (os_files (y_os y)) = Some {| Version := v; Keys := [] |} →
  trace sys_step y ls y1 → sys_step y1 (LOp j t (OpVerify k) (RAccepted rec)) y2 →
  (∃ i t0 fuel key rec0, LOp i t0 (OpCreate fuel (Label rec)) (RCreated key rec0) ∈ ls
     ∧ ID rec0 = ID rec ∧ hashKey k (salt rec0) = hashKey key (salt rec0))
  ∧ ∀ i t', LOp i t' (OpRevoke (ID rec)) RRevoked ∉ ls.
Proof.
  intros Hdb Ht Hstep. set (s0 := {| creds := ∅; pending := y_bufs y |}).
  assert (abstracts y s0) as Ha.
  { split; [done|]. eexists. split; [exact Hdb|]. split; [|done]. split; [done|apply NoDup_nil_2]. }
  destruct (trace_simulation _ _ _ _ Ht Ha) as (s1 & Hs & Ha1).
  assert (history_inv ls s1) as [Hg Hr].
  { apply (trace_inv _ _ _ _ _ Hs); [|intros; by eapply spec_step_inv].
    split; [done|]. intros ? ? ? H1. by apply elem_of_nil in H1. }
  destruct (step_simulation _ _ _ _ Hstep Ha1) as (s2 & Hs2 & _).
  inversion Hs2 as [| | |? ? ? ? ? buf C' buf' _ Hop]; subst.
  inversion Hop as [| | | |? ? c Hc Hact Ho (_ & Hl & _)| | | | | |]; subst. split.
  - destruct (Hg _ _ Hc) as (i & t0 & fuel & key & rec0 & Hin & Hid & Hsalt & Hko).
    exists i, t0, fuel, key, rec0. unfold opens in Ho, Hko. simpl in Hl. rewrite Hl, Hsalt. split_and!; congruence.
  - intros i t' Hin. destruct (Hr _ _ _ Hin) as (c' & Hc' & Hna). congruence.
Qed.

End program.

(** ** Instances: a command and a server on an empty database *)

(** The state an operation leads to, and the label it has. *)
Definition after (i : nat) (o : op) (y : sys) : label * sys :=
  let buf := default ∅ (y_bufs y !! i) in
  let (r, p') := run_op o (proc_of y buf) in
  (LOp i (os_now (y_os y)) o r,
   {| y_os := p_os p'; y_path := y_path y; y_bufs := <[i := usageBuf (p_store p')]> (y_bufs y) |}).

Lemma after_step i o y :
  is_Some (y_bufs y !! i) → op_ok o → sys_step y (after i o y).1 (after i o y).2.
Proof.
  intros [buf Hb] Hok. unfold after. rewrite Hb. simpl.
  destruct (run_op o (proc_of y buf)) as [r p'] eqn:E. by eapply SysOp.
Qed.

Definition both_open : sys := {| y_os := demo_os ∅ []; y_path := demo_path; y_bufs := {[1%nat := ∅; 2%nat := ∅]} |}.
Definition created : label * sys := after 1 (OpCreate 3 "laptop") both_open.
Definition the_key : string := match created.1 with LOp _ _ _ (RCreated key _) => key | _ => "" end.
Definition accepted : label * sys := after 2 (OpVerify the_key) created.2.

Lemma both_open_trace : trace sys_step both_open [created.1] created.2.
Proof.
  apply (trace_snoc _ _ [] both_open); [constructor|]. apply after_step; [|vm_compute; reflexivity].
  by eexists.
Qed.

Lemma both_open_db : db_at (y_path both_open) (os_files (y_os both_open)) = Some empty_db.
Proof. reflexivity. Qed.

Lemma created_step : sys_step created.2 accepted.1 accepted.2.
Proof. apply after_step; [|exact I]. unfold created, after. destruct (run_op _ _). simpl. by rewrite lookup_insert_ne. Qed.

Lemma store_refines_spec_witness :
  ∃ s', trace spec_step {| creds := ∅; pending := y_bufs both_open |} [created.1] s'
    ∧ abstracts created.2 s'.
Proof.
  apply (store_refines_spec both_open); [exact both_open_trace|]. split; [reflexivity|].
  exists empty_db. split; [exact both_open_db|]. split; [|reflexivity]. split; [reflexivity|apply NoDup_nil_2].
Defined.

Lemma store_keeps_schema_witness :
  ∃ db', db_at (y_path created.2) (os_files (y_os created.2)) = Some db' ∧ schema_db db'.
Proof.
  apply (store_keeps_schema both_open [created.1] created.2 empty_db both_open_db); [|exact both_open_trace].
  split; [reflexivity|]. split; [apply NoDup_nil_2|constructor].
Defined.

Lemma accepted_was_granted_witness :
  ∃ rec, accepted.1 = LOp 2 1000 (OpVerify the_key) (RAccepted rec)
    ∧ ∃ i t0 fuel key rec0, LOp i t0 (OpCreate fuel "laptop") (RCreated key rec0) ∈ [created.1]
        ∧ ID rec0 = ID rec.
Proof.
  destruct accepted.1 as [| | |i t o r] eqn:E; try (exfalso; vm_compute in E; discriminate).
  assert (∃ rec, LOp i t o r = LOp 2 1000 (OpVerify the_key) (RAccepted rec) ∧ Label rec = "laptop"%string)
    as (rec & Hl & Hlab).
  { rewrite <-E. eexists. split; vm_compute; reflexivity. }
  exists rec. split; [exact Hl|].
  destruct (accepted_was_granted both_open [created.1] created.2 accepted.2 1 2 1000 the_key rec)
    as [(i' & t0 & fuel & key & rec0 & Hin & Hid & _) _].
  - exact both_open_db.
  - exact both_open_trace.
  - rewrite <-Hl, <-E. exact created_step.
  - exists i', t0, fuel, key, rec0. rewrite <-Hlab. split; assumption.
Defined.
