(* ===== verification/KeystoreLock.v ===== *)
(** * KeystoreLock: several processes over the advisory lock.

    [lock.go] locks the key file itself, and [writeDB] replaces that file by a
    rename, so the lock belongs to an inode that may no longer be the one the
    path names.  Here every exclusive operation ([Create], [Revoke],
    [FlushUsage]) of a process is its sequence of system calls (open, flock,
    read, rename, unlock) over inodes, and the calls of several processes
    interleave in any order. *)

From stdpp Require Import relations.
From S2P Require Import Prelude GoText GoEncoding GoCrypto GoPath GoOs Keystore.
Open Scope Z_scope.

(** An exclusive operation: what it does to the database it reads. *)
Abbreviation rewrite_op := (Database → result kerr Database).

(** Where a process is in [acquireLock; readDB; writeDB; releaseLock]; the
    number is the inode its lock file descriptor refers to. *)
Inductive pc :=
| Start
| Opened (i : nat)
| Locked (i : nat)
| Loaded (i : nat) (db : Database)
| Stored (i : nat) (r : result kerr unit)
| Finished (r : result kerr unit).

#[export] Instance pc_eq_dec : EqDecision pc.
Proof. solve_decision. Defined.

(** The lock a process holds. *)
Definition holds (c : pc) : option nat :=
  match c with
  | Locked i | Loaded i _ | Stored i _ => Some i
  | _ => None
  end.

(** The directory entry, the inodes' contents (allocated in order), and the
    processes by number. *)
Record world := World {
  w_dir : option nat;
  w_inodes : list Database;
  w_procs : list pc;
}.

#[export] Instance world_eq_dec : EqDecision world.
Proof. solve_decision. Defined.

Definition w_content (w : world) : Database :=
  match w_dir w with
  | Some i => default empty_db (w_inodes w !! i)
  | None => empty_db
  end.

Definition set_pc (n : nat) (c : pc) (w : world) : world :=
  {| w_dir := w_dir w; w_inodes := w_inodes w; w_procs := <[n := c]> (w_procs w) |}.

(** A new inode becomes the file: [open(O_CREATE)] of an absent file, and the
    rename of the temp file. *)
Definition install (db : Database) (w : world) : world :=
  {| w_dir := Some (length (w_inodes w)); w_inodes := w_inodes w ++ [db];
     w_procs := w_procs w |}.

(** One system call of a process: where it is afterwards and what it did to the
    file; [None] when it is done or waits in flock. *)
Definition syscall (op : rewrite_op) (w : world) (c : pc) : option (pc * world) :=
  match c with
  | Start =>
      match w_dir w with
      | Some i => Some (Opened i, w)
      | None => Some (Opened (length (w_inodes w)), install empty_db w)
      end
  | Opened i =>
      if bool_decide (Some i ∈ holds <$> w_procs w) then None else Some (Locked i, w)
  | Locked i => Some (Loaded i (w_content w), w)
  | Loaded i db =>
      match op db with
      | Err e => Some (Stored i (Err e), w)
      | Ok db' => Some (Stored i (Ok tt), install db' w)
      end
  | Stored i r => Some (Finished r, w)
  | Finished _ => None
  end.

Definition call (ops : list rewrite_op) (n : nat) (w : world) : option world :=
  op ← ops !! n;
  c ← w_procs w !! n;
  x ← syscall op w c;
  Some (set_pc n x.1 x.2).

Inductive lstep (ops : list rewrite_op) (w : world) : world → Prop :=
| lstep_call n w' : call ops n w = Some w' → lstep ops w w'.

(** A schedule, for concrete runs. *)
Fixpoint run_schedule (ops : list rewrite_op) (ns : list nat) (w : world) : option world :=
  match ns with
  | [] => Some w
  | n :: ns => w' ← call ops n w; run_schedule ops ns w'
  end.

Lemma run_schedule_rtc ops ns w w' :
  run_schedule ops ns w = Some w' → rtc (lstep ops) w w'.
Proof.
  revert w. induction ns as [|n ns IH]; intros w; simpl.
  - intros [= ->]. apply rtc_refl.
  - destruct (call ops n w) as [w1|] eqn:E; [|done]. simpl. intros H.
    eapply rtc_l; [by econstructor|by apply IH].
Qed.

Definition initial (db : Database) (k : nat) : world :=
  {| w_dir := Some 0%nat; w_inodes := [db]; w_procs := replicate k Start |}.

(** ** The operations *)

Definition on_keys (f : list dbRecord → result kerr (list dbRecord)) : rewrite_op := λ db,
  match f (Keys db) with
  | Ok ks => Ok {| Version := Version db; Keys := ks |}
  | Err e => Err e
  end.

Definition revoke_op (id : string) (t : Time) : rewrite_op := on_keys (revoke_first id t).
Definition flush_op (snapshot : gmap string Time) : rewrite_op :=
  on_keys (λ ks, Ok (apply_usage snapshot ks)).
Definition create_op (rec : KeyRecord) : rewrite_op :=
  on_keys (λ ks, Ok (ks ++ [toDBRecord rec])).

(** What one operation run alone does: its result and the database after. *)
Definition alone (op : rewrite_op) (db : Database) : result kerr unit * Database :=
  match op db with Ok db' => (Ok tt, db') | Err e => (Err e, db) end.

(** ** Two processes *)

Section two.
Variables (f g : rewrite_op) (db0 : Database).

(** Has not written yet, and how far it is. *)
Definition before_commit (w : world) (c : pc) : Prop :=
  match c with
  | Start => True
  | Opened _ | Locked _ => True
  | Loaded _ db => db = w_content w
  | _ => False
  end.

Definition committed_with (c : pc) (r : result kerr unit) : Prop :=
  c = Finished r ∨ ∃ i, c = Stored i r.

(** The inode a process has open is the current one. *)
Definition current (w : world) (c : pc) : Prop :=
  match c with
  | Opened i | Locked i | Loaded i _ => w_dir w = Some i
  | _ => True
  end.

Definition exclusive (a b : pc) : Prop :=
  ∀ i, holds a = Some i → holds b = Some i → False.

Inductive serial_inv (w : world) (a b : pc) : Prop :=
| SI_none : w_content w = db0 → before_commit w a → before_commit w b →
    current w a → current w b → serial_inv w a b
| SI_a r : committed_with a r → alone f db0 = (r, w_content w) → before_commit w b →
    serial_inv w a b
| SI_b r : committed_with b r → alone g db0 = (r, w_content w) → before_commit w a →
    serial_inv w a b
| SI_ab r r' db : committed_with a r → committed_with b r' →
    alone f db0 = (r, db) → alone g db = (r', w_content w) → serial_inv w a b
| SI_ba r r' db : committed_with a r → committed_with b r' →
    alone g db0 = (r', db) → alone f db = (r, w_content w) → serial_inv w a b.
End two.

Lemma serial_inv_sym f g db0 w a b : serial_inv f g db0 w a b → serial_inv g f db0 w b a.
Proof. destruct 1; [eapply SI_none|eapply SI_b|eapply SI_a|eapply SI_ba|eapply SI_ab]; done. Qed.

(** The invariant looks at the file only. *)
Lemma serial_inv_procs f g db0 w n c a b :
  serial_inv f g db0 w a b → serial_inv f g db0 (set_pc n c w) a b.
Proof. destruct 1; [eapply SI_none|eapply SI_a|eapply SI_b|eapply SI_ab|eapply SI_ba]; done. Qed.

Lemma content_install db w : w_content (install db w) = db.
Proof.
  unfold w_content. simpl. by rewrite lookup_app_r, Nat.sub_diag by lia.
Qed.

Lemma committed_stored i r : committed_with (Stored i r) r.
Proof. right. eauto. Qed.
Lemma committed_finished r : committed_with (Finished r) r.
Proof. by left. Qed.
#[local] Hint Resolve committed_stored committed_finished : go.

Lemma committed_before w c r : committed_with c r → before_commit w c → False.
Proof. by intros [->|[i ->]]. Qed.

(** The write of a process that has read the current content. *)
Lemma commit_inv f g db0 w i b c w' :
  serial_inv f g db0 w (Loaded i (w_content w)) b → exclusive (Loaded i (w_content w)) b →
  syscall f w (Loaded i (w_content w)) = Some (c, w') → serial_inv f g db0 w' c b.
Proof.
  intros HI Hex. assert (∀ x y, alone f (w_content w) = (x, y) →
    syscall f w (Loaded i (w_content w)) = Some (c, w') →
    c = Stored i x ∧ w_content w' = y ∧ ∀ d, before_commit w d → exclusive (Loaded i (w_content w)) d →
      current w (Loaded i (w_content w)) → current w d → before_commit w' d) as Hrun.
  { unfold alone. simpl. intros x y Ha. destruct (f (w_content w)) as [db'|e]; simplify_eq.
    - intros [= <- <-]. split_and!; [done|apply content_install|].
      intros d Hd Hxd Hc Hcd. destruct d as [|j|j|j db|j r|r]; simpl in *; try done.
      exfalso. apply (Hxd i); simpl; [done|congruence].
    - intros [= <- <-]. done. }
  destruct (alone f (w_content w)) as [x y] eqn:Ea. intros Hs.
  destruct (Hrun x y eq_refl Hs) as (-> & Hc & Hb).
  destruct HI as [H1 H2 H3 H4 H5|r H1 H2 H3|r H1 H2 H3|r r' db H1 H2 _ _|r r' db H1 H2 _ _].
  - eapply SI_a; [apply committed_stored|by rewrite <-H1, Ea, Hc|by apply Hb].
  - by destruct H1 as [|[]].
  - eapply SI_ba; [apply committed_stored|done|done|by rewrite Ea, Hc].
  - by destruct H1 as [|[]].
  - by destruct H1 as [|[]].
Qed.

Lemma syscall_inv f g db0 w a b c w' :
  is_Some (w_dir w) → holds b ∈ holds <$> w_procs w →
  exclusive a b → serial_inv f g db0 w a b → syscall f w a = Some (c, w') →
  is_Some (w_dir w') ∧ exclusive c b ∧ serial_inv f g db0 w' c b.
Proof.
  intros [i0 Hdir] Hb Hex HI Hs. destruct a as [|i|i|i db|i r|r]; simpl in Hs; [| | | | |done].
  - rewrite Hdir in Hs. simplify_eq. split; [eauto|]. split; [done|].
    destruct HI as [H1 H2 H3 H4 H5|r H1|r H1 H2 H3|r r' db H1|r r' db H1];
      [by eapply SI_none|by destruct H1 as [|[]]|by eapply SI_b|by destruct H1 as [|[]]..].
  - case_bool_decide as Hin; simplify_eq. split; [eauto|]. split.
    + intros j [= ->] Hj. apply Hin. by rewrite <-Hj.
    + destruct HI as [H1 H2 H3 H4 H5|r H1|r H1 H2 H3|r r' db H1|r r' db H1];
        [by eapply SI_none|by destruct H1 as [|[]]|by eapply SI_b|by destruct H1 as [|[]]..].
  - simplify_eq. split; [eauto|]. split; [exact Hex|].
    destruct HI as [H1 H2 H3 H4 H5|r H1|r H1 H2 H3|r r' db H1|r r' db H1];
      [by eapply SI_none|by destruct H1 as [|[]]|by eapply SI_b|by destruct H1 as [|[]]..].
  - assert (db = w_content w) as ->.
    { destruct HI as [H1 H2 H3 H4 H5|r H1|r H1 H2 H3|r r' db' H1|r r' db' H1];
        [done|by destruct H1 as [|[]]|done|by destruct H1 as [|[]]..]. }
    pose proof (commit_inv _ _ _ _ _ _ c w' HI Hex Hs) as HI'.
    destruct (f (w_content w)); simplify_eq; (split; [simpl; eauto|]; split; [exact Hex|done]).
  - simplify_eq. split; [eauto|]. split; [done|].
    destruct HI as [H1 H2|r0 [|[j [= -> ->]]]|r0 H1 H2 H3|r0 r' db [|[j [= -> ->]]]|r0 r' db [|[j [= -> ->]]]];
      try done; [eapply SI_a|eapply SI_ab|eapply SI_ba]; eauto with go.
Qed.

Definition two_inv (f g : rewrite_op) (db0 : Database) (w : world) : Prop :=
  ∃ a b, w_procs w = [a; b] ∧ is_Some (w_dir w) ∧ exclusive a b ∧ serial_inv f g db0 w a b.

Lemma exclusive_sym a b : exclusive a b → exclusive b a.
Proof. intros H i Hb Ha. by apply (H i). Qed.

Lemma syscall_procs op w c c' w' : syscall op w c = Some (c', w') → w_procs w' = w_procs w.
Proof. intros H. destruct c; simpl in H; repeat case_match; by simplify_eq. Qed.

Lemma two_inv_step f g db0 w w' : two_inv f g db0 w → lstep [f; g] w w' → two_inv f g db0 w'.
Proof.
  intros (a & b & Hp & Hd & Hex & HI) [n w1 Hc]. unfold call in Hc.
  assert (∀ c, c ∈ [a; b] → holds c ∈ holds <$> w_procs w) as Hin.
  { intros c Hc'. rewrite Hp. by apply list_elem_of_fmap_2. }
  destruct n as [|[|n]]; simpl in Hc; [| |done]; rewrite Hp in Hc; simpl in Hc.
  - destruct (syscall f w a) as [[c w2]|] eqn:E; simplify_eq/=.
    destruct (syscall_inv f g db0 w a b c w2) as (Hd' & Hex' & HI'); [done|apply Hin; set_solver|done..|].
    exists c, b. simpl. rewrite (syscall_procs _ _ _ _ _ E), Hp. split_and!; try done.
    by apply serial_inv_procs.
  - destruct (syscall g w b) as [[c w2]|] eqn:E; simplify_eq/=.
    destruct (syscall_inv g f db0 w b a c w2) as (Hd' & Hex' & HI');
      [done|apply Hin; set_solver|by apply exclusive_sym|by apply serial_inv_sym|done|].
    exists a, c. simpl. rewrite (syscall_procs _ _ _ _ _ E), Hp. split_and!; try done.
    + by apply exclusive_sym.
    + by apply serial_inv_procs, serial_inv_sym.
Qed.

Lemma two_inv_initial f g db0 : two_inv f g db0 (initial db0 2).
Proof.
  exists Start, Start. split; [done|]. split; [simpl; eauto|]. split; [done|]. by eapply SI_none.
Qed.

Lemma two_inv_rtc f g db0 w :
  rtc (lstep [f; g]) (initial db0 2) w → two_inv f g db0 w.
Proof.
  intros H. generalize (two_inv_initial f g db0). revert H.
  generalize (initial db0 2). intros w0 H. induction H as [|w1 w2 w3 H12 _ IH]; [done|].
  intros HI. by eapply IH, two_inv_step.
Qed.

(** C30: Two concurrent exclusive operations are serializable: whatever the
    interleaving of their system calls, when both have finished, the results
    they returned and the database they left are those of running one after
    the other in one of the two orders. *)
Theorem two_writers_serializable f g db0 w r r' :
  rtc (lstep [f; g]) (initial db0 2) w → w_procs w = [Finished r; Finished r'] →
  (alone f db0 = (r, (alone f db0).2) ∧ alone g (alone f db0).2 = (r', w_content w))
  ∨ (alone g db0 = (r', (alone g db0).2) ∧ alone f (alone g db0).2 = (r, w_content w)).
Proof.
  intros H Hp. destruct (two_inv_rtc _ _ _ _ H) as (a & b & Hp' & _ & _ & HI).
  rewrite Hp in Hp'. simplify_eq.
  destruct HI as [_ H2|x H1 H2 H3|x H1 H2 H3|x y db [H1|[]] [H2|[]] H3 H4|x y db [H1|[]] [H2|[]] H3 H4];
    try done; simplify_eq; [left|right]; by rewrite H3.
Qed.

(** ** Instances *)

Definition lock_record (id : string) : dbRecord :=
  {| d_ID := id; d_Label := ""; d_Created := 0; d_LastUsed := 0; d_RevokedAt := 0;
     d_Revoked := false; d_Fingerprint := ""; d_Hash := []; d_Salt := [] |}.

Definition lock_db : Database := {| Version := 1; Keys := [lock_record "aa"; lock_record "bb"] |}.

(** Revoke and flush, interleaved: the second waits at flock. *)
Lemma two_writers_serializable_witness :
  ∃ w, run_schedule [revoke_op "aa" 5; revoke_op "bb" 6] [0; 1; 0; 0; 0; 0; 1; 1; 1; 1]%nat
         (initial lock_db 2) = Some w
  ∧ w_content w = (alone (revoke_op "bb" 6) (alone (revoke_op "aa" 5) lock_db).2).2.
Proof.
  eexists. split; [vm_compute; reflexivity|].
  match goal with |- w_content ?w = _ => set (w1 := w) end.
  destruct (two_writers_serializable (revoke_op "aa" 5) (revoke_op "bb" 6) lock_db w1 (Ok tt) (Ok tt))
    as [[_ H]|[_ H]].
  - apply (run_schedule_rtc _ [0; 1; 0; 0; 0; 0; 1; 1; 1; 1]%nat). vm_compute. reflexivity.
  - reflexivity.
  - by rewrite H.
  - apply (f_equal snd) in H. simpl in H. rewrite <-H. vm_compute. reflexivity.
Defined.

(** Three are not: the lock is on the inode the path named when it was
    opened, so after one operation has replaced the file, a process that was
    waiting for the old inode and one that opens the new one are in their
    critical sections together.  There is an interleaving in which [Revoke "bb"]
    returns [nil] and the key it revoked is active in the end, although no
    operation un-revokes a key. *)
Theorem revoke_lost_to_stale_lock :
  let ops := [revoke_op "aa" 5; flush_op {["bb"%string := 6]}; revoke_op "bb" 7] in
  ∃ w, rtc (lstep ops) (initial lock_db 3) w
    ∧ w_procs w = [Finished (Ok tt); Finished (Ok tt); Finished (Ok tt)]
    ∧ (d_Revoked <$> Keys (w_content w) !! 1%nat) = Some false
    ∧ (d_ID <$> Keys (w_content w) !! 1%nat) = Some "bb"%string.
Proof.
  intros ops. eexists. split.
  - apply (run_schedule_rtc ops [0; 1; 0; 0; 0; 0; 1; 1; 2; 2; 2; 2; 2; 1; 1]%nat).
    vm_compute. reflexivity.
  - split_and!; vm_compute; reflexivity.
Qed.
