(* ===== verification/Interleave.v ===== *)
(** * Interleave: programs of atomic actions, and pools of them.

    A program is a tree of actions and continuations over any signature of
    actions [E]; a handler says what an action does to a shared state.  [interp]
    runs a program alone.  A pool runs several, action by action in any order;
    an action that is not enabled waits.  [mutex_serializes] is the reduction
    that a mutex around every program allows: what a pool does, the programs do
    one after another in the order in which they took the mutex. *)

From S2P Require Import Prelude.

Section programs.
Context {E : Type → Type}.

Inductive prog (A : Type) : Type :=
| Done (a : A)
| Do {X : Type} (a : E X) (k : X → prog A).
Arguments Done {A} a.
Arguments Do {A X} a k.

Fixpoint pbind {A B} (p : prog A) (k : A → prog B) : prog B :=
  match p with
  | Done a => k a
  | Do a k' => Do a (λ x, pbind (k' x) k)
  end.

Context {S : Type} (h : ∀ X, E X → M S X).

(** A program without others beside it. *)
Fixpoint interp {A} (p : prog A) : M S A :=
  match p with
  | Done a => ret a
  | Do a k => let! x := h _ a in interp (k x)
  end.

Lemma interp_pbind {A B} (p : prog A) (k : A → prog B) s :
  interp (pbind p k) s = (let! x := interp p in interp (k x)) s.
Proof.
  revert s. induction p as [a|X a k' IH]; intros s; [done|]. simpl. unfold bind at 1 3.
  unfold bind at 1. destruct (h _ a s) as [x s1]. rewrite IH. unfold bind. by destruct (interp (k' x) s1).
Qed.

(** ** Pools *)

Context {A : Type} (enabled : ∀ X, E X → S → bool).

(** An action of a program with its answer. *)
Inductive pevent := PEv (i : nat) {X : Type} (a : E X) (x : X).

Record pool := { pl_state : S; pl_progs : list (prog A) }.

Inductive pool_step (w : pool) : pevent → pool → Prop :=
| PStep i X (a : E X) k x s' :
    pl_progs w !! i = Some (Do a k) → enabled X a (pl_state w) = true → h X a (pl_state w) = (x, s') →
    pool_step w (PEv i a x) {| pl_state := s'; pl_progs := <[i := k x]> (pl_progs w) |}.

Inductive pool_run : pool → list pevent → pool → Prop :=
| pool_nil w : pool_run w [] w
| pool_snoc w es w1 e w2 : pool_run w es w1 → pool_step w1 e w2 → pool_run w (es ++ [e]) w2.

Lemma pool_run_app w es1 w1 es2 w2 :
  pool_run w es1 w1 → pool_run w1 es2 w2 → pool_run w (es1 ++ es2) w2.
Proof.
  intros H1 H2. revert H1. induction H2 as [w'|w' es w3 e w4 _ IH Hs]; intros H1; [by rewrite app_nil_r|].
  rewrite app_assoc. eapply pool_snoc; [by apply IH|exact Hs].
Qed.

(** A schedule of who moves next; a program that waits or has ended is passed
    over. *)
Definition pool_next (i : nat) (w : pool) : list pevent * pool :=
  match pl_progs w !! i with
  | Some (Do a k) =>
      if enabled _ a (pl_state w) then
        let (x, s') := h _ a (pl_state w) in
        ([PEv i a x], {| pl_state := s'; pl_progs := <[i := k x]> (pl_progs w) |})
      else ([], w)
  | _ => ([], w)
  end.

Fixpoint pool_play (ns : list nat) (w : pool) : list pevent * pool :=
  match ns with
  | [] => ([], w)
  | i :: ns' =>
      let (es1, w1) := pool_next i w in
      let (es2, w2) := pool_play ns' w1 in (es1 ++ es2, w2)
  end.

Lemma pool_next_run i w : pool_run w (pool_next i w).1 (pool_next i w).2.
Proof.
  unfold pool_next. destruct (pl_progs w !! i) as [[a|X a k]|] eqn:Hi; [constructor| |constructor].
  destruct (enabled X a (pl_state w)) eqn:He; [|constructor].
  destruct (h X a (pl_state w)) as [x s'] eqn:Hh. apply (pool_snoc w [] w); [constructor|]. by constructor.
Qed.

Lemma pool_play_run ns w : pool_run w (pool_play ns w).1 (pool_play ns w).2.
Proof.
  revert w. induction ns as [|i ns IH]; intros w; [constructor|]. cbn [pool_play].
  pose proof (pool_next_run i w) as H1. destruct (pool_next i w) as [es1 w1].
  specialize (IH w1). destruct (pool_play ns w1) as [es2 w2]. by eapply pool_run_app.
Qed.

(** ** Every run ends *)

(** An action takes a program to one of its continuations. *)
Definition advances (ps' ps : list (prog A)) : Prop :=
  ∃ i, match ps !! i with
       | Some (Do a k) => ∃ x, ps' = <[i := k x]> ps
       | _ => False
       end.

Lemma advances_cons p ps : Acc advances ps → Acc advances (p :: ps).
Proof.
  revert ps. induction p as [b|X a k IHp]; intros ps Hps; induction Hps as [ps Hps IHps].
  - apply Acc_intro. intros qs [[|i] Hi]; [destruct Hi|].
    change ((Done b :: ps) !! Datatypes.S i) with (ps !! i) in Hi.
    destruct (ps !! i) as [[c|Y c k']|] eqn:Hpi; [destruct Hi| |destruct Hi]. destruct Hi as [x ->].
    apply IHps. exists i. rewrite Hpi. by exists x.
  - apply Acc_intro. intros qs [[|i] Hi].
    + destruct Hi as [x ->]. by apply IHp, Acc_intro.
    + change ((Do a k :: ps) !! Datatypes.S i) with (ps !! i) in Hi.
      destruct (ps !! i) as [[c|Y c k']|] eqn:Hpi; [destruct Hi| |destruct Hi]. destruct Hi as [x ->].
      apply IHps. exists i. rewrite Hpi. by exists x.
Qed.

Lemma advances_wf ps : Acc advances ps.
Proof.
  induction ps as [|p ps IH]; [|by apply advances_cons]. constructor. by intros qs [i Hi].
Qed.

Lemma pool_step_advances w e w' : pool_step w e w' → advances (pl_progs w') (pl_progs w).
Proof. intros [i X a k x s' Hi _ _]. exists i. rewrite Hi. by exists x. Qed.

Lemma pool_ends w : Acc (λ w2 w1, ∃ e, pool_step w1 e w2) w.
Proof.
  remember (pl_progs w) as ps eqn:Hps. pose proof (advances_wf ps) as Hacc. revert w Hps.
  induction Hacc as [ps _ IH]. intros w ->. constructor. intros w2 [e Hs].
  exact (IH _ (pool_step_advances _ _ _ Hs) w2 eq_refl).
Qed.

Definition all_done (w : pool) : Prop := ∀ j p, pl_progs w !! j = Some p → ∃ a, p = Done a.

Lemma all_done_or w : all_done w ∨ ∃ i X (a : E X) k, pl_progs w !! i = Some (Do a k).
Proof.
  unfold all_done. induction (pl_progs w) as [|[b|X a k] ps IH]; [by left| |by right; exists 0%nat, X, a, k].
  destruct IH as [IH|(i & X & a & k & Hi)]; [left|right; by exists (Datatypes.S i), X, a, k].
  intros [|j] p Hj; [injection Hj as <-; by exists b|by apply (IH j)].
Qed.

(** A pool that keeps an invariant which rules out a deadlock can always be run
    to its end. *)
Lemma pool_finishes (I : pool → Prop) w :
  (∀ w e w', I w → pool_step w e w' → I w') →
  (∀ w, I w → all_done w ∨ ∃ e w', pool_step w e w') →
  I w → ∃ es w', pool_run w es w' ∧ all_done w'.
Proof.
  intros Hkeep Hgo. remember (pl_progs w) as ps eqn:Hps. pose proof (advances_wf ps) as Hacc.
  revert w Hps. induction Hacc as [ps _ IH]. intros w -> HI.
  destruct (Hgo w HI) as [Hd|(e & w1 & Hs)]; [by exists [], w; split; [constructor|]|].
  destruct (IH (pl_progs w1) (pool_step_advances _ _ _ Hs) w1 eq_refl (Hkeep _ _ _ HI Hs)) as (es & w2 & Hr & Hd).
  exists (e :: es), w2. split; [|done]. apply (pool_run_app w [e] w1); [|done].
  by apply (pool_snoc w [] w); [constructor|].
Qed.

(** ** One program after another *)

(** In the order of the list, each with its result. *)
Inductive serial (ps : list (prog A)) : S → list (nat * A) → S → Prop :=
| serial_nil s : serial ps s [] s
| serial_snoc s o s1 j p a s2 :
    serial ps s o s1 → ps !! j = Some p → interp p s1 = (a, s2) → serial ps s (o ++ [(j, a)]) s2.

(** ** A mutex around every program *)

Section mutex.
Variables (sound : S → Prop) (held : S → bool) (acquires releases : ∀ X, E X → bool).

(** Within the critical section, up to its release at the very end. *)
Fixpoint inside {B} (p : prog B) : Prop :=
  match p with
  | Done _ => False
  | @Do _ X a k =>
      if releases X a then ∀ x, ∃ b, k x = Done b
      else acquires X a = false ∧ ∀ x, inside (k x)
  end.

Definition outside {B} (p : prog B) : Prop :=
  match p with
  | Done _ => True
  | @Do _ X a k => acquires X a = true ∧ ∀ x, inside (k x)
  end.

(** What the actions do to the mutex, and that acquiring it waits for it; [sound]
    is an invariant of the state this may need. *)
Record mutex_laws : Prop := {
  mutex_waits X a s : acquires X a = true → enabled X a s = true → held s = false;
  mutex_taken X (a : E X) s : acquires X a = true → held (h X a s).2 = true;
  mutex_left X (a : E X) s : sound s → releases X a = true → held (h X a s).2 = false;
  mutex_kept X (a : E X) s : acquires X a = false → releases X a = false → held (h X a s).2 = held s;
  mutex_apart X (a : E X) : acquires X a = true → releases X a = false;
  mutex_sound X (a : E X) s : sound s → enabled X a s = true → sound (h X a s).2;
}.
Hypothesis laws : mutex_laws.

Variables (ps : list (prog A)) (s0 : S).

(** Those that have been served are done with the result they have in turn; the
    others have not started. *)
Definition served (o : list (nat * A)) (w : pool) : Prop :=
  NoDup (o.*1) ∧ (∀ j a, (j, a) ∈ o → pl_progs w !! j = Some (Done a)).

Inductive mutex_inv (w : pool) : Prop :=
| MFree o :
    held (pl_state w) = false → served o w → serial ps s0 o (pl_state w) →
    (∀ j, j ∉ o.*1 → pl_progs w !! j = ps !! j) → mutex_inv w
| MHeld o i p a s1 :
    held (pl_state w) = true → served o w → i ∉ o.*1 →
    pl_progs w !! i = Some p → inside p → interp p (pl_state w) = (a, s1) →
    serial ps s0 (o ++ [(i, a)]) s1 →
    (∀ j, j ∉ o.*1 → j ≠ i → pl_progs w !! j = ps !! j) → mutex_inv w.

Lemma served_other o w i p :
  i ∉ o.*1 → served o w → served o {| pl_state := pl_state w; pl_progs := <[i := p]> (pl_progs w) |}.
Proof.
  intros Hi [Hn Hd]. split; [done|]. intros j a Hj. simpl. rewrite list_lookup_insert_ne; [by apply Hd|].
  intros ->. apply Hi. by apply (list_elem_of_fmap_2 fst _ _ Hj).
Qed.

Lemma mutex_step w e w' :
  (∀ j p, ps !! j = Some p → outside p) → sound (pl_state w) → mutex_inv w → pool_step w e w' → mutex_inv w'.
Proof.
  intros Hout Hsound Hinv [i X a k x s' Hi He Hh].
  destruct Hinv as [o Hf Hs Hser Hrest|o j p r s1 Ht Hs Hj Hp Hin Hrun Hser Hrest].
  - assert (i ∉ o.*1) as Hni.
    { intros ((i' & b) & -> & Hb)%list_elem_of_fmap. destruct Hs as [_ Hd].
      pose proof (Hd _ _ Hb) as H. simpl in Hi. congruence. }
    pose proof Hi as Hi'. rewrite (Hrest i Hni) in Hi'. destruct (Hout i _ Hi') as [Ha Hk].
    destruct (interp (k x) s') as [r s1] eqn:Er.
    apply (MHeld _ o i (k x) r s1); simpl; try done.
    + pose proof (mutex_taken laws X a (pl_state w) Ha) as H. by rewrite Hh in H.
    + by apply (served_other o w).
    + apply list_lookup_insert_eq. by eapply lookup_lt_Some.
    + eapply serial_snoc; [exact Hser|exact Hi'|]. simpl. unfold bind. by rewrite Hh.
    + intros j' Hj' Hne. rewrite list_lookup_insert_ne by done. by apply Hrest.
  - destruct (decide (i = j)) as [->|Hne].
    + rewrite Hi in Hp. injection Hp as <-. simpl in Hin, Hrun. unfold bind in Hrun. rewrite Hh in Hrun.
      assert (j < length (pl_progs w))%nat as Hlt by by eapply lookup_lt_Some.
      destruct (releases X a) eqn:Hrel.
      * destruct (Hin x) as [b Hb]. rewrite Hb in Hrun |- *. injection Hrun as <- <-.
        apply (MFree _ (o ++ [(j, b)])); simpl.
        -- pose proof (mutex_left laws X a (pl_state w) Hsound Hrel) as H. by rewrite Hh in H.
        -- destruct Hs as [Hn Hd]. split.
           ++ rewrite fmap_app. apply NoDup_app. split_and!; [done| |apply NoDup_singleton].
              intros j' Hj' ->%list_elem_of_singleton. done.
           ++ intros j' b' [Hin'|[= -> ->]%list_elem_of_singleton]%elem_of_app; simpl.
              ** rewrite list_lookup_insert_ne; [by apply Hd|]. intros ->. apply Hj.
                 by apply (list_elem_of_fmap_2 fst _ _ Hin').
              ** by apply list_lookup_insert_eq.
        -- done.
        -- intros j' Hj'. rewrite fmap_app, not_elem_of_app in Hj'. destruct Hj' as [H1 H2].
           assert (j' ≠ j) by (intros ->; apply H2; by apply list_elem_of_singleton).
           rewrite list_lookup_insert_ne by done. by apply Hrest.
      * destruct Hin as [Hacq Hin]. apply (MHeld _ o j (k x) r s1); simpl; try done.
        -- pose proof (mutex_kept laws X a (pl_state w) Hacq Hrel) as H. rewrite Hh in H. simpl in H. congruence.
        -- by apply (served_other o w).
        -- by apply list_lookup_insert_eq.
        -- intros j' Hj' Hne. rewrite list_lookup_insert_ne by done. by apply Hrest.
    + exfalso. destruct (decide (i ∈ o.*1)) as [Hio|Hio].
      * apply list_elem_of_fmap in Hio as ((i' & b) & -> & Hb). destruct Hs as [_ Hd].
        pose proof (Hd _ _ Hb). simpl in Hi. congruence.
      * rewrite (Hrest i Hio Hne) in Hi. destruct (Hout i _ Hi) as [Ha _].
        pose proof (mutex_waits laws X a _ Ha He). congruence.
Qed.

Lemma mutex_run es w w' :
  (∀ j p, ps !! j = Some p → outside p) → sound (pl_state w) ∧ mutex_inv w → pool_run w es w' →
  sound (pl_state w') ∧ mutex_inv w'.
Proof.
  intros Hout Hi Hr. induction Hr as [w|w es w1 e w2 _ IH Hs]; [done|]. destruct (IH Hi) as [H1 H2].
  split; [|by eapply mutex_step]. destruct Hs as [i X a k x s' _ He Hh].
  pose proof (mutex_sound laws X a _ H1 He) as H. by rewrite Hh in H.
Qed.

(** No deadlock: if acquiring waits for the mutex only and nothing else waits,
    somebody can move. *)
Lemma mutex_moves w :
  (∀ X (a : E X) s, enabled X a s = false → acquires X a = true ∧ held s = true) →
  (∀ j p, ps !! j = Some p → outside p) → mutex_inv w → all_done w ∨ ∃ e w', pool_step w e w'.
Proof.
  intros Hopen Hout Hinv.
  assert (∀ i X (a : E X) k, pl_progs w !! i = Some (Do a k) → enabled X a (pl_state w) = true →
    ∃ e w', pool_step w e w') as Hgo.
  { intros i X a k Hi He. destruct (h X a (pl_state w)) as [x s'] eqn:Hh. eexists _, _. by econstructor. }
  destruct Hinv as [o Hf _ _ _|o i p a s1 Ht _ _ Hp Hin _ _ _].
  - destruct (all_done_or w) as [Hd|(i & X & a & k & Hi)]; [by left|right].
    apply (Hgo i X a k Hi). destruct (enabled X a (pl_state w)) eqn:He; [done|].
    destruct (Hopen _ _ _ He). congruence.
  - right. destruct p as [b|X c k]; [done|]. apply (Hgo i X c k Hp).
    destruct (enabled X c (pl_state w)) eqn:He; [done|]. destruct (Hopen _ _ _ He) as [Hacq _].
    simpl in Hin. destruct (releases X c) eqn:Hrel; [|by destruct Hin; congruence].
    pose proof (mutex_apart laws X c Hacq). congruence.
Qed.

(** Programs that end at once fit anywhere in the order. *)
Lemma serial_idle o s js :
  serial ps s0 o s → (∀ j, j ∈ js → ∃ a, ps !! j = Some (Done a)) →
  ∃ o', serial ps s0 (o ++ o') s ∧ o'.*1 = js ∧ ∀ j a, (j, a) ∈ o' → ps !! j = Some (Done a).
Proof.
  intros Hs. induction js as [|j js IH] using rev_ind; intros Hd.
  { exists []. rewrite app_nil_r. split_and!; [done..|]. intros j a H. by apply elem_of_nil in H. }
  destruct IH as (o' & H1 & H2 & H3); [intros j' Hj'; apply Hd, elem_of_app; by left|].
  destruct (Hd j) as [a Ha]; [apply elem_of_app; right; by apply list_elem_of_singleton|].
  exists (o' ++ [(j, a)]). rewrite app_assoc. split_and!.
  - by eapply serial_snoc.
  - by rewrite fmap_app, H2.
  - intros j' a' [Hj'|[= -> ->]%list_elem_of_singleton]%elem_of_app; eauto.
Qed.

Lemma mutex_inv_start : held s0 = false → mutex_inv {| pl_state := s0; pl_progs := ps |}.
Proof.
  intros Hf. apply (MFree _ []); simpl; [done| |constructor|done].
  split; [constructor|]. intros j a H. by apply elem_of_nil in H.
Qed.

Lemma mutex_serializes es w :
  (∀ j p, ps !! j = Some p → outside p) → sound s0 → held s0 = false →
  pool_run {| pl_state := s0; pl_progs := ps |} es w →
  all_done w →
  ∃ o, serial ps s0 o (pl_state w) ∧ o.*1 ≡ₚ seq 0 (length ps)
    ∧ ∀ j a, (j, a) ∈ o → pl_progs w !! j = Some (Done a).
Proof.
  intros Hout Hsound Hf Hr Hdone.
  assert (length (pl_progs w) = length ps) as Hlen.
  { clear -Hr. remember {| pl_state := s0; pl_progs := ps |} as w0 eqn:Hw0. induction Hr as [w|w es w1 e w2 _ IH Hs]; [by subst|].
    rewrite <-IH by done. destruct Hs. simpl. by rewrite length_insert. }
  assert (mutex_inv w) as Hinv.
  { eapply mutex_run; [done| |exact Hr]. split; [done|by apply mutex_inv_start]. }
  destruct Hinv as [o _ [Hn Hd] Hser Hrest|o i p a s1 _ _ _ Hp Hin _ _ _].
  2: { destruct (Hdone _ _ Hp) as [b ->]. done. }
  destruct (serial_idle o (pl_state w) (filter (λ j, j ∉ o.*1) (seq 0 (length ps))) Hser) as (o' & H1 & H2 & H3).
  { intros j [Hj Hlt]%list_elem_of_filter. apply elem_of_seq in Hlt.
    destruct (lookup_lt_is_Some_2 (pl_progs w) j ltac:(lia)) as [p Hp].
    destruct (Hdone _ _ Hp) as [a ->]. exists a. by rewrite <-Hrest. }
  exists (o ++ o'). split; [done|]. split.
  - rewrite fmap_app, H2. apply NoDup_Permutation; [|apply NoDup_seq|].
    + apply NoDup_app. split_and!; [done| |apply NoDup_filter, NoDup_seq].
      intros j Hj [Hnj _]%list_elem_of_filter. done.
    + intros j. rewrite elem_of_app, list_elem_of_filter, elem_of_seq. split.
      * intros [Hj|[_ Hj]]; [|done]. apply list_elem_of_fmap in Hj as ((j' & a) & -> & Hj). simpl.
        pose proof (lookup_lt_Some _ _ _ (Hd _ _ Hj)). lia.
      * intros Hj. destruct (decide (j ∈ o.*1)); auto.
  - intros j a [Hj|Hj]%elem_of_app; [by apply Hd|].
    assert (j ∉ o.*1) as Hnj.
    { apply (list_elem_of_fmap_2 fst) in Hj. simpl in Hj. rewrite H2 in Hj. by apply list_elem_of_filter in Hj as [? _]. }
    rewrite (Hrest j Hnj). by apply H3.
Qed.
End mutex.
End programs.

Arguments prog : clear implicits.
Arguments Done {E A} a.
Arguments Do {E A X} a k.

Declare Scope prog_scope.
Notation "'act!' x ':=' a 'in' k" := (Do a (λ x, k))
  (at level 10, x binder, a at level 100, k at level 200) : prog_scope.
Notation "'act!!' a 'in' k" := (Do a (λ _, k))
  (at level 10, a at level 100, k at level 200) : prog_scope.
