(* ===== verification/GoFs.v ===== *)
(** * GoFs: a file tree with symbolic links, and [os.Root].

    The tree is a map from absolute locations (component lists) to entries.
    [os.Root] resolves a relative path below a directory one component at a
    time: links are followed inside it, and a path or link that would leave it
    is refused.  Calls fail by the fault list of [GoOs]; [fs_trace] keeps the
    earlier trees, latest first. *)

From S2P Require Import Prelude GoText GoPath GoOs.
Open Scope Z_scope.
Open Scope go_scope.

Abbreviation loc := (list string).

Inductive entry :=
| EFile (mode : Z) (data : bytes)
| EDir (mode : Z)
| ELink (target : string)
| EOther.

#[export] Instance entry_eq_dec : EqDecision entry.
Proof. solve_decision. Defined.

Abbreviation tree := (gmap loc entry).

Record fsys := Fsys { fs_tree : tree; fs_trace : list tree; fs_os : os }.

Definition set_tree (t : tree) (s : fsys) : fsys :=
  {| fs_tree := t; fs_trace := fs_tree s :: fs_trace s; fs_os := fs_os s |}.

Definition with_os {A} (m : M os A) : M fsys A :=
  zoom fs_os (λ o s, {| fs_tree := fs_tree s; fs_trace := fs_trace s; fs_os := o |}) m.

Definition fs_fallible {A} (body : M fsys (result oserr A)) : M fsys (result oserr A) :=
  let! f := with_os next_fault in
  match f with
  | Some e => ret (Err (OsErr (fault_msg e)))
  | None => body
  end.

(** ** Resolution below a root *)

Definition errPathEscapes : oserr := OsErr "path escapes from parent".
Definition errLoop : oserr := OsErr "too many levels of symbolic links".
Definition errNotDir : oserr := OsErr "not a directory".
Definition errIsDir : oserr := OsErr "is a directory".
Definition errExist : oserr := OsErr "file exists".

(** [rootMaxSymlinks] *)
Definition root_max_symlinks : nat := 8.

(** [splitPathInRoot]: the components, and whether a separator or a dot ends the
    path, which then has to be a directory. *)
Definition root_parts (p : string) : list string := comps p.
Definition has_trailing_slash (p : string) : bool :=
  match List.last (split_on slash p) EmptyString with
  | EmptyString => negb (String.eqb p "")
  | c => String.eqb c "."
  end.

(** Walks [rest] from the directory [R ++ done].  [mk] is the mode with which
    missing directories before the last component are created ([MkdirAll]);
    [follow] says whether a link in the last place is followed. *)
Fixpoint walk (R : loc) (mk : option Z) (follow : bool) (links : nat) :
    tree → loc → list string → tree * result oserr loc :=
  fix go T done rest :=
    match rest with
    | [] => (T, Ok done)
    | c :: rest' =>
        if String.eqb c "." then go T done rest'
        else if String.eqb c ".." then
          match done with
          | [] => (T, Err errPathEscapes)
          | _ => go T (removelast done) rest'
          end
        else
          let l := done ++ [c] in
          let last := match rest' with [] => true | _ => false end in
          match T !! (R ++ l) with
          | Some (ELink t) =>
              if last && negb follow then (T, Ok l)
              else if is_abs t then (T, Err errPathEscapes)
              else
                match links with
                | O => (T, Err errLoop)
                | S links' => walk R mk follow links' T done (root_parts t ++ rest')
                end
          | Some (EDir _) => go T l rest'
          | Some _ => if last then (T, Ok l) else (T, Err errNotDir)
          | None =>
              if last then (T, Ok l)
              else
                match mk with
                | None => (T, Err NotExist)
                | Some m => go (<[R ++ l := EDir m]> T) l rest'
                end
          end
    end.

(** An empty path and a path that starts with a separator are refused. *)
Definition resolve (R : loc) (mk : option Z) (follow : bool) (T : tree) (p : string) :
    tree * result oserr loc :=
  if String.eqb p "" then (T, Err (OsErr "empty path"))
  else if is_abs p then (T, Err errPathEscapes)
  else walk R mk follow root_max_symlinks T [] (root_parts p).

(** ** The methods of [os.Root]

    [R] is the directory the root was opened on. *)

Record finfo := { fi_isdir : bool; fi_regular : bool; fi_size : Z }.

Definition info_of (e : entry) : finfo :=
  match e with
  | EFile _ d => {| fi_isdir := false; fi_regular := true; fi_size := Z.of_nat (length d) |}
  | EDir _ => {| fi_isdir := true; fi_regular := false; fi_size := 4096 |}
  | _ => {| fi_isdir := false; fi_regular := false; fi_size := 0 |}
  end.

(** The root directory itself is always there. *)
Definition lookup_loc (R : loc) (T : tree) (l : loc) : option entry :=
  match l with [] => Some (EDir 448) | _ => T !! (R ++ l) end.

Definition root_stat (R : loc) (p : string) : M fsys (result oserr finfo) :=
  fs_fallible (
    let! T := gets fs_tree in
    match (resolve R None true T p).2 with
    | Err e => ret (Err e)
    | Ok l =>
        match lookup_loc R T l with
        | None => ret (Err NotExist)
        | Some e =>
            if has_trailing_slash p && negb (fi_isdir (info_of e)) then ret (Err errNotDir)
            else ret (Ok (info_of e))
        end
    end).

(** Missing directories are made one by one, so an error can leave some. *)
Definition root_mkdirall (R : loc) (p : string) (mode : Z) : M fsys (result oserr unit) :=
  fs_fallible (
    let! T := gets fs_tree in
    let (T', r) := resolve R (Some mode) true T p in
    match r with
    | Err e => do! modify (set_tree T') in ret (Err e)
    | Ok l =>
        match lookup_loc R T' l with
        | Some (EDir _) => do! modify (set_tree T') in ret (Ok tt)
        | Some _ => do! modify (set_tree T') in ret (Err errNotDir)
        | None => do! modify (set_tree (<[R ++ l := EDir mode]> T')) in ret (Ok tt)
        end
    end).

(** [OpenFile(p, O_CREATE|O_EXCL|O_WRONLY, mode)]: the location is the handle. *)
Definition root_create_excl (R : loc) (p : string) (mode : Z) : M fsys (result oserr loc) :=
  fs_fallible (
    let! T := gets fs_tree in
    match (resolve R None false T p).2 with
    | Err e => ret (Err e)
    | Ok l =>
        if has_trailing_slash p then ret (Err errIsDir)
        else
          match lookup_loc R T l with
          | Some _ => ret (Err errExist)
          | None => do! modify (set_tree (<[R ++ l := EFile mode []]> T)) in ret (Ok (R ++ l))
          end
    end).

(** Calls on the open file at [h], while it is linked there. *)
Definition update_at (h : loc) (f : Z → bytes → entry) : M fsys unit := λ s,
  match fs_tree s !! h with
  | Some (EFile m d) => (tt, set_tree (<[h := f m d]> (fs_tree s)) s)
  | _ => (tt, s)
  end.

Definition h_chmod (h : loc) (mode : Z) : M fsys (result oserr unit) :=
  fs_fallible (do! update_at h (λ _ d, EFile mode d) in ret (Ok tt)).

Definition h_write (h : loc) (data : bytes) : M fsys (result oserr unit) :=
  let! f := with_os next_fault in
  match f with
  | Some e =>
      do! update_at h (λ m d, EFile m (d ++ take (fault_written e) data)) in
      ret (Err (OsErr (fault_msg e)))
  | None => do! update_at h (λ m d, EFile m (d ++ data)) in ret (Ok tt)
  end.

Definition h_sync : M fsys (result oserr unit) := fs_fallible (ret (Ok tt)).
Definition h_close : M fsys (result oserr unit) := fs_fallible (ret (Ok tt)).

(** A rename replaces what the last component names, a link included, unless
    that is a directory. *)
Definition root_rename (R : loc) (a b : string) : M fsys (result oserr unit) :=
  fs_fallible (
    let! T := gets fs_tree in
    match (resolve R None false T a).2, (resolve R None false T b).2 with
    | Ok la, Ok lb =>
        match lookup_loc R T la, lookup_loc R T lb with
        | Some (EFile m d), Some (EDir _) => ret (Err errIsDir)
        | Some (EFile m d), _ =>
            if has_trailing_slash b then ret (Err errNotDir)
            else
              do! modify (set_tree (<[R ++ lb := EFile m d]> (delete (R ++ la) T))) in ret (Ok tt)
        | Some _, _ => ret (Err (OsErr "invalid argument"))
        | None, _ => ret (Err NotExist)
        end
    | Err e, _ | _, Err e => ret (Err e)
    end).

(** Of a file or link. *)
Definition root_remove (R : loc) (p : string) : M fsys (result oserr unit) :=
  fs_fallible (
    let! T := gets fs_tree in
    match (resolve R None false T p).2 with
    | Err e => ret (Err e)
    | Ok l =>
        match lookup_loc R T l with
        | None => ret (Err NotExist)
        | Some (EDir _) => ret (Err (OsErr "directory not empty"))
        | Some _ => do! modify (set_tree (delete (R ++ l) T)) in ret (Ok tt)
        end
    end).

(** ** Size of the regular files below a root *)

Definition below (R l : loc) : bool := bool_decide (R `prefix_of` l).

Definition file_size (R l : loc) (e : entry) : Z :=
  match e with
  | EFile _ d => if below R l then Z.of_nat (length d) else 0
  | _ => 0
  end.

Definition total_bytes (R : loc) (T : tree) : Z :=
  map_fold (λ l e acc, file_size R l e + acc) 0 T.

(** ** Lemmas on resolution *)

(** What creating directories may do. *)
Definition dirs_added (R : loc) (T T' : tree) : Prop :=
  ∀ k, T' !! k = T !! k ∨ (T !! k = None ∧ (∃ m, T' !! k = Some (EDir m)) ∧ R `prefix_of` k).

Lemma dirs_added_refl R T : dirs_added R T T.
Proof. intros k. by left. Qed.

Lemma dirs_added_trans R T1 T2 T3 : dirs_added R T1 T2 → dirs_added R T2 T3 → dirs_added R T1 T3.
Proof.
  intros H1 H2 k. destruct (H2 k) as [E2|(N2 & [m E2] & P)], (H1 k) as [E1|(N1 & [m' E1] & P')].
  - left. congruence.
  - right. split; [done|]. rewrite E2. eauto.
  - right. rewrite <-E1. eauto.
  - right. eauto.
Qed.

Lemma dirs_added_insert R T l m :
  T !! (R ++ l) = None → dirs_added R T (<[R ++ l := EDir m]> T).
Proof.
  intros Hn k. destruct (decide (k = R ++ l)) as [->|Hne].
  - right. rewrite lookup_insert_eq. split; [done|]. split; [eauto|]. by apply prefix_app_r.
  - left. by rewrite lookup_insert_ne.
Qed.

Lemma walk_eq R mk follow links T d rest :
  walk R mk follow links T d rest =
    match rest with
    | [] => (T, Ok d)
    | c :: rest' =>
        if String.eqb c "." then walk R mk follow links T d rest'
        else if String.eqb c ".." then
          match d with
          | [] => (T, Err errPathEscapes)
          | _ => walk R mk follow links T (removelast d) rest'
          end
        else
          let l := d ++ [c] in
          let last := match rest' with [] => true | _ => false end in
          match T !! (R ++ l) with
          | Some (ELink t) =>
              if last && negb follow then (T, Ok l)
              else if is_abs t then (T, Err errPathEscapes)
              else
                match links with
                | O => (T, Err errLoop)
                | S links' => walk R mk follow links' T d (root_parts t ++ rest')
                end
          | Some (EDir _) => walk R mk follow links T l rest'
          | Some _ => if last then (T, Ok l) else (T, Err errNotDir)
          | None =>
              if last then (T, Ok l)
              else
                match mk with
                | None => (T, Err NotExist)
                | Some m => walk R mk follow links (<[R ++ l := EDir m]> T) l rest'
                end
          end
    end.
Proof. destruct links, rest; reflexivity. Qed.

(** A property of the walk that every step keeps. *)
Lemma walk_inv (P : tree → Prop) R mk follow links T d rest :
  P T →
  (∀ T' l m, P T' → mk = Some m → T' !! (R ++ l) = None → P (<[R ++ l := EDir m]> T')) →
  P (walk R mk follow links T d rest).1.
Proof.
  intros HP Hins. revert T d rest HP. induction links as [|links IHl];
    intros T d rest; revert T d; induction rest as [|c rest IH]; intros T d HP; [done| |done|];
    rewrite walk_eq; cbn zeta; repeat case_match; auto; try (by apply IH, Hins).
Qed.

Lemma resolve_dirs_added R mk follow T p : dirs_added R T (resolve R mk follow T p).1.
Proof.
  unfold resolve. destruct (String.eqb p ""); [apply dirs_added_refl|].
  destruct (is_abs p); [apply dirs_added_refl|]. apply walk_inv; [apply dirs_added_refl|].
  intros T' l m H _ Hn. eapply dirs_added_trans; [exact H|]. by apply dirs_added_insert.
Qed.

(** ** Lemmas on sizes *)

Lemma total_bytes_insert_new R T k e :
  T !! k = None → total_bytes R (<[k := e]> T) = file_size R k e + total_bytes R T.
Proof.
  intros H. unfold total_bytes. rewrite map_fold_insert_L; [done| |done]. intros; lia.
Qed.

Lemma total_bytes_delete R T k e :
  T !! k = Some e → total_bytes R (delete k T) = total_bytes R T - file_size R k e.
Proof.
  intros H. rewrite <-(insert_delete_id T k e) at 2 by done.
  rewrite total_bytes_insert_new by apply lookup_delete_eq. lia.
Qed.

Lemma total_bytes_insert R T k e :
  total_bytes R (<[k := e]> T) =
    file_size R k e + total_bytes R T - default 0 (file_size R k <$> T !! k).
Proof.
  destruct (T !! k) as [e0|] eqn:E; simpl.
  - rewrite <-insert_delete_eq, total_bytes_insert_new by apply lookup_delete_eq.
    rewrite (total_bytes_delete _ _ _ e0 E). lia.
  - rewrite total_bytes_insert_new by done. lia.
Qed.

Lemma file_size_nonneg R l e : 0 ≤ file_size R l e.
Proof. unfold file_size. destruct e; try lia. destruct (below R l); lia. Qed.

Lemma total_bytes_nonneg R T : 0 ≤ total_bytes R T.
Proof.
  induction T as [|k e T Hn IH] using map_ind.
  - unfold total_bytes. by rewrite map_fold_empty.
  - rewrite total_bytes_insert_new by done. pose proof (file_size_nonneg R k e). lia.
Qed.

Lemma total_bytes_dirs R mk follow T p :
  total_bytes R (resolve R mk follow T p).1 = total_bytes R T.
Proof.
  unfold resolve. destruct (String.eqb p ""); [done|]. destruct (is_abs p); [done|].
  apply (walk_inv (λ T', total_bytes R T' = total_bytes R T)); [done|].
  intros T' l m H _ Hn. rewrite total_bytes_insert_new by done. done.
Qed.

(** ** Rules for the calls *)

Definition set_fs_faults (l : list (option fault)) (s : fsys) : fsys :=
  {| fs_tree := fs_tree s; fs_trace := fs_trace s; fs_os := set_faults l (fs_os s) |}.

Lemma wp_fs_next_fault Q s :
  (∀ l f, Q f (set_fs_faults l s)) → wp (with_os next_fault) Q s.
Proof.
  intros H. unfold wp, with_os, zoom. 
  pose proof (wp_next_fault (λ f o, Q f {| fs_tree := fs_tree s; fs_trace := fs_trace s; fs_os := o |})
    (fs_os s)) as Hn. unfold wp in Hn. destruct (next_fault (fs_os s)). apply Hn. intros l g. apply H.
Qed.

Lemma wp_fs_fallible {A} (body : M fsys (result oserr A)) Q s :
  (∀ l m, Q (Err (OsErr m)) (set_fs_faults l s)) →
  (∀ l, wp body Q (set_fs_faults l s)) →
  wp (fs_fallible body) Q s.
Proof.
  intros He Hb. apply wp_bind, wp_fs_next_fault. intros l [f|]; [apply He|apply Hb].
Qed.
