(* ===== verification/FileUpload.v ===== *)
(** * FileUpload: [internal/fileupload], writing one file below the upload root.

    [mode.go] (the mode policy), [config.go], [quota.go] (the size of the root
    and its mutex) and [upload.go] ([Write] and its branches), as programs over
    the file tree of [GoFs]. *)

From S2P Require Import Prelude GoText GoEncoding GoPath GoOs GoFs.
Open Scope Z_scope.
Open Scope go_scope.

(** ** mode.go *)

Inductive uerr :=
| ErrBadMode (msg : string)
| ErrTraversal (p : string)
| ErrExists
| ErrIsDir
| ErrTooLarge
| ErrQuotaExceeded
| UOther (msg : string).

#[export] Instance uerr_eq_dec : EqDecision uerr.
Proof. solve_decision. Defined.

(** [mode &^ 0777] on a [uint32]. *)
Definition and_not (a b : Z) : Z := Z.land a (Z.lnot b).

Definition ParseMode (s : string) : result uerr Z :=
  if String.eqb s "" then Err (ErrBadMode "empty mode string") else
  let (val, err) := parse_int s 8 32 in
  match err with
  | Some e =>
      Err (ErrBadMode ("cannot parse " +:+ fmt_q s +:+ " as octal: strconv.ParseInt: parsing "
                       +:+ fmt_q s +:+ ": " +:+ num_err_msg e))
  | None =>
      if val <? 0 then Err (ErrBadMode ("negative mode " +:+ fmt_q s)) else
      let mode := wrap32u val in
      if negb (and_not mode 511 =? 0) then
        Err (ErrBadMode ("mode " +:+ s +:+ " contains forbidden bits outside 0777 (setuid/setgid/sticky/etc)"))
      else if negb (Z.land mode 2 =? 0) then
        Err (ErrBadMode ("mode " +:+ s +:+ " is world-writable (bit 0002 forbidden)"))
      else Ok mode
  end.

(** ** config.go, upload.go: data *)

Record Config := {
  UploadRoot : loc;
  MaxFileBytes : Z;
  MaxTotalBytes : Z;
  DefaultMode : Z;
  u_DenyRoot : bool;
}.

Record Input := {
  RelPath : string;
  Data : bytes;
  Overwrite : bool;
  Mode : Z;
}.

Record Result := {
  res_RelPath : string;
  res_Size : Z;
  res_Overwritten : bool;
  res_Mode : Z;
}.

Definition data_len (i : Input) : Z := Z.of_nat (length (Data i)).

(** ** quota.go *)

(** The walk sums the regular files below the root in an [int64]; any error on
    the way is returned. *)
Definition currentBytes (R : loc) : M fsys (result oserr Z) :=
  fs_fallible (let! T := gets fs_tree in ret (Ok (wrap64 (total_bytes R T)))).

(** The registered mutex of a root, locked and unlocked. *)
Definition rootMutex (R : loc) : string := "mutex:/" +:+ join "/" R.
Definition mu_lock (mu : string) : M fsys unit :=
  with_os (modify (λ s, set_locks (mu :: os_locks s) s)).
Definition mu_unlock (mu : string) : M fsys unit := with_os (funlock mu).

(** ** upload.go *)

Definition randomTmpName : M fsys string :=
  let! b := with_os (rand_read 8) in ret (".raxd-upload-" +:+ hex_encode b).

Definition uio (what : string) (e : oserr) : uerr := UOther (what +:+ ": " +:+ oserr_msg e).

(** The deferred clean-up of an uncommitted temp file. *)
Definition discard (R : loc) (tmpRel : string) (e : uerr) : M fsys (result uerr Result) :=
  do! h_close in do! root_remove R tmpRel in ret (Err e).

Definition tmp_rel (dir tmpName : string) : string :=
  if negb (String.eqb dir ".") && negb (String.eqb dir "") then dir +:+ "/" +:+ tmpName
  else tmpName.

(** temp, chmod, write, sync, close, rename, fsync of the directory. *)
Definition doWrite (R : loc) (dir : string) (i : Input) (overwritten : bool) :
    M fsys (result uerr Result) :=
  let! tmpName := randomTmpName in
  let tmpRel := tmp_rel dir tmpName in
  let! r := root_create_excl R tmpRel 384 in
  match r with
  | Err e => ret (Err (uio "create temp file" e))
  | Ok h =>
      let! r := h_chmod h (Mode i) in
      match r with
      | Err e => discard R tmpRel (uio "chmod" e)
      | Ok _ =>
      let! r := h_write h (Data i) in
      match r with
      | Err e => discard R tmpRel (uio "write" e)
      | Ok _ =>
      let! r := h_sync in
      match r with
      | Err e => discard R tmpRel (uio "sync" e)
      | Ok _ =>
      let! r := h_close in
      match r with
      | Err e => discard R tmpRel (uio "close" e)
      | Ok _ =>
      let! r := root_rename R tmpRel (RelPath i) in
      match r with
      | Err e => discard R tmpRel (uio "rename" e)
      | Ok _ =>
          do! h_sync in do! h_close in
          ret (Ok {| res_RelPath := RelPath i; res_Size := data_len i;
                     res_Overwritten := overwritten; res_Mode := Mode i |})
      end end end end end
  end.

Definition needs_dir (d : string) : bool := negb (String.eqb d ".") && negb (String.eqb d "").

(** [if dir != "." && dir != "" { root.MkdirAll(dir, 0700) }], then the rest. *)
Definition with_dir (R : loc) (d : string) (k : M fsys (result uerr Result)) :
    M fsys (result uerr Result) :=
  if needs_dir d then
    let! r := root_mkdirall R d 448 in
    match r with
    | Err e => ret (Err (uio "create directories" e))
    | Ok _ => k
    end
  else k.

Definition open_root : M fsys (result oserr unit) := fs_fallible (ret (Ok tt)).

(** With a quota: the target is looked at, the quota computed, then written. *)
Definition writeWithQuota (cfg : Config) (i : Input) : M fsys (result uerr Result) :=
  let R := UploadRoot cfg in
  let! r := open_root in
  match r with
  | Err e => ret (Err (uio "open upload root" e))
  | Ok _ =>
      let d := dir (RelPath i) in
      let! st := root_stat R (RelPath i) in
      let approve (overwritten : bool) (replaced : Z) :=
        let! c := currentBytes R in
        match c with
        | Err e => ret (Err (uio "quota: walk upload root" e))
        | Ok current =>
            if MaxTotalBytes cfg <? wrap64 (wrap64 (current - replaced) + data_len i)
            then ret (Err ErrQuotaExceeded)
            else with_dir R d (doWrite R d i overwritten)
        end in
      match st with
      | Ok fi =>
          if fi_isdir fi then ret (Err ErrIsDir)
          else if negb (Overwrite i) then ret (Err ErrExists)
          else approve true (if fi_regular fi then fi_size fi else 0)
      | Err _ => approve false 0
      end
  end.

(** Without: directories first, then the target is looked at. *)
Definition writeUnderRoot (cfg : Config) (i : Input) : M fsys (result uerr Result) :=
  let R := UploadRoot cfg in
  let! r := open_root in
  match r with
  | Err e => ret (Err (uio "open upload root" e))
  | Ok _ =>
      let d := dir (RelPath i) in
      with_dir R d
        (let! st := root_stat R (RelPath i) in
         match st with
         | Ok fi =>
             if fi_isdir fi then ret (Err ErrIsDir)
             else if negb (Overwrite i) then ret (Err ErrExists)
             else doWrite R d i true
         | Err _ => doWrite R d i false
         end)
  end.

Definition Write (cfg : Config) (i : Input) : M fsys (result uerr Result) :=
  if MaxFileBytes cfg <? data_len i then ret (Err ErrTooLarge) else
  if negb (is_local (RelPath i)) then ret (Err (ErrTraversal (RelPath i))) else
  if MaxTotalBytes cfg =? 0 then writeUnderRoot cfg i
  else
    let mu := rootMutex (UploadRoot cfg) in
    do! mu_lock mu in
    let! r := writeWithQuota cfg i in
    do! mu_unlock mu in
    ret r.
