(* ===== verification/FileUploadProofs.v ===== *)
(** * FileUploadProofs: what an upload can do to the disk.

    Every tree a call of [Write] goes through is the one before with some
    directories added below the root, possibly one temp file, or, at the end,
    the complete new file at the place the path names. *)

From S2P Require Import Prelude GoText GoEncoding GoPath GoOs GoFs FileUpload.
Open Scope Z_scope.
Open Scope go_scope.

(** ** Resolution in slightly different trees *)

(** Following the last component or not. *)
Lemma walk_nofollow R n T d rest l' :
  (walk R None true n T d rest).2 = Ok l' →
  ∃ l, (walk R None false n T d rest).2 = Ok l ∧ (l = l' ∨ ∃ t, T !! (R ++ l) = Some (ELink t)).
Proof.
  revert T d rest. induction n as [|n IHn]; intros T d rest; revert d;
    induction rest as [|c rest IH]; intros d; rewrite (walk_eq _ _ true), (walk_eq _ _ false);
    cbn zeta; try (intros H; simplify_eq/=; by eauto).
  all: repeat case_match; simplify_eq/=; eauto.
Qed.

(** More directories do not change where a path leads. *)
Lemma walk_more_dirs R f n T T' d rest l :
  dirs_added R T T' → (walk R None f n T d rest).2 = Ok l → (walk R None f n T' d rest).2 = Ok l.
Proof.
  intros Hadd. revert d rest. induction n as [|n IHn]; intros d rest; revert d;
    induction rest as [|c rest IH]; intros d; rewrite (walk_eq _ _ _ _ T), (walk_eq _ _ _ _ T');
    cbn zeta; try done.
  all: destruct (String.eqb c "."); [by apply IH|].
  all: destruct (String.eqb c ".."); [destruct d; [done|by apply IH]|].
  all: destruct (Hadd (R ++ d ++ [c])) as [->|(-> & [m ->] & _)];
    [|destruct rest; [by rewrite walk_eq|done]].
  all: destruct (T !! (R ++ d ++ [c])) as [[]|]; try (by destruct rest); [by apply IH|].
  all: destruct (_ && _); [done|]; destruct (is_abs target); [done|]; try done; by apply IHn.
Qed.

(** A new file is met at the end of a successful walk only. *)
Lemma walk_new_file R f n T h m b d rest l :
  T !! h = None → (walk R None f n (<[h := EFile m b]> T) d rest).2 = Ok l →
  (walk R None f n T d rest).2 = Ok l.
Proof.
  intros Hn. revert d rest. induction n as [|n IHn]; intros d rest; revert d;
    induction rest as [|c rest IH]; intros d;
    rewrite (walk_eq _ _ _ _ T), (walk_eq _ _ _ _ (<[h := EFile m b]> T)); cbn zeta; try done.
  all: destruct (String.eqb c "."); [by apply IH|].
  all: destruct (String.eqb c ".."); [destruct d; [done|by apply IH]|].
  all: destruct (decide (h = R ++ d ++ [c])) as [->|Hne];
    [rewrite lookup_insert_eq, Hn; by destruct rest|rewrite lookup_insert_ne by done].
  all: destruct (T !! (R ++ d ++ [c])) as [[]|]; try (by destruct rest); [by apply IH|].
  all: destruct (_ && _); [done|]; destruct (is_abs target); [done|]; try done; by apply IHn.
Qed.

Lemma walk_with_file R f n T h m b d rest l :
  T !! h = None → (walk R None f n T d rest).2 = Ok l →
  (walk R None f n (<[h := EFile m b]> T) d rest).2 = Ok l.
Proof.
  intros Hn. revert d rest. induction n as [|n IHn]; intros d rest; revert d;
    induction rest as [|c rest IH]; intros d;
    rewrite (walk_eq _ _ _ _ T), (walk_eq _ _ _ _ (<[h := EFile m b]> T)); cbn zeta; try done.
  all: destruct (String.eqb c "."); [by apply IH|].
  all: destruct (String.eqb c ".."); [destruct d; [done|by apply IH]|].
  all: destruct (decide (h = R ++ d ++ [c])) as [->|Hne];
    [rewrite lookup_insert_eq, Hn; by destruct rest|rewrite lookup_insert_ne by done].
  all: destruct (T !! (R ++ d ++ [c])) as [[]|]; try (by destruct rest); [by apply IH|].
  all: destruct (_ && _); [done|]; destruct (is_abs target); [done|]; try done; by apply IHn.
Qed.

Lemma resolve_pure R f T p : (resolve R None f T p).1 = T.
Proof.
  unfold resolve. destruct (String.eqb p ""); [done|]. destruct (is_abs p); [done|].
  by apply (walk_inv (λ T', T' = T)).
Qed.

Lemma resolve_nofollow R T p l' :
  (resolve R None true T p).2 = Ok l' →
  ∃ l, (resolve R None false T p).2 = Ok l ∧ (l = l' ∨ ∃ t, T !! (R ++ l) = Some (ELink t)).
Proof.
  unfold resolve. destruct (String.eqb p ""); [done|]. destruct (is_abs p); [done|].
  apply walk_nofollow.
Qed.

Lemma resolve_more_dirs R f T T' p l :
  dirs_added R T T' → (resolve R None f T p).2 = Ok l → (resolve R None f T' p).2 = Ok l.
Proof.
  unfold resolve. intros H. destruct (String.eqb p ""); [done|]. destruct (is_abs p); [done|].
  by apply walk_more_dirs.
Qed.

Lemma resolve_new_file R f T h m b p l :
  T !! h = None → (resolve R None f (<[h := EFile m b]> T) p).2 = Ok l →
  (resolve R None f T p).2 = Ok l.
Proof.
  unfold resolve. intros H. destruct (String.eqb p ""); [done|]. destruct (is_abs p); [done|].
  by apply walk_new_file.
Qed.

Lemma resolve_with_file R f T h m b p l :
  T !! h = None → (resolve R None f T p).2 = Ok l →
  (resolve R None f (<[h := EFile m b]> T) p).2 = Ok l.
Proof.
  unfold resolve. intros H. destruct (String.eqb p ""); [done|]. destruct (is_abs p); [done|].
  by apply walk_with_file.
Qed.

Lemma lookup_loc_ne R T l : l ≠ [] → lookup_loc R T l = T !! (R ++ l).
Proof. by destruct l. Qed.

(** ** The trees of an upload *)

Section upload.
Variables (R : loc) (i : Input) (s0 : fsys).
Let T0 := fs_tree s0.

Inductive upload_tree : tree → Prop :=
| UT_dirs T : dirs_added R T0 T → upload_tree T
| UT_temp T h m k : dirs_added R T0 T → T !! h = None → R `prefix_of` h →
    m = 384 ∨ m = Mode i → upload_tree (<[h := EFile m (take k (Data i))]> T)
| UT_done T l : dirs_added R T0 T → (resolve R None false T (RelPath i)).2 = Ok l → l ≠ [] →
    upload_tree (<[R ++ l := EFile (Mode i) (Data i)]> T).

(** Only such trees since [s0], and no lock taken or dropped. *)
Definition uframe (s : fsys) : Prop :=
  os_locks (fs_os s) = os_locks (fs_os s0) ∧
  ∃ ds, fs_trace s = ds ++ fs_trace s0 ∧ Forall upload_tree ds.

Definition at_dirs (T : tree) (s : fsys) : Prop :=
  fs_tree s = T ∧ dirs_added R T0 T ∧ uframe s.
Definition at_tmp (T : tree) (h : loc) (m : Z) (k : nat) (s : fsys) : Prop :=
  fs_tree s = <[h := EFile m (take k (Data i))]> T ∧ dirs_added R T0 T ∧ T !! h = None
  ∧ R `prefix_of` h ∧ (m = 384 ∨ m = Mode i) ∧ uframe s.
Definition at_done (T : tree) (l : loc) (s : fsys) : Prop :=
  fs_tree s = <[R ++ l := EFile (Mode i) (Data i)]> T ∧ dirs_added R T0 T
  ∧ (resolve R None false T (RelPath i)).2 = Ok l ∧ l ≠ [] ∧ uframe s.

Lemma uframe_faults l s : uframe s → uframe (set_fs_faults l s).
Proof. done. Qed.

Lemma uframe_step T s : upload_tree (fs_tree s) → uframe s → uframe (set_tree T s).
Proof.
  intros Ht (Hl & ds & Hd & HF). split; [done|]. exists (fs_tree s :: ds). simpl.
  rewrite Hd. split; [done|]. by constructor.
Qed.

Lemma at_dirs_tree T s : at_dirs T s → upload_tree (fs_tree s).
Proof. intros (-> & H & _). by constructor. Qed.
Lemma at_tmp_tree T h m k s : at_tmp T h m k s → upload_tree (fs_tree s).
Proof. intros (-> & H1 & H2 & H3 & H4 & _). by constructor. Qed.
Lemma at_done_tree T l s : at_done T l s → upload_tree (fs_tree s).
Proof. intros (-> & H1 & H2 & H3 & _). by constructor. Qed.

(** *** Calls on the temp file *)

Lemma at_tmp_lookup T h m k s :
  at_tmp T h m k s → fs_tree s !! h = Some (EFile m (take k (Data i))).
Proof. intros (-> & _). apply lookup_insert_eq. Qed.

Lemma at_tmp_set T h m k m' k' fl s :
  at_tmp T h m k s → m' = 384 ∨ m' = Mode i →
  at_tmp T h m' k'
    (set_tree (<[h := EFile m' (take k' (Data i))]> (fs_tree s)) (set_fs_faults fl s)).
Proof.
  intros H Hm. pose proof H as (Hf & Ha & Hn & Hp & _ & Hfr). split_and!; try done.
  - simpl. rewrite Hf. apply insert_insert_eq.
  - apply uframe_step; [|done]. by eapply at_tmp_tree.
Qed.

Lemma wp_update_at h f m d Q s :
  fs_tree s !! h = Some (EFile m d) → Q tt (set_tree (<[h := f m d]> (fs_tree s)) s) →
  wp (update_at h f) Q s.
Proof. unfold wp, update_at. intros ->. done. Qed.

Lemma at_tmp_chmod T h m k s :
  at_tmp T h m k s →
  wp (h_chmod h (Mode i)) (λ r s', match r with
    | Ok _ => at_tmp T h (Mode i) k s' | Err _ => at_tmp T h m k s' end) s.
Proof.
  intros H. apply wp_fs_fallible; [done|]. intros l.
  apply wp_bind. eapply wp_update_at; [exact (at_tmp_lookup _ _ _ _ _ H)|].
  exact (at_tmp_set T h m k (Mode i) k l s H (or_intror eq_refl)).
Qed.

Lemma at_tmp_write T h m s :
  at_tmp T h m 0 s →
  wp (h_write h (Data i)) (λ r s', match r with
    | Ok _ => at_tmp T h m (length (Data i)) s' | Err _ => ∃ k, at_tmp T h m k s' end) s.
Proof.
  intros H. pose proof H as (_ & _ & _ & _ & Hm & _).
  apply wp_bind, wp_fs_next_fault. intros l [f|]; apply wp_bind;
    (eapply wp_update_at; [exact (at_tmp_lookup _ _ _ _ _ H)|]); apply wp_ret.
  - exists (fault_written f). exact (at_tmp_set T h m 0 m (fault_written f) l s H Hm).
  - pose proof (at_tmp_set T h m 0 m (length (Data i)) l s H Hm) as Hw.
    by rewrite firstn_all in Hw.
Qed.

Lemma at_tmp_sync T h m k s : at_tmp T h m k s → wp h_sync (λ _ s', at_tmp T h m k s') s.
Proof. intros H. by apply wp_fs_fallible. Qed.
Lemma at_tmp_close T h m k s : at_tmp T h m k s → wp h_close (λ _ s', at_tmp T h m k s') s.
Proof. intros H. by apply wp_fs_fallible. Qed.

(** The end of a failed upload: no temp file, or one that could not be removed. *)
Definition failed (s : fsys) : Prop :=
  ∃ T, at_dirs T s ∨ ∃ h m k, at_tmp T h m k s.

Lemma failed_dirs T s : at_dirs T s → failed s.
Proof. intros H. exists T. by left. Qed.
Lemma failed_tmp T h m k s : at_tmp T h m k s → failed s.
Proof. intros H. exists T. right. eauto. Qed.

(** *** The whole write *)

Lemma at_dirs_create T p s :
  at_dirs T s →
  wp (root_create_excl R p 384) (λ r s', match r with
    | Ok h => ∃ l, h = R ++ l ∧ l ≠ [] ∧ (resolve R None false T p).2 = Ok l ∧ at_tmp T h 384 0 s'
    | Err _ => at_dirs T s'
    end) s.
Proof.
  intros H. pose proof H as (Hf & Ha & Hfr). apply wp_fs_fallible; [done|]. intros fl.
  apply wp_bind, wp_gets. simpl. rewrite Hf.
  destruct (resolve R None false T p).2 as [l|e] eqn:E; [|by apply wp_ret].
  destruct (has_trailing_slash p); [by apply wp_ret|].
  destruct (lookup_loc R T l) as [x|] eqn:El; [by apply wp_ret|].
  assert (l ≠ []) as Hl by (by intros ->). rewrite lookup_loc_ne in El by done.
  apply wp_bind, wp_modify, wp_ret. exists l. split_and!; [done..|].
  split_and!; simpl; [by rewrite take_0|done|done|by apply prefix_app_r|by left|].
  apply uframe_step; [|done]. by eapply at_dirs_tree.
Qed.

Section tmp.
Variables (T : tree) (tmpRel : string) (lt : loc).
Hypotheses (Hlt : lt ≠ []) (Hres : (resolve R None false T tmpRel).2 = Ok lt).

Lemma at_tmp_resolve m k s :
  at_tmp T (R ++ lt) m k s → (resolve R None false (fs_tree s) tmpRel).2 = Ok lt.
Proof. intros (-> & _ & Hn & _). by apply resolve_with_file. Qed.

Lemma at_tmp_remove m k s :
  at_tmp T (R ++ lt) m k s → wp (root_remove R tmpRel) (λ _ s', failed s') s.
Proof.
  intros H. pose proof H as (Hf & Ha & Hn & _ & _ & Hfr). apply wp_fs_fallible.
  { intros. exact (failed_tmp _ _ _ _ _ H). }
  intros fl. apply wp_bind, wp_gets. change (fs_tree (set_fs_faults fl s)) with (fs_tree s).
  rewrite (at_tmp_resolve m k _ H).
  rewrite lookup_loc_ne by done. rewrite (at_tmp_lookup _ _ _ _ _ H).
  apply wp_bind, wp_modify, wp_ret. exists T. left. split_and!; [|done|].
  - simpl. rewrite Hf, delete_insert_eq. by apply delete_id.
  - apply uframe_step; [|done]. exact (at_tmp_tree _ _ _ _ _ H).
Qed.

Lemma discard_spec e m k s :
  at_tmp T (R ++ lt) m k s → wp (discard R tmpRel e) (λ r s', r = Err e ∧ failed s') s.
Proof.
  intros H. wp_call at_tmp_close. intros ? s1 H1. wp_call at_tmp_remove. intros ? s2 H2.
  by apply wp_ret.
Qed.

Lemma at_tmp_rename s :
  at_tmp T (R ++ lt) (Mode i) (length (Data i)) s →
  wp (root_rename R tmpRel (RelPath i)) (λ r s', match r with
    | Ok _ => ∃ l, at_done T l s'
    | Err _ => at_tmp T (R ++ lt) (Mode i) (length (Data i)) s' end) s.
Proof.
  intros H. pose proof H as (Hf & Ha & Hn & _ & _ & Hfr). apply wp_fs_fallible; [done|].
  intros fl. apply wp_bind, wp_gets. change (fs_tree (set_fs_faults fl s)) with (fs_tree s).
  rewrite (at_tmp_resolve _ _ _ H).
  rewrite (lookup_loc_ne _ _ lt) by done. rewrite (at_tmp_lookup _ _ _ _ _ H), firstn_all.
  destruct (resolve R None false (fs_tree s) (RelPath i)).2 as [l|e] eqn:E; [|by apply wp_ret].
  destruct (decide (l = [])) as [->|Hl]; [by apply wp_ret|]. rewrite lookup_loc_ne by done.
  assert (∀ x : unit, wp (if has_trailing_slash (RelPath i) then ret (Err (A:=unit) errNotDir)
                   else do! modify (set_tree (<[R ++ l := EFile (Mode i) (Data i)]>
                               (delete (R ++ lt) (fs_tree s)))) in ret (Ok x))
    (λ r s', match r with
      | Ok _ => ∃ l, at_done T l s'
      | Err _ => at_tmp T (R ++ lt) (Mode i) (length (Data i)) s' end) (set_fs_faults fl s)) as Hren.
  { intros x. destruct (has_trailing_slash (RelPath i)); [by apply wp_ret|].
    apply wp_bind, wp_modify, wp_ret. exists l. rewrite Hf in E. split_and!; [|done|by eapply resolve_new_file|done|].
    - simpl. rewrite Hf, delete_insert_eq. by rewrite delete_id.
    - apply uframe_step; [|done]. exact (at_tmp_tree _ _ _ _ _ H). }
  destruct (fs_tree s !! (R ++ l)) as [[]|]; try apply Hren. by apply wp_ret.
Qed.
End tmp.

Definition write_res (ow : bool) : Result :=
  {| res_RelPath := RelPath i; res_Size := data_len i; res_Overwritten := ow; res_Mode := Mode i |}.

Definition write_post (ow : bool) (T : tree) (r : result uerr Result) (s : fsys) : Prop :=
  match r with
  | Ok res => res = write_res ow ∧ ∃ l, at_done T l s
  | Err e => (∃ m, e = UOther m) ∧ failed s
  end.

Lemma uframe_rpos n s : uframe s →
  uframe {| fs_tree := fs_tree s; fs_trace := fs_trace s; fs_os := set_rpos n (fs_os s) |}.
Proof. done. Qed.

Lemma doWrite_spec d ow T s : at_dirs T s → wp (doWrite R d i ow) (write_post ow T) s.
Proof.
  intros H. apply wp_bind, wp_bind. unfold wp at 1, with_os, zoom, rand_read. simpl.
  apply wp_ret.
  match goal with |- context [tmp_rel d ?n] => set (tmpRel := tmp_rel d n) end.
  match goal with |- wp _ _ ?s1 => assert (at_dirs T s1) as H0 by exact H; generalize dependent s1 end.
  intros s1 H1. wp_call at_dirs_create. intros [h|e] s2 H2; [|apply wp_ret; split; [unfold uio; eauto|by eapply failed_dirs]].
  destruct H2 as (lt & -> & Hlt & Hres & H2).
  assert (∀ what e m k s3, at_tmp T (R ++ lt) m k s3 →
    wp (discard R tmpRel (uio what e)) (write_post ow T) s3) as Hdis.
  { intros what e m k s3 H3. eapply wp_mono; [by eapply discard_spec|].
    intros r s4 [-> H4]. split; [unfold uio; eauto|done]. }
  wp_call at_tmp_chmod. intros [[]|e] s3 H3; [|by eapply Hdis].
  wp_call at_tmp_write. intros [[]|e] s4 H4; [|destruct H4 as [k H4]; by eapply Hdis].
  wp_call at_tmp_sync. intros [[]|e] s5 H5; [|by eapply Hdis].
  wp_call at_tmp_close. intros [[]|e] s6 H6; [|by eapply Hdis].
  wp_call at_tmp_rename. intros [[]|e] s7 H7; [|by eapply Hdis].
  destruct H7 as [l H7]. apply wp_bind, wp_fs_fallible; intros; apply wp_bind, wp_fs_fallible; intros;
    apply wp_ret; (split; [done|]); exists l; exact H7.
Qed.

Lemma with_dir_spec (P : result uerr Result → fsys → Prop) d k s :
  at_dirs T0 s →
  (∀ r s', (∃ m, r = Err (UOther m)) → failed s' → P r s') →
  (∀ T s', at_dirs T s' → wp k P s') →
  wp (with_dir R d k) P s.
Proof.
  intros H He Hk. pose proof H as (Hf & Ha & Hfr). unfold with_dir.
  destruct (needs_dir d); [|by eapply Hk].
  apply wp_bind, wp_fs_fallible.
  { intros l m. apply wp_ret, He; [unfold uio; eauto|]. exact (failed_dirs _ _ H). }
  intros l. apply wp_bind, wp_gets. simpl. rewrite Hf.
  pose proof (resolve_dirs_added R (Some 448) true T0 d) as Hadd.
  destruct (resolve R (Some 448) true T0 d) as [T' r] eqn:E. simpl in Hadd.
  assert (∀ T1, dirs_added R T0 T1 → at_dirs T1 (set_tree T1 (set_fs_faults l s))) as Hset.
  { intros T1 H1. split_and!; [done..|]. apply uframe_step; [|done]. exact (at_dirs_tree _ _ H). }
  assert (∀ e T1, dirs_added R T0 T1 → wp (ret (Err (A:=Result) (uio "create directories" e))) P
    (set_tree T1 (set_fs_faults l s))) as Herr.
  { intros e T1 H1. apply wp_ret, He; [unfold uio; eauto|]. by eapply failed_dirs, Hset. }
  destruct r as [lc|e]; [|apply wp_bind, wp_modify, wp_ret, Herr, Hadd].
  destruct (lookup_loc R T' lc) as [x|] eqn:El.
  - destruct x; apply wp_bind, wp_modify, wp_ret; try (apply Herr, Hadd). by eapply Hk, Hset.
  - apply wp_bind, wp_modify, wp_ret. eapply Hk, Hset, dirs_added_trans; [exact Hadd|].
    apply dirs_added_insert. rewrite lookup_loc_ne in El; [done|]. by intros ->.
Qed.
End upload.
#[export] Hint Resolve failed_dirs failed_tmp : go.
