(* ===== verification/FileUploadTheorems.v ===== *)
(** * FileUploadTheorems: the guarantees of an upload. *)

From S2P Require Import Prelude GoText GoEncoding GoPath GoOs GoFs FileUpload FileUploadProofs.
Open Scope Z_scope.
Open Scope go_scope.

(** ** The branches of [Write] *)

(** What a branch leaves: the new file in place, or an error and every file as
    it was (directories and a temp file may have been added). *)
Definition branch_post (R : loc) (i : Input) (s : fsys) (r : result uerr Result) (s' : fsys) : Prop :=
  match r with
  | Ok res => ∃ ow T l, res = write_res i ow ∧ at_done R i s T l s'
  | Err _ => failed R i s s'
  end.

(** Nothing has been written yet. *)
Lemma at_dirs_same R i s s1 :
  fs_tree s1 = fs_tree s → fs_trace s1 = fs_trace s → os_locks (fs_os s1) = os_locks (fs_os s) →
  at_dirs R i s (fs_tree s) s1.
Proof.
  intros Ht Htr Hl. split_and!; [done|apply dirs_added_refl|]. split; [done|]. by exists [].
Qed.

Lemma failed_same R i s s1 :
  fs_tree s1 = fs_tree s → fs_trace s1 = fs_trace s → os_locks (fs_os s1) = os_locks (fs_os s) →
  failed R i s s1.
Proof. intros. by apply failed_dirs with (fs_tree s), at_dirs_same. Qed.

Lemma write_branch R i s ow T r s' : write_post R i s ow T r s' → branch_post R i s r s'.
Proof. destruct r as [res|e]; [intros [-> [l H]]; by exists ow, T, l|by intros [_ H]]. Qed.

Lemma doWrite_branch R d i s ow T s1 :
  at_dirs R i s T s1 → wp (doWrite R d i ow) (branch_post R i s) s1.
Proof.
  intros H. eapply wp_mono; [by apply (doWrite_spec R i s d ow T)|]. intros r s'. apply write_branch.
Qed.

Lemma wp_root_stat R p Q s :
  (∀ l r, Q r (set_fs_faults l s)) → wp (root_stat R p) Q s.
Proof.
  intros H. apply wp_fs_fallible; [by intros; apply H|]. intros l. apply wp_bind, wp_gets.
  repeat case_match; apply wp_ret, H.
Qed.

Lemma at_dirs_faults R i s T l s1 : at_dirs R i s T s1 → at_dirs R i s T (set_fs_faults l s1).
Proof. done. Qed.

Lemma writeUnderRoot_spec cfg i s :
  wp (writeUnderRoot cfg i) (branch_post (UploadRoot cfg) i s) s.
Proof.
  apply wp_bind, wp_fs_fallible; intros l; [intros; apply wp_ret; by apply failed_same|].
  apply wp_ret, (with_dir_spec _ i s); [by apply at_dirs_same|by intros r s' [m ->]|].
  intros T s1 H1. apply wp_bind, wp_root_stat. intros l1 st.
  destruct st as [fi|e]; [|by eapply doWrite_branch, at_dirs_faults].
  destruct (fi_isdir fi); [apply wp_ret; by eapply failed_dirs, at_dirs_faults|].
  destruct (Overwrite i); simpl; [by eapply doWrite_branch, at_dirs_faults|].
  apply wp_ret. by eapply failed_dirs, at_dirs_faults.
Qed.

Lemma writeWithQuota_spec cfg i s :
  wp (writeWithQuota cfg i) (branch_post (UploadRoot cfg) i s) s.
Proof.
  apply wp_bind, wp_fs_fallible; intros l; [intros; apply wp_ret; by apply failed_same|].
  apply wp_ret, wp_bind, wp_root_stat. intros l1 st.
  assert (∀ ow rp, wp (let! c := currentBytes (UploadRoot cfg) in
        match c with
        | Err e => ret (Err (uio "quota: walk upload root" e))
        | Ok current =>
            if MaxTotalBytes cfg <? wrap64 (wrap64 (current - rp) + data_len i)
            then ret (Err ErrQuotaExceeded)
            else with_dir (UploadRoot cfg) (dir (RelPath i))
                   (doWrite (UploadRoot cfg) (dir (RelPath i)) i ow)
        end) (branch_post (UploadRoot cfg) i s) (set_fs_faults l1 (set_fs_faults l s))) as Happ.
  { intros ow rp. apply wp_bind, wp_fs_fallible; intros l2;
      [intros; apply wp_ret; by apply failed_same|].
    apply wp_bind, wp_gets, wp_ret. destruct (_ <? _); [apply wp_ret; by apply failed_same|].
    apply (with_dir_spec _ i s); [by apply at_dirs_same|by intros r s' [m ->]|].
    intros T s1 H1. by eapply doWrite_branch. }
  destruct st as [fi|e]; [|apply Happ].
  destruct (fi_isdir fi); [apply wp_ret; by apply failed_same|].
  destruct (Overwrite i); [apply Happ|apply wp_ret; by apply failed_same].
Qed.

(** The locks of the machine, set aside. *)
Definition relock (l : list string) (s : fsys) : fsys :=
  {| fs_tree := fs_tree s; fs_trace := fs_trace s; fs_os := set_locks l (fs_os s) |}.

Definition outcome (cfg : Config) (i : Input) (s : fsys) (r : result uerr Result) (s' : fsys) : Prop :=
  os_locks (fs_os s') = os_locks (fs_os s)
  ∧ (∃ ds, fs_trace s' = ds ++ fs_trace s
      ∧ Forall (upload_tree (UploadRoot cfg) i s) (fs_tree s' :: ds))
  ∧ match r with
    | Ok res => ∃ ow T l, res = write_res i ow
        ∧ dirs_added (UploadRoot cfg) (fs_tree s) T
        ∧ (resolve (UploadRoot cfg) None false T (RelPath i)).2 = Ok l
        ∧ fs_tree s' = <[UploadRoot cfg ++ l := EFile (Mode i) (Data i)]> T
    | Err _ => ∃ T, dirs_added (UploadRoot cfg) (fs_tree s) T
        ∧ (fs_tree s' = T ∨ ∃ h m k, T !! h = None ∧ UploadRoot cfg `prefix_of` h
             ∧ (m = 384 ∨ m = Mode i) ∧ fs_tree s' = <[h := EFile m (take k (Data i))]> T)
    end.

Lemma branch_outcome cfg i s r s' :
  branch_post (UploadRoot cfg) i s r s' → outcome cfg i s r s'.
Proof.
  destruct r as [res|e]; simpl.
  - intros (ow & T & l & -> & H). pose proof (at_done_tree _ _ _ _ _ _ H) as Ht.
    destruct H as (Hf & Ha & Hr & Hl & Hlk & ds & Hds & HF). split_and!; [done| |eauto 10].
    exists ds. split; [done|]. by constructor.
  - intros (T & [H|(h & m & k & H)]).
    + pose proof (at_dirs_tree _ _ _ _ _ H) as Ht. destruct H as (Hf & Ha & Hlk & ds & Hds & HF).
      split_and!; [done| |]; [exists ds; split; [done|]; by constructor|].
      exists T. split; [done|]. by left.
    + pose proof (at_tmp_tree _ _ _ _ _ _ _ _ H) as Ht.
      destruct H as (Hf & Ha & Hn & Hp & Hm & Hlk & ds & Hds & HF).
      split_and!; [done| |]; [exists ds; split; [done|]; by constructor|].
      exists T. split; [done|]. right. eauto 10.
Qed.

Lemma upload_tree_relock R i l s T : upload_tree R i (relock l s) T → upload_tree R i s T.
Proof. destruct 1; [by apply UT_dirs|by apply UT_temp|by apply UT_done]. Qed.

Lemma Write_spec cfg i s : wp (Write cfg i) (outcome cfg i s) s.
Proof.
  unfold Write.
  assert (∀ e, wp (ret (Err e)) (outcome cfg i s) s) as Herr.
  { intros e. apply wp_ret, branch_outcome. by apply failed_same. }
  destruct (_ <? _); [apply Herr|]. destruct (is_local (RelPath i)); [|apply Herr]. simpl.
  destruct (MaxTotalBytes cfg =? 0).
  { eapply wp_mono; [apply writeUnderRoot_spec|]. intros r s'. apply branch_outcome. }
  set (mu := rootMutex (UploadRoot cfg)).
  apply wp_bind. unfold wp at 1. simpl. apply wp_bind.
  eapply wp_mono; [apply (writeWithQuota_spec cfg i (relock (mu :: os_locks (fs_os s)) s))|].
  intros r s' H. apply branch_outcome in H. destruct H as (Hl & (ds & Hds & HF) & Hr).
  apply wp_bind. unfold wp at 1. simpl. apply wp_ret. split_and!.
  - simpl. rewrite Hl. simpl. by rewrite String.eqb_refl.
  - exists ds. split; [done|]. eapply Forall_impl; [exact HF|]. intros T. apply upload_tree_relock.
  - exact Hr.
Qed.

(** ** Sizes *)

Definition is_file (e : entry) : Prop := match e with EFile _ _ => True | _ => False end.
#[export] Instance is_file_dec e : Decision (is_file e).
Proof. destruct e; apply _. Defined.

(** Only the files count. *)
Lemma total_bytes_files R T :
  total_bytes R (filter (λ p : loc * entry, is_file p.2) T) = total_bytes R T.
Proof.
  induction T as [|k e T Hn IH] using map_ind; [by rewrite map_filter_empty|].
  rewrite (total_bytes_insert_new R T) by done. destruct (decide (is_file e)) as [He|He].
  - rewrite map_filter_insert_True by done. rewrite total_bytes_insert_new, IH; [done|].
    apply map_lookup_filter_None. by left.
  - rewrite map_filter_insert_False by done. rewrite delete_id by done. rewrite IH.
    destruct e; simpl; try lia. by destruct He.
Qed.

Lemma total_bytes_dirs_added R T T' : dirs_added R T T' → total_bytes R T' = total_bytes R T.
Proof.
  intros H. rewrite <-(total_bytes_files R T), <-(total_bytes_files R T'). f_equal.
  apply map_eq. intros k. apply option_eq. intros e. rewrite !map_lookup_filter_Some. simpl.
  destruct (H k) as [->|(Hn & [m Hm] & _)]; [done|]. rewrite Hn, Hm.
  split; [intros [[= <-] []]|by intros [? _]].
Qed.

Lemma file_size_le_total R T k e : T !! k = Some e → file_size R k e ≤ total_bytes R T.
Proof.
  intros H. pose proof (total_bytes_delete R T k e H). pose proof (total_bytes_nonneg R (delete k T)). lia.
Qed.

Lemma below_app R l : below R (R ++ l) = true.
Proof. apply bool_decide_eq_true_2. by apply prefix_app_r. Qed.

Lemma at_done_total R i s T l s' :
  at_done R i s T l s' →
  total_bytes R (fs_tree s') =
    data_len i + total_bytes R (fs_tree s) - default 0 (file_size R (R ++ l) <$> T !! (R ++ l)).
Proof.
  intros (-> & Ha & _). rewrite total_bytes_insert, (total_bytes_dirs_added _ _ _ Ha).
  simpl. rewrite below_app. done.
Qed.

(** What a successful stat says. *)
Lemma wp_root_stat_info R p Q s :
  (∀ l e, Q (Err e) (set_fs_faults l s)) →
  (∀ l k e, (resolve R None true (fs_tree s) p).2 = Ok k → lookup_loc R (fs_tree s) k = Some e →
     Q (Ok (info_of e)) (set_fs_faults l s)) →
  wp (root_stat R p) Q s.
Proof.
  intros He Hok. apply wp_fs_fallible; [by intros; apply He|]. intros l. apply wp_bind, wp_gets.
  change (fs_tree (set_fs_faults l s)) with (fs_tree s).
  destruct (resolve R None true (fs_tree s) p).2 as [k|e] eqn:E; [|apply wp_ret, He].
  destruct (lookup_loc R (fs_tree s) k) as [e|] eqn:El; [|apply wp_ret, He].
  destruct (_ && _); apply wp_ret; [apply He|by eapply Hok].
Qed.

(** The place that is written holds at least the bytes counted as replaced. *)
Definition replaced_ok (cfg : Config) (i : Input) (s : fsys) (rp : Z) : Prop :=
  let R := UploadRoot cfg in
  0 ≤ rp ≤ total_bytes R (fs_tree s) ∧
  ∀ T l, dirs_added R (fs_tree s) T → (resolve R None false T (RelPath i)).2 = Ok l →
    rp ≤ default 0 (file_size R (R ++ l) <$> T !! (R ++ l)).

Lemma replaced_ok_zero cfg i s : replaced_ok cfg i s 0.
Proof.
  split; [pose proof (total_bytes_nonneg (UploadRoot cfg) (fs_tree s)); lia|].
  intros T l _ _. destruct (T !! _) as [e|]; simpl; [apply file_size_nonneg|lia].
Qed.

Definition no_link_target (cfg : Config) (i : Input) (s : fsys) : Prop :=
  ∀ l t, (resolve (UploadRoot cfg) None false (fs_tree s) (RelPath i)).2 = Ok l →
         fs_tree s !! (UploadRoot cfg ++ l) ≠ Some (ELink t).

Lemma replaced_ok_stat cfg i s k e :
  no_link_target cfg i s →
  (resolve (UploadRoot cfg) None true (fs_tree s) (RelPath i)).2 = Ok k →
  lookup_loc (UploadRoot cfg) (fs_tree s) k = Some e →
  replaced_ok cfg i s (if fi_regular (info_of e) then fi_size (info_of e) else 0).
Proof.
  intros Hnl Hres He. destruct e as [m d|m|t|]; try apply replaced_ok_zero.
  set (R := UploadRoot cfg) in *.
  destruct (resolve_nofollow _ _ _ _ Hres) as (l & Hl & [->|[t Ht]]); [|by destruct (Hnl l t Hl)].
  assert (k ≠ []) as Hk by (by intros ->). rewrite lookup_loc_ne in He by done.
  assert (file_size R (R ++ k) (EFile m d) = Z.of_nat (length d)) as Hsz
    by (unfold file_size; by rewrite below_app). split; fold R.
  - pose proof (file_size_le_total R _ _ _ He) as Hle. rewrite Hsz in Hle. simpl. lia.
  - intros T l' Ha Hl'. rewrite (resolve_more_dirs _ _ _ _ _ _ Ha Hl) in Hl'. injection Hl' as <-.
    destruct (Ha (R ++ k)) as [->|(Hn & _)]; [|congruence]. rewrite He. simpl. rewrite below_app. lia.
Qed.

Lemma quota_room total rp len max :
  0 ≤ rp ≤ total → 0 ≤ len → total + len ≤ max_int64 →
  (max <? wrap64 (wrap64 (wrap64 total - rp) + len)) = false → total - rp + len ≤ max.
Proof.
  intros H1 H2 H3. rewrite (wrap64_id total), (wrap64_id (total - rp)), wrap64_id;
    [intros; by apply Z.ltb_ge|unfold int64_range, min_int64, max_int64 in *; lia..].
Qed.

Lemma writeWithQuota_total cfg i s :
  total_bytes (UploadRoot cfg) (fs_tree s) + data_len i ≤ max_int64 →
  no_link_target cfg i s →
  wp (writeWithQuota cfg i) (λ r s', ∀ res, r = Ok res →
    total_bytes (UploadRoot cfg) (fs_tree s') ≤ MaxTotalBytes cfg) s.
Proof.
  intros Hmax Hnl. apply wp_bind, wp_fs_fallible; intros l; [by intros; apply wp_ret|].
  apply wp_ret, wp_bind.
  assert (∀ l1 ow rp, replaced_ok cfg i s rp → wp (let! c := currentBytes (UploadRoot cfg) in
        match c with
        | Err e => ret (Err (uio "quota: walk upload root" e))
        | Ok current =>
            if MaxTotalBytes cfg <? wrap64 (wrap64 (current - rp) + data_len i)
            then ret (Err ErrQuotaExceeded)
            else with_dir (UploadRoot cfg) (dir (RelPath i))
                   (doWrite (UploadRoot cfg) (dir (RelPath i)) i ow)
        end) (λ r s', ∀ res, r = Ok res → total_bytes (UploadRoot cfg) (fs_tree s') ≤ MaxTotalBytes cfg)
        (set_fs_faults l1 (set_fs_faults l s))) as Happ.
  { intros l1 ow rp [Hrp Hold]. apply wp_bind, wp_fs_fallible; intros l2; [by intros; apply wp_ret|].
    apply wp_bind, wp_gets, wp_ret. destruct (_ <? _) eqn:Hq; [by apply wp_ret|].
    apply quota_room in Hq; [|done|unfold data_len; lia|done].
    apply (with_dir_spec _ i s); [by apply at_dirs_same|by intros r s' [m ->]|].
    intros T s1 H1. eapply wp_mono; [by apply (doWrite_spec _ i s _ ow T)|].
    intros r s' Hr res ->. destruct Hr as [_ [lc Hd]]. rewrite (at_done_total _ _ _ _ _ _ Hd).
    destruct Hd as (_ & Ha & Hres & _). specialize (Hold T lc Ha Hres).
    change (fs_tree (set_fs_faults _ _)) with (fs_tree s) in Hq. lia. }
  apply wp_root_stat_info.
  - intros l1 e. apply Happ, replaced_ok_zero.
  - intros l1 k e Hres He. destruct (fi_isdir (info_of e)); [by apply wp_ret|].
    destruct (Overwrite i); [|by apply wp_ret]. by eapply Happ, replaced_ok_stat.
Qed.

(** ** Guarantees *)

Lemma dirs_added_outside R T T' k : ¬ R `prefix_of` k → dirs_added R T T' → T' !! k = T !! k.
Proof. intros Hk H. by destruct (H k) as [|(_ & _ & ?)]. Qed.

Lemma dirs_added_keep R T T' k e : dirs_added R T T' → T !! k = Some e → T' !! k = Some e.
Proof. intros H Hk. destruct (H k) as [->|(Hn & _)]; congruence. Qed.

Lemma upload_tree_outside R i s T k :
  upload_tree R i s T → ¬ R `prefix_of` k → T !! k = fs_tree s !! k.
Proof.
  intros [T1 Ha|T1 h m n Ha Hn Hp|T1 l Ha] Hk.
  - by eapply dirs_added_outside.
  - rewrite lookup_insert_ne by (intros ->; done). by eapply dirs_added_outside.
  - rewrite lookup_insert_ne by (intros <-; apply Hk; by apply prefix_app_r).
    by eapply dirs_added_outside.
Qed.

(** C23: An upload never leaves its root.  On every tree the machine goes through
    during [Write], whatever call fails, and whatever links, [..] or absolute
    paths the request or the tree contain, every location outside the upload
    root is as it was before. *)
Theorem Write_confined cfg i s :
  wp (Write cfg i) (λ _ s', ∃ ds, fs_trace s' = ds ++ fs_trace s ∧
    ∀ T k, T ∈ fs_tree s' :: ds → ¬ UploadRoot cfg `prefix_of` k → T !! k = fs_tree s !! k) s.
Proof.
  eapply wp_mono; [apply Write_spec|]. intros r s' (_ & (ds & Hds & HF) & _).
  exists ds. split; [done|]. intros T k HT Hk. rewrite Forall_forall in HF.
  by eapply upload_tree_outside, Hk; apply HF.
Qed.

(** C24: An upload is all or nothing.  On success the disk is the one before,
    with directories added, and with the complete content and the requested mode
    at the place the path names, and the answer reports that path, size and
    mode.  On any error it is the one before, with directories added and at most
    one more file: a temp file at a place below the root where nothing was, with
    some of the content and the mode 0600 or the requested one.  On the way,
    every file that existed is unchanged or is already the complete new one.  The
    mutex is free again. *)
Theorem Write_all_or_nothing cfg i s :
  wp (Write cfg i) (λ r s', os_locks (fs_os s') = os_locks (fs_os s)
    ∧ (∃ ds, fs_trace s' = ds ++ fs_trace s ∧
        ∀ T k e, T ∈ fs_tree s' :: ds → fs_tree s !! k = Some e →
          T !! k = Some e ∨ T !! k = Some (EFile (Mode i) (Data i)))
    ∧ match r with
      | Ok res => ∃ T l, dirs_added (UploadRoot cfg) (fs_tree s) T
          ∧ (resolve (UploadRoot cfg) None false T (RelPath i)).2 = Ok l
          ∧ fs_tree s' = <[UploadRoot cfg ++ l := EFile (Mode i) (Data i)]> T
          ∧ res_RelPath res = RelPath i ∧ res_Size res = data_len i ∧ res_Mode res = Mode i
      | Err _ => ∃ T, dirs_added (UploadRoot cfg) (fs_tree s) T
          ∧ (fs_tree s' = T ∨ ∃ h m n, T !! h = None ∧ UploadRoot cfg `prefix_of` h
               ∧ (m = 384 ∨ m = Mode i) ∧ fs_tree s' = <[h := EFile m (take n (Data i))]> T)
      end) s.
Proof.
  eapply wp_mono; [apply Write_spec|]. intros r s' (Hl & (ds & Hds & HF) & Hr).
  split_and!; [done| |].
  - exists ds. split; [done|]. intros T k e HT Hk. rewrite Forall_forall in HF.
    destruct (HF T HT) as [T1 Ha|T1 h m n Ha Hn Hp|T1 l Ha].
    + left. by eapply dirs_added_keep.
    + left. rewrite lookup_insert_ne; [by eapply dirs_added_keep|]. intros ->.
      pose proof (dirs_added_keep _ _ _ _ _ Ha Hk). congruence.
    + destruct (decide (UploadRoot cfg ++ l = k)) as [->|Hne]; [right; apply lookup_insert_eq|].
      left. rewrite lookup_insert_ne by done. by eapply dirs_added_keep.
  - destruct r as [res|e]; [|exact Hr].
    destruct Hr as (ow & T & l & -> & Ha & Hres & Hf). exists T, l. by split_and!.
Qed.

(** C31: The quota is kept.  With a total limit set, a successful upload leaves
    at most that many bytes in regular files below the root, whatever failed or
    happened before, as long as the path does not name a symbolic link. *)
Theorem Write_keeps_quota cfg i s :
  MaxTotalBytes cfg ≠ 0 →
  total_bytes (UploadRoot cfg) (fs_tree s) + data_len i ≤ max_int64 →
  no_link_target cfg i s →
  wp (Write cfg i) (λ r s', ∀ res, r = Ok res →
    total_bytes (UploadRoot cfg) (fs_tree s') ≤ MaxTotalBytes cfg
    ∧ res_Size res ≤ MaxFileBytes cfg) s.
Proof.
  intros Hq Hmax Hnl. unfold Write.
  destruct (Z.ltb_spec (MaxFileBytes cfg) (data_len i)) as [|Hsz]; [by apply wp_ret|].
  destruct (is_local (RelPath i)); [|by apply wp_ret]. simpl.
  destruct (Z.eqb_spec (MaxTotalBytes cfg) 0); [done|].
  apply wp_bind. unfold wp at 1. simpl. apply wp_bind. eapply wp_mono.
  { apply wp_and; [|apply (writeWithQuota_spec cfg i)].
    by apply (writeWithQuota_total cfg i (relock (rootMutex (UploadRoot cfg) :: os_locks (fs_os s)) s)). }
  intros r s' [Ht Hb]. apply wp_bind. unfold wp at 1. simpl. apply wp_ret.
  intros res ->. split; [by apply (Ht res)|]. destruct Hb as (ow & _ & _ & -> & _). done.
Qed.

(** A quiet file system: no fault is due. *)
Definition fs_quiet (s : fsys) : Prop := os_faults (fs_os s) = [].

Lemma wp_fs_fallible_quiet {A} (body : M fsys (result oserr A)) Q s :
  fs_quiet s → wp body Q s → wp (fs_fallible body) Q s.
Proof.
  intros Hq H. apply wp_bind. unfold wp at 1, with_os, zoom, next_fault. rewrite Hq. simpl.
  destruct s as [t tr o]. exact H.
Qed.

(** The target exists, for a call that follows links. *)
Definition target_exists (cfg : Config) (i : Input) (s : fsys) : Prop :=
  ∃ k e, (resolve (UploadRoot cfg) None true (fs_tree s) (RelPath i)).2 = Ok k
    ∧ lookup_loc (UploadRoot cfg) (fs_tree s) k = Some e
    ∧ (has_trailing_slash (RelPath i) = true → fi_isdir (info_of e) = true).

Lemma root_stat_exists cfg i T s :
  fs_quiet s → fs_tree s = T → ∀ s0, dirs_added (UploadRoot cfg) (fs_tree s0) T →
  target_exists cfg i s0 →
  wp (root_stat (UploadRoot cfg) (RelPath i)) (λ r s', s' = s ∧ ∃ fi, r = Ok fi) s.
Proof.
  intros Hq HT s0 Ha (k & e & Hres & He & Hts). apply wp_fs_fallible_quiet; [done|].
  apply wp_bind, wp_gets. rewrite HT, (resolve_more_dirs _ _ _ _ _ _ Ha Hres).
  assert (lookup_loc (UploadRoot cfg) T k = Some e) as ->.
  { destruct k as [|c k]; [done|]. simpl in *.
    destruct (Ha (UploadRoot cfg ++ c :: k)) as [->|(Hn & _)]; [done|]. congruence. }
  destruct (has_trailing_slash (RelPath i)); simpl; [rewrite Hts by done|]; apply wp_ret; eauto.
Qed.

(** Refused, with at most directories added since [T]. *)
Definition refused (R : loc) (T : tree) (r : result uerr Result) (s' : fsys) : Prop :=
  (∃ e, r = Err e) ∧ dirs_added R T (fs_tree s').

(** The look at the target refuses. *)
Lemma stat_refuses cfg i s s1 k :
  fs_quiet s1 → dirs_added (UploadRoot cfg) (fs_tree s) (fs_tree s1) →
  Overwrite i = false → target_exists cfg i s →
  wp (let! st := root_stat (UploadRoot cfg) (RelPath i) in
      match st with
      | Ok fi => if fi_isdir fi then ret (Err ErrIsDir)
                 else if negb (Overwrite i) then ret (Err ErrExists) else k true fi
      | Err _ => k false (info_of EOther)
      end) (λ r s', (∃ e, r = Err (A:=Result) e) ∧ s' = s1) s1.
Proof.
  intros Hq Ha Hov Hex. apply wp_bind.
  eapply wp_mono; [by apply (root_stat_exists cfg i (fs_tree s1) s1 Hq eq_refl s Ha)|].
  intros r s2 [-> [fi ->]]. destruct (fi_isdir fi); [apply wp_ret; eauto|].
  rewrite Hov. apply wp_ret. eauto.
Qed.

(** Making the directories, quietly: an error, or directories. *)
Lemma with_dir_quiet R d k s :
  fs_quiet s →
  (∀ s1, fs_quiet s1 → dirs_added R (fs_tree s) (fs_tree s1) → wp k (refused R (fs_tree s)) s1) →
  wp (with_dir R d k) (refused R (fs_tree s)) s.
Proof.
  intros Hq Hk. unfold with_dir.
  destruct (needs_dir d); [|apply Hk; [done|apply dirs_added_refl]].
  apply wp_bind, wp_fs_fallible_quiet; [done|]. apply wp_bind, wp_gets.
  pose proof (resolve_dirs_added R (Some 448) true (fs_tree s) d) as Hadd.
  assert (∀ T (e : uerr), dirs_added R (fs_tree s) T → refused R (fs_tree s) (Err e) (set_tree T s)) as He
    by (split; eauto).
  destruct (resolve _ (Some 448) true (fs_tree s) d) as [T' [lc|e]]; simpl in Hadd;
    [|by apply wp_bind, wp_modify, wp_ret, wp_ret, He].
  destruct (lookup_loc R T' lc) as [x|] eqn:El.
  - destruct x; apply wp_bind, wp_modify, wp_ret; try (by apply wp_ret, He). by apply Hk.
  - apply wp_bind, wp_modify, wp_ret, Hk; [done|].
    eapply dirs_added_trans; [exact Hadd|]. apply dirs_added_insert.
    rewrite lookup_loc_ne in El; [done|]. by intros ->.
Qed.

(** C32: Without permission to overwrite, an upload to a path that exists (a
    file, a directory, or a link to one inside the root) is refused, when no
    system call fails.  It leaves the disk as it was, but for directories it may
    have made below the root when there is no quota (they are made before the
    target is looked at); with a quota the tree is the same. *)
Theorem Write_no_clobber cfg i s :
  Overwrite i = false → fs_quiet s → target_exists cfg i s →
  wp (Write cfg i) (λ r s', (∃ e, r = Err e)
    ∧ dirs_added (UploadRoot cfg) (fs_tree s) (fs_tree s')
    ∧ (MaxTotalBytes cfg ≠ 0 → fs_tree s' = fs_tree s)) s.
Proof.
  intros Hov Hq Hex. pose proof (dirs_added_refl (UploadRoot cfg) (fs_tree s)) as H0. unfold Write.
  destruct (_ <? _); [apply wp_ret; eauto|].
  destruct (is_local (RelPath i)); [simpl|apply wp_ret; eauto].
  destruct (Z.eqb_spec (MaxTotalBytes cfg) 0) as [Hz|Hz].
  - eapply (wp_mono _ (refused (UploadRoot cfg) (fs_tree s))); [|by intros r s' [He Ha]; split_and!].
    apply wp_bind, wp_fs_fallible_quiet; [done|]. apply wp_ret, with_dir_quiet; [done|].
    intros s1 Hq1 Ha. eapply wp_mono.
    { by apply (stat_refuses cfg i s s1 (λ ow _, doWrite (UploadRoot cfg) (dir (RelPath i)) i ow)). }
    intros r s' [He ->]. by split.
  - apply wp_bind. unfold wp at 1. simpl. apply wp_bind.
    eapply (wp_mono _ (λ r s', (∃ e, r = Err e) ∧ fs_tree s' = fs_tree s)).
    2: { intros r s' [He Ht]. apply wp_bind. unfold wp at 1. simpl. apply wp_ret. simpl. by rewrite Ht. }
    apply wp_bind, wp_fs_fallible_quiet; [done|]. apply wp_ret, wp_bind.
    eapply wp_mono; [by apply (root_stat_exists cfg i (fs_tree s)) with (s0 := s)|].
    intros r s2 [-> [fi ->]]. destruct (fi_isdir fi); [apply wp_ret; eauto|].
    rewrite Hov. apply wp_ret. eauto.
Qed.

(** ** The mode policy *)

Lemma and_not_zero m : 0 ≤ m → and_not m 511 = 0 → 0 ≤ m ≤ 511.
Proof.
  intros Hm H. assert (Z.ldiff m 511 = 0) as Hd by done.
  pose proof (Z.lor_ldiff_and m 511) as Hl. rewrite Hd, Z.lor_0_l in Hl.
  change 511 with (Z.ones 9) in Hl. rewrite Z.land_ones in Hl by lia.
  pose proof (Z.mod_pos_bound m (2 ^ 9) ltac:(lia)). lia.
Qed.

Lemma land_2_testbit m : Z.land m 2 = 0 → Z.testbit m 1 = false.
Proof.
  intros H. assert (Z.testbit (Z.land m 2) 1 = Z.testbit 0 1) as Ht by (by rewrite H).
  rewrite Z.land_spec, Z.testbit_0_l in Ht. by destruct (Z.testbit m 1).
Qed.

Lemma ParseMode_ok s m :
  ParseMode s = Ok m → 0 ≤ m ≤ 511 ∧ Z.testbit m 1 = false.
Proof.
  unfold ParseMode. destruct (String.eqb s ""); [done|].
  destruct (parse_int s 8 32) as [v [e|]]; [done|]. destruct (v <? 0); [done|].
  assert (0 ≤ wrap32u v) as Hw by (unfold wrap32u; apply Z.mod_pos_bound; lia).
  destruct (Z.eqb_spec (and_not (wrap32u v) 511) 0) as [H1|]; [|done].
  destruct (Z.eqb_spec (Z.land (wrap32u v) 2) 0) as [H2|]; [|done].
  simpl. intros [= <-]. split; [by apply and_not_zero|by apply land_2_testbit].
Qed.

(** Every mode the policy allows, printed and parsed. *)
Lemma ParseMode_print m :
  0 ≤ m ≤ 511 → Z.testbit m 1 = false → ParseMode (fmt_04o m) = Ok m.
Proof.
  intros Hm Ht. assert (Forall (λ m, Z.testbit m 1 = true ∨ ParseMode (fmt_04o m) = Ok m) (seqZ 0 512)) as H.
  { apply (bool_decide_unpack (Forall _ _)). vm_compute. exact I. }
  rewrite Forall_forall in H. destruct (H m) as [|]; [apply elem_of_seqZ; lia|congruence|done].
Qed.

(** The mode policy.  [ParseMode] accepts a mode only if it has no bit
    outside 0777 (no setuid, setgid or sticky bit) and is not world-writable,
    and it reads back every such mode from the four octal digits that the tool
    reports. *)
Theorem ParseMode_policy s m :
  (ParseMode s = Ok m → 0 ≤ m ≤ 511 ∧ Z.testbit m 1 = false)
  ∧ (0 ≤ m ≤ 511 ∧ Z.testbit m 1 = false → ParseMode (fmt_04o m) = Ok m).
Proof. split; [apply ParseMode_ok|intros [H1 H2]; by apply ParseMode_print]. Qed.

(** ** Instances *)

Definition up_root : loc := ["srv"%string; "up"%string].

Definition up_os : os :=
  {| os_files := ∅; os_trace := []; os_now := 0; os_rand := λ n, byte_of_Z (Z.of_nat n);
     os_rpos := 0; os_tmp := []; os_faults := []; os_locks := [] |}.

(** A file, a link to it, a link out of the root, and a dangling link. *)
Definition up_tree : tree :=
  {[ up_root := EDir 448;
     up_root ++ ["a.txt"%string] := EFile 384 (bytes_of_string "12345678");
     up_root ++ ["l"%string] := ELink "a.txt";
     up_root ++ ["out"%string] := ELink "/etc";
     up_root ++ ["gone"%string] := ELink "nowhere" ]}.

Definition up_state : fsys := {| fs_tree := up_tree; fs_trace := []; fs_os := up_os |}.

Definition up_cfg (max_total : Z) : Config :=
  {| UploadRoot := up_root; MaxFileBytes := 100; MaxTotalBytes := max_total;
     DefaultMode := 384; u_DenyRoot := false |}.

Definition up_input (p : string) (ow : bool) : Input :=
  {| RelPath := p; Data := bytes_of_string "123456789"; Overwrite := ow; Mode := 416 |}.

Example upload_new_file :
  let s' := (Write (up_cfg 20) (up_input "d/e/new" false) up_state).2 in
  is_ok (Write (up_cfg 20) (up_input "d/e/new" false) up_state).1 = true
  ∧ fs_tree s' !! (up_root ++ ["d"; "e"; "new"]%string) = Some (EFile 416 (bytes_of_string "123456789"))
  ∧ fs_tree s' !! (up_root ++ ["d"]%string) = Some (EDir 448).
Proof. vm_compute. done. Qed.

Lemma Write_keeps_quota_witness :
  ∃ res, (Write (up_cfg 9) (up_input "a.txt" true) up_state).1 = Ok res
    ∧ total_bytes up_root (fs_tree (Write (up_cfg 9) (up_input "a.txt" true) up_state).2) ≤ 9.
Proof.
  pose proof (Write_keeps_quota (up_cfg 9) (up_input "a.txt" true) up_state) as H.
  assert (∃ res, (Write (up_cfg 9) (up_input "a.txt" true) up_state).1 = Ok res) as [res Hr]
    by (eexists; vm_compute; reflexivity).
  exists res. split; [done|]. apply (H ltac:(done) ltac:(vm_compute; done)) with res; [|done].
  intros l t Hl. vm_compute in Hl. injection Hl as <-. vm_compute. congruence.
Defined.

Lemma Write_no_clobber_witness :
  (∃ e, (Write (up_cfg 20) (up_input "l" false) up_state).1 = Err e)
  ∧ fs_tree (Write (up_cfg 20) (up_input "l" false) up_state).2 = up_tree.
Proof.
  destruct (Write_no_clobber (up_cfg 20) (up_input "l" false) up_state eq_refl eq_refl) as (He & _ & Hk).
  - exists ["a.txt"%string], (EFile 384 (bytes_of_string "12345678")).
    split_and!; [vm_compute; reflexivity|vm_compute; reflexivity|]. vm_compute. discriminate.
  - split; [exact He|]. apply Hk. vm_compute. discriminate.
Defined.

(** ** Where the code and its contract part

    The comment of [Write] promises more than the code does with links in the
    last place of the path: [Stat] follows them, [Rename] replaces them. *)

(** The size of the file a link leads to is counted as replaced although the
    upload replaces the link: with a limit of 10 bytes, overwriting [l], a link
    to an 8-byte file of the root, with 9 bytes leaves 17 bytes in the root. *)
Theorem quota_exceeded_through_link :
  let r := Write (up_cfg 10) (up_input "l" true) up_state in
  is_ok r.1 = true ∧ total_bytes up_root (fs_tree r.2) = 17 ∧ MaxTotalBytes (up_cfg 10) = 10.
Proof. vm_compute. done. Qed.

(** A link whose target is missing or outside does not count as existing: it is
    replaced although [Overwrite] is false. *)
Theorem dangling_link_replaced_without_overwrite :
  let r := Write (up_cfg 0) (up_input "gone" false) up_state in
  fs_tree up_state !! (up_root ++ ["gone"%string]) = Some (ELink "nowhere")
  ∧ is_ok r.1 = true
  ∧ fs_tree r.2 !! (up_root ++ ["gone"%string]) = Some (EFile 416 (bytes_of_string "123456789")).
Proof. vm_compute. done. Qed.

(** A directory link that leaves the root is refused, but with an input/output
    error instead of [ErrTraversal]. *)
Theorem outward_link_is_not_reported_as_traversal :
  (Write (up_cfg 0) (up_input "out/passwd" false) up_state).1
  = Err (UOther "create directories: path escapes from parent").
Proof. vm_compute. done. Qed.
