(* ===== verification/UploadRaces.v ===== *)
(** * UploadRaces: several uploads at the same time.

    [Write] of [FileUpload] again, as a program of the calls it makes: the mutex
    of the root, and the methods of [os.Root] and of an open file.  Alone the
    program is [Write] (UploadRacesTheorems.upload_alone); the uploads of one
    root run in a pool ([Interleave]), call by call in any order, and wait for
    the mutex.  A call is atomic here, a walk over the root and [MkdirAll]
    too. *)

From S2P Require Import Prelude Interleave GoText GoEncoding GoPath GoOs GoFs FileUpload.
Open Scope Z_scope.
Open Scope go_scope.
Open Scope prog_scope.

(** ** Calls *)

Inductive ucall : Type → Type :=
| ULock : ucall unit
| UUnlock : ucall unit
| UOpenRoot : ucall (result oserr unit)
| UStat (p : string) : ucall (result oserr finfo)
| UTotal : ucall (result oserr Z)
| UMkdirAll (p : string) (mode : Z) : ucall (result oserr unit)
| UTmpName : ucall string
| UCreate (p : string) (mode : Z) : ucall (result oserr loc)
| UChmod (h : loc) (mode : Z) : ucall (result oserr unit)
| UFill (h : loc) (data : bytes) : ucall (result oserr unit)
| USync : ucall (result oserr unit)
| UClose : ucall (result oserr unit)
| URename (a b : string) : ucall (result oserr unit)
| URemove (p : string) : ucall (result oserr unit).

Definition u_handle (R : loc) {X} (a : ucall X) : M fsys X :=
  match a in ucall X return M fsys X with
  | ULock => mu_lock (rootMutex R)
  | UUnlock => mu_unlock (rootMutex R)
  | UOpenRoot => open_root
  | UStat p => root_stat R p
  | UTotal => currentBytes R
  | UMkdirAll p mode => root_mkdirall R p mode
  | UTmpName => randomTmpName
  | UCreate p mode => root_create_excl R p mode
  | UChmod h mode => h_chmod h mode
  | UFill h data => h_write h data
  | USync => h_sync
  | UClose => h_close
  | URename a b => root_rename R a b
  | URemove p => root_remove R p
  end.

(** [mu.Lock()] waits. *)
Definition u_enabled (R : loc) {X} (a : ucall X) (s : fsys) : bool :=
  match a with ULock => negb (bool_decide (rootMutex R ∈ os_locks (fs_os s))) | _ => true end.

(** ** upload.go, call by call *)

Abbreviation uprog := (Interleave.prog ucall (result uerr Result)).

Definition r_discard (tmpRel : string) (e : uerr) : uprog :=
  act!! UClose in act!! URemove tmpRel in Done (Err e).

Definition r_doWrite (dir : string) (i : Input) (overwritten : bool) : uprog :=
  act! tmpName := UTmpName in
  let tmpRel := tmp_rel dir tmpName in
  act! r := UCreate tmpRel 384 in
  match r with
  | Err e => Done (Err (uio "create temp file" e))
  | Ok h =>
      act! r := UChmod h (Mode i) in
      match r with
      | Err e => r_discard tmpRel (uio "chmod" e)
      | Ok _ =>
      act! r := UFill h (Data i) in
      match r with
      | Err e => r_discard tmpRel (uio "write" e)
      | Ok _ =>
      act! r := USync in
      match r with
      | Err e => r_discard tmpRel (uio "sync" e)
      | Ok _ =>
      act! r := UClose in
      match r with
      | Err e => r_discard tmpRel (uio "close" e)
      | Ok _ =>
      act! r := URename tmpRel (RelPath i) in
      match r with
      | Err e => r_discard tmpRel (uio "rename" e)
      | Ok _ =>
          act!! USync in act!! UClose in
          Done (Ok {| res_RelPath := RelPath i; res_Size := data_len i;
                      res_Overwritten := overwritten; res_Mode := Mode i |})
      end end end end end
  end.

Definition r_with_dir (d : string) (k : uprog) : uprog :=
  if needs_dir d then
    act! r := UMkdirAll d 448 in
    match r with
    | Err e => Done (Err (uio "create directories" e))
    | Ok _ => k
    end
  else k.

Definition r_approve (cfg : Config) (i : Input) (overwritten : bool) (replaced : Z) : uprog :=
  let d := dir (RelPath i) in
  act! c := UTotal in
  match c with
  | Err e => Done (Err (uio "quota: walk upload root" e))
  | Ok current =>
      if MaxTotalBytes cfg <? wrap64 (wrap64 (current - replaced) + data_len i)
      then Done (Err ErrQuotaExceeded)
      else r_with_dir d (r_doWrite d i overwritten)
  end.

Definition r_writeWithQuota (cfg : Config) (i : Input) : uprog :=
  act! r := UOpenRoot in
  match r with
  | Err e => Done (Err (uio "open upload root" e))
  | Ok _ =>
      act! st := UStat (RelPath i) in
      match st with
      | Ok fi =>
          if fi_isdir fi then Done (Err ErrIsDir)
          else if negb (Overwrite i) then Done (Err ErrExists)
          else r_approve cfg i true (if fi_regular fi then fi_size fi else 0)
      | Err _ => r_approve cfg i false 0
      end
  end.

Definition r_writeUnderRoot (cfg : Config) (i : Input) : uprog :=
  act! r := UOpenRoot in
  match r with
  | Err e => Done (Err (uio "open upload root" e))
  | Ok _ =>
      let d := dir (RelPath i) in
      r_with_dir d
        (act! st := UStat (RelPath i) in
         match st with
         | Ok fi =>
             if fi_isdir fi then Done (Err ErrIsDir)
             else if negb (Overwrite i) then Done (Err ErrExists)
             else r_doWrite d i true
         | Err _ => r_doWrite d i false
         end)
  end.

Definition r_Write (cfg : Config) (i : Input) : uprog :=
  if MaxFileBytes cfg <? data_len i then Done (Err ErrTooLarge) else
  if negb (is_local (RelPath i)) then Done (Err (ErrTraversal (RelPath i))) else
  if MaxTotalBytes cfg =? 0 then r_writeUnderRoot cfg i
  else
    act!! ULock in
    pbind (r_writeWithQuota cfg i) (λ r, act!! UUnlock in Done r).

(** ** The uploads of one root *)

Definition u_alone (R : loc) {A} (p : Interleave.prog ucall A) : M fsys A := interp (@u_handle R) p.

Abbreviation upool := (pool (E:=ucall) (S:=fsys) (A:=result uerr Result)).

Definition uploads (cfg : Config) (ins : list Input) (s : fsys) : upool :=
  {| pl_state := s; pl_progs := map (r_Write cfg) ins |}.
