(* ===== verification/UploadRacesTheorems.v ===== *)
(** * UploadRacesTheorems: what holds of uploads that interleave.

    With a quota the mutex makes any interleaving one upload after the other, so
    that what FileUploadTheorems shows of one upload holds of each.  Without
    one there is no mutex: still no reader ever sees part of a file, but two
    uploads without permission to overwrite can both succeed at one path. *)

From S2P Require Import Prelude Interleave GoText GoEncoding GoPath GoOs GoFs FileUpload FileUploadProofs FileUploadTheorems UploadRaces.
Open Scope Z_scope.
Open Scope go_scope.

(** ** One upload *)

Section alone.
Variable R : loc.

(** The program is the code. *)
Definition codes {A} (p : Interleave.prog ucall A) (m : M fsys A) : Prop := ∀ s, u_alone R p s = m s.

Lemma codes_done {A} (a : A) : codes (Done a) (ret a).
Proof. done. Qed.

Lemma codes_do {A X} (a : ucall X) (k : X → Interleave.prog ucall A) (k' : X → M fsys A) :
  (∀ x, codes (k x) (k' x)) → codes (Do a k) (bind (u_handle R a) k').
Proof. intros Hk s. unfold u_alone. simpl. unfold bind. destruct (u_handle R a s) as [x s1]. apply Hk. Qed.

#[local] Hint Resolve codes_done : go.

Ltac codes_walk :=
  repeat first
    [ apply codes_done
    | refine (codes_do _ _ _ _); intros ?
    | match goal with |- codes (match ?x with _ => _ end) _ => destruct x end
    | solve [auto with go] ].

Lemma r_discard_codes tmpRel e : codes (r_discard tmpRel e) (discard R tmpRel e).
Proof. unfold r_discard, discard. codes_walk. Qed.
#[local] Hint Resolve r_discard_codes : go.

Lemma r_doWrite_codes d i ow : codes (r_doWrite d i ow) (doWrite R d i ow).
Proof. unfold r_doWrite, doWrite. codes_walk. Qed.
#[local] Hint Resolve r_doWrite_codes : go.

Lemma r_with_dir_codes d p m : codes p m → codes (r_with_dir d p) (with_dir R d m).
Proof. intros Hp. unfold r_with_dir, with_dir. codes_walk. Qed.
#[local] Hint Resolve r_with_dir_codes : go.
End alone.

Lemma r_Write_codes cfg i : codes (UploadRoot cfg) (r_Write cfg i) (Write cfg i).
Proof.
  unfold r_Write, Write. destruct (_ <? _); [done|]. destruct (negb _); [done|].
  destruct (_ =? 0).
  - unfold r_writeUnderRoot, writeUnderRoot. refine (codes_do _ _ _ _ _). intros [|]; [|done].
    apply r_with_dir_codes. refine (codes_do _ _ _ _ _). intros [fi|]; [|apply r_doWrite_codes].
    destruct (fi_isdir fi); [done|]. destruct (negb _); [done|apply r_doWrite_codes].
  - refine (codes_do _ _ _ _ _). intros [] s. unfold u_alone. rewrite interp_pbind.
    assert (codes (UploadRoot cfg) (r_writeWithQuota cfg i) (writeWithQuota cfg i)) as Hq.
    { unfold r_writeWithQuota, writeWithQuota. refine (codes_do _ _ _ _ _). intros [|]; [|done].
      refine (codes_do _ _ _ _ _).
      assert (∀ ow n, codes (UploadRoot cfg) (r_approve cfg i ow n)
        (let! c := currentBytes (UploadRoot cfg) in
         match c with
         | Err e => ret (Err (uio "quota: walk upload root" e))
         | Ok current =>
             if MaxTotalBytes cfg <? wrap64 (wrap64 (current - n) + data_len i)
             then ret (Err ErrQuotaExceeded)
             else with_dir (UploadRoot cfg) (dir (RelPath i)) (doWrite (UploadRoot cfg) (dir (RelPath i)) i ow)
         end)) as Ha.
      { intros ow n. unfold r_approve. refine (codes_do _ _ _ _ _). intros [c|]; [|done].
        destruct (_ <? _); [done|]. apply r_with_dir_codes, r_doWrite_codes. }
      intros [fi|]; [|apply Ha]. destruct (fi_isdir fi); [done|]. destruct (negb _); [done|apply Ha]. }
    unfold bind at 1 2. specialize (Hq s). unfold u_alone in Hq. rewrite Hq.
    by destruct (writeWithQuota cfg i s).
Qed.

(** ** With a quota *)

Section quota.
Variable cfg : Config.
Abbreviation R := (UploadRoot cfg).
Abbreviation mu := (rootMutex (UploadRoot cfg)).

Definition takes_mu X (a : ucall X) : bool := match a with ULock => true | _ => false end.
Definition drops_mu X (a : ucall X) : bool := match a with UUnlock => true | _ => false end.
Definition mu_held (s : fsys) : bool := bool_decide (mu ∈ os_locks (fs_os s)).
Definition locks_apart (s : fsys) : Prop := NoDup (os_locks (fs_os s)).

Lemma elem_of_drop_first m x l : m ∈ drop_first x l → m ∈ l.
Proof.
  induction l as [|y l IH]; [done|]. simpl. destruct (String.eqb y x); rewrite ?elem_of_cons; tauto.
Qed.

Lemma drop_first_NoDup x l : NoDup l → (x ∉ drop_first x l) ∧ NoDup (drop_first x l).
Proof.
  induction l as [|y l IH]; simpl; [intros _; split; [apply not_elem_of_nil|apply NoDup_nil_2]|].
  intros [Hy Hl]%NoDup_cons. destruct (String.eqb_spec y x) as [->|Hne]; [done|].
  destruct (IH Hl) as [H1 H2]. split.
  - intros [?|?]%elem_of_cons; [congruence|done].
  - apply NoDup_cons. split; [|done]. intros H. by apply Hy, (elem_of_drop_first _ x).
Qed.

(** The other calls leave the locks. *)
Definition keeps_locks {A} (m : M fsys A) : Prop :=
  ∀ s, os_locks (fs_os (m s).2) = os_locks (fs_os s).

Lemma keeps_locks_fallible {A} (m : M fsys (result oserr A)) : keeps_locks m → keeps_locks (fs_fallible m).
Proof.
  intros Hm s. unfold fs_fallible, bind, with_os, zoom, next_fault.
  destruct (os_faults (fs_os s)) as [|[f|] fs]; [|done|]; (etrans; [apply Hm|done]).
Qed.

Ltac keeps := intros ?; unfold bind, gets, modify, ret; repeat (case_match; simpl); done.

Lemma update_at_locks h f : keeps_locks (update_at h f).
Proof. intros s. unfold update_at. by destruct (fs_tree s !! h) as [[]|]. Qed.

Lemma u_handle_locks X (a : ucall X) :
  match a with ULock | UUnlock => True | _ => keeps_locks (u_handle R a) end.
Proof.
  destruct a; [done..| | | | | | | | | | | |]; simpl.
  - by apply keeps_locks_fallible.
  - apply keeps_locks_fallible. keeps.
  - by apply keeps_locks_fallible.
  - apply keeps_locks_fallible. intros s. unfold bind, gets, modify, ret. simpl.
    destruct (resolve _ _ _ _ _) as [T' r]. by repeat (case_match; simpl).
  - done.
  - apply keeps_locks_fallible. keeps.
  - apply keeps_locks_fallible. intros s. unfold bind. pose proof (update_at_locks h (λ _ d, EFile mode d) s).
    by destruct (update_at _ _ _).
  - intros s. unfold h_write, bind, with_os, zoom, next_fault.
    assert (∀ f s1, os_locks (fs_os s1) = os_locks (fs_os s) →
      os_locks (fs_os (update_at h f s1).2) = os_locks (fs_os s)) as Hu by (intros f s1 <-; apply update_at_locks).
    destruct (os_faults (fs_os s)) as [|[f|] fs]; match goal with |- context [update_at h ?f ?s1] =>
      specialize (Hu f s1 eq_refl); destruct (update_at h f s1) end; exact Hu.
  - by apply keeps_locks_fallible.
  - by apply keeps_locks_fallible.
  - apply keeps_locks_fallible. keeps.
  - apply keeps_locks_fallible. keeps.
Qed.

Lemma upload_mutex : mutex_laws (@u_handle R) (@u_enabled R) locks_apart mu_held takes_mu drops_mu.
Proof.
  split; intros X a s.
  - destruct a; try done. intros _ He. by apply negb_true_iff.
  - destruct a; try done. intros _. apply bool_decide_eq_true, elem_of_cons. by left.
  - intros Hs. destruct a; try done. intros _. apply bool_decide_eq_false. by apply drop_first_NoDup.
  - intros Ht Hd. unfold mu_held. apply bool_decide_ext. pose proof (u_handle_locks X a) as Hl.
    destruct a; try done; by rewrite Hl.
  - by destruct a.
  - intros Hs He. unfold locks_apart in *. pose proof (u_handle_locks X a) as Hl.
    destruct a; try by rewrite Hl.
    + apply negb_true_iff, bool_decide_eq_false in He. by apply NoDup_cons.
    + by apply drop_first_NoDup.
Qed.

Lemma upload_waits X (a : ucall X) s : u_enabled R a s = false → takes_mu X a = true ∧ mu_held s = true.
Proof. destruct a; try done. simpl. by intros He%negb_false_iff. Qed.

(** A program without the mutex, and its release at the end. *)
Fixpoint lockless {A} (p : Interleave.prog ucall A) : Prop :=
  match p with
  | Done _ => True
  | @Do _ _ X a k => takes_mu X a = false ∧ drops_mu X a = false ∧ ∀ x, lockless (k x)
  end.

Lemma lockless_inside {A} (p : Interleave.prog ucall A) :
  lockless p → inside takes_mu drops_mu (pbind p (λ r, Do UUnlock (λ _, Done r))).
Proof.
  induction p as [r|X a k IH]; intros Hp; simpl.
  - eauto.
  - destruct Hp as (H1 & H2 & H3). rewrite H2. auto.
Qed.

Ltac lockless_walk :=
  repeat first
    [ done
    | match goal with |- lockless (match ?x with _ => _ end) => destruct x end
    | split; [done|split; [done|intros ?]] ].

Lemma r_doWrite_lockless d i ow : lockless (r_doWrite d i ow).
Proof. unfold r_doWrite, r_discard. lockless_walk. Qed.

Lemma r_with_dir_lockless d p : lockless p → lockless (r_with_dir d p).
Proof. intros Hp. unfold r_with_dir. lockless_walk. Qed.

Lemma r_writeWithQuota_lockless i : lockless (r_writeWithQuota cfg i).
Proof.
  unfold r_writeWithQuota, r_approve. lockless_walk; apply r_with_dir_lockless, r_doWrite_lockless.
Qed.

Lemma r_Write_outside i : MaxTotalBytes cfg ≠ 0 → outside takes_mu drops_mu (r_Write cfg i).
Proof.
  intros Hq. unfold r_Write. destruct (_ <? _); [done|]. destruct (negb _); [done|].
  rewrite (proj2 (Z.eqb_neq _ _) Hq). split; [done|]. intros _.
  apply lockless_inside, r_writeWithQuota_lockless.
Qed.

(** Uploads one after another, in the order of the list, with their results. *)
Inductive in_turn (ins : list Input) : fsys → list (nat * result uerr Result) → fsys → Prop :=
| turn_nil s : in_turn ins s [] s
| turn_snoc s o s1 j i r s2 :
    in_turn ins s o s1 → ins !! j = Some i → Write cfg i s1 = (r, s2) → in_turn ins s (o ++ [(j, r)]) s2.

Lemma serial_in_turn ins s o s' :
  serial (@u_handle R) (map (r_Write cfg) ins) s o s' → in_turn ins s o s'.
Proof.
  induction 1 as [s|s o s1 j p r s2 _ IH Hj Hrun]; [constructor|].
  apply list_lookup_fmap_Some in Hj as (i & -> & Hj). eapply turn_snoc; [exact IH|exact Hj|].
  rewrite <-Hrun. symmetry. exact (r_Write_codes cfg i s1).
Qed.

Abbreviation run := (pool_run (@u_handle R) (@u_enabled R)).

Lemma r_Writes_outside ins :
  MaxTotalBytes cfg ≠ 0 →
  ∀ j p, map (r_Write cfg) ins !! j = Some p → outside takes_mu drops_mu p.
Proof. intros Hq j p (i & -> & _)%list_lookup_fmap_Some. by apply r_Write_outside. Qed.

(** C16: With a quota, uploads at the same time are uploads one after the other.
    However the calls of any number of uploads to one root interleave, when all
    have ended, the tree, its history, the locks and every answer are those of
    [Write] run for one input after the other in some order, from the same
    state. *)
Theorem quota_uploads_serializable ins s0 es w :
  MaxTotalBytes cfg ≠ 0 → locks_apart s0 → mu ∉ os_locks (fs_os s0) →
  run (uploads cfg ins s0) es w → all_done w →
  ∃ o, in_turn ins s0 o (pl_state w) ∧ o.*1 ≡ₚ seq 0 (length ins)
    ∧ ∀ j r, (j, r) ∈ o → pl_progs w !! j = Some (Done r).
Proof.
  intros Hq Hl Hm Hr Hd.
  destruct (mutex_serializes _ _ locks_apart mu_held takes_mu drops_mu upload_mutex (map (r_Write cfg) ins) s0 es w)
    as (o & Hs & Hp & Hres).
  - by apply r_Writes_outside.
  - done.
  - by apply bool_decide_eq_false.
  - exact Hr.
  - exact Hd.
  - exists o. split; [by apply serial_in_turn|]. rewrite length_map in Hp. done.
Qed.

(** *** Without the quota nobody waits *)

Lemma r_writeUnderRoot_lockless i : lockless (r_writeUnderRoot cfg i).
Proof. unfold r_writeUnderRoot. lockless_walk. apply r_with_dir_lockless. lockless_walk; apply r_doWrite_lockless. Qed.

Lemma r_Write_lockless i : MaxTotalBytes cfg = 0 → lockless (r_Write cfg i).
Proof.
  intros Hq. unfold r_Write. destruct (_ <? _); [done|]. destruct (negb _); [done|].
  rewrite Hq. apply r_writeUnderRoot_lockless.
Qed.

Definition nobody_waits (w : upool) : Prop := ∀ j p, pl_progs w !! j = Some p → lockless p.

Lemma nobody_waits_step w e w' :
  nobody_waits w → pool_step (@u_handle R) (@u_enabled R) w e w' → nobody_waits w'.
Proof.
  intros Hn [i X a k x s' Hi _ _] j p Hj. simpl in Hj.
  apply list_lookup_insert_Some in Hj as [(-> & <- & _)|[_ Hj]]; [|by eapply Hn].
  destruct (Hn _ _ Hi) as (_ & _ & Hk). apply Hk.
Qed.

Lemma nobody_waits_moves w :
  nobody_waits w → all_done w ∨ ∃ e w', pool_step (@u_handle R) (@u_enabled R) w e w'.
Proof.
  intros Hn. destruct (all_done_or w) as [Hd|(i & X & a & k & Hi)]; [by left|right].
  destruct (u_handle R a (pl_state w)) as [x s'] eqn:Hh. eexists _, _. econstructor; [exact Hi| |exact Hh].
  destruct (u_enabled R a (pl_state w)) eqn:He; [done|]. destruct (upload_waits _ _ _ He) as [Ht _].
  destruct (Hn _ _ Hi) as (Ht' & _). congruence.
Qed.

(** C18: Uploads at the same time never block each other for good.  From every
    state that any number of them can reach, with a quota or without, whatever
    fails, there is a way on to a state in which all have ended; and every way
    on ends: there is no infinite run. *)
Theorem uploads_finish ins s0 es w :
  locks_apart s0 → mu ∉ os_locks (fs_os s0) → run (uploads cfg ins s0) es w →
  (∃ es' w', run w es' w' ∧ all_done w')
  ∧ Acc (λ w2 w1, ∃ e, pool_step (@u_handle R) (@u_enabled R) w1 e w2) w.
Proof.
  intros Hl Hm Hr. split; [|apply pool_ends].
  destruct (decide (MaxTotalBytes cfg = 0)) as [Hq|Hq].
  - eapply (pool_finishes _ _ nobody_waits); [apply nobody_waits_step|apply nobody_waits_moves|].
    clear Hl Hm. remember (uploads cfg ins s0) as w0 eqn:Hw0.
    induction Hr as [w|w es w1 e w2 _ IH Hs]; [|by eapply nobody_waits_step; [apply IH|]].
    subst w. intros j p (i & -> & _)%list_lookup_fmap_Some. by apply r_Write_lockless.
  - pose proof (r_Writes_outside ins Hq) as Hout.
    apply (pool_finishes _ _ (λ w, locks_apart (pl_state w)
      ∧ mutex_inv (@u_handle R) mu_held takes_mu drops_mu (map (r_Write cfg) ins) s0 w)).
    + intros w1 e w2 HI Hs. eapply mutex_run; [exact upload_mutex|exact Hout|exact HI|].
      apply (pool_snoc _ _ w1 [] w1); [constructor|exact Hs].
    + intros w1 [_ HI]. eapply mutex_moves; [exact upload_mutex|exact upload_waits|exact Hout|exact HI].
    + eapply mutex_run; [exact upload_mutex|exact Hout| |exact Hr]. split; [done|].
      apply mutex_inv_start. by apply bool_decide_eq_false.
Qed.
End quota.

(** ** Instances: two uploads of one new file *)

Definition race_input (text : string) : Input :=
  {| RelPath := "new"; Data := bytes_of_string text; Overwrite := false; Mode := 416 |}.
Definition race_inputs : list Input := [race_input "first"; race_input "second"].

(** Turn and turn about, often enough. *)
Definition in_turns : list nat := concat (replicate 24 [0%nat; 1%nat]).

Definition race (total : Z) : list (pevent (E:=ucall)) * upool :=
  pool_play (@u_handle up_root) (@u_enabled up_root) in_turns (uploads (up_cfg total) race_inputs up_state).

Definition race_end (total : Z) : list (option (result uerr Result)) * option entry :=
  (map (λ p, match p with Done r => Some r | Do _ _ => None end) (pl_progs (race total).2),
   fs_tree (pl_state (race total).2) !! (up_root ++ ["new"%string])).

Lemma race_is total :
  pool_run (@u_handle up_root) (@u_enabled up_root) (uploads (up_cfg total) race_inputs up_state)
    (race total).1 (race total).2.
Proof. exact (pool_play_run (@u_handle up_root) (@u_enabled up_root) in_turns _). Qed.

(** Without a quota both are told that they have made a new file: the answer
    [overwritten=false] of the first is a file that is gone. *)
Example both_create_one_file :
  race_end 0 =
    ([Some (Ok {| res_RelPath := "new"; res_Size := 5; res_Overwritten := false; res_Mode := 416 |});
      Some (Ok {| res_RelPath := "new"; res_Size := 6; res_Overwritten := false; res_Mode := 416 |})],
     Some (EFile 416 (bytes_of_string "second"))).
Proof. vm_compute. reflexivity. Qed.

(** With a quota the second waits, and is refused. *)
Example one_creates_it :
  race_end 1000 =
    ([Some (Ok {| res_RelPath := "new"; res_Size := 5; res_Overwritten := false; res_Mode := 416 |});
      Some (Err ErrExists)],
     Some (EFile 416 (bytes_of_string "first"))).
Proof. vm_compute. reflexivity. Qed.

Lemma race_all_done total :
  forallb (λ p, match p with Done _ => true | Do _ _ => false end) (pl_progs (race total).2) = true →
  all_done (race total).2.
Proof.
  intros H j p Hj. rewrite forallb_forall in H.
  assert (In p (pl_progs (race total).2)) as Hin by by eapply list_elem_of_In, list_elem_of_lookup_2.
  specialize (H p Hin). destruct p as [r|X a k]; [by exists r|done].
Qed.

Lemma up_state_locks : locks_apart up_state ∧ rootMutex up_root ∉ os_locks (fs_os up_state).
Proof. split; [apply NoDup_nil_2|apply not_elem_of_nil]. Qed.

Lemma quota_uploads_serializable_witness :
  ∃ o, in_turn (up_cfg 1000) race_inputs up_state o (pl_state (race 1000).2) ∧ o.*1 ≡ₚ [0%nat; 1%nat].
Proof.
  destruct up_state_locks as [H1 H2].
  destruct (quota_uploads_serializable (up_cfg 1000) race_inputs up_state (race 1000).1 (race 1000).2)
    as (o & Ho & Hp & _).
  - discriminate.
  - exact H1.
  - exact H2.
  - exact (race_is 1000).
  - apply race_all_done. vm_compute. reflexivity.
  - exists o. split; [exact Ho|exact Hp].
Defined.

Lemma uploads_finish_witness :
  ∃ es w, pool_run (@u_handle up_root) (@u_enabled up_root) (uploads (up_cfg 1000) race_inputs up_state) es w
    ∧ all_done w.
Proof.
  destruct up_state_locks as [H1 H2].
  exact (proj1 (uploads_finish (up_cfg 1000) race_inputs up_state [] _ H1 H2 (pool_nil _ _ _))).
Defined.
