(* ===== verification/UploadRacesTrees.v ===== *)
(** * UploadRacesTrees: the trees that interleaved uploads go through.

    Every program keeps a temp file whose name nobody else uses, fills it and
    renames it when it is complete.  So at every moment of every interleaving a
    file below the root is one of those from before, a complete file of one of
    the uploads, or a temp file; and no file from before is lost or torn. *)

From S2P Require Import Prelude Interleave GoText GoEncoding GoPath GoOs GoFs FileUpload FileUploadProofs FileUploadTheorems UploadRaces UploadRacesTheorems.
Open Scope Z_scope.
Open Scope go_scope.
Open Scope prog_scope.

(** ** Paths *)

Lemma hex_digit_no_slash n : 0 ≤ n < 16 → hex_digit n ≠ slash.
Proof.
  intros H. assert (n ∈ seqZ 0 16) as Hin by (apply elem_of_seqZ; lia).
  clear H. revert n Hin. apply Forall_forall. repeat constructor; done.
Qed.

Lemma hex_encode_no_slash b : has_char slash (hex_encode b) = false.
Proof.
  induction b as [|x b IH]; [done|]. simpl. unfold has_char in *. simpl. pose proof (byte_val_range x).
  rewrite !bool_decide_eq_false_2; [done| |];
    apply hex_digit_no_slash; [apply Z.mod_pos_bound; lia|split; [apply Z.div_pos|apply Z.div_lt_upper_bound]; lia].
Qed.

Lemma tmp_name_good b : good_comp (".raxd-upload-" +:+ hex_encode b).
Proof.
  split_and!; [done..|]. pose proof (hex_encode_no_slash b) as H. unfold has_char in *. simpl.
  repeat (rewrite bool_decide_eq_false_2 by done; simpl). exact H.
Qed.

Lemma tmp_rel_parts d n : good_comp n → ∃ x, root_parts (tmp_rel d n) = x ++ [n].
Proof.
  intros Hn. unfold tmp_rel, root_parts. destruct (_ && _); [by exists (comps d); apply comps_in_dir|].
  exists []. unfold comps. destruct Hn as (H1 & H2 & H3). rewrite split_no_sep by done. simpl.
  apply String.eqb_neq in H1, H2. by rewrite H1, H2.
Qed.

(** A walk that does not follow the last component ends at it. *)
Lemma walk_last R n T d x c l :
  good_comp c → c ≠ ".."%string → (walk R None false n T d (x ++ [c])).2 = Ok l → List.last l ""%string = c.
Proof.
  intros (_ & Hc1 & _) Hc2. apply String.eqb_neq in Hc1, Hc2. revert T d x.
  induction n as [|n IHn]; intros T d x; revert d; induction x as [|y x IH]; intros d; simpl app;
    rewrite walk_eq; cbn zeta.
  1, 3: rewrite Hc1, Hc2; destruct (T !! (R ++ d ++ [c])) as [[| | |]|]; rewrite ?walk_eq; simpl;
    intros [= <-]; apply List.last_last.
  all: destruct (String.eqb y "."); [apply IH|].
  all: destruct (String.eqb y ".."); [destruct d; [done|apply IH]|].
  all: assert (match x ++ [c] with [] => true | _ => false end = false) as -> by (by destruct x); simpl.
  all: destruct (T !! (R ++ d ++ [y])) as [[| |t|]|]; try done; [apply IH|].
  all: destruct (is_abs t); [done|]. 1: done. rewrite app_assoc. apply IHn.
Qed.

Lemma resolve_last R T p x c l :
  root_parts p = x ++ [c] → good_comp c → c ≠ ".."%string →
  (resolve R None false T p).2 = Ok l → List.last l ""%string = c.
Proof.
  intros Hp Hc Hd. unfold resolve. destruct (String.eqb p ""); [done|]. destruct (is_abs p); [done|].
  rewrite Hp. by apply walk_last.
Qed.

(** Where the components of a walk come from. *)
Section sources.
Variables (R : loc) (P : string → Prop).

Definition links_from (T : tree) : Prop := ∀ k t, T !! k = Some (ELink t) → Forall P (root_parts t).
Definition keys_from (T T' : tree) : Prop :=
  ∀ k, T' !! k = T !! k ∨ ∃ l, k = R ++ l ∧ Forall P l.

Lemma keys_from_refl T : keys_from T T.
Proof. by left. Qed.
Lemma keys_from_trans T1 T2 T3 : keys_from T1 T2 → keys_from T2 T3 → keys_from T1 T3.
Proof. intros H1 H2 k. destruct (H2 k) as [->|?]; [apply H1|by right]. Qed.
Lemma keys_from_insert T l e : Forall P l → keys_from T (<[R ++ l := e]> T).
Proof.
  intros Hl k. destruct (decide (k = R ++ l)) as [->|Hne]; [right; by exists l|].
  left. by rewrite lookup_insert_ne.
Qed.

Lemma links_from_insert T k m : links_from T → links_from (<[k := EDir m]> T).
Proof. intros H k' t [[_ [=]]|[_ Hk]]%lookup_insert_Some. by eapply H. Qed.

Lemma walk_from mk follow n T d rest :
  links_from T → Forall P d → Forall P rest →
  let (T', r) := walk R mk follow n T d rest in
  keys_from T T' ∧ ∀ l, r = Ok l → Forall P l.
Proof.
  revert T d rest. induction n as [|n IHn]; intros T d rest; revert T d;
    induction rest as [|c rest IH]; intros T d HT Hd Hr; rewrite walk_eq; cbn zeta;
    try (split; [apply keys_from_refl|by intros l [= <-]]).
  all: apply Forall_cons in Hr as [Hc Hr]; assert (Forall P (d ++ [c])) as Hdc by
    (apply Forall_app; split; [done|by constructor]).
  all: destruct (String.eqb c "."); [by apply IH|].
  all: destruct (String.eqb c ".."); [destruct d as [|y d]; [by split; [apply keys_from_refl|]|];
    apply IH; [done| |done]; apply Forall_forall; intros z Hz;
    rewrite Forall_forall in Hd; apply Hd; rewrite removelast_firstn_len in Hz; by apply elem_of_take in Hz as (? & ?%list_elem_of_lookup_2 & _)|].
  all: destruct (T !! (R ++ d ++ [c])) as [[| |t|]|] eqn:ET;
    try (destruct rest; by (split; [apply keys_from_refl|by intros l [= <-]])); try by apply IH.
  all: try (destruct (_ && _); [by split; [apply keys_from_refl|intros l [= <-]]|];
    destruct (is_abs t); [by split; [apply keys_from_refl|]|]).
  1: by split; [apply keys_from_refl|].
  2: apply IHn; [done|done|apply Forall_app; split; [by eapply HT|done]].
  all: destruct rest as [|c' rest']; [by split; [apply keys_from_refl|intros l [= <-]]|].
  all: destruct mk as [m|]; [|by split; [apply keys_from_refl|]].
  all: pose proof (IH (<[R ++ d ++ [c] := EDir m]> T) (d ++ [c]) (links_from_insert _ _ _ HT) Hdc Hr) as H;
    destruct (walk R _ _ _ _ _ _) as [T' r]; destruct H as [H1 H2]; split; [|done];
    eapply keys_from_trans; [|exact H1]; by apply keys_from_insert.
Qed.

Lemma resolve_from mk follow T p :
  links_from T → Forall P (root_parts p) →
  let (T', r) := resolve R mk follow T p in keys_from T T' ∧ ∀ l, r = Ok l → Forall P l.
Proof.
  intros HT Hp. unfold resolve. destruct (String.eqb p ""); [by split; [apply keys_from_refl|]|].
  destruct (is_abs p); [by split; [apply keys_from_refl|]|]. by apply walk_from.
Qed.
End sources.

(** ** The temp file of a program *)

(** What a program has: nothing yet, a name, a file of that name at a location
    with a mode and a content, or a name whose file is gone. *)
Inductive temp := TNone | TName (n : string) | TFile (n : string) (h : loc) (m : Z) (d : bytes) | TOver (n : string).

Definition temp_name (g : temp) : option string :=
  match g with TNone => None | TName n | TFile n _ _ _ | TOver n => Some n end.

(** The program of the upload [i] deals with its own temp file only, and renames
    it when it is complete. *)
Fixpoint tidy (i : Input) (g : temp) {A} (p : Interleave.prog ucall A) : Prop :=
  match p with
  | Done _ => True
  | @Do _ _ X a k =>
      match a in ucall X return (temp → X → Prop) → Prop with
      | UTmpName => λ t, g = TNone ∧ ∀ n, t (TName n) n
      | UCreate q m => λ t, m = 384 ∧ ∃ n, g = TName n ∧ q = tmp_rel (dir (RelPath i)) n
          ∧ ∀ r, match r with Ok h => t (TFile n h m []) r | Err _ => t g r end
      | UChmod h m => λ t, m = Mode i ∧ ∃ n m0 d, g = TFile n h m0 d
          ∧ ∀ r, match r with Ok _ => t (TFile n h m d) r | Err _ => t g r end
      | UFill h data => λ t, data = Data i ∧ ∃ n m, g = TFile n h m []
          ∧ ∀ r, match r with Ok _ => t (TFile n h m data) r | Err _ => ∀ d, t (TFile n h m d) r end
      | URename a b => λ t, b = RelPath i ∧ ∃ n h, g = TFile n h (Mode i) (Data i)
          ∧ a = tmp_rel (dir (RelPath i)) n
          ∧ ∀ r, match r with Ok _ => t (TOver n) r | Err _ => t g r end
      | URemove q => λ t, ∃ n h m d, g = TFile n h m d ∧ q = tmp_rel (dir (RelPath i)) n
          ∧ ∀ r, match r with Ok _ => t (TOver n) r | Err _ => t g r end
      | UMkdirAll q _ => λ t, q = dir (RelPath i) ∧ ∀ r, t g r
      | _ => λ t, ∀ x, t g x
      end (λ g' x, tidy i g' (k x))
  end.

Lemma tidy_pbind {A B} i g (p : Interleave.prog ucall A) (k : A → Interleave.prog ucall B) :
  tidy i g p → (∀ g' a, tidy i g' (k a)) → tidy i g (pbind p k).
Proof.
  intros Hp Hk. revert g Hp. induction p as [a|X a k' IH]; intros g Hp; simpl in Hp |- *; [apply Hk|].
  destruct a; eauto.
  - destruct Hp; eauto.
  - destruct Hp; eauto.
  - destruct Hp as (-> & n & -> & -> & Hr). split; [done|]. exists n. split_and!; [done..|].
    intros r. specialize (Hr r). destruct r; eauto.
  - destruct Hp as (-> & n & m0 & d & -> & Hr). split; [done|]. exists n, m0, d. split; [done|].
    intros r. specialize (Hr r). destruct r; eauto.
  - destruct Hp as (-> & n & m0 & -> & Hr). split; [done|]. exists n, m0. split; [done|].
    intros r. specialize (Hr r). destruct r; eauto.
  - destruct Hp as (-> & n & h & -> & -> & Hr). split; [done|]. exists n, h. split_and!; [done..|].
    intros r. specialize (Hr r). destruct r; eauto.
  - destruct Hp as (n & h & m & d & -> & -> & Hr). exists n, h, m, d. split_and!; [done..|].
    intros r. specialize (Hr r). destruct r; eauto.
Qed.

Section programs.
Variables (cfg : Config) (i : Input).

Lemma r_discard_tidy n h m d e : tidy i (TFile n h m d) (r_discard (tmp_rel (dir (RelPath i)) n) e).
Proof. intros r. exists n, h, m, d. split_and!; [done..|]. by intros []. Qed.

Lemma r_doWrite_tidy ow : tidy i TNone (r_doWrite (dir (RelPath i)) i ow).
Proof.
  split; [done|]. intros n. split; [done|]. exists n. split_and!; [done..|]. intros [h|e]; [|done].
  split; [done|]. exists n, 384, []. split; [done|]. intros [[]|e]; [|apply r_discard_tidy].
  split; [done|]. exists n, (Mode i). split; [done|]. intros [[]|e]; [|intros d; apply r_discard_tidy].
  intros [[]|e]; [|apply r_discard_tidy]. intros [[]|e]; [|apply r_discard_tidy].
  split; [done|]. exists n, h. split_and!; [done..|]. intros [[]|e]; [done|apply r_discard_tidy].
Qed.

Lemma r_with_dir_tidy p : tidy i TNone p → tidy i TNone (r_with_dir (dir (RelPath i)) p).
Proof. intros Hp. unfold r_with_dir. destruct (needs_dir _); [|done]. split; [done|]. by intros [|]. Qed.

Lemma r_writeWithQuota_tidy : tidy i TNone (r_writeWithQuota cfg i).
Proof.
  assert (∀ ow n, tidy i TNone (r_approve cfg i ow n)) as Ha.
  { intros ow n [c|e]; [|done]. destruct (_ <? _); [done|]. apply r_with_dir_tidy, r_doWrite_tidy. }
  intros [[]|e]; [|done]. intros [fi|e]; [|apply Ha]. destruct (fi_isdir fi); [done|].
  destruct (negb _); [done|apply Ha].
Qed.

Lemma r_writeUnderRoot_tidy : tidy i TNone (r_writeUnderRoot cfg i).
Proof.
  intros [[]|e]; [|done]. apply r_with_dir_tidy. intros [fi|e]; [|apply r_doWrite_tidy].
  destruct (fi_isdir fi); [done|]. destruct (negb _); [done|apply r_doWrite_tidy].
Qed.

Lemma r_Write_tidy : tidy i TNone (r_Write cfg i).
Proof.
  unfold r_Write. destruct (_ <? _); [done|]. destruct (negb _); [done|].
  destruct (_ =? 0); [apply r_writeUnderRoot_tidy|].
  intros []. apply tidy_pbind; [apply r_writeWithQuota_tidy|done].
Qed.
End programs.

(** ** What a call does to the tree *)

Section effects.
Variable R : loc.

Definition rewritten (h : loc) (f : Z → bytes → entry) (T : tree) : tree :=
  match T !! h with Some (EFile m d) => <[h := f m d]> T | _ => T end.

(** A path names an entry other than the root. *)
Definition names (T : tree) (p : string) (l : loc) : Prop :=
  (resolve R None false T p).2 = Ok l ∧ l ≠ [].

Definition effect {X} (a : ucall X) : X → tree → tree → Prop :=
  match a in ucall X return X → tree → tree → Prop with
  | UMkdirAll p m => λ _ T T', T' = T ∨ ∃ T1 r, resolve R (Some m) true T p = (T1, r)
      ∧ (T' = T1 ∨ ∃ l, r = Ok l ∧ T1 !! (R ++ l) = None ∧ T' = <[R ++ l := EDir m]> T1)
  | UCreate p m => λ r T T', match r with
      | Ok h => ∃ l, names T p l ∧ h = R ++ l ∧ T !! h = None ∧ T' = <[h := EFile m []]> T
      | Err _ => T' = T
      end
  | UTmpName => λ n T T', T' = T ∧ ∃ b, n = ".raxd-upload-" +:+ hex_encode b
  | UChmod h m => λ r T T', match r with Ok _ => T' = rewritten h (λ _ d, EFile m d) T | Err _ => T' = T end
  | UFill h data => λ r T T', match r with
      | Ok _ => T' = rewritten h (λ m d, EFile m (d ++ data)) T
      | Err _ => ∃ k, T' = rewritten h (λ m d, EFile m (d ++ take k data)) T
      end
  | URename a b => λ r T T', match r with
      | Ok _ => ∃ la lb m d, names T a la ∧ names T b lb ∧ T !! (R ++ la) = Some (EFile m d)
          ∧ (∀ m', T !! (R ++ lb) ≠ Some (EDir m'))
          ∧ T' = <[R ++ lb := EFile m d]> (delete (R ++ la) T)
      | Err _ => T' = T
      end
  | URemove p => λ r T T', match r with
      | Ok _ => ∃ l, names T p l ∧ T !! (R ++ l) ≠ None ∧ T' = delete (R ++ l) T
      | Err _ => T' = T
      end
  | _ => λ _ T T', T' = T
  end.

Lemma wp_update_rewritten h f (Q : unit → fsys → Prop) s :
  (∀ s', fs_tree s' = rewritten h f (fs_tree s) → Q tt s') → wp (update_at h f) Q s.
Proof.
  intros HQ. unfold wp, update_at, rewritten in *.
  destruct (fs_tree s !! h) as [[]|] eqn:E; apply HQ; rewrite ?E; done.
Qed.

Lemma u_handle_effect X (a : ucall X) s :
  wp (u_handle R a) (λ x s', effect a x (fs_tree s) (fs_tree s')) s.
Proof.
  destruct a; simpl u_handle; try done; try (split; [done|by eexists]).
  - by apply wp_fs_fallible.
  - apply wp_fs_fallible; [done|]. intros fl. apply wp_bind, wp_gets. simpl.
    repeat case_match; by apply wp_ret.
  - by apply wp_fs_fallible.
  - apply wp_fs_fallible; [by left|]. intros fl. apply wp_bind, wp_gets. simpl.
    destruct (resolve R (Some mode) true (fs_tree s) p) as [T1 r] eqn:E.
    destruct r as [l|e]; [|apply wp_bind, wp_modify, wp_ret; right; exists T1, (Err e); auto].
    destruct (lookup_loc R T1 l) as [x|] eqn:El.
    + destruct x; apply wp_bind, wp_modify, wp_ret; right; exists T1, (Ok l); auto.
    + apply wp_bind, wp_modify, wp_ret. right. exists T1, (Ok l). split; [done|]. right. exists l.
      rewrite lookup_loc_ne in El; [auto|]. by intros ->.
  - apply wp_fs_fallible; [done|]. intros fl. apply wp_bind, wp_gets. simpl.
    destruct (resolve R None false (fs_tree s) p).2 as [l|e] eqn:E; [|by apply wp_ret].
    destruct (has_trailing_slash p); [by apply wp_ret|].
    destruct (lookup_loc R (fs_tree s) l) as [x|] eqn:El; [by apply wp_ret|].
    assert (l ≠ []) as Hl by (by intros ->). rewrite lookup_loc_ne in El by done.
    apply wp_bind, wp_modify, wp_ret. exists l. by split_and!.
  - apply wp_fs_fallible; [done|]. intros fl. by apply wp_bind, wp_update_rewritten.
  - apply wp_bind, wp_fs_next_fault. intros fl [f|]; apply wp_bind, wp_update_rewritten; intros s' Hs'; [|done].
    by exists (fault_written f).
  - by apply wp_fs_fallible.
  - by apply wp_fs_fallible.
  - apply wp_fs_fallible; [done|]. intros fl. apply wp_bind, wp_gets. simpl.
    destruct (resolve R None false (fs_tree s) a).2 as [la|e] eqn:Ea; [|by apply wp_ret].
    destruct (resolve R None false (fs_tree s) b).2 as [lb|e] eqn:Eb; [|by apply wp_ret].
    destruct (lookup_loc R (fs_tree s) la) as [[m d| | |]|] eqn:Ela; try by apply wp_ret.
    assert (la ≠ []) as Hla by (by intros ->). rewrite lookup_loc_ne in Ela by done.
    destruct (decide (lb = [])) as [->|Hlb]; [by apply wp_ret|]. rewrite lookup_loc_ne by done.
    destruct (has_trailing_slash b); [by destruct (fs_tree s !! (R ++ lb)) as [[]|]; apply wp_ret|].
    destruct (fs_tree s !! (R ++ lb)) as [[]|] eqn:E; try (by apply wp_ret);
      (apply wp_bind, wp_modify, wp_ret; exists la, lb, m, d; split_and!; [done..| |done]; congruence).
  - apply wp_fs_fallible; [done|]. intros fl. apply wp_bind, wp_gets. simpl.
    destruct (resolve R None false (fs_tree s) p).2 as [l|e] eqn:E; [|by apply wp_ret].
    destruct (decide (l = [])) as [->|Hl]; [by apply wp_ret|]. rewrite lookup_loc_ne by done.
    destruct (fs_tree s !! (R ++ l)) as [[]|] eqn:El; try (by apply wp_ret);
      (apply wp_bind, wp_modify, wp_ret; exists l; split; [done|]; split; [congruence|done]).
Qed.
End effects.

(** ** The invariant *)

Lemma last_in (l : loc) c : l ≠ [] → List.last l ""%string = c → c ∈ l.
Proof.
  intros Hl <-. destruct l as [|x l _] using rev_ind; [done|].
  rewrite List.last_last. apply elem_of_app. right. by apply list_elem_of_singleton.
Qed.

Lemma last_below (R l : loc) : l ≠ [] → List.last (R ++ l) ""%string = List.last l ""%string.
Proof. destruct l as [|x l _] using rev_ind; [done|]. by rewrite app_assoc, !List.last_last. Qed.

Section invariant.
Variables (R : loc) (ins : list Input) (T0 : tree).

(** The components that occur in the root, the paths of the uploads and the tree
    from before. *)
Definition known (c : string) : Prop :=
  c ∈ R
  ∨ (∃ i, i ∈ ins ∧ (c ∈ root_parts (RelPath i) ∨ c ∈ root_parts (dir (RelPath i))))
  ∨ ∃ k e, T0 !! k = Some e ∧ (c ∈ k ∨ ∃ t, e = ELink t ∧ c ∈ root_parts t).

(** An entry from before, a new directory, or a complete file of an upload. *)
Inductive settled (k : loc) : entry → Prop :=
| SBefore e : T0 !! k = Some e → settled k e
| SDir m : T0 !! k = None → settled k (EDir m)
| SWhole i : i ∈ ins → (∀ m, T0 !! k ≠ Some (EDir m)) → settled k (EFile (Mode i) (Data i)).

Record whole (T : tree) (gs : list temp) : Prop := {
  wh_entries k e : T !! k = Some e →
    (settled k e ∧ Forall known k) ∨ ∃ j n m d, gs !! j = Some (TFile n k m d) ∧ e = EFile m d;
  wh_kept k e : T0 !! k = Some e → is_Some (T !! k);
  wh_temps j n h m d : gs !! j = Some (TFile n h m d) →
    T !! h = Some (EFile m d) ∧ h ≠ [] ∧ List.last h ""%string = n;
}.

(** The names of the temp files: new, and one for each. *)
Definition named (gs : list temp) : Prop :=
  (∀ j g n, gs !! j = Some g → temp_name g = Some n → ¬ known n ∧ good_comp n ∧ n ≠ ".."%string)
  ∧ (∀ j j' g g' n, gs !! j = Some g → gs !! j' = Some g' →
       temp_name g = Some n → temp_name g' = Some n → j = j').

Lemma named_same gs j g g' :
  gs !! j = Some g → temp_name g' = temp_name g → named gs → named (<[j := g']> gs).
Proof.
  intros Hj Hn [H1 H2]. assert (∀ j' x, <[j := g']> gs !! j' = Some x →
    ∃ y, gs !! j' = Some y ∧ temp_name x = temp_name y) as Hback.
  { intros j' x [(-> & <- & _)|[_ Hx]]%list_lookup_insert_Some; eauto. }
  split.
  - intros j' x n (y & Hy & ->)%Hback Hx. by eapply H1.
  - intros j1 j2 x x' n (y & Hy & ->)%Hback (y' & Hy' & ->)%Hback Hx Hx'. by eapply H2.
Qed.

Lemma named_new gs j n :
  gs !! j = Some TNone → ¬ known n → good_comp n → n ≠ ".."%string →
  (∀ j' g, gs !! j' = Some g → temp_name g ≠ Some n) → named gs → named (<[j := TName n]> gs).
Proof.
  intros Hj Hk Hg Hd Hnew [H1 H2]. split.
  - intros j' x n' [(-> & <- & _)|[_ Hx]]%list_lookup_insert_Some; [|by eapply H1]. by intros [= <-].
  - intros j1 j2 x x' n' [(-> & <- & _)|[Hne Hx]]%list_lookup_insert_Some
      [(-> & <- & _)|[Hne' Hx']]%list_lookup_insert_Some; try done.
    + intros [= <-] Hn. by destruct (Hnew _ _ Hx').
    + intros Hn [= <-]. by destruct (Hnew _ _ Hx).
    + by eapply H2.
Qed.

Section step.
Variables (T : tree) (gs : list temp).
Hypotheses (Hw : whole T gs) (Hn : named gs).

Lemma whole_links : links_from known T.
Proof.
  intros k t Hk. destruct (wh_entries _ _ Hw _ _ Hk) as [[Hs _]|(j & n & m & d & _ & [=])].
  apply Forall_forall. intros c Hc. inversion Hs as [e He| |]; subst. right; right. eauto 10.
Qed.

Lemma known_root l : Forall known l → Forall known (R ++ l).
Proof. intros Hl. apply Forall_app. split; [|done]. apply Forall_forall. intros c Hc. by left. Qed.

(** Only its temp file has the name of a program. *)
Lemma whole_only j n h m d k e :
  gs !! j = Some (TFile n h m d) → T !! k = Some e → k ≠ [] → List.last k ""%string = n → k = h.
Proof.
  intros Hj Hk Hne Hl. destruct Hn as [H1 H2]. destruct (H1 _ _ n Hj eq_refl) as [Hnk _].
  destruct (wh_entries _ _ Hw _ _ Hk) as [[_ Hkn]|(j' & n' & m' & d' & Hj' & _)].
  - destruct Hnk. rewrite Forall_forall in Hkn. by apply Hkn, last_in.
  - destruct (wh_temps _ _ Hw _ _ _ _ _ Hj') as (_ & _ & Hl').
    assert (j = j') as -> by (eapply (H2 _ _ _ _ n Hj Hj'); [done|simpl; congruence]). congruence.
Qed.

Lemma temp_new j n h m d : gs !! j = Some (TFile n h m d) → T0 !! h = None ∧ ¬ Forall known h.
Proof.
  intros Hj. destruct (wh_temps _ _ Hw _ _ _ _ _ Hj) as (_ & Hh & Hl).
  destruct (proj1 Hn _ _ n Hj eq_refl) as [Hk _]. pose proof (last_in _ _ Hh Hl) as Hin. split.
  - destruct (T0 !! h) as [e|] eqn:E; [|done]. destruct Hk. right; right. eauto 10.
  - intros Hf. rewrite Forall_forall in Hf. by apply Hk, Hf.
Qed.

(** Another program has another temp file. *)
Lemma temps_apart j j' n n' h m m' d d' :
  gs !! j = Some (TFile n h m d) → gs !! j' = Some (TFile n' h m' d') → j = j'.
Proof.
  intros Hj Hj'. destruct (wh_temps _ _ Hw _ _ _ _ _ Hj) as (_ & _ & Hl).
  destruct (wh_temps _ _ Hw _ _ _ _ _ Hj') as (_ & _ & Hl').
  eapply (proj2 Hn _ _ _ _ n Hj Hj'); simpl; congruence.
Qed.

Lemma whole_dirs T' : dirs_added R T T' → keys_from R known T T' → whole T' gs.
Proof.
  intros Hd Hk. split.
  - intros k e He. destruct (Hd k) as [Heq|(HN & [m Hm] & _)]; [rewrite Heq in He; by apply (wh_entries _ _ Hw)|].
    left. rewrite Hm in He. injection He as <-. split.
    + apply SDir. destruct (T0 !! k) as [e|] eqn:E; [|done].
      destruct (wh_kept _ _ Hw _ _ E) as [x Hx]. congruence.
    + destruct (Hk k) as [Heq|(l & -> & Hl)]; [congruence|by apply known_root].
  - intros k e He. destruct (wh_kept _ _ Hw _ _ He) as [x Hx].
    destruct (Hd k) as [->|(HN & _)]; [by exists x|congruence].
  - intros j n h m d Hj. destruct (wh_temps _ _ Hw _ _ _ _ _ Hj) as (Hh & Hrest). split; [|done].
    destruct (Hd h) as [->|(HN & _)]; [done|congruence].
Qed.

Lemma whole_name j n : gs !! j = Some TNone → whole T (<[j := TName n]> gs).
Proof.
  intros Hj. split.
  - intros k e He. destruct (wh_entries _ _ Hw _ _ He) as [H|(j' & n' & m & d & Hj' & ->)]; [by left|].
    right. exists j', n', m, d. rewrite list_lookup_insert_ne; [done|]. intros <-. congruence.
  - apply (wh_kept _ _ Hw).
  - intros j' n' h m d [(_ & [=] & _)|[_ Hj']]%list_lookup_insert_Some. by apply (wh_temps _ _ Hw j').
Qed.

(** The temp file of [j] appears or changes. *)
Lemma whole_file j n h m d g :
  gs !! j = Some g → T !! h = None ∧ g = TName n ∨ (∃ m0 d0, g = TFile n h m0 d0) →
  h ≠ [] → List.last h ""%string = n → whole (<[h := EFile m d]> T) (<[j := TFile n h m d]> gs).
Proof.
  intros Hj Hg Hh Hl. pose proof (lookup_lt_Some _ _ _ Hj) as Hlt. split.
  - intros k e [[<- <-]|[Hne He]]%lookup_insert_Some.
    { right. exists j, n, m, d. by rewrite list_lookup_insert_eq. }
    destruct (wh_entries _ _ Hw _ _ He) as [H|(j' & n' & m' & d' & Hj' & ->)]; [by left|].
    right. exists j', n', m', d'. rewrite list_lookup_insert_ne; [done|]. intros <-.
    destruct Hg as [[_ ->]|(m0 & d0 & ->)]; congruence.
  - intros k e He. destruct (decide (h = k)) as [->|Hne]; [rewrite lookup_insert_eq; eauto|].
    rewrite lookup_insert_ne by done. by eapply (wh_kept _ _ Hw).
  - intros j' n' h' m' d' [(-> & [= <- <- <- <-] & _)|[Hne Hj']]%list_lookup_insert_Some.
    { by rewrite lookup_insert_eq. }
    destruct (wh_temps _ _ Hw _ _ _ _ _ Hj') as (Hh' & Hrest). split; [|done].
    rewrite lookup_insert_ne; [done|]. intros <-. destruct Hg as [[HN _]|(m0 & d0 & ->)]; [congruence|].
    by destruct Hne, (temps_apart _ _ _ _ _ _ _ _ _ Hj Hj').
Qed.

(** It goes away. *)
Lemma whole_gone j n h m d : gs !! j = Some (TFile n h m d) → whole (delete h T) (<[j := TOver n]> gs).
Proof.
  intros Hj. destruct (temp_new _ _ _ _ _ Hj) as [HN _]. split.
  - intros k e [Hne He]%lookup_delete_Some.
    destruct (wh_entries _ _ Hw _ _ He) as [H|(j' & n' & m' & d' & Hj' & ->)]; [by left|].
    right. exists j', n', m', d'. rewrite list_lookup_insert_ne; [done|]. intros <-. congruence.
  - intros k e He. rewrite lookup_delete_ne by congruence. by eapply (wh_kept _ _ Hw).
  - intros j' n' h' m' d' [(_ & [=] & _)|[Hne Hj']]%list_lookup_insert_Some.
    destruct (wh_temps _ _ Hw _ _ _ _ _ Hj') as (Hh' & Hrest). split; [|done].
    rewrite lookup_delete_ne; [done|]. intros <-. by destruct Hne, (temps_apart _ _ _ _ _ _ _ _ _ Hj Hj').
Qed.

(** A complete file is put at a known place that is no directory. *)
Lemma whole_put i k :
  i ∈ ins → Forall known k → (∀ m, T !! k ≠ Some (EDir m)) → whole (<[k := EFile (Mode i) (Data i)]> T) gs.
Proof.
  intros Hi Hk Hd. split.
  - intros k' e [[<- <-]|[Hne He]]%lookup_insert_Some; [|by apply (wh_entries _ _ Hw)].
    left. split; [|done]. apply SWhole; [done|]. intros m Hm.
    destruct (wh_kept _ _ Hw _ _ Hm) as [x Hx].
    destruct (wh_entries _ _ Hw _ _ Hx) as [[Hs _]|(j & n & m' & d & Hj & _)].
    + destruct Hs as [e He|m' HN|i' _ Hnd]; [|congruence|by apply (Hnd m)]. apply (Hd m). congruence.
    + destruct (temp_new _ _ _ _ _ Hj). congruence.
  - intros k' e He. destruct (decide (k = k')) as [->|Hne]; [rewrite lookup_insert_eq; eauto|].
    rewrite lookup_insert_ne by done. by eapply (wh_kept _ _ Hw).
  - intros j n h m d Hj. destruct (wh_temps _ _ Hw _ _ _ _ _ Hj) as (Hh & Hrest). split; [|done].
    rewrite lookup_insert_ne; [done|]. intros ->. by destruct (temp_new _ _ _ _ _ Hj).
Qed.

(** *** The calls that concern a temp file *)

Lemma temp_path j g n d l :
  gs !! j = Some g → temp_name g = Some n → names R T (tmp_rel d n) l →
  R ++ l ≠ [] ∧ List.last (R ++ l) ""%string = n.
Proof.
  intros Hj Hg [Hl Hne]. destruct (proj1 Hn _ _ n Hj Hg) as (_ & Hgood & Hdd).
  destruct (tmp_rel_parts d n Hgood) as [y Hy]. split; [by destruct R, l|].
  rewrite last_below by done. by eapply resolve_last.
Qed.

(** The path of a temp file leads to it, or nowhere. *)
Lemma temp_found j n h m d p l :
  gs !! j = Some (TFile n h m d) → names R T (tmp_rel p n) l → T !! (R ++ l) ≠ None → R ++ l = h.
Proof.
  intros Hj Hl Hsome. destruct (temp_path _ _ _ _ _ Hj eq_refl Hl) as [Hne Hlast].
  destruct (T !! (R ++ l)) as [e|] eqn:E; [|done]. by eapply whole_only.
Qed.

Lemma known_path i p :
  i ∈ ins → p = RelPath i ∨ p = dir (RelPath i) → Forall known (root_parts p).
Proof. intros Hi Hp. apply Forall_forall. intros c Hc. right; left. exists i. destruct Hp as [<-|<-]; auto. Qed.

Lemma whole_mkdirall i m r T' :
  i ∈ ins → effect R (UMkdirAll (dir (RelPath i)) m) r T T' → whole T' gs.
Proof.
  intros Hi [->|(T1 & r1 & Hr & He)]; [done|].
  pose proof (resolve_dirs_added R (Some m) true T (dir (RelPath i))) as Hd.
  pose proof (resolve_from R known (Some m) true T _ whole_links (known_path i _ Hi (or_intror eq_refl))) as Hk.
  rewrite Hr in Hd, Hk. simpl in Hd. destruct Hk as [Hk Hl].
  destruct He as [->|(l & -> & HN & ->)]; [by eapply whole_dirs|].
  eapply whole_dirs; [eapply dirs_added_trans; [exact Hd|by apply dirs_added_insert]|].
  eapply keys_from_trans; [exact Hk|]. by apply keys_from_insert, Hl.
Qed.
End step.


Lemma whole_rename T gs i j n h p la lb m d :
  whole T gs → named gs → i ∈ ins → gs !! j = Some (TFile n h (Mode i) (Data i)) →
  names R T (tmp_rel p n) la → names R T (RelPath i) lb → T !! (R ++ la) = Some (EFile m d) →
  (∀ m', T !! (R ++ lb) ≠ Some (EDir m')) →
  whole (<[R ++ lb := EFile m d]> (delete (R ++ la) T)) (<[j := TOver n]> gs).
Proof.
  intros Hw Hn Hi Hj Hla [Hlb _] Hsome Hnd.
  pose proof (temp_found T gs Hw Hn _ _ _ _ _ _ _ Hj Hla ltac:(congruence)) as Heq. rewrite Heq in *.
  destruct (wh_temps _ _ Hw _ _ _ _ _ Hj) as (Hh & _). rewrite Hh in Hsome. injection Hsome as <- <-.
  pose proof (resolve_from R known None false T _ (whole_links T gs Hw) (known_path i _ Hi (or_introl eq_refl))) as Hk.
  destruct (resolve R None false T (RelPath i)) as [T1 r]. simpl in Hlb. subst r. destruct Hk as [_ Hk].
  apply whole_put; [by eapply whole_gone|by eapply named_same|done|by apply known_root, Hk|].
  intros m' [_ Hm]%lookup_delete_Some. by apply (Hnd m').
Qed.

(** *** Steps of a pool *)

(** Every program deals with the temp file it has. *)
Definition attended_by (ps : list uprog) (gs : list temp) : Prop :=
  ∀ j p, ps !! j = Some p → ∃ i g, ins !! j = Some i ∧ gs !! j = Some g ∧ tidy i g p.

Lemma attended_step ps gs j i g p :
  attended_by ps gs → ins !! j = Some i → tidy i g p → gs !! j ≠ None →
  attended_by (<[j := p]> ps) (<[j := g]> gs).
Proof.
  intros Ha Hi Ht Hg j' p' [(-> & <- & _)|[Hne Hj']]%list_lookup_insert_Some.
  - exists i, g. rewrite list_lookup_insert_eq; [done|]. by apply lookup_lt_is_Some, not_eq_None_Some.
  - destruct (Ha _ _ Hj') as (i' & g' & H1 & H2 & H3). exists i', g'. by rewrite list_lookup_insert_ne.
Qed.

Definition drawn_of (e : pevent (E:=ucall)) : list string :=
  match e with
  | PEv _ a x =>
      match a in ucall X return X → list string with UTmpName => λ n, [n] | _ => λ _, [] end x
  end.

(** The temp file after an action. *)
Lemma tidy_step j i g X (a : ucall X) (k : X → uprog) x T T' gs :
  i ∈ ins → whole T gs → named gs → gs !! j = Some g → tidy i g (Do a k) → effect R a x T T' →
  (∀ n, n ∈ drawn_of (PEv j a x) → (¬ known n) ∧ ∀ j' g', gs !! j' = Some g' → temp_name g' ≠ Some n) →
  ∃ g', tidy i g' (k x) ∧ whole T' (<[j := g']> gs) ∧ named (<[j := g']> gs)
    ∧ ∀ n, temp_name g' = Some n → temp_name g = Some n ∨ n ∈ drawn_of (PEv j a x).
Proof.
  intros Hi Hw Hn Hj Ht He Hnew.
  assert (∀ g', temp_name g' = temp_name g → tidy i g' (k x) → whole T' (<[j := g']> gs) →
    ∃ g', tidy i g' (k x) ∧ whole T' (<[j := g']> gs) ∧ named (<[j := g']> gs)
      ∧ ∀ n, temp_name g' = Some n → temp_name g = Some n ∨ n ∈ drawn_of (PEv j a x)) as Hsame.
  { intros g' Hg' Ht' Hw'. exists g'. split_and!; [done|done|by eapply named_same|]. rewrite Hg'. by left. }
  assert (tidy i g (k x) → T' = T → whole T' (<[j := g]> gs)) as Hstay.
  { intros _ ->. by rewrite list_insert_id. }
  destruct a; simpl in Ht, He; try (subst T'; apply (Hsame g); [done|by apply Ht|by apply Hstay; [apply Ht|]]).
  - destruct Ht as [-> Ht]. apply (Hsame g); [done|apply Ht|]. rewrite list_insert_id by done.
    by eapply whole_mkdirall with (r := x).
  - destruct Ht as [-> Ht]. destruct He as [-> [b ->]]. simpl in Hnew.
    destruct (Hnew _ (list_elem_of_here _ _)) as [Hnk Hfresh]. eexists (TName _). split; [apply Ht|].
    split; [by apply whole_name|]. split; [by apply named_new; [|done|apply tmp_name_good|done|..]|].
    intros n [= <-]. right. by apply list_elem_of_singleton.
  - destruct Ht as (-> & n & -> & -> & Ht). specialize (Ht x). destruct x as [h|e].
    2: { subst T'. by apply (Hsame (TName n)), Hstay. }
    destruct He as (l & Hl & -> & HN & ->). apply (Hsame (TFile n (R ++ l) 384 [])); [done|done|].
    destruct (temp_path T gs Hn _ _ _ _ _ Hj eq_refl Hl) as [Hne Hlast].
    eapply whole_file; [exact Hw|exact Hn|exact Hj|by left|done|done].
  - destruct Ht as (-> & n & m0 & d & -> & Ht). specialize (Ht x).
    destruct (wh_temps _ _ Hw _ _ _ _ _ Hj) as (Hh & Hne & Hl). destruct x as [[]|e].
    2: { subst T'. by apply (Hsame (TFile n h m0 d)), Hstay. }
    apply (Hsame (TFile n h (Mode i) d)); [done|done|]. unfold rewritten in He. rewrite Hh in He. subst T'.
    eapply whole_file; [exact Hw|exact Hn|exact Hj|right; by eexists _, _|done|done].
  - destruct Ht as (-> & n & m & -> & Ht). specialize (Ht x).
    destruct (wh_temps _ _ Hw _ _ _ _ _ Hj) as (Hh & Hne & Hl).
    assert (∃ d, tidy i (TFile n h m d) (k x) ∧ T' = <[h := EFile m d]> T) as (d & Ht' & ->).
    { destruct x as [[]|e]; [|destruct He as [c He]]; unfold rewritten in *; rewrite Hh in He; eauto. }
    apply (Hsame (TFile n h m d)); [done|done|].
    eapply whole_file; [exact Hw|exact Hn|exact Hj|right; by eexists _, _|done|done].
  - destruct Ht as (-> & n & h & -> & -> & Ht). specialize (Ht x). destruct x as [[]|e].
    2: { subst T'. by apply (Hsame (TFile n h (Mode i) (Data i))), Hstay. }
    destruct He as (la & lb & m & d & Hla & Hlb & Hsome & Hnd & ->).
    apply (Hsame (TOver n)); [done|done|]. by eapply whole_rename.
  - destruct Ht as (n & h & m & d & -> & -> & Ht). specialize (Ht x). destruct x as [[]|e].
    2: { subst T'. by apply (Hsame (TFile n h m d)), Hstay. }
    destruct He as (l & Hl & Hsome & ->). apply (Hsame (TOver n)); [done|done|].
    rewrite (temp_found T gs Hw Hn _ _ _ _ _ _ _ Hj Hl Hsome). by apply (whole_gone _ _ Hw Hn _ _ _ _ _ Hj).
Qed.
End invariant.

(** ** Guarantees *)

Definition drawn (es : list (pevent (E:=ucall))) : list string := concat (map drawn_of es).

Lemma drawn_snoc es e : drawn (es ++ [e]) = drawn es ++ drawn_of e.
Proof. unfold drawn. rewrite map_app, concat_app. simpl. by rewrite app_nil_r. Qed.

Section guarantees.
Variables (cfg : Config) (ins : list Input) (s0 : fsys).
Abbreviation R := (UploadRoot cfg).
Abbreviation T0 := (fs_tree s0).

(** The random names of the temp files are new: no two programs draw the same,
    and none occurs in the root, the paths or the tree. *)
Definition fresh_names (es : list (pevent (E:=ucall))) : Prop :=
  NoDup (drawn es) ∧ ∀ n, n ∈ drawn es → ¬ known R ins T0 n.

Lemma fresh_names_prefix es e : fresh_names (es ++ [e]) → fresh_names es.
Proof.
  unfold fresh_names. rewrite drawn_snoc. intros [(H & _ & _)%NoDup_app Hk]. split; [done|].
  intros n Hin. apply Hk, elem_of_app. by left.
Qed.

Lemma run_whole es w :
  pool_run (@u_handle R) (@u_enabled R) (uploads cfg ins s0) es w → fresh_names es →
  ∃ gs, whole R ins T0 (fs_tree (pl_state w)) gs ∧ named R ins T0 gs ∧ attended_by ins (pl_progs w) gs
    ∧ ∀ j g n, gs !! j = Some g → temp_name g = Some n → n ∈ drawn es.
Proof.
  intros Hr. remember (uploads cfg ins s0) as w0 eqn:Hw0. induction Hr as [w|w es w1 e w2 _ IH Hs]; intros Hf.
  - subst w. exists (replicate (length ins) TNone).
    assert (∀ j g, replicate (length ins) TNone !! j = Some g → g = TNone) as Hnone
      by (intros j g [-> _]%lookup_replicate; done).
    split; [|split; [|split]].
    + split; [| |by intros j n h m d Hj%Hnone].
      * intros k e He. left. split; [by constructor|]. apply Forall_forall. intros c Hc. right; right. eauto 10.
      * intros k e He. simpl. eauto.
    + split; [by intros j g n ->%Hnone|by intros j j' g g' n ->%Hnone].
    + intros j p (i & -> & Hj)%list_lookup_fmap_Some. exists i, TNone. split; [done|].
      split; [apply lookup_replicate; split; [done|by eapply lookup_lt_Some]|apply r_Write_tidy].
    + by intros j g n ->%Hnone.
  - destruct (IH Hw0 (fresh_names_prefix _ _ Hf)) as (gs & Hw & Hn & Ha & Hd). clear IH.
    destruct Hf as [Hnd Hk]. rewrite drawn_snoc in Hnd, Hk. apply NoDup_app in Hnd as (_ & Hdis & _).
    destruct Hs as [j X a k x s' Hj _ Hh]. destruct (Ha _ _ Hj) as (i & g & Hi & Hg & Ht).
    pose proof (u_handle_effect R X a (pl_state w1)) as He. unfold wp in He. rewrite Hh in He. simpl in He.
    destruct (tidy_step R ins T0 j i g X a k x (fs_tree (pl_state w1)) (fs_tree s') gs) as (g' & Ht' & Hw' & Hn' & Hd'); try done.
    { by eapply list_elem_of_lookup_2. }
    { intros n Hin. split; [apply Hk, elem_of_app; by right|]. intros j' g' Hg' Hn'.
      by apply (Hdis n); [eapply Hd|]. }
    exists (<[j := g']> gs). rewrite drawn_snoc. split; [done|]. split; [done|]. split.
    + simpl. by eapply attended_step; [| | |rewrite Hg].
    + intros j' y n [(-> & <- & _)|[_ Hy]]%list_lookup_insert_Some Hyn; apply elem_of_app.
      * destruct (Hd' n Hyn) as [|]; [left; by eapply Hd|by right].
      * left. by eapply Hd.
Qed.

(** C17: However uploads interleave, with a quota or without, whatever fails, no
    reader sees part of a file.  As long as the random names of the temp files
    are new, at every moment every entry is one from before, a new directory, a
    complete file of one of the uploads with its mode, or a temp file at a place
    that was free; every directory from before is there; and every file or
    link from before is unchanged or is now such a complete file. *)
Theorem racing_uploads_whole_files es w :
  pool_run (@u_handle R) (@u_enabled R) (uploads cfg ins s0) es w → fresh_names es →
  (∀ k e, fs_tree (pl_state w) !! k = Some e →
     settled ins T0 k e ∨ ∃ m d, e = EFile m d ∧ T0 !! k = None ∧ List.last k ""%string ∈ drawn es)
  ∧ (∀ k e, T0 !! k = Some e → fs_tree (pl_state w) !! k = Some e
       ∨ (∀ m, e ≠ EDir m) ∧ ∃ i, i ∈ ins ∧ fs_tree (pl_state w) !! k = Some (EFile (Mode i) (Data i))).
Proof.
  intros Hr Hf. destruct (run_whole es w Hr Hf) as (gs & Hw & Hn & _ & Hd). split.
  - intros k e He. destruct (wh_entries _ _ _ _ _ Hw _ _ He) as [[Hs _]|(j & n & m & d & Hj & ->)]; [by left|right].
    destruct (wh_temps _ _ _ _ _ Hw _ _ _ _ _ Hj) as (_ & _ & Hl).
    destruct (temp_new _ _ _ _ _ Hw Hn _ _ _ _ _ Hj) as [H0 _].
    exists m, d. split_and!; [done..|]. rewrite Hl. by eapply Hd.
  - intros k e He. destruct (wh_kept _ _ _ _ _ Hw _ _ He) as [x Hx]. rewrite Hx.
    destruct (wh_entries _ _ _ _ _ Hw _ _ Hx) as [[Hs _]|(j & n & m & d & Hj & ->)].
    + destruct Hs as [x Hx'|m HN|i Hi Hnd]; [left; congruence|congruence|].
      right. split; [intros m ->; by apply (Hnd m)|by exists i].
    + destruct (temp_new _ _ _ _ _ Hw Hn _ _ _ _ _ Hj). congruence.
Qed.
End guarantees.

(** ** Instances *)

(** The known components, listed. *)
Definition known_list (R : loc) (ins : list Input) (T0 : tree) : list string :=
  R ++ concat (map (λ i, root_parts (RelPath i) ++ root_parts (dir (RelPath i))) ins)
    ++ concat (map (λ ke, ke.1 ++ match ke.2 with ELink t => root_parts t | _ => [] end) (map_to_list T0)).

Lemma known_in_list R ins T0 c : known R ins T0 c → c ∈ known_list R ins T0.
Proof.
  unfold known_list. rewrite !elem_of_app. intros [H|[(i & Hi & Hc)|(k & e & Hk & Hc)]]; [by left|right; left|right; right].
  - apply list_elem_of_In, in_concat. eexists. split; [by apply in_map, list_elem_of_In|].
    apply list_elem_of_In, elem_of_app. exact Hc.
  - apply list_elem_of_In, in_concat. eexists.
    split; [apply in_map, list_elem_of_In, elem_of_map_to_list; exact Hk|]. simpl.
    apply list_elem_of_In, elem_of_app. destruct Hc as [Hc|(t & -> & Hc)]; auto.
Qed.

Definition names_fresh (cfg : Config) (ins : list Input) (s0 : fsys) (es : list (pevent (E:=ucall))) : bool :=
  bool_decide (NoDup (drawn es))
  && forallb (λ n, negb (bool_decide (n ∈ known_list (UploadRoot cfg) ins (fs_tree s0)))) (drawn es).

Lemma names_fresh_ok cfg ins s0 es : names_fresh cfg ins s0 es = true → fresh_names cfg ins s0 es.
Proof.
  intros [H1%bool_decide_eq_true H2]%andb_true_iff. split; [done|]. intros n Hn Hk.
  rewrite forallb_forall in H2. specialize (H2 n (proj1 (list_elem_of_In _ _) Hn)).
  apply negb_true_iff, bool_decide_eq_false in H2. by apply H2, known_in_list.
Qed.

Lemma racing_uploads_whole_files_witness :
  ∃ e, fs_tree (pl_state (race 0).2) !! (up_root ++ ["new"%string]) = Some e
    ∧ (settled race_inputs up_tree (up_root ++ ["new"%string]) e
       ∨ ∃ m d, e = EFile m d ∧ "new"%string ∈ drawn (race 0).1).
Proof.
  destruct (racing_uploads_whole_files (up_cfg 0) race_inputs up_state (race 0).1 (race 0).2) as [H _].
  - exact (race_is 0).
  - apply names_fresh_ok. vm_compute. reflexivity.
  - exists (EFile 416 (bytes_of_string "second")).
    assert (fs_tree (pl_state (race 0).2) !! (up_root ++ ["new"%string])
      = Some (EFile 416 (bytes_of_string "second"))) as He by (vm_compute; reflexivity).
    split; [exact He|]. destruct (H _ _ He) as [Hs|(m & d & Hm & _ & Hd)]; [left; exact Hs|right].
    exists m, d. split; [exact Hm|exact Hd].
Defined.
