(* ===== verification/Config.v ===== *)
(** * Config: [internal/config], paths and configuration.

    [paths.go] (the XDG locations and their directories) and [config.go] (the
    defaults, the validation of [buildConfig], the mode and duration parsers).
    The settings come from viper, whose values are a map from key to value, the
    file over the defaults; its casts are parameters with the laws the code
    relies on. *)

From S2P Require Import Prelude GoText GoEncoding GoPath GoOs GoFs FileUpload.
Open Scope Z_scope.
Open Scope go_scope.

(** ** [net.ParseIP]

    Whether a string is an IP address: dotted decimal, or IPv6 with at most one
    [::] and an optional IPv4 tail; zones are not accepted. *)

Definition is_digit (c : ascii) : bool := (48 <=? code c) && (code c <=? 57).

Definition v4_field (s : string) : bool :=
  negb (String.eqb s "") && str_forallb is_digit s
  && implb (has_prefix s "0") (str_len s =? 1)
  && match digits_value 10 s 0 with Some v => v <=? 255 | None => false end.

Definition parse_v4 (s : string) : bool :=
  let fs := split_on "." s in
  (Z.of_nat (length fs) =? 4) && forallb v4_field fs.

Definition is_hex (c : ascii) : bool :=
  match digit_val c with Some v => v <? 16 | None => false end.

(** The leading hexadecimal digits and the rest. *)
Fixpoint hex_span (s : string) : nat * string :=
  match s with
  | String c s' => if is_hex c then let (n, r) := hex_span s' in (S n, r) else (0%nat, s)
  | EmptyString => (0%nat, s)
  end.

(** [i]: bytes filled; [ell]: a [::] was seen. *)
Fixpoint v6_loop (fuel : nat) (i : Z) (ell : bool) (s : string) : bool :=
  match fuel with
  | O => false
  | S fuel =>
      if 16 <=? i then String.eqb s "" && negb ell
      else
        let (n, rest) := hex_span s in
        if (4 <? Z.of_nat n) || (Z.of_nat n =? 0) then false
        else
          match rest with
          | EmptyString => (i + 2 =? 16) && negb ell || (i + 2 <? 16) && ell
          | String c rest' =>
              if Ascii.eqb c "." then
                (ell || (i =? 12)) && (i + 4 <=? 16) && parse_v4 s
                && ((i + 4 =? 16) && negb ell || (i + 4 <? 16) && ell)
              else if negb (Ascii.eqb c ":") then false
              else
                match rest' with
                | EmptyString => false
                | String d rest'' =>
                    if Ascii.eqb d ":" then
                      if ell then false
                      else match rest'' with
                           | EmptyString => i + 2 <? 16
                           | _ => v6_loop fuel (i + 2) true rest''
                           end
                    else v6_loop fuel (i + 2) ell rest'
                end
          end
  end.

Definition parse_v6 (s : string) : bool :=
  if has_char "%" s then false
  else if has_prefix s "::" then
    if String.eqb s "::" then true else v6_loop 9 0 true (drop_str 2 s)
  else v6_loop 9 0 false s.

(** The first of [.], [:] decides. *)
Fixpoint first_sep (s : string) : option ascii :=
  match s with
  | EmptyString => None
  | String c s' => if Ascii.eqb c "." || Ascii.eqb c ":" || Ascii.eqb c "%" then Some c else first_sep s'
  end.

Definition ParseIP (s : string) : bool :=
  match first_sep s with
  | Some c => if Ascii.eqb c "." then parse_v4 s
              else if Ascii.eqb c ":" then parse_v6 s else false
  | None => false
  end.

Example ParseIP_ex :
  map ParseIP ["127.0.0.1"; "::1"; "0.0.0.0"; "2001:db8::7"; "::ffff:10.0.0.1"; "fe80::1%eth0";
               "localhost"; "1.2.3"; "01.2.3.4"; "1::2::3"; "1:2:3:4:5:6:7:8"; "::"; "256.1.1.1"]%string
  = [true; true; true; true; true; false; false; false; false; false; true; true; false].
Proof. reflexivity. Qed.

(** ** paths.go *)

Record PathSet := {
  ConfigDir : string;
  ConfigFile : string;
  StateDir : string;
  KeysDB : string;
  TLSDir : string;
}.

Inductive cerr :=
| CErr (msg : string).

#[export] Instance cerr_eq_dec : EqDecision cerr.
Proof. solve_decision. Defined.

(** [os.UserHomeDir]: [$HOME], which must not be empty. *)
Definition Paths (getenv : string → string) : result cerr PathSet :=
  let home := getenv "HOME"%string in
  if String.eqb home "" then Err (CErr "cannot determine config directory: $HOME is not set") else
  let configBase := getenv "XDG_CONFIG_HOME"%string in
  let configBase := if String.eqb configBase "" then path_join [home; ".config"%string] else configBase in
  let configDir := path_join [configBase; "raxd"%string] in
  let stateBase := getenv "XDG_STATE_HOME"%string in
  let stateBase :=
    if String.eqb stateBase "" then path_join [home; ".local"%string; "state"%string] else stateBase in
  let stateDir := path_join [stateBase; "raxd"%string] in
  Ok {| ConfigDir := configDir;
        ConfigFile := path_join [configDir; "config.yaml"%string];
        StateDir := stateDir;
        KeysDB := path_join [stateDir; "keys.db"%string];
        TLSDir := path_join [stateDir; "tls"%string] |}.

(** [os.MkdirAll] is the walk from the file system root; links are followed. *)
Definition os_mkdirall (p : string) (mode : Z) : M fsys (result oserr unit) :=
  root_mkdirall [] (join "/" (comps p)) mode.

Fixpoint ensure_dirs (dirs : list string) : M fsys (result cerr unit) :=
  match dirs with
  | [] => ret (Ok tt)
  | d :: ds =>
      let! r := os_mkdirall d 448 in
      match r with
      | Err e => ret (Err (CErr ("cannot create config directory: " +:+ oserr_msg e)))
      | Ok _ => ensure_dirs ds
      end
  end.

Definition EnsureDirs (p : PathSet) : M fsys (result cerr unit) :=
  ensure_dirs [ConfigDir p; StateDir p; TLSDir p].

(** ** Settings *)

Section config.
(** [float64], and [time.ParseDuration] of the Go library. *)
Context {float64 : Type} (f64_of_Z : Z → float64) (ParseDuration : string → result string Z).

(** A value of a key as viper holds it. *)
Inductive value :=
| VDuration (d : Z)
| VString (s : string)
| VInt (z : Z)
| VInt64 (z : Z)
| VFloat (f : float64)
| VBool (b : bool)
| VStrings (l : list string)
| VOther.

(** viper's casts ([GetInt], [GetString], ...): what a key of the right type
    gives is that value; other types are converted or give the zero value. *)
Record casts := {
  to_int : value → Z;
  to_int64 : value → Z;
  to_float : value → float64;
  to_bool : value → bool;
  to_string : value → string;
  to_strings : value → list string;
  (** The verb [%T]: the name of the value's Go type. *)
  type_name : value → string;
}.

Record cast_laws (c : casts) : Prop := {
  to_int_id z : to_int c (VInt z) = z;
  to_int64_id z : int64_range z → to_int64 c (VInt64 z) = z;
  to_int64_int z : int64_range z → to_int64 c (VInt z) = z;
  to_float_id f : to_float c (VFloat f) = f;
  to_bool_id b : to_bool c (VBool b) = b;
  to_string_id s : to_string c (VString s) = s;
  to_strings_id l : to_strings c (VStrings l) = l;
  to_int64_range v : int64_range (to_int64 c v);
}.

Definition loopback : list string := ["localhost"; "127.0.0.1"; "::1"]%string.

(** The [SetDefault] calls of [Load]. *)
Definition defaults : gmap string value :=
  list_to_map [
    ("port", VInt 7822); ("bind_addr", VString "127.0.0.1"); ("rate_limit", VFloat (f64_of_Z 10));
    ("rate_burst", VInt 20); ("origin_allow", VStrings loopback); ("host_allow", VStrings loopback);
    ("read_timeout", VString "30s"); ("read_header_timeout", VString "10s");
    ("write_timeout", VString "30s"); ("idle_timeout", VString "120s");
    ("max_header_bytes", VInt (2 ^ 20)); ("max_body_bytes", VInt64 (2 ^ 20));
    ("exec.allowlist", VStrings []); ("exec.default_timeout_ms", VInt 30000);
    ("exec.max_timeout_ms", VInt 300000); ("exec.default_cwd", VString "/tmp");
    ("exec.env_whitelist", VStrings ["PATH"; "HOME"; "LANG"; "TERM"]);
    ("exec.max_args", VInt 256); ("exec.max_arg_len", VInt 131072);
    ("exec.max_output_bytes", VInt 1048576); ("exec.deny_root", VBool false);
    ("upload.root", VString ""); ("upload.max_file_bytes", VInt64 716800);
    ("upload.max_total_bytes", VInt64 0); ("upload.default_mode", VString "0600");
    ("upload.overwrite_default", VBool false); ("upload.deny_root", VBool false) ]%string.

(** The file's values over the defaults. *)
Abbreviation viper := (gmap string value).
Definition Get (v : viper) (key : string) : value :=
  match v !! key with
  | Some x => x
  | None => default VOther (defaults !! key)
  end.

(** ** config.go *)

Record ExecConfig := {
  e_Allowlist : list string;
  e_DefaultTimeoutMs : Z;
  e_MaxTimeoutMs : Z;
  e_DefaultCwd : string;
  e_EnvWhitelist : list string;
  e_MaxArgs : Z;
  e_MaxArgLen : Z;
  e_MaxOutputBytes : Z;
  e_DenyRoot : bool;
}.

Record UploadConfig := {
  u_Root : string;
  u_MaxFileBytes : Z;
  u_MaxTotalBytes : Z;
  u_DefaultMode : string;
  u_OverwriteDefault : bool;
  up_DenyRoot : bool;
}.

Record Config := {
  Port : Z;
  BindAddr : string;
  RateLimit : float64;
  RateBurst : Z;
  OriginAllow : list string;
  HostAllow : list string;
  ReadTimeout : Z;
  ReadHeaderTimeout : Z;
  WriteTimeout : Z;
  IdleTimeout : Z;
  MaxHeaderBytes : Z;
  MaxBodyBytes : Z;
  Exec : ExecConfig;
  Upload : UploadConfig;
}.

(** Ten minutes. *)
Definition LimiterTTL : Z := 10 * 60 * 10 ^ 9.

Definition parseModeStr (s : string) : result cerr Z :=
  if String.eqb s "" then Err (CErr "empty mode string") else
  let (val, err) := parse_int s 8 32 in
  if bool_decide (is_Some err) || (val <? 0) then
    Err (CErr ("cannot parse " +:+ fmt_q s +:+ " as octal mode"))
  else
    let mode := wrap32u val in
    if negb (and_not mode 511 =? 0) then
      Err (CErr ("mode " +:+ s +:+ " contains forbidden bits outside 0777 (setuid/setgid/sticky/etc)"))
    else if negb (Z.land mode 2 =? 0) then
      Err (CErr ("mode " +:+ s +:+ " is world-writable (bit 0002 forbidden)"))
    else Ok mode.

Context (c : casts).

Definition parseDuration (v : viper) (key : string) : result cerr Z :=
  match Get v key with
  | VDuration d => Ok d
  | VString s =>
      match ParseDuration s with
      | Err e => Err (CErr ("invalid duration for " +:+ fmt_q key +:+ ": " +:+ e))
      | Ok d => Ok d
      end
  | VInt _ | VInt64 _ | VFloat _ => Ok (to_int64 c (Get v key))
  | _ => Err (CErr ("invalid type for " +:+ fmt_q key +:+ ": " +:+ type_name c (Get v key)))
  end.

Definition reserve : Z := 1024.

(** [(maxBodyBytes - reserve) * 3 / 4] on [int64]. *)
Definition ceiling (maxBodyBytes : Z) : Z :=
  Z.quot (wrap64 (wrap64 (maxBodyBytes - reserve) * 3)) 4.

Definition exec_section (v : viper) : ExecConfig :=
  {| e_Allowlist := to_strings c (Get v "exec.allowlist");
     e_DefaultTimeoutMs := to_int c (Get v "exec.default_timeout_ms");
     e_MaxTimeoutMs := to_int c (Get v "exec.max_timeout_ms");
     e_DefaultCwd := to_string c (Get v "exec.default_cwd");
     e_EnvWhitelist := to_strings c (Get v "exec.env_whitelist");
     e_MaxArgs := to_int c (Get v "exec.max_args");
     e_MaxArgLen := to_int c (Get v "exec.max_arg_len");
     e_MaxOutputBytes := to_int c (Get v "exec.max_output_bytes");
     e_DenyRoot := to_bool c (Get v "exec.deny_root") |}.

Definition buildConfig (v : viper) : result cerr Config :=
  let bindAddr := to_string c (Get v "bind_addr") in
  if negb (ParseIP bindAddr) then
    Err (CErr ("invalid bind address " +:+ fmt_q bindAddr +:+ ": not a valid IP address")) else
  match parseDuration v "read_timeout" with
  | Err e => Err e
  | Ok readTimeout =>
  match parseDuration v "read_header_timeout" with
  | Err e => Err e
  | Ok readHeaderTimeout =>
  match parseDuration v "write_timeout" with
  | Err e => Err e
  | Ok writeTimeout =>
  match parseDuration v "idle_timeout" with
  | Err e => Err e
  | Ok idleTimeout =>
  let maxBodyBytes := to_int64 c (Get v "max_body_bytes") in
  let maxFileBytes := to_int64 c (Get v "upload.max_file_bytes") in
  if (maxFileBytes <=? 0) || (ceiling maxBodyBytes <? maxFileBytes) then
    Err (CErr ("upload.max_file_bytes=" +:+ fmt_d maxFileBytes
               +:+ " is invalid: must be > 0 and ≤ " +:+ fmt_d (ceiling maxBodyBytes)
               +:+ " (derived from max_body_bytes=" +:+ fmt_d maxBodyBytes +:+ "; SR-76)")) else
  let maxTotalBytes := to_int64 c (Get v "upload.max_total_bytes") in
  if maxTotalBytes <? 0 then
    Err (CErr ("upload.max_total_bytes=" +:+ fmt_d maxTotalBytes
               +:+ " is invalid: must be ≥ 0 (0 = disabled; SR-98/AC1)")) else
  let modeStr := to_string c (Get v "upload.default_mode") in
  match parseModeStr modeStr with
  | Err (CErr e) => Err (CErr ("upload.default_mode=" +:+ fmt_q modeStr +:+ " is invalid: " +:+ e))
  | Ok _ =>
      Ok {| Port := to_int c (Get v "port"); BindAddr := bindAddr;
            RateLimit := to_float c (Get v "rate_limit"); RateBurst := to_int c (Get v "rate_burst");
            OriginAllow := to_strings c (Get v "origin_allow");
            HostAllow := to_strings c (Get v "host_allow");
            ReadTimeout := readTimeout; ReadHeaderTimeout := readHeaderTimeout;
            WriteTimeout := writeTimeout; IdleTimeout := idleTimeout;
            MaxHeaderBytes := to_int c (Get v "max_header_bytes");
            MaxBodyBytes := to_int64 c (Get v "max_body_bytes");
            Exec := exec_section v;
            Upload := {| u_Root := to_string c (Get v "upload.root");
                         u_MaxFileBytes := maxFileBytes; u_MaxTotalBytes := maxTotalBytes;
                         u_DefaultMode := modeStr;
                         u_OverwriteDefault := to_bool c (Get v "upload.overwrite_default");
                         up_DenyRoot := to_bool c (Get v "upload.deny_root") |} |}
  end end end end end.

(** What [ReadInConfig] found: no file, a file that is not YAML (or cannot be
    read), or its values. *)
Inductive config_file := NoFile | BadFile (msg : string) | Values (v : viper).

Definition Load (f : config_file) : result cerr Config :=
  match f with
  | NoFile => buildConfig ∅
  | BadFile e => Err (CErr ("config file is not valid YAML: " +:+ e))
  | Values v => buildConfig v
  end.
End config.

(** ** Guarantees *)

Lemma parseModeStr_spec s m : parseModeStr s = Ok m ↔ ParseMode s = Ok m.
Proof.
  unfold parseModeStr, ParseMode. destruct (String.eqb s ""); [done|].
  destruct (parse_int s 8 32) as [v [e|]]; [done|].
  rewrite bool_decide_eq_false_2 by (by intros []). simpl. destruct (v <? 0); [done|].
  destruct (and_not (wrap32u v) 511 =? 0); simpl; [|done].
  destruct (Z.land (wrap32u v) 2 =? 0); [split; by intros [= ->]|done].
Qed.

(** The two mode parsers agree: the copy in [config] that checks the default
    mode at start-up accepts exactly the strings that [fileupload.ParseMode]
    accepts, with the same value. *)
Theorem parseModeStr_is_ParseMode s m : parseModeStr s = Ok m ↔ ParseMode s = Ok m.
Proof. apply parseModeStr_spec. Qed.

(** The ceiling never exceeds its exact value. *)
Lemma quot_4_pos x : 0 < Z.quot x 4 → 0 < x ∧ 4 * Z.quot x 4 ≤ x.
Proof.
  intros H. assert (0 < x) as Hx.
  { destruct (Z.lt_ge_cases 0 x) as [|Hn]; [done|].
    pose proof (Z.quot_le_mono x 0 4 ltac:(lia) Hn) as Hm. rewrite Z.quot_0_l in Hm by lia. lia. }
  split; [done|]. rewrite Z.quot_div_nonneg by lia. apply Z.mul_div_le. lia.
Qed.

Lemma ceiling_le b :
  int64_range b → 0 ≤ b → 0 < ceiling b → 4 * ceiling b ≤ 3 * (b - reserve).
Proof.
  unfold ceiling, reserve, int64_range, min_int64, max_int64. intros Hr Hb.
  rewrite (wrap64_id (b - 1024)) by (unfold int64_range, min_int64, max_int64; lia).
  intros [Hp Hle]%quot_4_pos. set (x := b - 1024) in *.
  assert (wrap64 (x * 3) ≤ x * 3 ∨ x < 0) as [Hw|Hx]; [| lia |].
  - destruct (decide (x < 0)) as [|Hx]; [by right|]. left. unfold wrap64.
    pose proof (Z.mod_le (x * 3 + 2 ^ 63) (2 ^ 64)). lia.
  - rewrite wrap64_id in Hp by (unfold int64_range, min_int64, max_int64; lia). lia.
Qed.

Section sound.
Context {float64 : Type} (f64_of_Z : Z → float64) (ParseDuration : string → result string Z).
Context (c : casts (float64:=float64)) (Hc : cast_laws c).

Abbreviation buildConfig := (buildConfig f64_of_Z ParseDuration c).
Abbreviation Load := (Load f64_of_Z ParseDuration c).

(** What [buildConfig] has checked. *)
Lemma buildConfig_ok v cfg :
  buildConfig v = Ok cfg →
  ParseIP (BindAddr cfg) = true
  ∧ 0 < u_MaxFileBytes (Upload cfg) ≤ ceiling (MaxBodyBytes cfg)
  ∧ 0 ≤ u_MaxTotalBytes (Upload cfg)
  ∧ (∃ m, parseModeStr (u_DefaultMode (Upload cfg)) = Ok m)
  ∧ int64_range (MaxBodyBytes cfg).
Proof.
  unfold Config.buildConfig. destruct (ParseIP _) eqn:Eip; [|done]. simpl.
  destruct (parseDuration _ _ _ _ "read_timeout"); [|done].
  destruct (parseDuration _ _ _ _ "read_header_timeout"); [|done].
  destruct (parseDuration _ _ _ _ "write_timeout"); [|done].
  destruct (parseDuration _ _ _ _ "idle_timeout"); [|done].
  destruct (_ || _) eqn:Ef; [done|]. apply orb_false_iff in Ef as [E1 E2].
  destruct (_ <? 0) eqn:Et; [done|].
  destruct (parseModeStr _) as [m|[e]] eqn:Em; [|done]. intros [= <-]. simpl.
  apply Z.leb_gt in E1. apply Z.ltb_ge in E2, Et. split_and!; eauto. apply (to_int64_range _ Hc).
Qed.

Lemma Load_mode f cfg :
  Load f = Ok cfg → ∃ m, ParseMode (u_DefaultMode (Upload cfg)) = Ok m.
Proof.
  intros Hl. assert (∃ v, buildConfig v = Ok cfg) as [v Hv] by (destruct f; [eauto|done|eauto]).
  destruct (buildConfig_ok v cfg Hv) as (_ & _ & _ & [m Hm] & _). exists m. by apply parseModeStr_spec.
Qed.

(** C33: A configuration that loads is safe to serve: the bind address is an IP
    address, the default mode passes the mode policy, the total limit is not
    negative, and the limits fit together in 64-bit arithmetic: any file within
    the file limit, encoded in base64, leaves at least 1022 bytes of the body
    limit for the JSON around it, so that no admissible upload is cut off by the
    transport. *)
Theorem Load_safe f cfg :
  Load f = Ok cfg →
  ParseIP (BindAddr cfg) = true
  ∧ 0 ≤ u_MaxTotalBytes (Upload cfg)
  ∧ (∃ m, ParseMode (u_DefaultMode (Upload cfg)) = Ok m)
  ∧ (0 ≤ MaxBodyBytes cfg → ∀ data : bytes,
       Z.of_nat (length data) ≤ u_MaxFileBytes (Upload cfg) →
       str_len (std_encode data) + 1022 ≤ MaxBodyBytes cfg).
Proof.
  intros Hl. assert (∃ v, buildConfig v = Ok cfg) as [v Hv] by (destruct f; [eauto|done|eauto]).
  destruct (buildConfig_ok v cfg Hv) as (Hip & [Hf1 Hf2] & Ht & [m Hm] & Hr).
  split_and!; [done..|exists m; by apply parseModeStr_spec|]. intros Hb data Hd.
  pose proof (ceiling_le _ Hr Hb ltac:(lia)) as Hc4. unfold reserve in Hc4.
  rewrite std_encode_length. pose proof (Z.mul_div_le (Z.of_nat (length data) + 2) 3). lia.
Qed.

(** Without a configuration file the defaults are served: loopback bind
    address, hosts and origins, no allowlist, four environment variables, files
    of at most 700 KiB with mode 0600, no total limit. *)
Theorem Load_defaults :
  (∀ s, s ∈ ["30s"; "10s"; "120s"]%string → ∃ d, ParseDuration s = Ok d) →
  ∃ cfg, Load NoFile = Ok cfg ∧ Port cfg = 7822 ∧ BindAddr cfg = "127.0.0.1"%string
    ∧ HostAllow cfg = loopback ∧ OriginAllow cfg = loopback ∧ RateBurst cfg = 20
    ∧ MaxBodyBytes cfg = 1048576 ∧ e_Allowlist (Exec cfg) = []
    ∧ e_EnvWhitelist (Exec cfg) = ["PATH"; "HOME"; "LANG"; "TERM"]%string
    ∧ e_MaxTimeoutMs (Exec cfg) = 300000 ∧ e_DenyRoot (Exec cfg) = false
    ∧ u_MaxFileBytes (Upload cfg) = 716800 ∧ u_MaxTotalBytes (Upload cfg) = 0
    ∧ u_DefaultMode (Upload cfg) = "0600"%string.
Proof.
  intros Hd.
  destruct (Hd "30s"%string) as [d30 H30]; [set_solver|].
  destruct (Hd "10s"%string) as [d10 H10]; [set_solver|].
  destruct (Hd "120s"%string) as [d120 H120]; [set_solver|].
  unfold Config.Load, Config.buildConfig, parseDuration, exec_section.
  repeat match goal with
  | |- context [Get f64_of_Z ∅ ?k] =>
      let x := eval vm_compute in (Get f64_of_Z ∅ k) in change (Get f64_of_Z ∅ k) with x
  end.
  rewrite !(to_string_id _ Hc), !(to_int64_id _ Hc), !(to_strings_id _ Hc), !(to_int_id _ Hc),
    !(to_bool_id _ Hc), H30, H10, H120 by (unfold int64_range, min_int64, max_int64; lia).
  eexists. split; [reflexivity|]. done.
Qed.
End sound.

(** ** Instances: integers for [float64], durations in whole seconds *)

Definition demo_casts : casts (float64:=Z) := {|
  to_int v := match v with VInt z => z | _ => 0 end;
  to_int64 v := match v with VInt z | VInt64 z => wrap64 z | _ => 0 end;
  to_float v := match v with VFloat f => f | _ => 0 end;
  to_bool v := match v with VBool b => b | _ => false end;
  to_string v := match v with VString s => s | _ => ""%string end;
  to_strings v := match v with VStrings l => l | _ => [] end;
  type_name _ := "bool"%string;
|}.

Lemma demo_cast_laws : cast_laws demo_casts.
Proof.
  split; try done; simpl.
  - intros z Hz. by apply wrap64_id.
  - intros z Hz. by apply wrap64_id.
  - intros []; simpl; try apply wrap64_range; unfold int64_range, min_int64, max_int64; lia.
Qed.

Definition demo_duration (s : string) : result string Z :=
  match digits_value 10 (substring 0 (String.length s - 1) s) 0 with
  | Some n => Ok (n * 10 ^ 9)
  | None => Err "invalid duration"%string
  end.

Lemma Load_defaults_witness :
  ∃ cfg, Load id demo_duration demo_casts NoFile = Ok cfg ∧ Port cfg = 7822.
Proof.
  destruct (Load_defaults id demo_duration demo_casts demo_cast_laws) as (cfg & Hl & Hp & _).
  - intros s Hs. rewrite !elem_of_cons in Hs.
    destruct Hs as [->|[->|[->|Hs]]]; [eexists; reflexivity..|by apply elem_of_nil in Hs].
  - eauto.
Defined.

Lemma Load_safe_witness :
  ∃ cfg, Load id demo_duration demo_casts NoFile = Ok cfg
    ∧ ∀ data : bytes, Z.of_nat (length data) ≤ 716800 → str_len (std_encode data) + 1022 ≤ 1048576.
Proof.
  assert (∃ cfg, Load id demo_duration demo_casts NoFile = Ok cfg
    ∧ u_MaxFileBytes (Upload cfg) = 716800 ∧ MaxBodyBytes cfg = 1048576) as (cfg & Hl & Hf & Hb)
    by (eexists; vm_compute; done).
  exists cfg. split; [done|].
  destruct (Load_safe id demo_duration demo_casts demo_cast_laws NoFile cfg Hl) as (_ & _ & _ & H).
  rewrite Hf, Hb in H. apply H. lia.
Defined.
