(* ===== verification/Processes.v ===== *)
(** * Processes: [internal/cmdexec/sysproc_*.go], the process groups of commands.

    The part of the kernel these files talk to is a table of the daemon's
    descendants: parent, process group, and whether a process runs, has a
    SIGKILL pending, or is dead and not yet waited for.  What the processes do
    by themselves (fork, change their group, exit, collect their own children)
    is a list of steps that the environment chooses; what the daemon does are
    the system calls of the code.  Descendants that make themselves sub-reapers
    are left out. *)

From S2P Require Import Prelude.
Open Scope Z_scope.
Open Scope go_scope.

(** ** The kernel *)

(** The systems the [unix] files are built for: [sysproc_linux.go], or
    [sysproc_unix_other.go]. *)
Inductive goos := Linux | OtherUnix.

Inductive pstate := Running | Doomed | Zombie.

#[export] Instance pstate_eq_dec : EqDecision pstate.
Proof. solve_decision. Defined.

Record process := { pr_parent : Z; pr_group : Z; pr_state : pstate }.

(** The daemon [k_self] and its group; whether [prctl] knows the sub-reaper
    option (Linux 3.4); whether the daemon is one; its descendants; the clock. *)
Record kernel := {
  k_goos : goos;
  k_self : Z;
  k_group : Z;
  k_has_subreaper : bool;
  k_subreaper : bool;
  k_procs : gmap Z process;
  k_now : Z;
}.

Definition with_procs (ps : gmap Z process) (k : kernel) : kernel :=
  {| k_goos := k_goos k; k_self := k_self k; k_group := k_group k;
     k_has_subreaper := k_has_subreaper k; k_subreaper := k_subreaper k;
     k_procs := ps; k_now := k_now k |}.

Definition at_time (t : Z) (k : kernel) : kernel :=
  {| k_goos := k_goos k; k_self := k_self k; k_group := k_group k;
     k_has_subreaper := k_has_subreaper k; k_subreaper := k_subreaper k;
     k_procs := k_procs k; k_now := t |}.

Definition tick (d : Z) (k : kernel) : kernel := at_time (k_now k + d) k.

Definition is_alive (p : process) : bool := match pr_state p with Zombie => false | _ => true end.
Definition is_running (p : process) : bool := match pr_state p with Running => true | _ => false end.

Definition in_state (s : pstate) (p : process) : process :=
  {| pr_parent := pr_parent p; pr_group := pr_group p; pr_state := s |}.
Definition in_group (g : Z) (p : process) : process :=
  {| pr_parent := pr_parent p; pr_group := g; pr_state := pr_state p |}.

(** An orphan goes to the nearest living sub-reaper above it, else to init. *)
Definition adopter (k : kernel) : Z := if k_subreaper k then k_self k else 1.
Definition adopt (pid to : Z) (q : process) : process :=
  if pr_parent q =? pid then
    {| pr_parent := to; pr_group := pr_group q; pr_state := pr_state q |}
  else q.

(** Steps of the processes themselves.  [Exit] is also the delivery of a
    pending SIGKILL; [Collect pid] is the wait of the parent of [pid], or of
    init. *)
Inductive pstep :=
| Fork (pid new : Z)
| Regroup (pid g : Z)
| Exit (pid : Z)
| Collect (pid : Z).

Definition do_exit (pid : Z) (k : kernel) : kernel :=
  with_procs (adopt pid (adopter k) <$> alter (in_state Zombie) pid (k_procs k)) k.

(** A step that is not possible changes nothing. *)
Definition do_step (k : kernel) (s : pstep) : kernel :=
  match s with
  | Fork pid new =>
      match k_procs k !! pid, k_procs k !! new with
      | Some p, None =>
          if is_running p && negb (new =? k_self k) && (1 <? new) then
            with_procs (<[new := {| pr_parent := pid; pr_group := pr_group p; pr_state := Running |}]>
                          (k_procs k)) k
          else k
      | _, _ => k
      end
  | Regroup pid g =>
      match k_procs k !! pid with
      | Some p => if is_running p then with_procs (<[pid := in_group g p]> (k_procs k)) k else k
      | None => k
      end
  | Exit pid =>
      match k_procs k !! pid with
      | Some p => if is_alive p then do_exit pid k else k
      | None => k
      end
  | Collect pid =>
      match k_procs k !! pid with
      | Some p => if negb (is_alive p) && negb (pr_parent p =? k_self k)
                  then with_procs (delete pid (k_procs k)) k else k
      | None => k
      end
  end.

Definition do_steps (ss : list pstep) (k : kernel) : kernel := fold_left do_step ss k.

(** ** System calls *)

Inductive errno := ESRCH | ECHILD | EINVAL.

(** The pids that satisfy a test. *)
Definition matching (f : Z → process → bool) (ps : gmap Z process) : list Z :=
  (filter (λ e, f e.1 e.2 = true) (map_to_list ps)).*1.

(** A negative target is a group. *)
Definition targets (target pid : Z) (p : process) : bool :=
  if target <? 0 then pr_group p =? - target else pid =? target.

Definition prctl (option arg : Z) : M kernel (result errno unit) := λ k,
  if (option =? 36) && k_has_subreaper k then
    (Ok tt, {| k_goos := k_goos k; k_self := k_self k; k_group := k_group k;
               k_has_subreaper := k_has_subreaper k; k_subreaper := negb (arg =? 0);
               k_procs := k_procs k; k_now := k_now k |})
  else (Err EINVAL, k).

Definition doom (p : process) : process := if is_running p then in_state Doomed p else p.

(** [kill(target, SIGKILL)]: the signal is pending when the call returns. *)
Definition kill_SIGKILL (target : Z) : M kernel (result errno unit) := λ k,
  match matching (targets target) (k_procs k) with
  | [] => (Err ESRCH, k)
  | _ => (Ok tt, with_procs (map_imap (λ pid p, Some (if targets target pid p then doom p else p))
                                      (k_procs k)) k)
  end.

Inductive wait_reply := WaitPid (pid : Z) | WaitNone | WaitErrno (e : errno).

(** [wait4(target, WNOHANG)]: a dead child is removed; [WaitNone] (the call's
    0): children are there, all alive. *)
Definition wait4_WNOHANG (target : Z) : M kernel wait_reply := λ k,
  let mine pid p := (pr_parent p =? k_self k) && targets target pid p in
  match matching (λ pid p, mine pid p && negb (is_alive p)) (k_procs k) with
  | pid :: _ => (WaitPid pid, with_procs (delete pid (k_procs k)) k)
  | [] => match matching mine (k_procs k) with
          | [] => (WaitErrno ECHILD, k)
          | _ => (WaitNone, k)
          end
  end.

(** ** The command, as far as these files see it *)

Record SysProcAttr := { Setpgid : bool; Credential : option (Z * Z) }.

Record Cmd := {
  cmd_Path : string;
  cmd_Args : list string;
  cmd_Env : list string;
  cmd_Dir : string;
  cmd_SysProcAttr : option SysProcAttr;
  cmd_WaitDelay : Z;
}.

Definition set_SysProcAttr (a : SysProcAttr) (cmd : Cmd) : Cmd :=
  {| cmd_Path := cmd_Path cmd; cmd_Args := cmd_Args cmd; cmd_Env := cmd_Env cmd;
     cmd_Dir := cmd_Dir cmd; cmd_SysProcAttr := Some a; cmd_WaitDelay := cmd_WaitDelay cmd |}.

Definition set_WaitDelay (d : Z) (cmd : Cmd) : Cmd :=
  {| cmd_Path := cmd_Path cmd; cmd_Args := cmd_Args cmd; cmd_Env := cmd_Env cmd;
     cmd_Dir := cmd_Dir cmd; cmd_SysProcAttr := cmd_SysProcAttr cmd; cmd_WaitDelay := d |}.

(** The new process of [Start]: a group of its own, or the daemon's. *)
Definition start_head (cmd : Cmd) (pid : Z) : M kernel unit := modify (λ k,
  let own := match cmd_SysProcAttr cmd with Some a => Setpgid a | None => false end in
  with_procs (<[pid := {| pr_parent := k_self k; pr_group := if own then pid else k_group k;
                          pr_state := Running |}]> (k_procs k)) k).

(** The wait of [Wait] for the head: it has exited, and is collected. *)
Definition wait_head (pid : Z) : M kernel unit := modify (λ k,
  let k := do_exit pid k in with_procs (delete pid (k_procs k)) k).

(** ** sysproc_linux.go, sysproc_unix_other.go *)

Definition prSetChildSubreaper : Z := 36.
Definition reapGroupTimeout : Z := 200 * 10 ^ 6.
Definition reapGroupPollInterval : Z := 1 * 10 ^ 6.

Definition setSelfSubreaper_linux : M kernel unit := do! prctl prSetChildSubreaper 1 in ret tt.
Definition setSelfSubreaper_other : M kernel unit := ret tt.

(** The build takes one of the two. *)
Definition setSelfSubreaper : M kernel unit :=
  let! os := gets k_goos in
  match os with Linux => setSelfSubreaper_linux | OtherUnix => setSelfSubreaper_other end.

(** What happens while one round of the reaper is on: the steps of the
    processes before its wait, and the time it takes. *)
Record round := { r_steps : list pstep; r_time : N }.

(** The loop; [false]: it is still running when the fuel is spent.  When the
    schedule is over the processes rest and the calls take no time. *)
Fixpoint reap_loop (pgid deadline : Z) (fuel : nat) (sched : list round) : M kernel bool :=
  match fuel with
  | O => ret false
  | S fuel =>
      let! now := gets k_now in
      if now <? deadline then
        do! (match sched with
             | [] => ret tt
             | r :: _ => modify (λ k, tick (Z.of_N (r_time r)) (do_steps (r_steps r) k))
             end) in
        let! w := wait4_WNOHANG (- pgid) in
        match w with
        | WaitPid _ => reap_loop pgid deadline fuel (tail sched)
        | WaitNone =>
            do! modify (tick reapGroupPollInterval) in
            reap_loop pgid deadline fuel (tail sched)
        | WaitErrno _ => ret true
        end
      else ret true
  end.

(** A round either collects a process, of which there are those in the table
    and those the schedule forks, or pauses a millisecond of the 200. *)
Definition sched_steps (sched : list round) : nat :=
  sum_list (map (λ r, length (r_steps r)) sched).
Definition reap_fuel (sched : list round) (k : kernel) : nat :=
  size (k_procs k) + sched_steps sched + 202.

Definition reapGroupOrphans_linux (pgid : Z) (sched : list round) : M kernel bool :=
  let! deadline := gets (λ k, k_now k + reapGroupTimeout) in
  let! fuel := gets (reap_fuel sched) in
  reap_loop pgid deadline fuel sched.
Definition reapGroupOrphans_other (pgid : Z) : M kernel bool := ret true.

Definition reapGroupOrphans (pgid : Z) (sched : list round) : M kernel bool :=
  let! os := gets k_goos in
  match os with
  | Linux => reapGroupOrphans_linux pgid sched
  | OtherUnix => reapGroupOrphans_other pgid
  end.

(** ** sysproc_unix.go *)

Definition applyProcessGroup (cmd : Cmd) : M kernel Cmd :=
  let cmd := set_SysProcAttr {| Setpgid := true; Credential := None |} cmd in
  do! setSelfSubreaper in
  ret cmd.

Definition killGroup (pgid : Z) : M kernel (result errno unit) := kill_SIGKILL (- pgid).

Definition waitDelay : Z := 5 * 10 ^ 9.

(** ** sysproc_stub.go: systems that are not Unix *)

Definition applyProcessGroup_stub (cmd : Cmd) : M kernel Cmd := ret cmd.
Definition killGroup_stub (pgid : Z) : M kernel (result errno unit) := ret (Ok tt).
Definition reapGroupOrphans_stub (pgid : Z) : M kernel unit := ret tt.
Definition waitDelay_stub : Z := 0.

(** ** Lemmas *)

Lemma elem_of_matching f ps pid :
  pid ∈ matching f ps ↔ ∃ p, ps !! pid = Some p ∧ f pid p = true.
Proof.
  unfold matching. rewrite list_elem_of_fmap. split.
  - intros ([i p] & -> & [Hf Hin]%list_elem_of_filter). exists p. split; [|done].
    by apply elem_of_map_to_list.
  - intros (p & Hp & Hf). exists (pid, p). split; [done|]. apply list_elem_of_filter.
    split; [done|]. by apply elem_of_map_to_list.
Qed.

Lemma matching_nil f ps : matching f ps = [] ↔ ∀ pid p, ps !! pid = Some p → f pid p = false.
Proof.
  split.
  - intros Hn pid p Hp. apply not_true_is_false. intros Hf.
    assert (pid ∈ matching f ps) as Hin by (apply elem_of_matching; eauto).
    rewrite Hn in Hin. by apply elem_of_nil in Hin.
  - intros Hf. destruct (matching f ps) as [|pid l] eqn:E; [done|].
    assert (pid ∈ matching f ps) as Hin by (rewrite E; apply list_elem_of_here).
    apply elem_of_matching in Hin as (p & Hp & Ht). by rewrite (Hf _ _ Hp) in Ht.
Qed.

(** The children of the daemon that a target names. *)
Definition ours (k : kernel) (target pid : Z) (p : process) : Prop :=
  k_procs k !! pid = Some p ∧ pr_parent p = k_self k ∧ targets target pid p = true.

(** Everything but the table and the clock stays. *)
Definition same_host (k k' : kernel) : Prop :=
  k_goos k' = k_goos k ∧ k_self k' = k_self k ∧ k_group k' = k_group k.

Lemma same_host_refl k : same_host k k.
Proof. done. Qed.
Lemma same_host_trans k1 k2 k3 : same_host k1 k2 → same_host k2 k3 → same_host k1 k3.
Proof. intros (? & ? & ?) (? & ? & ?). split_and!; congruence. Qed.
#[export] Hint Resolve same_host_refl : go.

Lemma wait4_spec target k :
  wp (wait4_WNOHANG target) (λ w k', same_host k k' ∧ k_now k' = k_now k ∧
    match w with
    | WaitPid pid => ∃ p, ours k target pid p ∧ is_alive p = false
        ∧ k_procs k' = delete pid (k_procs k)
    | WaitNone => k' = k
    | WaitErrno _ => k' = k ∧ ∀ pid p, ¬ ours k target pid p
    end) k.
Proof.
  unfold wp, wait4_WNOHANG. destruct (matching _ _) as [|pid l] eqn:E.
  - destruct (matching (λ pid p, _ && targets _ _ _) _) as [|pid l] eqn:E2; simpl; [|done].
    do 2 (split; [done|]). split; [done|]. intros pid p (Hp & Hs & Ht).
    pose proof (proj1 (matching_nil _ _) E2 _ _ Hp) as H. simpl in H.
    by rewrite Hs, Z.eqb_refl, Ht in H.
  - simpl. do 2 (split; [done|]). assert (pid ∈ pid :: l) as Hin by apply list_elem_of_here.
    rewrite <-E in Hin. apply elem_of_matching in Hin as (p & Hp & Hf).
    apply andb_prop in Hf as [[Hs Ht]%andb_prop Ha]. apply Z.eqb_eq in Hs. exists p.
    split; [done|]. split; [|done]. by apply negb_true_iff.
Qed.

Lemma do_step_frame k s : same_host k (do_step k s) ∧ k_now (do_step k s) = k_now k.
Proof. destruct s; simpl; repeat case_match; done. Qed.

Lemma do_steps_frame ss k : same_host k (do_steps ss k) ∧ k_now (do_steps ss k) = k_now k.
Proof.
  revert k. induction ss as [|s ss IH]; intros k; [done|]. simpl.
  destruct (IH (do_step k s)) as [H1 H2], (do_step_frame k s) as [H3 H4].
  split; [by eapply same_host_trans|congruence].
Qed.

(** *** The size of the table *)

Lemma do_exit_size pid k : size (k_procs (do_exit pid k)) = size (k_procs k).
Proof. simpl. by rewrite map_size_fmap, <-!(size_dom (D:=gset Z)), dom_alter_L. Qed.

Lemma do_step_size k s : (size (k_procs (do_step k s)) ≤ size (k_procs k) + 1)%nat.
Proof.
  destruct s as [pid new|pid g|pid|pid]; simpl; repeat case_match; simpl; try lia.
  - rewrite map_size_insert. case_match; simpl; lia.
  - rewrite map_size_insert. case_match; simpl; lia.
  - match goal with |- context [adopt ?p _] => pose proof (do_exit_size p k) as Hsz; simpl in Hsz; lia end.
  - rewrite map_size_delete. case_match; simpl; lia.
Qed.

Lemma do_steps_size ss k : (size (k_procs (do_steps ss k)) ≤ size (k_procs k) + length ss)%nat.
Proof.
  revert k. induction ss as [|s ss IH]; intros k; simpl; [lia|].
  pose proof (IH (do_step k s)). pose proof (do_step_size k s). lia.
Qed.

(** *** The reaper ends *)

(** The longest round of a schedule. *)
Definition longest_round (sched : list round) : N := foldr (λ r b, N.max (r_time r) b) 0%N sched.

Lemma longest_round_spec sched : Forall (λ r, (r_time r ≤ longest_round sched)%N) sched.
Proof.
  induction sched as [|r sched IH]; simpl; constructor; [lia|].
  eapply Forall_impl; [exact IH|]. simpl. lia.
Qed.

(** The first thing a round does. *)
Definition begin_round (sched : list round) (k : kernel) : kernel :=
  match sched with
  | [] => k
  | r :: _ => tick (Z.of_N (r_time r)) (do_steps (r_steps r) k)
  end.

Lemma begin_round_spec sched k :
  same_host k (begin_round sched k) ∧ k_now k ≤ k_now (begin_round sched k)
  ∧ (∀ b, Forall (λ r, (r_time r ≤ b)%N) sched → k_now (begin_round sched k) ≤ k_now k + Z.of_N b)
  ∧ (size (k_procs (begin_round sched k)) + sched_steps (tail sched)
     ≤ size (k_procs k) + sched_steps sched)%nat.
Proof.
  destruct sched as [|r sched]; simpl.
  - split_and!; [done|lia| |lia]. intros b _. lia.
  - destruct (do_steps_frame (r_steps r) k) as [(H1 & H2 & H3) H4]. pose proof (do_steps_size (r_steps r) k) as H5.
    split_and!; [by split_and!|simpl; lia| |unfold sched_steps; simpl; lia].
    intros b Hb. apply Forall_cons in Hb as [Hb _]. simpl. lia.
Qed.

Lemma reap_loop_unfold pgid deadline fuel sched k :
  k_now k < deadline →
  reap_loop pgid deadline (S fuel) sched k =
    (let! w := wait4_WNOHANG (- pgid) in
     match w with
     | WaitPid _ => reap_loop pgid deadline fuel (tail sched)
     | WaitNone => do! modify (tick reapGroupPollInterval) in reap_loop pgid deadline fuel (tail sched)
     | WaitErrno _ => ret true
     end) (begin_round sched k).
Proof.
  intros H. cbn [reap_loop]. unfold bind at 1, gets. rewrite (proj2 (Z.ltb_lt _ _) H).
  by destruct sched.
Qed.

(** Whatever an invariant the rounds keep, the loop ends with it. *)
Lemma reap_loop_spec (I : kernel → Prop) pgid deadline b fuel sched k :
  (∀ r k, r ∈ sched → I k → I (do_steps (r_steps r) k)) → (∀ d k, I k → I (tick d k)) →
  (∀ k, I k → wp (wait4_WNOHANG (- pgid)) (λ _, I) k) →
  Forall (λ r, (r_time r ≤ b)%N) sched →
  (size (k_procs k) + sched_steps sched + 1 ≤ fuel)%nat →
  deadline - k_now k ≤
    (Z.of_nat fuel - Z.of_nat (size (k_procs k) + sched_steps sched) - 1) * reapGroupPollInterval →
  I k →
  wp (reap_loop pgid deadline fuel sched) (λ done k', done = true ∧ I k' ∧ same_host k k'
    ∧ k_now k ≤ k_now k' ≤ Z.max (k_now k) (deadline + Z.of_N b + reapGroupPollInterval)
    ∧ ((∀ pid p, ¬ ours k' (- pgid) pid p) ∨ deadline ≤ k_now k')) k.
Proof.
  intros Hst Ht Hw. revert sched k Hst. induction fuel as [|fuel IH]; intros sched k Hst Hb Hf Hm HI; [lia|].
  destruct (Z.ltb_spec (k_now k) deadline) as [Hlt|Hge].
  2: { unfold wp. cbn [reap_loop]. unfold bind, gets. rewrite (proj2 (Z.ltb_ge _ _) Hge).
       split_and!; auto with go; simpl; lia. }
  unfold wp. rewrite reap_loop_unfold by done.
  destruct (begin_round_spec sched k) as (Hh & Hn & Hnb & Hs). specialize (Hnb b Hb).
  assert (I (begin_round sched k)) as HI1.
  { destruct sched as [|r sched]; [done|]. apply Ht, Hst; [apply list_elem_of_here|done]. }
  assert (∀ r k, r ∈ tail sched → I k → I (do_steps (r_steps r) k)) as Hst'
    by (destruct sched; [done|]; intros r' k' ? ?; apply Hst; [by apply list_elem_of_further|done]).
  assert (Forall (λ r, (r_time r ≤ b)%N) (tail sched)) as Hb' by (destruct Hb; [constructor|done]).
  apply wp_bind. eapply wp_mono; [apply wp_and; [apply wait4_spec|by apply Hw]|].
  intros w k2 [(Hh2 & Hn2 & Hw2) HI2]. destruct w as [pid| |e].
  - destruct Hw2 as (p & (Hp & _ & _) & _ & Hd).
    assert (S (size (k_procs k2)) = size (k_procs (begin_round sched k))) as Hsz.
    { rewrite Hd, map_size_delete, Hp. simpl.
      assert (size (k_procs (begin_round sched k)) ≠ 0%nat); [|lia].
      by apply (map_size_ne_0_lookup_2 _ pid); rewrite Hp. }
    eapply wp_mono; [apply IH; try done; [lia|unfold reapGroupPollInterval in *; lia]|].
    intros e k3 (-> & HI3 & Hh3 & Hn3 & Hend).
    refine (conj eq_refl (conj HI3 (conj _ (conj _ Hend)))); [|unfold reapGroupPollInterval in *; lia].
    eapply same_host_trans, same_host_trans; eassumption.
  - subst k2. apply wp_bind, wp_modify. unfold reapGroupPollInterval in *.
    eapply wp_mono; [apply IH; try done; [simpl; lia|simpl; lia|by apply Ht]|].
    intros e k3 (-> & HI3 & Hh3 & Hn3 & Hend). simpl in Hn3.
    refine (conj eq_refl (conj HI3 (conj _ (conj _ Hend)))); [|unfold reapGroupPollInterval in *; lia].
    eapply same_host_trans; eassumption.
  - destruct Hw2 as [-> Hno]. apply wp_ret.
    refine (conj eq_refl (conj HI2 (conj Hh (conj _ (or_introl Hno))))).
    unfold reapGroupPollInterval. lia.
Qed.

(** *** A killed group *)

(** No member of the group runs: each is dead or has a SIGKILL pending. *)
Definition quiet (pgid : Z) (k : kernel) : Prop :=
  ∀ pid p, k_procs k !! pid = Some p → pr_group p = pgid → is_running p = false.

(** A process of another group joins this one. *)
Definition joins (pgid : Z) (s : pstep) : bool :=
  match s with Regroup _ g => g =? pgid | _ => false end.

Lemma lookup_exit pid k q p :
  k_procs (do_exit pid k) !! q = Some p →
  ∃ p0, k_procs k !! q = Some p0 ∧ pr_group p = pr_group p0
    ∧ pr_state p = (if decide (q = pid) then Zombie else pr_state p0)
    ∧ pr_parent p = (if pr_parent p0 =? pid then adopter k else pr_parent p0).
Proof.
  simpl. rewrite lookup_fmap. destruct (decide (q = pid)) as [->|Hne].
  - rewrite lookup_alter_eq. destruct (k_procs k !! pid) as [p0|] eqn:E; [|done]. simpl.
    intros [= <-]. exists p0. unfold adopt. simpl. by destruct (pr_parent p0 =? pid).
  - rewrite lookup_alter_ne by done. destruct (k_procs k !! q) as [p0|] eqn:E; [|done]. simpl.
    intros [= <-]. exists p0. unfold adopt. by destruct (pr_parent p0 =? pid).
Qed.

Lemma quiet_exit pgid pid k : quiet pgid k → quiet pgid (do_exit pid k).
Proof.
  intros Hq q p (p0 & Hp & Hg & Hs & _)%lookup_exit Hpg. unfold is_running. rewrite Hs.
  destruct (decide (q = pid)); [done|]. apply (Hq q p0 Hp). congruence.
Qed.

Lemma quiet_delete pgid pid k :
  quiet pgid k → quiet pgid (with_procs (delete pid (k_procs k)) k).
Proof. intros Hq q p. simpl. intros [_ Hp]%lookup_delete_Some. by apply (Hq q). Qed.

Lemma quiet_step pgid k s : quiet pgid k → joins pgid s = false → quiet pgid (do_step k s).
Proof.
  intros Hq Hj. destruct s as [pid new|pid g|pid|pid]; simpl.
  - destruct (k_procs k !! pid) as [p|] eqn:Ep; [|done]. destruct (k_procs k !! new); [done|].
    destruct (_ && _) eqn:E; [|done]. apply andb_prop in E as [[Hr _]%andb_prop _].
    intros q p'. simpl. intros [[<- <-]|[_ Hp']]%lookup_insert_Some Hg; [|by eapply Hq].
    simpl in Hg. by rewrite (Hq pid p Ep Hg) in Hr.
  - destruct (k_procs k !! pid) as [p|] eqn:Ep; [|done]. destruct (is_running p); [|done].
    intros q p'. simpl. intros [[<- <-]|[_ Hp']]%lookup_insert_Some Hg; [|by eapply Hq].
    simpl in Hg, Hj. apply Z.eqb_neq in Hj. congruence.
  - destruct (k_procs k !! pid) as [p|]; [|done]. destruct (is_alive p); [|done]. by apply quiet_exit.
  - destruct (k_procs k !! pid) as [p|]; [|done]. destruct (_ && _); [|done]. by apply quiet_delete.
Qed.

Lemma quiet_steps pgid ss k :
  quiet pgid k → Forall (λ s, joins pgid s = false) ss → quiet pgid (do_steps ss k).
Proof.
  intros Hq Hj. revert k Hq. induction Hj as [|s ss Hs _ IH]; intros k Hq; [done|].
  by apply IH, quiet_step.
Qed.

Lemma quiet_wait4 pgid target k : quiet pgid k → wp (wait4_WNOHANG target) (λ _, quiet pgid) k.
Proof.
  intros Hq. eapply wp_mono; [apply wait4_spec|]. intros [pid| |e] k' (_ & _ & H).
  - destruct H as (p & _ & _ & Hd). intros q p'. rewrite Hd. intros [_ Hp]%lookup_delete_Some. by apply (Hq q).
  - by subst.
  - by destruct H as [-> _].
Qed.

Lemma kill_spec target k :
  wp (kill_SIGKILL target) (λ r k', same_host k k' ∧ k_now k' = k_now k ∧
    ∀ pid, k_procs k' !! pid = (λ p, if targets target pid p then doom p else p) <$> k_procs k !! pid) k.
Proof.
  unfold wp, kill_SIGKILL. destruct (matching _ _) as [|q l] eqn:E; simpl; (split; [done|split; [done|]]); intros pid.
  - destruct (k_procs k !! pid) as [p|] eqn:Ep; [|done]. simpl.
    by rewrite (proj1 (matching_nil _ _) E _ _ Ep).
  - rewrite map_lookup_imap. by destruct (k_procs k !! pid).
Qed.

Lemma killGroup_quiet pgid k : 0 < pgid → wp (killGroup pgid) (λ _ k', quiet pgid k') k.
Proof.
  intros Hpos. eapply wp_mono; [apply kill_spec|]. intros _ k' (_ & _ & Hk) pid p. rewrite Hk.
  destruct (k_procs k !! pid) as [p0|]; [|done]. simpl. unfold targets.
  rewrite (proj2 (Z.ltb_lt (- pgid) 0)) by lia. rewrite Z.opp_involutive.
  destruct (Z.eqb_spec (pr_group p0) pgid) as [He|Hne]; [|by intros [= <-]].
  intros [= <-] _. unfold doom. by destruct (is_running p0) eqn:E.
Qed.

(** *** A dead child outside the groups of the commands *)

(** A dead child of the daemon in group [g]. *)
Definition stuck (g pid : Z) (k : kernel) : Prop :=
  k_procs k !! k_self k = None
  ∧ k_procs k !! pid = Some {| pr_parent := k_self k; pr_group := g; pr_state := Zombie |}.

Lemma stuck_exit g pid q k : q ≠ k_self k → stuck g pid k → stuck g pid (do_exit q k).
Proof.
  intros Hq [Hs Hp]. split; simpl; rewrite lookup_fmap.
  - destruct (decide (q = k_self k)); [done|]. by rewrite lookup_alter_ne, Hs by done.
  - assert (alter (in_state Zombie) q (k_procs k) !! pid = k_procs k !! pid) as ->.
    { destruct (decide (q = pid)) as [->|]; [by rewrite lookup_alter_eq, Hp|by rewrite lookup_alter_ne]. }
    rewrite Hp. simpl. unfold adopt. simpl. by rewrite (proj2 (Z.eqb_neq _ _) (not_eq_sym Hq)).
Qed.

Lemma stuck_procs g pid ps k :
  ps !! k_self k = None → ps !! pid = k_procs k !! pid → stuck g pid k → stuck g pid (with_procs ps k).
Proof. intros H1 H2 [_ H3]. split; [done|]. simpl. by rewrite H2. Qed.

Lemma stuck_step g pid k s : stuck g pid k → stuck g pid (do_step k s).
Proof.
  intros H. pose proof H as [Hs Hp]. destruct s as [q new|q g'|q|q]; simpl.
  - destruct (k_procs k !! q); [|done]. destruct (k_procs k !! new) eqn:En; [done|].
    destruct (_ && _) eqn:E; [|done]. apply andb_prop in E as [[_ E]%andb_prop _].
    apply negb_true_iff, Z.eqb_neq in E. apply stuck_procs; [by rewrite lookup_insert_ne| |done].
    rewrite lookup_insert_ne; [done|]. intros ->. congruence.
  - destruct (k_procs k !! q) as [p|] eqn:Eq; [|done]. destruct (is_running p) eqn:Er; [|done].
    apply stuck_procs; [rewrite lookup_insert_ne; [done|]| |done].
    + intros ->. congruence.
    + rewrite lookup_insert_ne; [done|]. intros ->. rewrite Hp in Eq. injection Eq as <-. done.
  - destruct (k_procs k !! q) as [p|] eqn:Eq; [|done]. destruct (is_alive p); [|done].
    apply stuck_exit; [|done]. intros ->. congruence.
  - destruct (k_procs k !! q) as [p|] eqn:Eq; [|done]. destruct (_ && _) eqn:E; [|done].
    apply andb_prop in E as [_ E]. apply negb_true_iff, Z.eqb_neq in E.
    apply stuck_procs; [| |done]; rewrite lookup_delete_ne; try done; intros ->; [congruence|].
    rewrite Hp in Eq. injection Eq as <-. done.
Qed.

Lemma stuck_steps g pid ss k : stuck g pid k → stuck g pid (do_steps ss k).
Proof. revert k. induction ss as [|s ss IH]; intros k H; [done|]. by apply IH, stuck_step. Qed.

Lemma stuck_wait4 g pid pgid k :
  0 < pgid → pgid ≠ g → stuck g pid k → wp (wait4_WNOHANG (- pgid)) (λ _, stuck g pid) k.
Proof.
  intros Hpos Hne H. pose proof H as [Hs Hp].
  eapply wp_mono; [apply wait4_spec|]. intros [q| |e] k' ((_ & Hself & _) & _ & Hw).
  - destruct Hw as (p & (Hq & _ & Ht) & _ & Hd). unfold stuck. rewrite Hd, Hself. split.
    + by apply lookup_delete_None; right.
    + rewrite lookup_delete_ne; [done|]. intros ->. rewrite Hp in Hq. injection Hq as <-.
      unfold targets in Ht. rewrite (proj2 (Z.ltb_lt (- pgid) 0)) in Ht by lia.
      apply Z.eqb_eq in Ht. simpl in Ht. lia.
  - by subst.
  - by destruct Hw as [-> _].
Qed.

(** The reaper, with an invariant. *)
Lemma reapGroupOrphans_spec (I : kernel → Prop) pgid sched k :
  (∀ r k, r ∈ sched → I k → I (do_steps (r_steps r) k)) → (∀ d k, I k → I (tick d k)) →
  (∀ k, I k → wp (wait4_WNOHANG (- pgid)) (λ _, I) k) →
  I k →
  wp (reapGroupOrphans pgid sched) (λ finished k', finished = true ∧ I k' ∧ same_host k k'
    ∧ k_now k ≤ k_now k' ≤ k_now k + reapGroupTimeout + Z.of_N (longest_round sched) + reapGroupPollInterval
    ∧ (k_goos k = Linux →
       (∀ pid p, ¬ ours k' (- pgid) pid p) ∨ k_now k + reapGroupTimeout ≤ k_now k')) k.
Proof.
  intros Hst Ht Hw HI. set (b := longest_round sched). apply wp_bind, wp_gets.
  destruct (k_goos k) eqn:Eg.
  - apply wp_bind, wp_gets, wp_bind, wp_gets.
    eapply wp_mono; [apply (reap_loop_spec I pgid _ b); try done; try apply longest_round_spec|].
    + unfold reap_fuel. lia.
    + unfold reap_fuel, reapGroupTimeout, reapGroupPollInterval. lia.
    + intros e k' (-> & HI' & Hh & Hn & Hend).
      refine (conj eq_refl (conj HI' (conj Hh (conj _ (λ _, Hend))))).
      unfold reapGroupTimeout, reapGroupPollInterval in *. lia.
  - apply wp_ret. refine (conj eq_refl (conj HI (conj (same_host_refl k) (conj _ _)))); [|done].
    unfold reapGroupTimeout, reapGroupPollInterval. lia.
Qed.

(** What the daemon does to its commands, any number of them at a time; [live]
    are the heads of the commands whose [Run] has not returned.  The kernel
    gives a new process no number that is in use, as a group's neither. *)
Definition fresh (pid : Z) (k : kernel) : Prop :=
  1 < pid ∧ pid ≠ k_self k ∧ k_procs k !! pid = None
  ∧ ∀ q p, k_procs k !! q = Some p → pr_group p ≠ pid.

Inductive daemon_step : kernel * gset Z → kernel * gset Z → Prop :=
| DProcess s k live : daemon_step (k, live) (do_step k s, live)
| DTime d k live : daemon_step (k, live) (tick d k, live)
| DStart cmd pid k live : fresh pid k →
    daemon_step (k, live) ((bind (applyProcessGroup cmd) (λ cmd, start_head cmd pid) k).2, {[pid]} ∪ live)
| DCancel pid k live : pid ∈ live → daemon_step (k, live) ((killGroup pid k).2, live)
| DKill pid k live : pid ∈ live → daemon_step (k, live) ((kill_SIGKILL pid k).2, live)
| DWait pid k live : pid ∈ live → daemon_step (k, live) ((wait_head pid k).2, live)
| DReap pid sched k live : pid ∈ live → daemon_step (k, live) ((reapGroupOrphans pid sched k).2, live)
| DReturn pid k live : daemon_step (k, live) (k, live ∖ {[pid]}).

(** A dead child, in a group and with a number no running command has. *)
Definition outside (g pid : Z) (c : kernel * gset Z) : Prop :=
  stuck g pid c.1 ∧ (g ∉ c.2) ∧ (pid ∉ c.2) ∧ ∀ q, q ∈ c.2 → 1 < q ∧ q ≠ k_self c.1.

Lemma outside_keeps g pid k k' live :
  outside g pid (k, live) → same_host k k' → stuck g pid k' → outside g pid (k', live).
Proof. intros (_ & H2 & H3 & H4) (_ & Hs & _) Hst. split_and!; try done. simpl. by rewrite Hs. Qed.

Lemma start_stuck g pid cmd q k :
  fresh q k → stuck g pid k →
  wp (bind (applyProcessGroup cmd) (λ cmd, start_head cmd q))
     (λ _ k', same_host k k' ∧ stuck g pid k') k.
Proof.
  intros (_ & Hq & Hn & _) [Hs Hp].
  unfold wp, applyProcessGroup, setSelfSubreaper, setSelfSubreaper_linux, setSelfSubreaper_other, bind, gets, prctl, start_head, modify, ret.
  assert (∀ p, <[q:=p]> (k_procs k) !! k_self k = None) by (intros p; by rewrite lookup_insert_ne).
  assert (∀ p, <[q:=p]> (k_procs k) !! pid = k_procs k !! pid)
    by (intros p; rewrite lookup_insert_ne; [done|]; intros ->; congruence).
  unfold stuck. destruct (k_goos k) eqn:Eg; [destruct (_ && _)|]; simpl; split; split_and!; try done;
    etrans; eauto.
Qed.

Lemma outside_step g pid c c' : daemon_step c c' → outside g pid c → outside g pid c'.
Proof.
  intros Hd Ho. pose proof Ho as (Hst & Hg & Hp & Hl). pose proof Hst as [Hself Hz].
  destruct Hd as [s k live|d k live|cmd q k live Hf|q k live Hq|q k live Hq|q k live Hq
    |q sched k live Hq|q k live]; simpl in *.
  - apply (outside_keeps _ _ k); [done|apply do_step_frame|by apply stuck_step].
  - by apply (outside_keeps _ _ k).
  - destruct (start_stuck g pid cmd q k Hf Hst) as [Hh Hs']. destruct Hf as (H1 & H2 & H3 & H4).
    set (k' := (bind _ _ k).2) in *. pose proof Hh as (_ & Hse & _).
    assert (g ≠ q) by (intros ->; by apply (H4 _ _ Hz)). assert (pid ≠ q) by (intros ->; congruence).
    split_and!; simpl; [done|by rewrite not_elem_of_union, not_elem_of_singleton..|].
    intros x [->%elem_of_singleton|Hx]%elem_of_union.
    + by rewrite Hse.
    + rewrite Hse. by apply Hl.
  - destruct (kill_spec (- q) k) as (Hh & _ & Hk). apply (outside_keeps _ _ k); [done..|].
    destruct Hh as (_ & Hse & _). unfold stuck, killGroup. by rewrite !Hk, Hse, Hself, Hz; simpl; case_match.
  - destruct (kill_spec q k) as (Hh & _ & Hk). apply (outside_keeps _ _ k); [done..|].
    destruct Hh as (_ & Hse & _). unfold stuck. by rewrite !Hk, Hse, Hself, Hz; simpl; case_match.
  - apply (outside_keeps _ _ k); [done..|]. destruct (Hl _ Hq) as [_ Hqs].
    destruct (stuck_exit g pid q k Hqs Hst) as [H1 H2].
    split; simpl; rewrite lookup_delete_ne; try done; congruence.
  - destruct (Hl _ Hq) as [Hq1 _].
    destruct (reapGroupOrphans_spec (stuck g pid) q sched k)
      as (_ & Hs' & Hh & _); try done.
    + intros r k' _. apply stuck_steps.
    + intros k' H. apply stuck_wait4; [lia| |done]. intros ->. done.
    + by apply (outside_keeps _ _ k).
  - split_and!; simpl; [done|by intros [? _]%elem_of_difference..|].
    intros x [Hx _]%elem_of_difference. by apply Hl.
Qed.

(** ** Guarantees *)

(** C35: The reaper ends.  Whatever the processes do meanwhile, and with any
    number of them, the loop is over at most one round and one pause after its
    200 ms; on Linux, either the daemon has then no child of the group left,
    dead or alive, or the time is up. *)
Theorem reapGroupOrphans_terminates pgid sched k :
  wp (reapGroupOrphans pgid sched) (λ finished k', finished = true
    ∧ k_now k' ≤ k_now k + reapGroupTimeout + Z.of_N (longest_round sched) + reapGroupPollInterval
    ∧ (k_goos k = Linux →
       (∀ pid p, ¬ ours k' (- pgid) pid p) ∨ k_now k + reapGroupTimeout ≤ k_now k')) k.
Proof.
  eapply wp_mono.
  - apply (reapGroupOrphans_spec (λ _, True) pgid sched k); done.
  - intros e k' (-> & _ & _ & [_ Hn] & He). done.
Qed.

(** What leaves its group is never waited for.  The daemon makes itself the
    parent of the orphans of its commands, but waits only for the heads of
    commands and for their groups: a dead child of the daemon whose group is
    that of no running command (a descendant that called [setsid], or one that
    outlived its command's reaper) stays in the process table through everything
    the daemon and the processes do from then on, with any number of commands
    at a time. *)
Theorem escaped_orphan_stays g pid k live c' :
  stuck g pid k → g ∉ live → pid ∉ live → (∀ q, q ∈ live → 1 < q ∧ q ≠ k_self k) →
  rtc daemon_step (k, live) c' → stuck g pid c'.1.
Proof.
  intros Hs Hg Hp Hl Hr. assert (outside g pid (k, live)) as Ho by by split_and!.
  revert Ho. generalize (k, live) Hr. clear. intros c Hr. induction Hr as [c|c c1 c2 Hstep _ IH]; intros Ho.
  - apply Ho.
  - by eapply IH, outside_step.
Qed.

(** ** Instances *)

(** [sh -c "setsid sleep 1 & sleep 9 &"]: the shell 100 leaves 101 and 102. *)
Definition demo_kernel : kernel :=
  {| k_goos := Linux; k_self := 50; k_group := 50; k_has_subreaper := true; k_subreaper := true;
     k_procs := {[100 := {| pr_parent := 50; pr_group := 100; pr_state := Running |}]}; k_now := 0 |}.
Definition demo_life : list pstep := [Fork 100 101; Regroup 101 101; Fork 100 102; Exit 100].
Definition demo_left : kernel := (wait_head 100 (do_steps (demo_life ++ [Exit 101; Exit 102]) demo_kernel)).2.

Lemma reapGroupOrphans_terminates_witness :
  let k' := (reapGroupOrphans 100 [{| r_steps := []; r_time := 7 |}] demo_left).2 in
  k_procs k' !! 102 = None ∧ k_procs k' !! 101 ≠ None ∧ k_now k' ≤ 201 * 10 ^ 6 + 7.
Proof.
  destruct (reapGroupOrphans_terminates 100 [{| r_steps := []; r_time := 7 |}] demo_left) as (_ & Hn & _).
  split_and!; [vm_compute; reflexivity|vm_compute; discriminate|].
  etrans; [exact Hn|]. vm_compute. discriminate.
Defined.

Lemma escaped_orphan_stays_witness :
  stuck 101 101 (do_steps [Fork 100 103; Exit 100] demo_left)
  ∧ stuck 101 101 (reapGroupOrphans 100 [] demo_left).2.
Proof.
  assert (stuck 101 101 demo_left) as Hs by (split; vm_compute; reflexivity).
  split; [by apply stuck_steps|].
  apply (escaped_orphan_stays 101 101 demo_left {[100]} ((reapGroupOrphans 100 [] demo_left).2, {[100]}));
    [exact Hs|by apply not_elem_of_singleton..| |].
  - intros q ->%elem_of_singleton. split; [lia|vm_compute; discriminate].
  - apply rtc_once, DReap. by apply elem_of_singleton.
Defined.
