(* ===== verification/CmdExec.v ===== *)
(** * CmdExec: [internal/cmdexec], running one command.

    The capped output buffers of [cappedwriter.go], the gates of [exec.go]
    (allowlist, working directory, binary lookup, environment), and the run
    itself over the process table of Processes: [Start], [Wait] with the
    cancellation and the delay [Run] asks for, and the reaper.  The machine is
    the set of files the code asks about, the daemon's environment, the children
    that [Start] will produce and the kernel; a run also leaves the list of its
    externally visible events. *)

From S2P Require Import Prelude GoText GoEncoding GoPath Processes.
Open Scope Z_scope.
Open Scope go_scope.

(** ** cappedwriter.go *)

Record CappedWriter := { buf : bytes; cap : Z; Truncated : bool }.

(** [make([]byte, 0, cap)] panics on a negative capacity. *)
Definition NewCappedWriter (cap : Z) : option CappedWriter :=
  if cap <? 0 then None else Some {| buf := []; cap := cap; Truncated := false |}.

Definition blen (b : bytes) : Z := Z.of_nat (length b).

(** The count returned to the process, and the writer. *)
Definition Write (cw : CappedWriter) (p : bytes) : Z * CappedWriter :=
  let n := blen p in
  let drained := if 0 <? n then {| buf := buf cw; cap := cap cw; Truncated := true |} else cw in
  if cap cw =? 0 then (n, drained)
  else
    let remaining := cap cw - blen (buf cw) in
    if remaining <=? 0 then (n, drained)
    else if remaining <? blen p then
      (n, {| buf := buf cw ++ take (Z.to_nat remaining) p; cap := cap cw; Truncated := true |})
    else
      (n, {| buf := buf cw ++ p; cap := cap cw; Truncated := Truncated cw |}).

Definition Bytes (cw : CappedWriter) : bytes := buf cw.

(** A child's writes, one after the other. *)
Definition write_all (cw : CappedWriter) (ps : list bytes) : CappedWriter :=
  fold_left (λ w p, (Write w p).2) ps cw.

(** ** config.go, exec.go: data *)

Record Config := {
  Allowlist : list string;
  DefaultTimeoutMs : Z;
  MaxTimeoutMs : Z;
  DefaultCwd : string;
  EnvWhitelist : list string;
  MaxArgs : Z;
  MaxArgLen : Z;
  MaxOutputBytes : Z;
  DenyRoot : bool;
}.

Record Input := { Command : string; Args : list string; Cwd : string }.

Record Result := {
  Stdout : bytes;
  Stderr : bytes;
  ExitCode : Z;
  Duration : Z;
  TimedOut : bool;
  StdoutTruncated : bool;
  StderrTruncated : bool;
}.

(** Errors of [Run]: the two sentinels, and everything else (a "command not
    found" text). *)
Inductive xerr :=
| ErrNotAllowed (cmd : string)
| ErrBadCwd (detail : string)
| OtherErr (msg : string).

#[export] Instance xerr_eq_dec : EqDecision xerr.
Proof. solve_decision. Defined.

(** ** The machine *)

(** What [os.Stat] says of a path. *)
Inductive stat_kind := StatDir | StatFile | StatErr (msg : string).

(** How a process ends: by itself, with a code, or by a signal. *)
Inductive exit_status := Exited (code : Z) | Signaled.

(** One child as the environment has it: its pid and what it wrote to each
    stream; how it would end by itself, and after how long; how long it takes to
    die of a SIGKILL; when the copying of both streams is over, if ever (other
    processes may hold the pipes); and what the processes do until the child or
    the context ends, between the SIGKILL and the death of the child, and during
    the rounds of the reaper.  Times are nanoseconds since [Start]. *)
Record child := {
  c_pid : Z;
  c_out : list bytes;
  c_err : list bytes;
  c_status : exit_status;
  c_runs : N;
  c_lag : N;
  c_eof : option N;
  c_before : list pstep;
  c_dying : list pstep;
  c_sched : list round;
}.

Inductive event :=
| EvStart (cmd : Cmd)
| EvKillGroup (pgid : Z)
| EvReap (pgid : Z) (finished : bool).

(** The child [Start] would produce for a command, or the error of the fork or
    exec. *)
Record machine := {
  m_stat : string → stat_kind;
  m_executable : string → bool;
  m_getenv : string → string;
  m_spawn : Cmd → result string child;
  m_kernel : kernel;
  m_events : list event;
}.

Definition emit (e : event) : M machine unit :=
  modify (λ m, {| m_stat := m_stat m; m_executable := m_executable m; m_getenv := m_getenv m;
                  m_spawn := m_spawn m; m_kernel := m_kernel m; m_events := m_events m ++ [e] |}).

Definition set_kernel (k : kernel) (m : machine) : machine :=
  {| m_stat := m_stat m; m_executable := m_executable m; m_getenv := m_getenv m;
     m_spawn := m_spawn m; m_kernel := k; m_events := m_events m |}.

Definition on_kernel {A} (c : M kernel A) : M machine A := zoom m_kernel set_kernel c.

(** ** [exec.LookPath] of the Go library *)

Inductive look_err := LookNotFound | LookDot (path : string).

Fixpoint look_dirs (m : machine) (file : string) (dirs : list string) : result look_err string :=
  match dirs with
  | [] => Err LookNotFound
  | d :: ds =>
      let d := if String.eqb d "" then "."%string else d in
      let p := path_join [d; file] in
      if m_executable m p then
        if is_abs p then Ok p else Err (LookDot p)
      else look_dirs m file ds
  end.

(** [filepath.SplitList]: an empty PATH has no entries. *)
Definition split_list (p : string) : list string :=
  if String.eqb p "" then [] else split_on ":" p.

Definition LookPath (m : machine) (file : string) : result look_err string :=
  if has_char slash file then
    if m_executable m file then Ok file else Err LookNotFound
  else look_dirs m file (split_list (m_getenv m "PATH")).

(** ** exec.go: the gates *)

Definition validateCwd (m : machine) (path : string) : result xerr unit :=
  match m_stat m path with
  | StatErr e => Err (ErrBadCwd (path +:+ ": " +:+ e))
  | StatFile => Err (ErrBadCwd (path +:+ " is not a directory"))
  | StatDir => Ok tt
  end.

(** The text of [exec.Error] for [exec.ErrDot]. *)
Definition look_dot_msg (file : string) : string :=
  "exec: " +:+ fmt_q file +:+ ": cannot run executable found relative to current directory".

Definition lookupBinary (m : machine) (command : string) : result xerr string :=
  if has_prefix command "/" then
    match m_stat m command with
    | StatErr _ => Err (OtherErr ("command not found: " +:+ command))
    | _ => Ok command
    end
  else
    match LookPath m command with
    | Err (LookDot _) =>
        Err (OtherErr ("command not found: relative path not allowed: " +:+ look_dot_msg command))
    | Err LookNotFound => Err (OtherErr ("command not found: " +:+ command))
    | Ok bin =>
        if has_prefix bin "/" then Ok bin
        else Err (OtherErr "command not found: relative path not allowed")
    end.

Fixpoint buildEnv (m : machine) (whitelist : list string) : list string :=
  match whitelist with
  | [] => []
  | key :: ks =>
      let val := m_getenv m key in
      if String.eqb val "" then buildEnv m ks
      else (key +:+ "=" +:+ val) :: buildEnv m ks
  end.

(** ** [Start] and [Wait] of the Go library *)

(** [Start]: a context that is over already is an error (this one or
    [context canceled]). *)
Definition cmd_Start (ctx_end : option Z) (cmd : Cmd) : M machine (result string child) :=
  if (match ctx_end with Some t => t <=? 0 | None => false end) then
    ret (Err "context deadline exceeded"%string)
  else
    let! spawn := gets m_spawn in
    match spawn cmd with
    | Err e => ret (Err e)
    | Ok c =>
        do! emit (EvStart cmd) in
        do! on_kernel (start_head cmd (c_pid c)) in
        ret (Ok c)
    end.

(** The context ended while the child ran, so that [Cancel] was called. *)
Definition cancelled (ctx_end : option Z) (c : child) : option Z :=
  match ctx_end with
  | Some t => if t <? Z.of_N (c_runs c) then Some t else None
  | None => None
  end.

Inductive wait_error := ExitError (code : Z) | OtherWaitError.

(** How the wait ends for a child that ended at [ended]: the copying of its
    streams is given until [limit] and is then cut off ([ErrWaitDelay]). *)
Definition wait_outcome (c : child) (status : exit_status) (ended limit : Z) (was_cancelled : bool) :
    option wait_error * Z :=
  let copied := match c_eof c with Some f => Z.of_N f <=? limit | None => false end in
  let over := Z.max ended (if copied then Z.of_N (default 0%N (c_eof c)) else limit) in
  let err := match status with
    | Signaled => Some (ExitError (-1))
    | Exited code =>
        if negb (code =? 0) then Some (ExitError code)
        else if was_cancelled || negb copied then Some OtherWaitError else None
    end in
  (err, over).

(** The context ended at [t]: [Cancel] is called, and a child that has not died
    of it [delay] later is killed by its pid. *)
Definition wait_cancelled (t : Z) (Cancel : M machine (result errno unit)) (delay : Z) (c : child) :
    M machine (option wait_error * Z) :=
  let natural := Z.of_N (c_runs c) in
  let! _ := Cancel in
  let! hit := gets (λ m, match k_procs (m_kernel m) !! c_pid c with
                         | Some p => bool_decide (pr_state p = Doomed)
                         | None => false
                         end) in
  do! on_kernel (modify (do_steps (c_dying c))) in
  if hit then ret (wait_outcome c Signaled (t + Z.of_N (c_lag c)) (t + delay) true)
  else if natural <=? t + delay then ret (wait_outcome c (c_status c) natural (t + delay) true)
  else
    let! _ := on_kernel (kill_SIGKILL (c_pid c)) in
    ret (wait_outcome c Signaled (t + delay + Z.of_N (c_lag c)) (t + delay) true).

(** [Wait], with the callback [Cancel] and a positive [WaitDelay]. *)
Definition cmd_Wait (ctx_end : option Z) (Cancel : M machine (result errno unit)) (delay : Z) (c : child) :
    M machine (option wait_error * Z) :=
  let natural := Z.of_N (c_runs c) in
  let! start := gets (λ m, k_now (m_kernel m)) in
  do! on_kernel (modify (do_steps (c_before c))) in
  let! outcome :=
    match cancelled ctx_end c with
    | None => ret (wait_outcome c (c_status c) natural (natural + delay) false)
    | Some t => wait_cancelled t Cancel delay c
    end in
  do! on_kernel (wait_head (c_pid c)) in
  do! on_kernel (modify (at_time (start + outcome.2))) in
  ret outcome.

(** ** exec.go: [Run]

    [ctx_end]: when the context is over, from the moment of [Start]; at zero or
    before, it is already.  [None] is a panic ([NewCappedWriter] on a negative
    limit). *)
Definition allowed (cfg : Config) (command : string) : bool :=
  match Allowlist cfg with
  | [] => true
  | l => existsb (λ entry, String.eqb entry command) l
  end.

(** The callback [Cancel] of [Run]. *)
Definition run_cancel (c : child) : M machine (result errno unit) :=
  do! emit (EvKillGroup (c_pid c)) in on_kernel (killGroup (c_pid c)).

(** From [Start] to the result. *)
Definition run_cmd (ctx_end : option Z) (cmd : Cmd) (stdoutW stderrW : CappedWriter) :
    M machine (result xerr Result) :=
  let! start := gets (λ m, k_now (m_kernel m)) in
  let! started := cmd_Start ctx_end cmd in
  match started with
  | Err e => ret (Err (OtherErr ("command not found: " +:+ e)))
  | Ok c =>
      let stdoutW := write_all stdoutW (c_out c) in
      let stderrW := write_all stderrW (c_err c) in
      let! waited := cmd_Wait ctx_end (run_cancel c) (cmd_WaitDelay cmd) c in
      let! finished := on_kernel (reapGroupOrphans (c_pid c) (c_sched c)) in
      do! emit (EvReap (c_pid c) finished) in
      let! now := gets (λ m, k_now (m_kernel m)) in
      let ctx_done := match ctx_end with Some t => t <=? now - start | None => false end in
      let timedOut := match waited.1 with Some _ => ctx_done | None => false end in
      let exitCode := match waited.1 with
        | None => 0
        | Some _ => if ctx_done then -1 else
                    match waited.1 with Some (ExitError code) => code | _ => 0 end
        end in
      ret (Ok {| Stdout := Bytes stdoutW; Stderr := Bytes stderrW; ExitCode := exitCode;
                 Duration := waited.2; TimedOut := timedOut;
                 StdoutTruncated := Truncated stdoutW; StderrTruncated := Truncated stderrW |})
  end.

Definition Run (ctx_end : option Z) (cfg : Config) (i : Input) :
    M machine (option (result xerr Result)) :=
  if negb (allowed cfg (Command i)) then ret (Some (Err (ErrNotAllowed (Command i)))) else
  let cwd := if String.eqb (Cwd i) "" then DefaultCwd cfg else Cwd i in
  let! m := gets (λ m, m) in
  match validateCwd m cwd with
  | Err e => ret (Some (Err e))
  | Ok _ =>
  match lookupBinary m (Command i) with
  | Err e => ret (Some (Err e))
  | Ok bin =>
  let! cmd := on_kernel (applyProcessGroup
    {| cmd_Path := bin; cmd_Args := Args i; cmd_Env := buildEnv m (EnvWhitelist cfg); cmd_Dir := cwd;
       cmd_SysProcAttr := None; cmd_WaitDelay := 0 |}) in
  match NewCappedWriter (MaxOutputBytes cfg), NewCappedWriter (MaxOutputBytes cfg) with
  | Some stdoutW, Some stderrW =>
      let! r := run_cmd ctx_end (set_WaitDelay waitDelay cmd) stdoutW stderrW in
      ret (Some r)
  | _, _ => ret None
  end end end.

(** ** Lemmas *)

Lemma blen_app a b : blen (a ++ b) = blen a + blen b.
Proof. unfold blen. rewrite length_app. lia. Qed.

Lemma blen_nonneg b : 0 ≤ blen b.
Proof. unfold blen. lia. Qed.

(** What a writer holds after it was given [data]. *)
Definition holds_prefix (cap0 : Z) (data : bytes) (cw : CappedWriter) : Prop :=
  cap cw = cap0 ∧ buf cw = take (Z.to_nat cap0) data ∧ Truncated cw = (cap0 <? blen data).

Lemma Write_prefix cap0 data p cw :
  0 ≤ cap0 → holds_prefix cap0 data cw → holds_prefix cap0 (data ++ p) (Write cw p).2.
Proof.
  intros Hc (H1 & H2 & H3). unfold Write, holds_prefix. rewrite H1.
  pose proof (blen_nonneg data) as Hd. pose proof (blen_nonneg p) as Hp.
  assert (blen (buf cw) = Z.min cap0 (blen data)) as Hb
    by (rewrite H2; unfold blen; rewrite length_take; lia).
  assert (∀ q : bytes, cap0 ≤ blen data → take (Z.to_nat cap0) (data ++ q) = take (Z.to_nat cap0) data) as Hfull
    by (intros q Hq; rewrite take_app_le; [done|unfold blen in Hq; lia]).
  rewrite blen_app.
  destruct (Z.eqb_spec cap0 0) as [->|Hne].
  { simpl. destruct (Z.ltb_spec 0 (blen p)); simpl; rewrite ?H1, ?H2, ?H3; split_and!; try done.
    - symmetry. apply Z.ltb_lt. lia.
    - f_equal. lia. }
  rewrite Hb. destruct (Z.leb_spec (cap0 - Z.min cap0 (blen data)) 0) as [Hr|Hr].
  { destruct (Z.ltb_spec 0 (blen p)); simpl; rewrite ?H1, ?H2, ?H3, Hfull by lia;
      split_and!; try done.
    - symmetry. apply Z.ltb_lt. lia.
    - f_equal. lia. }
  assert (take (Z.to_nat cap0) data = data) as Htk by (apply take_ge; unfold blen in *; lia).
  assert (take (Z.to_nat cap0) (data ++ p) = data ++ take (Z.to_nat (cap0 - blen data)) p) as Hap.
  { rewrite take_app. rewrite Htk. do 2 f_equal. unfold blen. lia. }
  destruct (Z.ltb_spec (cap0 - Z.min cap0 (blen data)) (blen p)) as [Hlt|Hge]; simpl;
    (split; [done|]).
  - rewrite H2, Htk, Hap. split; [do 2 f_equal; lia|]. symmetry. apply Z.ltb_lt. lia.
  - rewrite H2, Htk, Hap, H3. split.
    + f_equal. rewrite take_ge; [done|]. unfold blen in *. lia.
    + transitivity false; [|symmetry]; apply Z.ltb_ge; lia.
Qed.

Lemma write_all_prefix cap0 ps data cw :
  0 ≤ cap0 → holds_prefix cap0 data cw → holds_prefix cap0 (data ++ concat ps) (write_all cw ps).
Proof.
  intros Hc. revert data cw. unfold write_all. induction ps as [|p ps IH]; intros data cw H; simpl.
  - by rewrite app_nil_r.
  - rewrite app_assoc. by apply IH, Write_prefix.
Qed.

Lemma NewCappedWriter_prefix cap0 cw :
  NewCappedWriter cap0 = Some cw → 0 ≤ cap0 ∧ holds_prefix cap0 [] cw.
Proof.
  unfold NewCappedWriter. destruct (Z.ltb_spec cap0 0); intros; simplify_eq. split; [done|].
  split_and!; simpl; [done|by rewrite take_nil|]. symmetry. apply Z.ltb_ge. unfold blen. simpl. lia.
Qed.

Lemma existsb_eqb_elem x l : existsb (λ e, String.eqb e x) l = true ↔ x ∈ l.
Proof.
  rewrite existsb_exists. split.
  - intros (e & He & Heq). apply String.eqb_eq in Heq as ->. by apply list_elem_of_In.
  - intros H. exists x. split; [by apply list_elem_of_In|apply String.eqb_refl].
Qed.

Lemma lookupBinary_abs m command bin : lookupBinary m command = Ok bin → is_abs bin = true.
Proof.
  unfold lookupBinary. destruct (has_prefix command "/") eqn:E.
  - destruct (m_stat m command); intros; by simplify_eq.
  - destruct (LookPath m command) as [b|[]]; [|done..].
    destruct (has_prefix b "/") eqn:Eb; intros; by simplify_eq.
Qed.

Lemma buildEnv_spec m wl e :
  e ∈ buildEnv m wl ↔
  ∃ key, key ∈ wl ∧ m_getenv m key ≠ ""%string ∧ e = key +:+ "=" +:+ m_getenv m key.
Proof.
  induction wl as [|k wl IH]; simpl.
  - split; [intros H; by apply elem_of_nil in H|intros (key & H & _); by apply elem_of_nil in H].
  - destruct (String.eqb_spec (m_getenv m k) "") as [He|He].
    + rewrite IH. split; intros (key & Hin & Hne & ->); exists key; (split; [|done]).
      * by apply list_elem_of_further.
      * apply elem_of_cons in Hin as [->|]; done.
    + rewrite elem_of_cons, IH. split.
      * intros [->|(key & Hin & Hrest)]; [exists k|exists key]; split; try done;
          [apply list_elem_of_here|by apply list_elem_of_further].
      * intros (key & Hin & Hne & ->). apply elem_of_cons in Hin as [->|Hin]; [by left|right; eauto].
Qed.

(** *** The run of a child *)

Lemma wp_on_kernel {A} (c : M kernel A) Q m :
  wp c (λ a k, Q a (set_kernel k m)) (m_kernel m) → wp (on_kernel c) Q m.
Proof. unfold wp, on_kernel, zoom. by destruct (c (m_kernel m)). Qed.

Lemma wait_outcome_bounds c status ended limit b :
  let w := wait_outcome c status ended limit b in
  ended ≤ w.2 ≤ Z.max ended limit ∧ (b = true → w.1 ≠ None).
Proof.
  unfold wait_outcome. split.
  - destruct (c_eof c) as [f|]; simpl; [destruct (Z.leb_spec (Z.of_N f) limit)|]; lia.
  - intros ->. simpl. destruct status as [code|]; [destruct (negb (code =? 0))|]; done.
Qed.

(** The exit code of a process that ended by itself. *)
Definition exit_code (status : exit_status) : Z := match status with Exited code => code | Signaled => -1 end.

Lemma wait_outcome_code c status ended limit b :
  match (wait_outcome c status ended limit b).1 with
  | Some (ExitError code) => code = exit_code status
  | _ => exit_code status = 0
  end.
Proof.
  unfold wait_outcome. simpl. destruct status as [code|]; [|done]. destruct (Z.eqb_spec code 0) as [->|]; simpl.
  - by destruct (b || _).
  - done.
Qed.

(** The steps of the processes of [c] do not bring others into its group. *)
Definition no_joins (c : child) : Prop :=
  Forall (λ s, joins (c_pid c) s = false) (c_dying c)
  ∧ Forall (λ r, Forall (λ s, joins (c_pid c) s = false) (r_steps r)) (c_sched c).

Lemma wait_head_spec pid k :
  wp (wait_head pid) (λ _ k', same_host k k' ∧ ∀ g, quiet g k → quiet g k') k.
Proof.
  apply wp_modify. split; [done|]. intros g Hq. apply (quiet_delete g pid (do_exit pid k)).
  by apply quiet_exit.
Qed.

Definition kills (ctx_end : option Z) (c : child) : list event :=
  match cancelled ctx_end c with Some _ => [EvKillGroup (c_pid c)] | None => [] end.

(** When the wait may end. *)
Definition wait_window (ctx_end : option Z) (delay : Z) (c : child) (over : Z) : Prop :=
  match cancelled ctx_end c with
  | None => Z.of_N (c_runs c) ≤ over ≤ Z.of_N (c_runs c) + delay
  | Some t => t ≤ over ≤ t + delay + Z.of_N (c_lag c)
  end.

Lemma cancelled_before ctx_end c t :
  cancelled ctx_end c = Some t → ctx_end = Some t ∧ t < Z.of_N (c_runs c).
Proof.
  unfold cancelled. destruct ctx_end as [t'|]; [|done].
  destruct (Z.ltb_spec t' (Z.of_N (c_runs c))); [|done]. by intros [= ->].
Qed.

Lemma kill_SIGKILL_quiet g target k :
  quiet g k → wp (kill_SIGKILL target) (λ _ k', same_host k k' ∧ quiet g k') k.
Proof.
  intros Hq. eapply wp_mono; [apply kill_spec|]. intros _ k' (Hh & _ & Hk). split; [done|].
  intros pid p. rewrite Hk. destruct (k_procs k !! pid) as [p0|] eqn:E; [|done]. simpl. intros [= <-] Hg.
  assert (pr_group p0 = g) as Hg0 by (revert Hg; case_match; [unfold doom; by case_match|done]).
  pose proof (Hq _ _ E Hg0). case_match; [unfold doom; by case_match|done].
Qed.

Lemma wait_cancelled_spec t delay c m :
  0 ≤ delay → t < Z.of_N (c_runs c) →
  wp (wait_cancelled t (run_cancel c) delay c)
    (λ w m', m_events m' = m_events m ++ [EvKillGroup (c_pid c)]
      ∧ same_host (m_kernel m) (m_kernel m')
      ∧ t ≤ w.2 ≤ t + delay + Z.of_N (c_lag c) ∧ w.1 ≠ None
      ∧ (0 < c_pid c → no_joins c → quiet (c_pid c) (m_kernel m'))) m.
Proof.
  intros Hd Ht. apply wp_bind, wp_bind, wp_modify, wp_on_kernel. simpl.
  eapply wp_mono; [apply wp_and; [apply kill_spec|apply (wp_intro _ (λ _ k1, 0 < c_pid c → quiet (c_pid c) k1))]|].
  { intros a k1 H Hp. pose proof (wp_run _ _ _ _ _ H (killGroup_quiet (c_pid c) (m_kernel m) Hp)) as Hq. exact Hq. }
  intros _ k1 [(Hh & _ & _) Hq]. apply wp_bind, wp_gets, wp_bind, wp_on_kernel, wp_modify. simpl.
  destruct (do_steps_frame (c_dying c) k1) as [Hh2 _]. set (k2 := do_steps _ _) in *.
  assert (same_host (m_kernel m) k2) as Hh3 by by eapply same_host_trans.
  assert (0 < c_pid c → no_joins c → quiet (c_pid c) k2) as Hq2
    by (intros Hp [Hj _]; apply quiet_steps; auto).
  match goal with |- context [if ?b then _ else _] => set (hit := b) end. destruct hit.
  { apply wp_ret. destruct (wait_outcome_bounds c Signaled (t + Z.of_N (c_lag c)) (t + delay) true) as [Hb He].
    split_and!; auto; lia. }
  destruct (Z.leb_spec (Z.of_N (c_runs c)) (t + delay)) as [Hle|Hgt].
  { apply wp_ret. destruct (wait_outcome_bounds c (c_status c) (Z.of_N (c_runs c)) (t + delay) true) as [Hb He].
    split_and!; auto; lia. }
  apply wp_bind, wp_on_kernel. eapply wp_mono; [apply wp_and; [apply kill_spec|
    apply (wp_intro _ (λ _ k3, 0 < c_pid c → no_joins c → quiet (c_pid c) k3))]|].
  { intros a k3 H Hp Hj.
    by destruct (wp_run _ _ _ _ _ H (kill_SIGKILL_quiet (c_pid c) (c_pid c) k2 (Hq2 Hp Hj))). }
  intros _ k3 [(Hh4 & _ & _) Hq3]. apply wp_ret.
  destruct (wait_outcome_bounds c Signaled (t + delay + Z.of_N (c_lag c)) (t + delay) true) as [Hb He].
  refine (conj eq_refl (conj _ (conj _ (conj (He eq_refl) Hq3)))); [by eapply same_host_trans|lia].
Qed.

Lemma cmd_Wait_spec ctx_end delay c m :
  0 ≤ delay →
  wp (cmd_Wait ctx_end (run_cancel c) delay c)
    (λ w m', m_events m' = m_events m ++ kills ctx_end c
      ∧ same_host (m_kernel m) (m_kernel m') ∧ k_now (m_kernel m') = k_now (m_kernel m) + w.2
      ∧ wait_window ctx_end delay c w.2
      ∧ (∀ t, cancelled ctx_end c = Some t → w.1 ≠ None
          ∧ (0 < c_pid c → no_joins c → quiet (c_pid c) (m_kernel m')))
      ∧ (cancelled ctx_end c = None →
         match w.1 with Some (ExitError code) => code = exit_code (c_status c) | _ => exit_code (c_status c) = 0 end)) m.
Proof.
  intros Hd. unfold cmd_Wait. apply wp_bind, wp_gets, wp_bind, wp_on_kernel, wp_modify, wp_bind.
  destruct (do_steps_frame (c_before c) (m_kernel m)) as [Hh0 _]. set (k0 := do_steps _ _) in *.
  assert (∀ (w : option wait_error * Z) m1, m_events m1 = m_events m ++ kills ctx_end c → same_host (m_kernel m) (m_kernel m1) →
    wait_window ctx_end delay c w.2 →
    (∀ t, cancelled ctx_end c = Some t → w.1 ≠ None
        ∧ (0 < c_pid c → no_joins c → quiet (c_pid c) (m_kernel m1))) →
    (cancelled ctx_end c = None →
     match w.1 with Some (ExitError code) => code = exit_code (c_status c) | _ => exit_code (c_status c) = 0 end) →
    wp (do! on_kernel (wait_head (c_pid c)) in
        do! on_kernel (modify (at_time (k_now (m_kernel m) + w.2))) in ret w)
      (λ w m', m_events m' = m_events m ++ kills ctx_end c
        ∧ same_host (m_kernel m) (m_kernel m') ∧ k_now (m_kernel m') = k_now (m_kernel m) + w.2
        ∧ wait_window ctx_end delay c w.2
        ∧ (∀ t, cancelled ctx_end c = Some t → w.1 ≠ None
          ∧ (0 < c_pid c → no_joins c → quiet (c_pid c) (m_kernel m')))
        ∧ (cancelled ctx_end c = None →
           match w.1 with Some (ExitError code) => code = exit_code (c_status c) | _ => exit_code (c_status c) = 0 end))
        m1) as Hend.
  { intros w m1 He Hh Hw Hc Hx. apply wp_bind, wp_on_kernel.
    eapply wp_mono; [apply wait_head_spec|]. intros [] k2 [Hh2 Hq2].
    apply wp_bind, wp_on_kernel, wp_modify, wp_ret. split; [done|].
    split; [by eapply same_host_trans|]. do 2 (split; [done|]). split; [|exact Hx]. intros t Ht.
    destruct (Hc t Ht) as [H1 H2]. split; [done|]. intros Hp Hj. by apply Hq2, H2. }
  unfold wait_window, kills in *. destruct (cancelled ctx_end c) as [t|] eqn:Ec.
  - destruct (cancelled_before _ _ _ Ec) as [_ Ht].
    eapply wp_mono; [by apply wait_cancelled_spec|]. intros w m1 (He & Hh & Hw & Hn & Hq). simpl in *.
    apply Hend; [done|by eapply same_host_trans|exact Hw|by intros t' _|done].
  - apply wp_ret. destruct (wait_outcome_bounds c (c_status c) (Z.of_N (c_runs c)) (Z.of_N (c_runs c) + delay) false) as [Hb _].
    cbv zeta in Hb. rewrite Z.max_r in Hb by lia.
    apply Hend; [by rewrite app_nil_r|done|exact Hb|done|]. intros _. apply wait_outcome_code.
Qed.

Definition unprivileged : SysProcAttr := {| Setpgid := true; Credential := None |}.

Lemma applyProcessGroup_spec cmd k :
  wp (applyProcessGroup cmd) (λ cmd' k', cmd' = set_SysProcAttr unprivileged cmd
    ∧ same_host k k' ∧ k_now k' = k_now k) k.
Proof.
  unfold wp, applyProcessGroup, setSelfSubreaper, setSelfSubreaper_linux, setSelfSubreaper_other, bind, gets, ret, prctl.
  destruct (k_goos k) eqn:E; [destruct (_ && _)|]; simpl; split_and!; done.
Qed.

(** A command that was run: its child, what it wrote, how it ended, and what is
    left of its group. *)
Record ran (ctx_end : option Z) (n : Z) (cmd : Cmd) (c : child) (m : machine) (res : Result) (m' : machine) : Prop := {
  ran_spawn : m_spawn m cmd = Ok c;
  ran_in_time : ∀ t, ctx_end = Some t → 0 < t;
  ran_events : m_events m' = m_events m ++ EvStart cmd :: kills ctx_end c ++ [EvReap (c_pid c) true];
  ran_stdout : Stdout res = take (Z.to_nat n) (concat (c_out c))
    ∧ StdoutTruncated res = (n <? blen (concat (c_out c)));
  ran_stderr : Stderr res = take (Z.to_nat n) (concat (c_err c))
    ∧ StderrTruncated res = (n <? blen (concat (c_err c)));
  ran_duration : wait_window ctx_end waitDelay c (Duration res);
  ran_exit : ExitCode res = if TimedOut res then -1 else exit_code (c_status c);
  ran_timed_out : TimedOut res = true →
    ∃ t, ctx_end = Some t ∧ k_now (m_kernel m) + t ≤ k_now (m_kernel m');
  ran_cancelled : ∀ t, cancelled ctx_end c = Some t → TimedOut res = true
    ∧ (0 < c_pid c → no_joins c → quiet (c_pid c) (m_kernel m'));
  ran_returns : k_now (m_kernel m) + Duration res ≤ k_now (m_kernel m')
      ≤ k_now (m_kernel m) + Duration res + reapGroupTimeout
        + Z.of_N (longest_round (c_sched c)) + reapGroupPollInterval;
  ran_reaped : k_goos (m_kernel m) = Linux →
    (∀ pid p, ¬ ours (m_kernel m') (- c_pid c) pid p)
    ∨ k_now (m_kernel m) + Duration res + reapGroupTimeout ≤ k_now (m_kernel m');
}.

Lemma run_cmd_spec ctx_end n cmd cw m :
  NewCappedWriter n = Some cw → cmd_WaitDelay cmd = waitDelay →
  wp (run_cmd ctx_end cmd cw cw) (λ r m', match r with
    | Err e => m' = m ∧ ∀ c, e ≠ ErrNotAllowed c
    | Ok res => ∃ c, ran ctx_end n cmd c m res m'
    end) m.
Proof.
  intros Hn Hdel. unfold run_cmd, cmd_Start. apply wp_bind, wp_gets, wp_bind.
  destruct (match ctx_end with Some t => t <=? 0 | None => false end) eqn:Ee; [by apply wp_ret, wp_ret|].
  apply wp_bind, wp_gets. destruct (m_spawn m cmd) as [c|e] eqn:Es; [|by apply wp_ret, wp_ret].
  apply wp_bind, wp_modify, wp_bind, wp_on_kernel, wp_modify, wp_ret. rewrite Hdel.
  set (m1 := set_kernel _ _).
  assert (same_host (m_kernel m) (m_kernel m1) ∧ k_now (m_kernel m1) = k_now (m_kernel m)
          ∧ m_events m1 = m_events m ++ [EvStart cmd]) as (Hh1 & Hn1 & He1) by done.
  clearbody m1.
  apply wp_bind. eapply wp_mono; [apply cmd_Wait_spec; unfold waitDelay; lia|].
  intros w m2 (He2 & Hh2 & Hn2 & Hw2 & Hc2 & Hx2).
  apply wp_bind, wp_on_kernel. eapply wp_mono;
    [apply (reapGroupOrphans_spec (λ k, ∀ t, cancelled ctx_end c = Some t →
       0 < c_pid c → no_joins c → quiet (c_pid c) k) (c_pid c))|].
  { intros r k Hr HI t Ht Hp Hj. apply quiet_steps; [by eapply HI|].
    destruct Hj as [_ Hj]. by rewrite Forall_forall in Hj; apply Hj. }
  { intros d k HI t Ht Hp Hj. exact (HI t Ht Hp Hj). }
  { intros k HI. apply wp_intro. intros a k' Hrun t Ht Hp Hj.
    by eapply (wp_run _ _ _ _ _ Hrun (quiet_wait4 (c_pid c) (- c_pid c) k (HI t Ht Hp Hj))). }
  { intros t Ht. by apply (Hc2 t). }
  intros fin k3 (-> & HI3 & Hh3 & Hn3 & Hr3).
  apply wp_bind, wp_modify, wp_bind, wp_gets, wp_ret. exists c. simpl.
  pose proof (NewCappedWriter_prefix _ _ Hn) as [Hcap Hcw].
  destruct (write_all_prefix _ (c_out c) _ _ Hcap Hcw) as (_ & Ho & Hot).
  destruct (write_all_prefix _ (c_err c) _ _ Hcap Hcw) as (_ & Her & Het).
  assert (∀ t, cancelled ctx_end c = Some t → t ≤ k_now k3 - k_now (m_kernel m)) as Hlate.
  { intros t Ht. unfold wait_window in Hw2. rewrite Ht in Hw2. lia. }
  constructor; simpl.
  - done.
  - intros t ->. by apply Z.leb_gt in Ee.
  - by rewrite He2, He1, <-!app_assoc.
  - done.
  - done.
  - done.
  - destruct (cancelled ctx_end c) as [t|] eqn:Ec.
    + destruct (Hc2 t eq_refl) as [Hne _]. pose proof (Hlate t eq_refl) as Hl.
      apply cancelled_before in Ec as [-> _]. destruct w.1; [|done]. by rewrite (proj2 (Z.leb_le _ _) Hl).
    + specialize (Hx2 eq_refl). by destruct w.1 as [[code|]|]; rewrite Hx2.
  - destruct w.1; [|done]. destruct ctx_end as [t|]; [|done]. intros Ht%Z.leb_le. exists t. split; [done|lia].
  - intros t Ht. destruct (Hc2 t Ht) as [Hne _]. split; [|by apply (HI3 t)].
    pose proof (Hlate t Ht) as Hl. apply cancelled_before in Ht as [-> _].
    destruct w.1; [|done]. by apply Z.leb_le.
  - lia.
  - intros Hos. rewrite Hn2, Hn1 in Hr3. apply Hr3. destruct Hh1 as [H1 _], Hh2 as [H2 _]. congruence.
Qed.

(** *** The whole of [Run] *)

(** The gates one started process went through. *)
Definition start_ok (cfg : Config) (i : Input) (m : machine) (cmd : Cmd) : Prop :=
  (Allowlist cfg = [] ∨ Command i ∈ Allowlist cfg)
  ∧ is_abs (cmd_Path cmd) = true ∧ lookupBinary m (Command i) = Ok (cmd_Path cmd)
  ∧ cmd_Args cmd = Args i ∧ cmd_Env cmd = buildEnv m (EnvWhitelist cfg)
  ∧ m_stat m (cmd_Dir cmd) = StatDir
  ∧ (cmd_Dir cmd = Cwd i ∨ Cwd i = ""%string ∧ cmd_Dir cmd = DefaultCwd cfg)
  ∧ cmd_SysProcAttr cmd = Some unprivileged ∧ cmd_WaitDelay cmd = waitDelay.

Lemma allowed_spec cfg c : allowed cfg c = true → Allowlist cfg = [] ∨ c ∈ Allowlist cfg.
Proof.
  unfold allowed. destruct (Allowlist cfg) as [|e l]; [by left|]. intros H. right.
  by apply existsb_eqb_elem.
Qed.

(** Nothing was started. *)
Definition not_run (m m' : machine) : Prop :=
  m_events m' = m_events m ∧ k_now (m_kernel m') = k_now (m_kernel m).

(** What [Run] returns and the events it appends. *)
Definition run_post (ctx_end : option Z) (cfg : Config) (i : Input) (m : machine)
    (r : option (result xerr Result)) (m' : machine) : Prop :=
  match r with
  | Some (Ok res) => 0 ≤ MaxOutputBytes cfg ∧ ∃ cmd c m1, start_ok cfg i m cmd
      ∧ m1 = set_kernel (m_kernel m1) m ∧ same_host (m_kernel m) (m_kernel m1)
      ∧ k_now (m_kernel m1) = k_now (m_kernel m)
      ∧ ran ctx_end (MaxOutputBytes cfg) cmd c m1 res m'
  | Some (Err e) => not_run m m' ∧
      ((∃ c, e = ErrNotAllowed c) ↔ Allowlist cfg ≠ [] ∧ Command i ∉ Allowlist cfg)
  | None => not_run m m' ∧ MaxOutputBytes cfg < 0
  end.

Lemma run_post_err ctx_end cfg i m e m' :
  allowed cfg (Command i) = true → (∀ c, e ≠ ErrNotAllowed c) → not_run m m' →
  run_post ctx_end cfg i m (Some (Err e)) m'.
Proof.
  intros Ha He Hm. split; [done|]. apply allowed_spec in Ha.
  split; [intros [c Hc]; by apply He in Hc|]. intros [Hne Hni]. by destruct Ha.
Qed.

Lemma run_post_denied ctx_end cfg i m :
  allowed cfg (Command i) = false →
  run_post ctx_end cfg i m (Some (Err (ErrNotAllowed (Command i)))) m.
Proof.
  unfold allowed. intros Ha. split; [done|]. split; [intros _|by eauto].
  destruct (Allowlist cfg) as [|e l]; [done|]. split; [done|].
  intros Hin%existsb_eqb_elem. congruence.
Qed.

Lemma validateCwd_ok m cwd : validateCwd m cwd = Ok tt → m_stat m cwd = StatDir.
Proof. unfold validateCwd. by destruct (m_stat m cwd). Qed.

Lemma validateCwd_err m cwd e c : validateCwd m cwd = Err e → e ≠ ErrNotAllowed c.
Proof. unfold validateCwd. intros. by repeat case_match; simplify_eq. Qed.

Lemma lookupBinary_err m command e c : lookupBinary m command = Err e → e ≠ ErrNotAllowed c.
Proof. unfold lookupBinary. intros. by repeat case_match; simplify_eq. Qed.

Lemma Run_spec ctx_end cfg i m : wp (Run ctx_end cfg i) (run_post ctx_end cfg i m) m.
Proof.
  unfold Run. destruct (allowed cfg (Command i)) eqn:Ea; simpl; [|by apply wp_ret, run_post_denied].
  apply wp_bind, wp_gets.
  set (cwd := if String.eqb (Cwd i) "" then DefaultCwd cfg else Cwd i).
  destruct (validateCwd m cwd) as [[]|e] eqn:Ec.
  2: { apply wp_ret, run_post_err; [done| |done]. intros c. by eapply validateCwd_err. }
  destruct (lookupBinary m (Command i)) as [bin|e] eqn:Eb.
  2: { apply wp_ret, run_post_err; [done| |done]. intros c. by eapply lookupBinary_err. }
  apply wp_bind, wp_on_kernel. eapply wp_mono; [apply applyProcessGroup_spec|].
  intros cmd k1 (-> & Hh & Hn).
  destruct (NewCappedWriter (MaxOutputBytes cfg)) as [cw|] eqn:En.
  2: { apply wp_ret. split; [done|]. unfold NewCappedWriter in En.
       by destruct (Z.ltb_spec (MaxOutputBytes cfg) 0). }
  apply wp_bind. eapply wp_mono; [by apply (run_cmd_spec _ (MaxOutputBytes cfg))|].
  intros [res|e] m'; [|intros [-> He]; by apply wp_ret, run_post_err].
  intros [c Hran]. apply wp_ret. split; [by apply NewCappedWriter_prefix in En as [? _]|].
  eexists _, c, (set_kernel k1 m). split; [|by split_and!].
  split_and!; try done; [by apply allowed_spec|by eapply lookupBinary_abs|by apply validateCwd_ok|].
  simpl. unfold cwd. destruct (String.eqb_spec (Cwd i) ""); auto.
Qed.

(** ** Guarantees *)

(** A child's output is captured exactly up to the limit: whatever pieces it
    writes, the buffer holds the first [n] bytes of their concatenation, the
    truncation flag says whether there were more, and every write reports the
    whole piece as taken, so that the child never blocks or fails on it. *)
Theorem capped_output n cw ps :
  NewCappedWriter n = Some cw →
  Bytes (write_all cw ps) = take (Z.to_nat n) (concat ps)
  ∧ Truncated (write_all cw ps) = (n <? blen (concat ps))
  ∧ ∀ p, (Write (write_all cw ps) p).1 = blen p.
Proof.
  intros Hn. destruct (NewCappedWriter_prefix _ _ Hn) as [Hc Hp].
  destruct (write_all_prefix _ ps _ _ Hc Hp) as (_ & Hb & Ht). split_and!; [done..|].
  intros p. unfold Write. by repeat case_match.
Qed.

(** C25: What [Run] lets happen.  A process is started only if the command is on
    the allowlist (or there is none), the working directory is a directory, the
    binary is an absolute path found by the daemon's own lookup, with the
    arguments as given, in a process group of its own and without other
    credentials than the daemon's, and with an environment that holds only
    whitelisted variables with the daemon's values; at most one process is
    started and its group is reaped.  What is returned of its output is the
    prefix within the limit, and the exit code is the one it ended with (-1 for a
    signal) unless the answer says that it timed out, which needs a context that
    was over when [Run] returned (not always when the command ended:
    [late_reaper_hides_exit_code]).  Every error, a denial included, comes before
    any process exists, and [ErrNotAllowed] is returned exactly to a command that
    is not on the list. *)
Theorem Run_gates ctx_end cfg i m :
  wp (Run ctx_end cfg i) (λ r m', run_post ctx_end cfg i m r m'
    ∧ ∀ cmd e, EvStart cmd ∈ m_events m' → EvStart cmd ∉ m_events m → e ∈ cmd_Env cmd →
        ∃ key, key ∈ EnvWhitelist cfg ∧ e = key +:+ "=" +:+ m_getenv m key) m.
Proof.
  eapply wp_mono; [apply Run_spec|]. intros r m' Hr. split; [done|]. intros cmd e Hev Hnew He.
  destruct r as [[res|x]|]; [|by destruct Hr as [[Hm _] _]; rewrite Hm in Hev..].
  destruct Hr as (_ & cmd1 & c & m1 & Hs & Hm1 & _ & _ & Hran).
  rewrite (ran_events _ _ _ _ _ _ _ Hran), Hm1 in Hev. simpl in Hev.
  apply elem_of_app in Hev as [|[Heq|Hev]%elem_of_cons]; [done| |].
  - injection Heq as ->. destruct Hs as (_ & _ & _ & _ & Henv & _). rewrite Henv in He.
    apply buildEnv_spec in He as (key & Hk & _ & ->). eauto.
  - exfalso. unfold kills in Hev. destruct (cancelled ctx_end c); simpl in Hev;
      repeat (apply elem_of_cons in Hev as [?|Hev]; [done|]); by apply elem_of_nil in Hev.
Qed.

(** How late a command with a context that is over at [t] may return. *)
Definition latest_return (t : Z) (c : child) : Z :=
  t + waitDelay + Z.of_N (c_lag c) + reapGroupTimeout + Z.of_N (longest_round (c_sched c))
    + reapGroupPollInterval.

Lemma run_post_deadline t cfg i m res m' :
  run_post (Some t) cfg i m (Some (Ok res)) m' →
  ∃ cmd c, m_spawn m cmd = Ok c ∧ 0 < t ∧ Duration res ≤ t + waitDelay + Z.of_N (c_lag c)
    ∧ k_now (m_kernel m') ≤ k_now (m_kernel m) + latest_return t c
    ∧ (t < Z.of_N (c_runs c) → TimedOut res = true ∧ ExitCode res = -1).
Proof.
  intros (_ & cmd & c & m1 & _ & Hm1 & _ & Hn1 & Hran).
  exists cmd, c. rewrite Hm1 in Hran. pose proof (ran_returns _ _ _ _ _ _ _ Hran) as [_ Hret]. simpl in Hret.
  pose proof (ran_duration _ _ _ _ _ _ _ Hran) as Hw. unfold wait_window, cancelled in Hw.
  assert (Duration res ≤ t + waitDelay + Z.of_N (c_lag c)) as Hd
    by (destruct (Z.ltb_spec t (Z.of_N (c_runs c))); lia). unfold latest_return.
  split_and!; [by apply (ran_spawn _ _ _ _ _ _ _ Hran)|by apply (ran_in_time _ _ _ _ _ _ _ Hran)|done|lia|].
  intros Hlt. destruct (ran_cancelled _ _ _ _ _ _ _ Hran t) as [Hto _].
  - unfold cancelled. by rewrite (proj2 (Z.ltb_lt _ _) Hlt).
  - split; [done|]. by rewrite (ran_exit _ _ _ _ _ _ _ Hran), Hto.
Qed.

(** A time limit is kept.  When the context is over [t] after the start,
    [Run] returns by [t], the five seconds the pipes are given, the time the
    kernel takes to end a killed process and the 200 ms of the reaper (with one
    round and one pause of it), however long the command would run and whoever
    holds its output; a command that was still running is reported as timed out,
    with exit code -1. *)
Theorem Run_deadline t cfg i m :
  wp (Run (Some t) cfg i) (λ r m', ∀ res, r = Some (Ok res) → ∃ cmd c, m_spawn m cmd = Ok c
    ∧ 0 < t ∧ Duration res ≤ t + waitDelay + Z.of_N (c_lag c)
    ∧ k_now (m_kernel m') ≤ k_now (m_kernel m) + latest_return t c
    ∧ (t < Z.of_N (c_runs c) → TimedOut res = true ∧ ExitCode res = -1)) m.
Proof.
  eapply wp_mono; [apply Run_spec|]. intros r m' Hr res ->. by eapply run_post_deadline.
Qed.

(** C34: A time-out ends the whole group.  When the context is over while the
    command runs, then no process of its group runs when [Run] returns: each is
    gone, or a SIGKILL is pending for it, or it is dead; on Linux the daemon
    moreover has no dead child of the group, unless the reaper's 200 ms were
    used up.  (Processes of other groups do not join this one meanwhile.) *)
Theorem timeout_ends_group t cfg i m :
  wp (Run (Some t) cfg i) (λ r m', ∀ res, r = Some (Ok res) → ∃ cmd c, m_spawn m cmd = Ok c ∧
    (t < Z.of_N (c_runs c) → 0 < c_pid c → no_joins c →
     (∀ pid p, k_procs (m_kernel m') !! pid = Some p → pr_group p = c_pid c → pr_state p ≠ Running)
     ∧ (k_goos (m_kernel m) = Linux →
        (∀ pid p, k_procs (m_kernel m') !! pid = Some p → pr_group p = c_pid c → pr_parent p ≠ k_self (m_kernel m'))
        ∨ k_now (m_kernel m) + Duration res + reapGroupTimeout ≤ k_now (m_kernel m')))) m.
Proof.
  eapply wp_mono; [apply Run_spec|]. intros r m' Hr res ->.
  destruct Hr as (_ & cmd & c & m1 & _ & Hm1 & (Hos & _) & Hn1 & Hran).
  rewrite Hm1 in Hran. exists cmd, c. split; [apply (ran_spawn _ _ _ _ _ _ _ Hran)|].
  intros Hlt Hp Hj. destruct (ran_cancelled _ _ _ _ _ _ _ Hran t) as [_ Hq].
  { unfold cancelled. by rewrite (proj2 (Z.ltb_lt _ _) Hlt). }
  split.
  - intros pid p Hl Hg Hs. pose proof (Hq Hp Hj pid p Hl Hg) as Hr. unfold is_running in Hr.
    by rewrite Hs in Hr.
  - intros Hlin. pose proof (ran_reaped _ _ _ _ _ _ _ Hran) as Hr. simpl in Hr. rewrite Hos, Hn1 in Hr.
    destruct (Hr Hlin) as [Hno|Hlate]; [left|by right].
    intros pid p Hl Hg Hpar. apply (Hno pid p). split_and!; [done..|]. unfold targets.
    rewrite (proj2 (Z.ltb_lt (- c_pid c) 0)) by lia. apply Z.eqb_eq. lia.
Qed.

(** ** Instances *)

Lemma capped_output_witness :
  ∃ cw, NewCappedWriter 4 = Some cw
  ∧ Bytes (write_all cw [bytes_of_string "ab"; bytes_of_string "cde"]) = bytes_of_string "abcd"
  ∧ Truncated (write_all cw [bytes_of_string "ab"; bytes_of_string "cde"]) = true.
Proof.
  eexists. split; [reflexivity|].
  pose proof (capped_output 4 _ [bytes_of_string "ab"; bytes_of_string "cde"] eq_refl) as (H1 & H2 & _).
  by rewrite H1, H2.
Defined.

Definition quiet_host : kernel :=
  {| k_goos := Linux; k_self := 50; k_group := 50; k_has_subreaper := true; k_subreaper := false;
     k_procs := ∅; k_now := 0 |}.

(** Prints, forks once, and ends with code 3 after five nanoseconds. *)
Definition demo_child : child :=
  {| c_pid := 4242; c_out := [bytes_of_string "hello"]; c_err := []; c_status := Exited 3;
     c_runs := 5; c_lag := 20; c_eof := Some 4%N; c_before := [Fork 4242 4243]; c_dying := [];
     c_sched := [{| r_steps := [Exit 4243]; r_time := 10 |}] |}.

(** A shell with a background process: it would run an hour. *)
Definition endless_child : child :=
  {| c_pid := 4242; c_out := []; c_err := []; c_status := Exited 0; c_runs := 3600 * 10 ^ 9; c_lag := 20;
     c_eof := None; c_before := [Fork 4242 4243; Fork 4243 4244]; c_dying := [Exit 4244];
     c_sched := [{| r_steps := [Exit 4243]; r_time := 10 |}] |}.

Definition demo_machine_of (c : child) : machine :=
  {| m_stat := λ p, if String.eqb p "/tmp" then StatDir else
                    if String.eqb p "/bin/echo" then StatFile else StatErr "no such file";
     m_executable := λ p, String.eqb p "/bin/echo";
     m_getenv := λ k, if String.eqb k "PATH" then "/usr/bin:/bin" else
                      if String.eqb k "LD_PRELOAD" then "/evil.so" else "";
     m_spawn := λ _, Ok c; m_kernel := quiet_host; m_events := [] |}.
Definition demo_machine : machine := demo_machine_of demo_child.

Definition demo_cfg : Config :=
  {| Allowlist := ["echo"%string]; DefaultTimeoutMs := 30000; MaxTimeoutMs := 300000;
     DefaultCwd := "/tmp"; EnvWhitelist := ["PATH"%string; "HOME"%string]; MaxArgs := 256;
     MaxArgLen := 131072; MaxOutputBytes := 3; DenyRoot := false |}.

Definition echo_input : Input := {| Command := "echo"; Args := ["$(id)"%string]; Cwd := "" |}.

Example Run_demo :
  let (r, m') := Run (Some (10 ^ 9)) demo_cfg echo_input demo_machine in
  r = Some (Ok {| Stdout := bytes_of_string "hel"; Stderr := []; ExitCode := 3; Duration := 5;
                  TimedOut := false; StdoutTruncated := true; StderrTruncated := false |})
  ∧ m_events m' = [EvStart {| cmd_Path := "/bin/echo"; cmd_Args := ["$(id)"%string];
                              cmd_Env := ["PATH=/usr/bin:/bin"%string]; cmd_Dir := "/tmp";
                              cmd_SysProcAttr := Some unprivileged; cmd_WaitDelay := waitDelay |};
                   EvReap 4242 true]
  ∧ k_procs (m_kernel m') = ∅ ∧ k_now (m_kernel m') = 15.
Proof. vm_compute. done. Qed.

(** After a second the group is killed; the grandchildren, orphans by then, are
    collected. *)
Example Run_demo_timeout :
  let (r, m') := Run (Some (10 ^ 9)) demo_cfg echo_input (demo_machine_of endless_child) in
  r = Some (Ok {| Stdout := []; Stderr := []; ExitCode := -1; Duration := 6 * 10 ^ 9; TimedOut := true;
                  StdoutTruncated := false; StderrTruncated := false |})
  ∧ k_procs (m_kernel m') = ∅.
Proof. vm_compute. done. Qed.

(** The command ends at once with code 3 but leaves a process in its group; the
    reaper waits 200 ms for that process, the limit of 100 ms passes meanwhile,
    and the result says that the command timed out. *)
Definition leaving_child : child :=
  {| c_pid := 4242; c_out := []; c_err := []; c_status := Exited 3; c_runs := 5; c_lag := 20;
     c_eof := Some 5%N; c_before := [Fork 4242 4243]; c_dying := []; c_sched := [] |}.

Example late_reaper_hides_exit_code :
  let (r, m') := Run (Some (100 * 10 ^ 6)) demo_cfg echo_input (demo_machine_of leaving_child) in
  r = Some (Ok {| Stdout := []; Stderr := []; ExitCode := -1; Duration := 5; TimedOut := true;
                  StdoutTruncated := false; StderrTruncated := false |})
  ∧ is_running <$> k_procs (m_kernel m') !! 4243 = Some true.
Proof. vm_compute. done. Qed.

Example Run_demo_denied :
  (Run None demo_cfg {| Command := "/bin/echo"; Args := []; Cwd := "" |} demo_machine).1
  = Some (Err (ErrNotAllowed "/bin/echo")).
Proof. reflexivity. Qed.
