(* ===== verification/ServerAudit.v ===== *)
(** * ServerAudit: [internal/server/audit.go], the audit records.

    [AuditRecord] as the transport and the tools fill it, and [writeAudit], which
    turns a record into one structured log line. *)

From S2P Require Import Prelude GoText GoEncoding.
Open Scope Z_scope.

Record AuditRecord := {
  TS : Z;
  a_Fingerprint : string;
  RemoteAddr : string;
  a_Result : string;
  Reason : string;
  Tool : string;
  a_Command : string;
  a_Args : list string;
  a_ExitCode : option Z;
  a_Duration : Z;
  a_TimedOut : bool;
  a_Path : string;
  a_Size : Z;
}.

#[export] Instance AuditRecord_eq_dec : EqDecision AuditRecord.
Proof. solve_decision. Defined.

(** A record with the fields every Go literal sets, the time apart; the others
    are zero. *)
Definition audit_record (fp remote res reason tool : string) : AuditRecord :=
  {| TS := 0; a_Fingerprint := fp; RemoteAddr := remote; a_Result := res; Reason := reason;
     Tool := tool; a_Command := ""; a_Args := []; a_ExitCode := None; a_Duration := 0;
     a_TimedOut := false; a_Path := ""; a_Size := 0 |}.

(** [TS: time.Now().UTC()], evaluated when the record is built. *)
Definition stamp (t : Z) (rec : AuditRecord) : AuditRecord :=
  {| TS := t; a_Fingerprint := a_Fingerprint rec; RemoteAddr := RemoteAddr rec;
     a_Result := a_Result rec; Reason := Reason rec; Tool := Tool rec;
     a_Command := a_Command rec; a_Args := a_Args rec; a_ExitCode := a_ExitCode rec;
     a_Duration := a_Duration rec; a_TimedOut := a_TimedOut rec; a_Path := a_Path rec;
     a_Size := a_Size rec |}.

(** ** The logger: one call is one line *)

Inductive level := INFO | WARN.
Inductive logval := VStr (s : string) | VInt (z : Z) | VDuration (z : Z) | VBool (b : bool).

Record log_line := { l_level : level; l_msg : string; l_fields : list (string * logval) }.

#[export] Instance level_eq_dec : EqDecision level.
Proof. solve_decision. Defined.
#[export] Instance logval_eq_dec : EqDecision logval.
Proof. solve_decision. Defined.
#[export] Instance log_line_eq_dec : EqDecision log_line.
Proof. solve_decision. Defined.

Fixpoint joinStrings_go (first : bool) (acc : string) (ss : list string) (sep : string) : string :=
  match ss with
  | [] => acc
  | s :: ss' =>
      let acc := if first then acc else acc +:+ sep in
      joinStrings_go false (acc +:+ s) ss' sep
  end.
Definition joinStrings (ss : list string) (sep : string) : string := joinStrings_go true "" ss sep.

Definition formatArgs (args : list string) : string :=
  match args with
  | [] => "[]"
  | _ => "[" +:+ joinStrings args "," +:+ "]"
  end.

Definition Info (msg : string) (fields : list (string * logval)) : log_line :=
  {| l_level := INFO; l_msg := msg; l_fields := fields |}.
Definition Warn (msg : string) (fields : list (string * logval)) : log_line :=
  {| l_level := WARN; l_msg := msg; l_fields := fields |}.

(** The three shapes that [warn], [fail] and [deny] share, label apart. *)
Definition warn_line (label fp : string) (rec : AuditRecord) : log_line :=
  if String.eqb (Tool rec) "execute_command" then
    Warn label [("fp"%string, VStr fp); ("remote"%string, VStr (RemoteAddr rec));
                ("tool"%string, VStr (Tool rec)); ("reason"%string, VStr (Reason rec));
                ("command"%string, VStr (a_Command rec));
                ("args"%string, VStr (formatArgs (a_Args rec)))]
  else if String.eqb (Tool rec) "upload_file" then
    if negb (String.eqb (a_Path rec) "") then
      Warn label [("fp"%string, VStr fp); ("remote"%string, VStr (RemoteAddr rec));
                  ("tool"%string, VStr (Tool rec)); ("reason"%string, VStr (Reason rec));
                  ("path"%string, VStr (a_Path rec))]
    else
      Warn label [("fp"%string, VStr fp); ("remote"%string, VStr (RemoteAddr rec));
                  ("tool"%string, VStr (Tool rec)); ("reason"%string, VStr (Reason rec))]
  else
    Warn label [("fp"%string, VStr fp); ("remote"%string, VStr (RemoteAddr rec));
                ("reason"%string, VStr (Reason rec))].

Definition success_line (fp : string) (rec : AuditRecord) : log_line :=
  let common := [("fp"%string, VStr fp); ("remote"%string, VStr (RemoteAddr rec));
                 ("tool"%string, VStr (Tool rec)); ("result"%string, VStr "ok")] in
  if negb (String.eqb (Tool rec) "") then
    if String.eqb (Tool rec) "execute_command" then
      Info "MCP" (common ++
        [("command"%string, VStr (a_Command rec)); ("args"%string, VStr (formatArgs (a_Args rec)));
         ("exit_code"%string, VInt (default 0 (a_ExitCode rec)));
         ("duration"%string, VDuration (a_Duration rec));
         ("timed_out"%string, VBool (a_TimedOut rec))])
    else if String.eqb (Tool rec) "upload_file" then
      Info "MCP" (common ++ [("path"%string, VStr (a_Path rec)); ("size"%string, VInt (a_Size rec))])
    else Info "MCP" common
  else Info "AUTH" [("fp"%string, VStr fp); ("remote"%string, VStr (RemoteAddr rec))].

(** The lines without a tool: a rate limit, and anything else. *)
Definition reason_line (head fp : string) (rec : AuditRecord) : log_line :=
  Warn head [("fp"%string, VStr fp); ("remote"%string, VStr (RemoteAddr rec));
             ("reason"%string, VStr (Reason rec))].

Definition writeAudit (rec : AuditRecord) : log_line :=
  let fp := if String.eqb (a_Fingerprint rec) "" then "-"%string else a_Fingerprint rec in
  if String.eqb (a_Result rec) "success" then success_line fp rec
  else if String.eqb (a_Result rec) "warn" then warn_line "WARN" fp rec
  else if String.eqb (a_Result rec) "fail" then warn_line "FAIL" fp rec
  else if String.eqb (a_Result rec) "deny" then warn_line "DENY" fp rec
  else if String.eqb (a_Result rec) "rate-limited" then reason_line "RATE" fp rec
  else reason_line "DENY" fp rec.

(** ** Lemmas *)

Lemma joinStrings_go_false acc ss sep :
  joinStrings_go false acc ss sep =
    match ss with [] => acc | _ => acc +:+ sep +:+ join sep ss end.
Proof.
  revert acc. induction ss as [|s ss IH]; intros acc; [done|]. simpl.
  rewrite IH. destruct ss; by rewrite <-!str_app_assoc.
Qed.

(** The hand-written join is [strings.Join]. *)
Lemma joinStrings_join ss sep : joinStrings ss sep = join sep ss.
Proof.
  unfold joinStrings. destruct ss as [|s ss]; [done|]. simpl.
  rewrite joinStrings_go_false. by destruct ss.
Qed.

Definition has_field (k : string) (l : log_line) : bool :=
  existsb (λ p, String.eqb p.1 k) (l_fields l).

Definition field (k : string) (l : log_line) : option logval :=
  snd <$> find (λ p, String.eqb p.1 k) (l_fields l).

(** The label of a result. *)
Definition label_of (rec : AuditRecord) : string :=
  if String.eqb (a_Result rec) "success" then
    if String.eqb (Tool rec) "" then "AUTH" else "MCP"
  else if String.eqb (a_Result rec) "warn" then "WARN"
  else if String.eqb (a_Result rec) "fail" then "FAIL"
  else if String.eqb (a_Result rec) "rate-limited" then "RATE"
  else "DENY".

Ltac audit_cases :=
  unfold writeAudit, warn_line, success_line, label_of;
  repeat match goal with
  | |- context [String.eqb ?a ?b] => destruct (String.eqb_spec a b)
  end; simplify_eq/=; try done.

(** Every audit record becomes one log line whose label is that of its
    result, at level INFO exactly for successes; the line names the
    fingerprint, "-" if there is none, and the remote address; command and
    arguments appear only in records of [execute_command], path and size only
    in those of [upload_file], and the arguments are the joined list in
    brackets. *)
Theorem writeAudit_shape rec :
  let l := writeAudit rec in
  l_msg l = label_of rec
  ∧ (l_level l = INFO ↔ a_Result rec = "success"%string)
  ∧ field "fp" l = Some (VStr (if String.eqb (a_Fingerprint rec) "" then "-"%string
                               else a_Fingerprint rec))
  ∧ field "remote" l = Some (VStr (RemoteAddr rec))
  ∧ (has_field "command" l = true → Tool rec = "execute_command"%string
       ∧ field "args" l = Some (VStr (match a_Args rec with
                                      | [] => "[]"
                                      | args => "[" +:+ join "," args +:+ "]"
                                      end)))
  ∧ (has_field "path" l = true ∨ has_field "size" l = true → Tool rec = "upload_file"%string)
  ∧ (has_field "reason" l = true ↔ a_Result rec ≠ "success"%string).
Proof.
  intros l. subst l.
  assert (formatArgs (a_Args rec) = match a_Args rec with
            [] => "[]"%string | args => "[" +:+ join "," args +:+ "]" end) as Hargs.
  { unfold formatArgs. destruct (a_Args rec); [done|]. by rewrite joinStrings_join. }
  rewrite <-Hargs. clear Hargs.
  split_and!; audit_cases; try (split; done); try (intros [|]; done); congruence.
Qed.
