(* ===== verification/Server.v ===== *)
(** * Server: [internal/server], one request through the middleware chain.

    Requests, the response writer, the rate limiters of [ratelimit.go], the
    middlewares of [middleware.go] and [auth.go], the handlers and the router of
    [server.New], composed as [New] composes them.  A handler is a program over
    the world of one server: the key store's process, the limiters, the audit
    records written so far and the response; it returns whether it panicked. *)

From S2P Require Import Prelude GoText GoEncoding GoCrypto GoPath GoOs Keystore ServerAudit.
Open Scope Z_scope.
Open Scope go_scope.

(** ** Requests and responses *)

(** The values [authMiddleware] puts into the request context. *)
Record context := { ctxKeyFingerprint : option string; ctxKeyKeyID : option string;
                    ctxKeyRemoteAddr : option string }.
Definition background : context :=
  {| ctxKeyFingerprint := None; ctxKeyKeyID := None; ctxKeyRemoteAddr := None |}.

Record request := {
  Method : string;
  URLPath : string;
  Host : string;
  Header : list (string * string);
  r_RemoteAddr : string;
  Body : string;
  BodyLimit : option Z;
  Context : context;
}.

(** [r.Header.Get]: the first value of a (canonical) key. *)
Definition header_get (r : request) (k : string) : string :=
  match find (λ p, String.eqb p.1 k) (Header r) with
  | Some p => p.2
  | None => ""
  end.

Definition with_context (c : context) (r : request) : request :=
  {| Method := Method r; URLPath := URLPath r; Host := Host r; Header := Header r;
     r_RemoteAddr := r_RemoteAddr r; Body := Body r; BodyLimit := BodyLimit r; Context := c |}.

(** The response: the status once it is written, the body so far. *)
Record writer := { w_status : option Z; w_body : string }.
Definition fresh_writer : writer := {| w_status := None; w_body := "" |}.

Definition write_header (code : Z) (w : writer) : writer :=
  {| w_status := Some (default code (w_status w)); w_body := w_body w |}.
Definition write_body (s : string) (w : writer) : writer :=
  {| w_status := Some (default 200 (w_status w)); w_body := w_body w +:+ s |}.

Definition newline : string := String nl EmptyString.

(** ** The rate limiter of golang.org/x/time/rate, as the code uses it *)
Class RateLimiter := {
  float64 : Type;
  limiter : Type;
  NewLimiter : float64 → Z → limiter;
  limiter_Allow : Z → limiter → bool * limiter;
}.

(** The state of the application behind the chain: the tools of [internal/mcp] in
    the daemon, nothing when the chain is studied alone. *)
Class AppState := { app_state : Type }.

Section server.
Context `{AS : AppState} `{RL : RateLimiter} `{JC : JsonCodec} `{GT : GoTables}.

(** ** ratelimit.go *)

Record limiterEntry := { e_limiter : limiter; lastSeen : Z }.

Record Limiters := {
  perKey : gmap string limiterEntry;
  perIP : gmap string limiterEntry;
  ratePerSec : float64;
  burst : Z;
  ttl : Z;
}.

Definition NewLimiters (rate : float64) (burst ttl : Z) : Limiters :=
  {| perKey := ∅; perIP := ∅; ratePerSec := rate; burst := burst; ttl := ttl |}.

Definition getOrCreate (l : Limiters) (m : gmap string limiterEntry) (key : string) (now : Z) :
    limiterEntry :=
  match m !! key with
  | None => {| e_limiter := NewLimiter (ratePerSec l) (burst l); lastSeen := now |}
  | Some e => {| e_limiter := e_limiter e; lastSeen := now |}
  end.

Definition set_maps (k i : gmap string limiterEntry) (l : Limiters) : Limiters :=
  {| perKey := k; perIP := i; ratePerSec := ratePerSec l; burst := burst l; ttl := ttl l |}.

(** One bucket is asked; it is in the map afterwards. *)
Definition charge (l : Limiters) (m : gmap string limiterEntry) (key : string) (now : Z) :
    bool * gmap string limiterEntry :=
  let e := getOrCreate l m key now in
  let (ok, lim) := limiter_Allow now (e_limiter e) in
  (ok, <[key := {| e_limiter := lim; lastSeen := lastSeen e |}]> m).

Definition Allow (fp ip : string) (now : Z) (l : Limiters) : bool * Limiters :=
  let (okKey, keys) := charge l (perKey l) fp now in
  if negb okKey then (false, set_maps keys (perIP l) l)
  else
    let (okIP, ips) := charge l (perIP l) ip now in
    (okIP, set_maps keys ips l).

Definition gc (now : Z) (l : Limiters) : Limiters :=
  let keep (p : string * limiterEntry) := now - lastSeen p.2 ≤ ttl l in
  set_maps (filter keep (perKey l)) (filter keep (perIP l)) l.

(** ** The world of a server *)

Record world := {
  w_proc : proc;
  w_limiters : Limiters;
  w_audit : list AuditRecord;
  w_writer : writer;
  w_app : app_state;
}.

Definition handler := request → M world bool.

Definition on_proc {A} (m : M proc A) : M world A :=
  zoom w_proc (λ p w, {| w_proc := p; w_limiters := w_limiters w; w_audit := w_audit w;
                         w_writer := w_writer w; w_app := w_app w |}) m.

(** A record is stamped with the clock and written. *)
Definition auditFn (rec : AuditRecord) : M world unit :=
  modify (λ w, {| w_proc := w_proc w; w_limiters := w_limiters w;
                  w_audit := w_audit w ++ [stamp (os_now (p_os (w_proc w))) rec];
                  w_writer := w_writer w; w_app := w_app w |}).

Definition on_writer (f : writer → writer) : M world unit :=
  modify (λ w, {| w_proc := w_proc w; w_limiters := w_limiters w; w_audit := w_audit w;
                  w_writer := f (w_writer w); w_app := w_app w |}).

Definition set_limiters (l : Limiters) : M world unit :=
  modify (λ w, {| w_proc := w_proc w; w_limiters := l; w_audit := w_audit w;
                  w_writer := w_writer w; w_app := w_app w |}).

(** [http.Error(w, "", code)], and the end of the handler. *)
Definition http_error (code : Z) : M world bool :=
  do! on_writer (λ w, write_body newline (write_header code w)) in ret false.

(** What the log shows. *)
Definition audit_log (w : world) : list log_line := map writeAudit (w_audit w).

Definition record (fp remote res reason : string) : AuditRecord :=
  audit_record fp remote res reason "".

(** ** middleware.go *)

Definition remoteIP (r : request) : string := r_RemoteAddr r.

Definition ipOnly (addr : string) : string :=
  match split_host_port addr with Some (h, _) => h | None => addr end.

Definition contains (slice : list string) (s : string) : bool :=
  existsb (λ v, String.eqb (to_lower v) (to_lower s)) slice.

Definition originAllowed (origin : string) (allow : list string) : bool :=
  match url_hostname origin with
  | None => false
  | Some h =>
      let hostname := to_lower h in
      if String.eqb hostname "" then false else contains allow hostname
  end.

Definition hostOriginMiddleware (hostAllow originAllow : list string) (next : handler) : handler :=
  λ r,
    let remote := remoteIP r in
    let host := if String.eqb (Host r) "" then header_get r "Host" else Host r in
    let hostOnly := match split_host_port host with Some (h, _) => h | None => host end in
    if negb (contains hostAllow hostOnly) then
      do! auditFn (record "-" remote "deny" "invalid host header") in http_error 403
    else
      let origin := header_get r "Origin" in
      if negb (String.eqb origin "") && negb (originAllowed origin originAllow) then
        do! auditFn (record "-" remote "deny" "invalid origin header") in http_error 403
      else next r.

Definition bodyLimitMiddleware (limit : Z) (next : handler) : handler := λ r,
  next {| Method := Method r; URLPath := URLPath r; Host := Host r; Header := Header r;
          r_RemoteAddr := r_RemoteAddr r; Body := Body r; BodyLimit := Some limit;
          Context := Context r |}.

Definition recoverMiddleware (next : handler) : handler := λ r,
  let! panicked := next r in
  if panicked then http_error 500 else ret false.

Definition fingerprintFromCtx (c : context) : string :=
  match ctxKeyFingerprint c with
  | Some fp => if String.eqb fp "" then "-" else fp
  | None => "-"
  end.
Definition remoteAddrFromCtx (c : context) : string :=
  match ctxKeyRemoteAddr c with
  | Some a => if String.eqb a "" then "-" else a
  | None => "-"
  end.

Definition rateLimitMiddleware (next : handler) : handler := λ r,
  let remote := remoteIP r in
  let fp := fingerprintFromCtx (Context r) in
  let ip := ipOnly remote in
  let! t := on_proc (on_os now) in
  let! l := gets w_limiters in
  let (ok, l') := Allow fp ip t l in
  do! set_limiters l' in
  if negb ok then
    let reason := if String.eqb fp "-" then "rate limit exceeded (ip)"%string
                  else "rate limit exceeded (key)"%string in
    do! auditFn (record fp remote "rate-limited" reason) in http_error 429
  else next r.

(** ** auth.go *)

Definition bearerToken (r : request) : option string :=
  let auth := header_get r "Authorization" in
  if String.eqb auth "" then None
  else if negb (has_prefix auth "Bearer ") then None
  else
    let token := trim_space (trim_prefix auth "Bearer ") in
    if String.eqb token "" then None else Some token.

Definition authMiddleware (next : handler) : handler := λ r,
  let remote := remoteIP r in
  match bearerToken r with
  | None =>
      do! auditFn (record "-" remote "fail" "no authorization header") in http_error 401
  | Some token =>
      let! v := on_proc (Verify token) in
      match v with
      | Err e =>
          let fp := if is_corrupt e then "-"%string else Fingerprint token in
          do! auditFn (record fp remote "deny" "key store unavailable") in http_error 403
      | Ok None =>
          do! auditFn (record (Fingerprint token) remote "fail" "authentication failed") in
          http_error 401
      | Ok (Some rec) =>
          let fp := if String.eqb (Fingerprint_ rec) "" then Fingerprint token
                    else Fingerprint_ rec in
          next (with_context {| ctxKeyFingerprint := Some fp; ctxKeyKeyID := Some (ID rec);
                                ctxKeyRemoteAddr := Some remote |} r)
      end
  end.

Definition authSuccessAuditMiddleware (next : handler) : handler := λ r,
  do! auditFn (record (fingerprintFromCtx (Context r)) (remoteIP r) "success" "") in next r.

(** ** handlers.go and the router *)

Definition healthHandler : handler := λ _,
  do! on_writer (λ w, write_body "pong" (write_header 200 w)) in ret false.

Definition dispatchHandler : handler := λ _,
  do! on_writer (λ w, write_body "not implemented" (write_header 501 w)) in ret false.

(** [ServeMux.cleanPath]. *)
Definition mux_clean (p : string) : string :=
  if String.eqb p "" then "/"
  else
    let p := if has_prefix p "/" then p else String slash p in
    let np := clean p in
    if negb (String.eqb np "/") && Ascii.eqb (match str_rev p with String c _ => c | _ => slash end) slash
    then np +:+ "/" else np.

(** A path that is not clean is redirected to its clean form (the method
    CONNECT apart). *)
Definition redirect_to (p : string) : handler := λ _,
  do! on_writer (write_header 301) in ret false.

Definition mux (mcpHandler : option handler) : handler := λ r,
  let p := if String.eqb (Method r) "CONNECT" then URLPath r else mux_clean (URLPath r) in
  if negb (String.eqb p (URLPath r)) then redirect_to p r
  else if String.eqb p "/healthz" && (String.eqb (Method r) "GET" || String.eqb (Method r) "HEAD")
  then healthHandler r
  else
    match mcpHandler with
    | Some h => if String.eqb p "/mcp" then h r else dispatchHandler r
    | None => dispatchHandler r
    end.

(** The chain of [New], innermost last. *)
Definition chain (hostAllow originAllow : list string) (maxBody : Z) (app : handler) : handler :=
  bodyLimitMiddleware maxBody
    (recoverMiddleware
      (hostOriginMiddleware hostAllow originAllow
        (authMiddleware
          (rateLimitMiddleware
            (authSuccessAuditMiddleware app))))).

End server.
