(* ===== verification/ServerTheorems.v ===== *)
(** * ServerTheorems: what the middleware chain guarantees. *)

From S2P Require Import Prelude GoText GoEncoding GoCrypto GoPath GoOs Keystore KeystoreProofs KeystoreTheorems KeystoreCodec ServerAudit Server.
Open Scope Z_scope.
Open Scope go_scope.

Section chain_proofs.
Context `{AS : AppState} `{RL : RateLimiter} `{JC : JsonCodec} `{GT : GoTables}.
Implicit Types (r : request) (w : world) (app : handler).

Definition audited (recs : list AuditRecord) (w : world) : world :=
  {| w_proc := w_proc w; w_limiters := w_limiters w;
     w_audit := w_audit w ++ map (stamp (os_now (p_os (w_proc w)))) recs;
     w_writer := w_writer w; w_app := w_app w |}.

Definition answered (code : Z) (w : world) : world :=
  {| w_proc := w_proc w; w_limiters := w_limiters w; w_audit := w_audit w;
     w_writer := write_body newline (write_header code (w_writer w)); w_app := w_app w |}.

Definition with_proc (p : proc) (w : world) : world :=
  {| w_proc := p; w_limiters := w_limiters w; w_audit := w_audit w; w_writer := w_writer w; w_app := w_app w |}.
Definition with_limiters (l : Limiters) (w : world) : world :=
  {| w_proc := w_proc w; w_limiters := l; w_audit := w_audit w; w_writer := w_writer w; w_app := w_app w |}.

(** The host the request is for, as the code reads it. *)
Definition host_of (r : request) : string :=
  let host := if String.eqb (Host r) "" then header_get r "Host" else Host r in
  match split_host_port host with Some (h, _) => h | None => host end.

Definition origin_ok (originAllow : list string) (r : request) : bool :=
  String.eqb (header_get r "Origin") "" || originAllowed (header_get r "Origin") originAllow.

Definition limited (limit : Z) (r : request) : request :=
  {| Method := Method r; URLPath := URLPath r; Host := Host r; Header := Header r;
     r_RemoteAddr := r_RemoteAddr r; Body := Body r; BodyLimit := Some limit;
     Context := Context r |}.

(** The request as the handler sees it. *)
Definition admitted_request (limit : Z) (fp id : string) (r : request) : request :=
  with_context {| ctxKeyFingerprint := Some fp; ctxKeyKeyID := Some id;
                  ctxKeyRemoteAddr := Some (r_RemoteAddr r) |} (limited limit r).

(** The key store was at most asked about the request's token. *)
Definition proc_read (r : request) (w w1 : world) : Prop :=
  w_proc w1 = w_proc w ∨
  ∃ token, bearerToken r = Some token ∧ w_proc w1 = (Verify token (w_proc w)).2.

(** Where a request ends: turned away with a status and one audit record,
    whatever the application is, or handed to it. *)
Inductive verdict (hostAllow originAllow : list string) (limit : Z) (r : request) (w : world) : Prop :=
| Rejected code rec w1 :
    (code = 401 ∨ code = 403 ∨ code = 429) → a_Result rec ≠ "success"%string →
    w_audit w1 = w_audit w → w_writer w1 = w_writer w → w_app w1 = w_app w → proc_read r w w1 →
    (∀ app, chain hostAllow originAllow limit app r w = (false, answered code (audited [rec] w1))) →
    verdict hostAllow originAllow limit r w
| Passed token key p1 l1 fp :
    contains hostAllow (host_of r) = true → origin_ok originAllow r = true →
    bearerToken r = Some token → Verify token (w_proc w) = (Ok (Some key), p1) →
    fp = (if String.eqb (Fingerprint_ key) "" then Fingerprint token else Fingerprint_ key) →
    Allow (fingerprintFromCtx (Context (admitted_request limit fp (ID key) r)))
          (ipOnly (r_RemoteAddr r)) (os_now (p_os p1)) (w_limiters w) = (true, l1) →
    (∀ app, chain hostAllow originAllow limit app r w =
       recoverMiddleware app (admitted_request limit fp (ID key) r)
         (audited [record (fingerprintFromCtx (Context (admitted_request limit fp (ID key) r)))
                     (r_RemoteAddr r) "success" ""]
            (with_limiters l1 (with_proc p1 w)))) →
    verdict hostAllow originAllow limit r w.

(** *** One middleware at a time *)

Definition refuse (code : Z) (rec : AuditRecord) : M world bool :=
  do! auditFn rec in http_error code.

Lemma refuse_run code rec w : refuse code rec w = (false, answered code (audited [rec] w)).
Proof. done. Qed.

Lemma hostOrigin_run hostAllow originAllow next r :
  hostOriginMiddleware hostAllow originAllow next r =
    if negb (contains hostAllow (host_of r)) then
      refuse 403 (record "-" (r_RemoteAddr r) "deny" "invalid host header")
    else if negb (origin_ok originAllow r) then
      refuse 403 (record "-" (r_RemoteAddr r) "deny" "invalid origin header")
    else next r.
Proof.
  unfold hostOriginMiddleware, origin_ok. fold (host_of r).
  destruct (contains hostAllow (host_of r)); simpl; [|done].
  by destruct (String.eqb (header_get r "Origin") "").
Qed.

Lemma rateLimit_run next r w :
  rateLimitMiddleware next r w =
    (let fp := fingerprintFromCtx (Context r) in
     let (ok, l) := Allow fp (ipOnly (r_RemoteAddr r)) (os_now (p_os (w_proc w))) (w_limiters w) in
     if ok then next r (with_limiters l w)
     else refuse 429 (record fp (r_RemoteAddr r) "rate-limited"
                        (if String.eqb fp "-" then "rate limit exceeded (ip)"%string
                         else "rate limit exceeded (key)"%string)) (with_limiters l w)).
Proof.
  unfold rateLimitMiddleware. unfold bind at 1. simpl. unfold bind at 1. simpl.
  assert (w = with_proc (w_proc w) w) as Hw by (by destruct w).
  destruct (Allow _ _ _ _) as [ok l]. destruct w as [[st o] lm au wr]. by destruct ok.
Qed.

(** Once the host and the origin are accepted, the rest decides. *)
Lemma gates_run hostAllow originAllow limit app r w :
  contains hostAllow (host_of r) = true → origin_ok originAllow r = true →
  chain hostAllow originAllow limit app r w =
    recoverMiddleware (authMiddleware (rateLimitMiddleware (authSuccessAuditMiddleware app)))
      (limited limit r) w.
Proof.
  intros Hh Ho. unfold chain, bodyLimitMiddleware, recoverMiddleware, bind.
  rewrite hostOrigin_run. fold (limited limit r).
  change (host_of (limited limit r)) with (host_of r).
  change (origin_ok originAllow (limited limit r)) with (origin_ok originAllow r).
  by rewrite Hh, Ho.
Qed.

Lemma chain_verdict hostAllow originAllow limit r w : verdict hostAllow originAllow limit r w.
Proof.
  destruct (contains hostAllow (host_of r)) eqn:Eh.
  2: { eapply (Rejected _ _ _ _ _ 403 _ w); [auto|..|intros app];
         [| | | |by left|unfold chain, bodyLimitMiddleware, recoverMiddleware, bind; rewrite hostOrigin_run;
               fold (limited limit r); change (host_of (limited limit r)) with (host_of r);
               rewrite Eh; reflexivity]; done. }
  destruct (origin_ok originAllow r) eqn:Eo.
  2: { eapply (Rejected _ _ _ _ _ 403 _ w); [auto|..|intros app];
         [| | | |by left|unfold chain, bodyLimitMiddleware, recoverMiddleware, bind; rewrite hostOrigin_run;
               fold (limited limit r); change (host_of (limited limit r)) with (host_of r);
               change (origin_ok originAllow (limited limit r)) with (origin_ok originAllow r);
               rewrite Eh, Eo; reflexivity]; done. }
  destruct (bearerToken r) as [token|] eqn:Et.
  2: { eapply (Rejected _ _ _ _ _ 401 _ w); [auto|..|intros app];
         [| | | |by left|rewrite gates_run by done; unfold recoverMiddleware, authMiddleware, bind;
               change (bearerToken (limited limit r)) with (bearerToken r);
               rewrite Et; reflexivity]; done. }
  destruct (Verify token (w_proc w)) as [v p1] eqn:Ev.
  assert (∀ app, chain hostAllow originAllow limit app r w =
    bind (match v with
      | Err e => refuse 403 (record (if is_corrupt e then "-"%string else Fingerprint token)
                               (r_RemoteAddr r) "deny" "key store unavailable")
      | Ok None => refuse 401 (record (Fingerprint token) (r_RemoteAddr r) "fail" "authentication failed")
      | Ok (Some rec) =>
          rateLimitMiddleware (authSuccessAuditMiddleware app)
            (admitted_request limit
               (if String.eqb (Fingerprint_ rec) "" then Fingerprint token else Fingerprint_ rec)
               (ID rec) r)
      end) (λ panicked, if panicked then http_error 500 else ret false) (with_proc p1 w)) as Hrun.
  { intros app. rewrite gates_run by done. unfold recoverMiddleware, authMiddleware, bind.
    change (bearerToken (limited limit r)) with (bearerToken r). rewrite Et.
    unfold on_proc, zoom. rewrite Ev. by destruct v as [[]|]. }
  destruct v as [[key|]|e].
  - set (fp := if String.eqb (Fingerprint_ key) "" then Fingerprint token else Fingerprint_ key) in *.
    destruct (Allow (fingerprintFromCtx (Context (admitted_request limit fp (ID key) r)))
          (ipOnly (r_RemoteAddr r)) (os_now (p_os p1)) (w_limiters w)) as [[] l1] eqn:Ea.
    + eapply (Passed _ _ _ _ _ token key p1 l1 fp); try done.
      intros app. rewrite Hrun. unfold bind at 1. rewrite rateLimit_run. cbv zeta.
      simpl in Ea |- *. by rewrite Ea.
    + eapply (Rejected _ _ _ _ _ 429 _ (with_limiters l1 (with_proc p1 w))); [auto|..|intros app];
        [| | | |right; exists token; by rewrite Ev|rewrite Hrun; unfold bind at 1; rewrite rateLimit_run; cbv zeta; simpl in Ea |- *;
              rewrite Ea; reflexivity]; done.
  - eapply (Rejected _ _ _ _ _ 401 _ (with_proc p1 w)); [auto|..|intros app];
      [| | | |right; exists token; by rewrite Ev|rewrite Hrun; reflexivity]; done.
  - eapply (Rejected _ _ _ _ _ 403 _ (with_proc p1 w)); [auto|..|intros app];
      [| | | |right; exists token; by rewrite Ev|rewrite Hrun; reflexivity]; done.
Qed.

(** Every request is either turned away or handed to the application, and
    leaves exactly one audit record of the transport.  Turned away, it gets 401,
    403 or 429 with an empty body and one record that is not a success, no
    application code runs, and the key store was at most asked to verify the
    request's token.  Handed on, its host and origin were accepted, its
    bearer token verified against the key store, and both rate limits passed;
    the one record is a success record with the key's fingerprint, the body is
    limited, and the request carries the fingerprint, key id and remote address;
    a panic of the application becomes a 500. *)
Theorem chain_gatekeeping hostAllow originAllow limit r w :
  verdict hostAllow originAllow limit r w.
Proof. apply chain_verdict. Qed.

(** Application code runs only for the holder of an active key.  If the
    answer to a request depends on the application at all, then the request
    carried a bearer token whose salted hash is that of a record of the key
    store that is not revoked, for an accepted host and origin. *)
Theorem application_needs_active_key hostAllow originAllow limit r w db app1 app2 :
  store_db (w_proc w) = Some db →
  chain hostAllow originAllow limit app1 r w ≠ chain hostAllow originAllow limit app2 r w →
  ∃ token d, bearerToken r = Some token ∧ d ∈ Keys db ∧ d_Revoked d = false
    ∧ d_Hash d = hashKey token (d_Salt d)
    ∧ contains hostAllow (host_of r) = true ∧ origin_ok originAllow r = true.
Proof.
  intros Hdb Hne. destruct (chain_verdict hostAllow originAllow limit r w)
    as [code rec w1 _ _ _ _ _ _ Hrun|token key p1 l1 fp Hh Ho Ht Hv _ _ _].
  { destruct Hne. by rewrite !Hrun. }
  pose proof (wp_run _ _ _ _ _ Hv (Verify_spec token (w_proc w) db Hdb)) as [_ (d & Hd & _)].
  apply find_last_Some in Hd as [Hin [Hr Hh']%candidate_spec]. exists token, d. by split_and!.
Qed.

(** ** The rate limiters *)

Inductive levent := LReq (fp ip : string) (t : Z) | LTick (t : Z).

(** The limiters over requests and collections; the answers to the requests of
    one fingerprint. *)
Fixpoint run_limiters (key : string) (evs : list levent) (l : Limiters) : list bool :=
  match evs with
  | [] => []
  | LReq fp ip t :: evs' =>
      let (ok, l') := Allow fp ip t l in
      if String.eqb fp key then ok :: run_limiters key evs' l' else run_limiters key evs' l'
  | LTick t :: evs' => run_limiters key evs' (gc t l)
  end.

(** The times at which a fingerprint makes requests. *)
Fixpoint times_of (key : string) (evs : list levent) : list Z :=
  match evs with
  | [] => []
  | LReq fp _ t :: evs' => if String.eqb fp key then t :: times_of key evs' else times_of key evs'
  | LTick _ :: evs' => times_of key evs'
  end.

(** One bucket asked at these times. *)
Fixpoint run_bucket (b : limiter) (ts : list Z) : list bool :=
  match ts with
  | [] => []
  | t :: ts' => let (ok, b') := limiter_Allow t b in ok :: run_bucket b' ts'
  end.

(** No collection comes more than [ttl] after the latest request of the key. *)
Fixpoint busy (ttl : Z) (key : string) (last : option Z) (evs : list levent) : Prop :=
  match evs with
  | [] => True
  | LReq fp _ t :: evs' => busy ttl key (if String.eqb fp key then Some t else last) evs'
  | LTick t :: evs' => (match last with Some s => t - s ≤ ttl | None => True end) ∧ busy ttl key last evs'
  end.

Definition count_true (l : list bool) : nat := length (filter (λ b, b = true) l).

(** The bucket of a key, fresh if it has none. *)
Definition bucket_of (key : string) (l : Limiters) : limiter :=
  match perKey l !! key with
  | Some e => e_limiter e
  | None => NewLimiter (ratePerSec l) (burst l)
  end.

Definition same_settings (l l' : Limiters) : Prop :=
  ratePerSec l' = ratePerSec l ∧ burst l' = burst l ∧ ttl l' = ttl l.

Lemma Allow_bucket fp ip t l key :
  let (ok, l') := Allow fp ip t l in
  same_settings l l' ∧
  (if String.eqb fp key then
     bucket_of key l' = (limiter_Allow t (bucket_of key l)).2
     ∧ (ok = true → (limiter_Allow t (bucket_of key l)).1 = true)
     ∧ lastSeen <$> perKey l' !! key = Some t
   else perKey l' !! key = perKey l !! key).
Proof.
  unfold Allow, charge.
  assert (e_limiter (getOrCreate l (perKey l) fp t) = bucket_of fp l
    ∧ lastSeen (getOrCreate l (perKey l) fp t) = t) as [Hb Hs].
  { unfold getOrCreate, bucket_of. by destruct (perKey l !! fp). }
  rewrite Hb, Hs. destruct (limiter_Allow t (bucket_of fp l)) as [okK b] eqn:E.
  destruct (limiter_Allow t (e_limiter (getOrCreate l (perIP l) ip t))) as [okI b'].
  destruct okK; (split; [done|]); destruct (String.eqb_spec fp key) as [<-|Hne]; simpl.
  all: try (unfold bucket_of at 1; simpl; rewrite lookup_insert_eq, E; simpl; by split_and!).
  all: by rewrite lookup_insert_ne.
Qed.

Lemma gc_bucket t l key :
  (match lastSeen <$> perKey l !! key with Some s => t - s ≤ ttl l | None => True end) →
  perKey (gc t l) !! key = perKey l !! key.
Proof.
  intros H. unfold gc. simpl. destruct (perKey l !! key) as [e|] eqn:E; simpl in H.
  - apply map_lookup_filter_Some. by split.
  - apply map_lookup_filter_None. by left.
Qed.

(** The bucket of one key by itself: asked at the times of the key's requests, and
    replaced by [fresh] when a collection finds the key idle for longer than
    [ttl]. *)
Fixpoint own_bucket (ttl : Z) (fresh : limiter) (key : string) (b : limiter) (last : option Z)
    (evs : list levent) : list bool :=
  match evs with
  | [] => []
  | LReq fp _ t :: evs' =>
      if String.eqb fp key then
        let (ok, b') := limiter_Allow t b in ok :: own_bucket ttl fresh key b' (Some t) evs'
      else own_bucket ttl fresh key b last evs'
  | LTick t :: evs' =>
      if (match last with Some s => ttl <? t - s | None => false end)
      then own_bucket ttl fresh key fresh None evs'
      else own_bucket ttl fresh key b last evs'
  end.

Lemma gc_idle t l key s :
  lastSeen <$> perKey l !! key = Some s → ttl l < t - s → perKey (gc t l) !! key = None.
Proof.
  intros H Hlt. apply fmap_Some in H as (e & He & ->). unfold gc. simpl.
  apply map_lookup_filter_None. right. intros e' He'. simplify_eq. simpl. lia.
Qed.

(** What the limiters let pass, the key's own bucket lets pass. *)
Lemma run_limiters_own key evs l :
  Forall2 (λ passed own, passed = true → own = true) (run_limiters key evs l)
    (own_bucket (ttl l) (NewLimiter (ratePerSec l) (burst l)) key (bucket_of key l)
       (lastSeen <$> perKey l !! key) evs).
Proof.
  revert l. induction evs as [|[fp ip t|t] evs IH]; intros l; simpl; [constructor| |].
  - pose proof (Allow_bucket fp ip t l key) as H. destruct (Allow fp ip t l) as [ok l'] eqn:Ea.
    destruct H as [(Hr & Hbu & Htt) H]. specialize (IH l'). rewrite Htt, Hr, Hbu in IH.
    destruct (String.eqb fp key).
    + destruct H as (H1 & H2 & H3). rewrite H3, H1 in IH.
      destruct (limiter_Allow t (bucket_of key l)) as [ok' b']. by constructor.
    + unfold bucket_of in IH |- *. by rewrite H, Hr, Hbu in IH.
  - specialize (IH (gc t l)).
    destruct (match lastSeen <$> perKey l !! key with Some s => ttl l <? t - s | None => false end) eqn:E.
    + destruct (lastSeen <$> perKey l !! key) as [s|] eqn:Es; [|done]. apply Z.ltb_lt in E.
      pose proof (gc_idle t l key s Es E) as Hg. unfold bucket_of in IH. by rewrite Hg in IH.
    + assert (perKey (gc t l) !! key = perKey l !! key) as Hg.
      { apply gc_bucket. destruct (lastSeen <$> perKey l !! key); [|done]. by apply Z.ltb_ge in E. }
      unfold bucket_of in IH |- *. by rewrite Hg in IH.
Qed.

(** Without such a collection it is one bucket. *)
Lemma own_bucket_busy ttl0 fresh key b last evs :
  busy ttl0 key last evs → own_bucket ttl0 fresh key b last evs = run_bucket b (times_of key evs).
Proof.
  revert b last. induction evs as [|[fp ip t|t] evs IH]; intros b last Hb; simpl in *; [done| |].
  - destruct (String.eqb fp key); [|by apply IH]. simpl.
    destruct (limiter_Allow t b). f_equal. by apply IH.
  - destruct Hb as [Ht Hb]. destruct last as [s|]; [|by apply IH].
    destruct (Z.ltb_spec ttl0 (t - s)); [lia|by apply IH].
Qed.

Lemma count_true_mono l1 l2 :
  Forall2 (λ a b, a = true → b = true) l1 l2 → (count_true l1 ≤ count_true l2)%nat.
Proof.
  unfold count_true. induction 1 as [|a b l1 l2 Hab _ IH]; [done|]. rewrite !filter_cons.
  destruct a; [rewrite Hab by done|destruct b]; repeat (case_decide; try done); simpl; lia.
Qed.

Lemma run_limiters_bucket key evs l :
  busy (ttl l) key (lastSeen <$> perKey l !! key) evs →
  (count_true (run_limiters key evs l) ≤ count_true (run_bucket (bucket_of key l) (times_of key evs)))%nat.
Proof.
  intros Hb. apply count_true_mono.
  pose proof (run_limiters_own key evs l) as H. by rewrite own_bucket_busy in H.
Qed.

(** A key is limited by one token bucket.  Over any sequence of requests
    from any keys and addresses, interleaved with collections of idle entries,
    the requests of one fingerprint that are admitted are at most those that a
    single fresh bucket asked at the same times admits, whatever addresses they
    come from and whatever other keys do, as long as no collection finds the key
    idle for longer than the time to live. *)
Theorem key_limited_by_one_bucket key evs rate b ttl0 :
  busy ttl0 key None evs →
  (count_true (run_limiters key evs (NewLimiters rate b ttl0))
   ≤ count_true (run_bucket (NewLimiter rate b) (times_of key evs)))%nat.
Proof.
  intros Hb. apply (run_limiters_bucket key evs (NewLimiters rate b ttl0)).
  simpl. by rewrite lookup_empty.
Qed.
End chain_proofs.

(** ** Instances: a bucket of whole tokens per second *)

Record int_bucket := { ib_rate : Z; ib_burst : Z; ib_tokens : Z; ib_last : Z }.

(** Tokens in billionths. *)
Definition int_allow (now : Z) (b : int_bucket) : bool * int_bucket :=
  let t := Z.min (ib_burst b * 10 ^ 9) (ib_tokens b + ib_rate b * Z.max 0 (now - ib_last b)) in
  if 10 ^ 9 <=? t then
    (true, {| ib_rate := ib_rate b; ib_burst := ib_burst b; ib_tokens := t - 10 ^ 9; ib_last := now |})
  else (false, {| ib_rate := ib_rate b; ib_burst := ib_burst b; ib_tokens := t; ib_last := now |}).

#[export] Instance int_limiter : RateLimiter := {|
  float64 := Z;
  limiter := int_bucket;
  NewLimiter r b := {| ib_rate := r; ib_burst := b; ib_tokens := b * 10 ^ 9; ib_last := 0 |};
  limiter_Allow := int_allow;
|}.

(** A burst of two: the third request within the same second is refused. *)
Lemma key_limited_by_one_bucket_witness :
  let evs := [LReq "k" "1.1.1.1" 5; LReq "j" "1.1.1.1" 6; LReq "k" "2.2.2.2" 7; LTick 8;
              LReq "k" "3.3.3.3" 9] in
  busy 100 "k" None evs
  ∧ (count_true (run_limiters (RL:=int_limiter) "k" evs (NewLimiters (RL:=int_limiter) (1%Z : Z) 2%Z 100%Z)) ≤ 2)%nat.
Proof.
  intros evs. assert (busy 100 "k" None evs) as Hb by (simpl; lia). split; [exact Hb|].
  pose proof (key_limited_by_one_bucket (RL:=int_limiter) "k" evs (1 : Z) 2 100 Hb) as H.
  etrans; [exact H|]. vm_compute. lia.
Defined.

#[export] Instance demo_tables : GoTables := {|
  unicode_to_lower s := s;
  url_hostname s := if has_prefix s "https://" then Some (drop_str 8 s) else None;
|}.

Definition demo_request (auth : string) : request :=
  {| Method := "GET"; URLPath := "/healthz"; Host := "localhost:7822";
     Header := [("Authorization"%string, auth)]; r_RemoteAddr := "127.0.0.1:5000"; Body := "";
     BodyLimit := None; Context := background |}.

Definition no_app : AppState := {| app_state := unit |}.
#[local] Existing Instance no_app.

Definition demo_world : world :=
  {| w_proc := demo_proc []; w_limiters := NewLimiters (RL:=int_limiter) (10 : Z) 20 600; w_audit := [];
     w_writer := fresh_writer; w_app := tt |}.

(** The demo key reaches the application, a wrong key does not. *)
Lemma application_needs_active_key_witness :
  ∃ token d, bearerToken (demo_request ("Bearer " +:+ demo_key)) = Some token
    ∧ d ∈ Keys demo_db ∧ d_Revoked d = false ∧ d_Hash d = hashKey token (d_Salt d).
Proof.
  destruct (application_needs_active_key (RL:=int_limiter) ["localhost"%string] [] 100
    (demo_request ("Bearer " +:+ demo_key)) demo_world demo_db healthHandler dispatchHandler)
    as (token & d & H1 & H2 & H3 & H4 & _).
  - exact (demo_store []).
  - intros H. apply (f_equal (λ x, w_status (w_writer x.2))) in H. vm_compute in H. discriminate.
  - exists token, d. split_and!; assumption.
Defined.

Example wrong_key_is_audited_once :
  let w := (chain (RL:=int_limiter) ["localhost"%string] [] 100 healthHandler
              (demo_request "Bearer rax_live_wrong") demo_world).2 in
  w_status (w_writer w) = Some 401 ∧ length (w_audit w) = 1%nat.
Proof. vm_compute. done. Qed.
