(* ===== verification/ServerTLS.v ===== *)
(** * ServerTLS: the certificate store ([internal/server/tls.go]).

    [loadOrCreateCert] loads the pair [cert.pem], [key.pem], or makes a
    self-signed pair and writes it.  The X.509 and ECDSA packages are an
    interface: they take random bytes and templates and give DER bytes.  PEM is
    written out. *)

From S2P Require Import Prelude GoText GoEncoding GoPath GoOs GoAtomic.
Open Scope Z_scope.
Open Scope go_scope.

(** ** [encoding/pem] *)

(** The line breaker: a newline after every 64 characters and at the end. *)
Fixpoint pem_break (col : nat) (s : string) : string :=
  match s with
  | EmptyString => if Nat.eqb col 0 then EmptyString else str1 nl
  | String c s' =>
      String c (if Nat.eqb col 63 then String nl (pem_break 0 s') else pem_break (S col) s')
  end.

Definition pem_encode (blockType : string) (data : bytes) : bytes :=
  bytes_of_string
    ("-----BEGIN " +:+ blockType +:+ "-----" +:+ str1 nl +:+ pem_break 0 (std_encode data)
     +:+ "-----END " +:+ blockType +:+ "-----" +:+ str1 nl).

(** ** The template *)

Record template := {
  SerialNumber : Z;
  CommonName : string;
  Organization : list string;
  NotBefore : Z;
  NotAfter : Z;
  KeyUsage : list string;
  ExtKeyUsage : list string;
  BasicConstraintsValid : bool;
  IsCA : bool;
  IPAddresses : list string;
  DNSNames : list string;
}.

(** [crypto/ecdsa], [crypto/x509] and [crypto/tls].  What draws randomness is
    given the stream and the position, and tells the new position. *)
Class TlsCrypto := {
  PrivateKey : Type;
  Certificate : Type;
  GenerateKey : (nat → byte) → nat → option (PrivateKey * nat);
  CreateCertificate : template → PrivateKey → (nat → byte) → nat → option (bytes * nat);
  MarshalPKCS8PrivateKey : PrivateKey → option bytes;
  X509KeyPair : bytes → bytes → option Certificate;
}.

(** What is relied on: with a random source that does not fail a key and a
    certificate for it are made, and such a pair loads again. *)
Class TlsLaws `{TlsCrypto} := {
  generate_ok r i : is_Some (GenerateKey r i);
  create_ok t k r i : is_Some (CreateCertificate t k r i);
  marshal_ok k : is_Some (MarshalPKCS8PrivateKey k);
  pair_ok t k r i der j priv :
    CreateCertificate t k r i = Some (der, j) → MarshalPKCS8PrivateKey k = Some priv →
    is_Some (X509KeyPair (pem_encode "CERTIFICATE" der) (pem_encode "PRIVATE KEY" priv));
}.

Inductive tlserr := ErrTLSCert | ErrGenerate.

Definition certFile : string := "cert.pem".
Definition keyFile : string := "key.pem".

(** ** The operations *)

(** [rand.Int] below [2^128]: sixteen bytes, most significant first. *)
Definition rand_int128 : M os Z :=
  let! b := rand_read 16 in
  ret (fold_left (λ acc x, acc * 256 + byte_val x) b 0).

Definition from_rand {A} (f : (nat → byte) → nat → option (A * nat)) : M os (option A) := λ s,
  match f (os_rand s) (os_rpos s) with
  | Some (a, i) => (Some a, set_rpos i s)
  | None => (None, s)
  end.

Definition fileExists (path : string) : M os bool :=
  let! r := stat path in
  match r with
  | Err _ => ret false
  | Ok (_, size) => ret (size >? 0)
  end.

Definition writePEM (path blockType : string) (data : bytes) (perm : Z) : M os (result oserr unit) :=
  let! r := create_temp (dir path) ".raxd-tls-" ".tmp" in
  match r with
  | Err e => ret (Err e)
  | Ok tmpName =>
      let! r := chmod tmpName perm in
      match r with
      | Err e => do! close tmpName in do! remove tmpName in ret (Err e)
      | Ok _ =>
      let! r := write tmpName (pem_encode blockType data) in
      match r with
      | Err e => do! close tmpName in do! remove tmpName in ret (Err e)
      | Ok _ =>
      let! r := sync tmpName in
      match r with
      | Err e => do! close tmpName in do! remove tmpName in ret (Err e)
      | Ok _ =>
      let! r := close tmpName in
      match r with
      | Err e => do! remove tmpName in ret (Err e)
      | Ok _ => rename tmpName path
      end end end end
  end.

Section tls.
Context `{TlsCrypto}.

(** [tls.LoadX509KeyPair]. *)
Definition LoadX509KeyPair (certPath keyPath : string) : M os (option Certificate) :=
  let! c := read_file certPath in
  match c with
  | Err _ => ret None
  | Ok certPEM =>
      let! k := read_file keyPath in
      match k with
      | Err _ => ret None
      | Ok keyPEM => ret (X509KeyPair certPEM keyPEM)
      end
  end.

Definition minute : Z := 60 * 10 ^ 9.
Definition hour : Z := 3600 * 10 ^ 9.

(** The certificate template of [generateSelfSigned]. *)
Definition tmpl (serial now : Z) : template := {|
  SerialNumber := serial;
  CommonName := "raxd";
  Organization := ["raxd"%string];
  NotBefore := now - minute;
  NotAfter := now + 10 * 365 * 24 * hour;
  KeyUsage := ["DigitalSignature"%string; "CertSign"%string];
  ExtKeyUsage := ["ServerAuth"%string];
  BasicConstraintsValid := true;
  IsCA := true;
  IPAddresses := ["127.0.0.1"%string];
  DNSNames := ["localhost"%string];
|}.

Definition generateSelfSigned (certPath keyPath : string) : M os (result tlserr Certificate) :=
  let! priv := from_rand GenerateKey in
  match priv with
  | None => ret (Err ErrGenerate)
  | Some priv =>
  let! serial := rand_int128 in
  let! now := now in
  let! certDER := from_rand (CreateCertificate (tmpl serial now) priv) in
  match certDER with
  | None => ret (Err ErrGenerate)
  | Some certDER =>
  match MarshalPKCS8PrivateKey priv with
  | None => ret (Err ErrGenerate)
  | Some privDER =>
  let! r := writePEM keyPath "PRIVATE KEY" privDER 384 in
  match r with
  | Err _ => ret (Err ErrGenerate)
  | Ok _ =>
  let! r := writePEM certPath "CERTIFICATE" certDER 420 in
  match r with
  | Err _ => do! remove keyPath in ret (Err ErrGenerate)
  | Ok _ =>
  let! cert := LoadX509KeyPair certPath keyPath in
  match cert with
  | None => ret (Err ErrGenerate)
  | Some cert => ret (Ok cert)
  end end end end end end.

Record certResult := { cert : Certificate; generated : bool }.

Definition loadOrCreateCert (tlsDir : string) : M os (result tlserr certResult) :=
  let certPath := path_join [tlsDir; certFile] in
  let keyPath := path_join [tlsDir; keyFile] in
  let! certExists := fileExists certPath in
  let! keyExists := fileExists keyPath in
  if certExists && keyExists then
    let! c := LoadX509KeyPair certPath keyPath in
    match c with
    | None => ret (Err ErrTLSCert)
    | Some c => ret (Ok {| cert := c; generated := false |})
    end
  else if certExists || keyExists then ret (Err ErrTLSCert)
  else
    let! c := generateSelfSigned certPath keyPath in
    match c with
    | Err e => ret (Err e)
    | Ok c => ret (Ok {| cert := c; generated := true |})
    end.
End tls.
Arguments certResult {_}.
