(* ===== verification/ServerTLSTheorems.v ===== *)
(** * ServerTLSTheorems: what the certificate store guarantees.

    Existing files are never touched, the private key is never readable by
    others whatever fails, and a pair is created once and then loaded. *)

From S2P Require Import Prelude GoText GoEncoding GoPath GoOs GoAtomic ServerTLS.
Open Scope Z_scope.
Open Scope go_scope.

(** ** Names *)

(** Temp files, and the files they replace. *)
Definition tls_temp (t : string) : Prop := ∃ d n, t = d +:+ "/" +:+ ".raxd-tls-" +:+ n +:+ ".tmp".

Lemma pem_not_temp p t : (∃ u, p = u +:+ "pem") → tls_temp t → t ≠ p.
Proof.
  intros [u ->] (d & n & ->) Heq.
  change ".tmp"%string with ("." +:+ "tmp")%string in Heq. rewrite !str_app_assoc in Heq.
  by apply str_app_inj_tail in Heq.
Qed.

Lemma key_path_pem d : ∃ u, path_join [d; keyFile] = u +:+ "pem".
Proof.
  destruct (path_join_ends d keyFile) as [u ->]; [by split_and!|done|].
  exists (u +:+ "key."). by rewrite <-str_app_assoc.
Qed.

Lemma cert_path_pem d : ∃ u, path_join [d; certFile] = u +:+ "pem".
Proof.
  destruct (path_join_ends d certFile) as [u ->]; [by split_and!|done|].
  exists (u +:+ "cert."). by rewrite <-str_app_assoc.
Qed.

Lemma key_not_cert d : path_join [d; keyFile] ≠ path_join [d; certFile].
Proof.
  destruct (path_join_ends d keyFile) as [u ->]; [by split_and!|done|].
  destruct (path_join_ends d certFile) as [v ->]; [by split_and!|done|]. intros Heq.
  change keyFile with ("ke" +:+ "y.pem")%string in Heq.
  change certFile with ("cer" +:+ "t.pem")%string in Heq. rewrite !str_app_assoc in Heq.
  by apply str_app_inj_tail in Heq.
Qed.

(** ** Writing one file *)

(** A temp file beside the disk [d0]. *)
Definition with_temp (perm : Z) (data : bytes) (d0 d : disk) : Prop :=
  ∃ t f, tls_temp t ∧ d0 !! t = None ∧ temp_ok perm data f ∧ d = <[t := f]> d0.

Definition pem_disk (p : string) (perm : Z) (data : bytes) (d0 d : disk) : Prop :=
  d = d0 ∨ with_temp perm data d0 d ∨ d = <[p := File perm data]> d0.

(** All disks since [s] satisfy [P]. *)
Definition disks_since (P : disk → Prop) (s s' : os) : Prop :=
  P (os_files s') ∧ ∃ ds, os_trace s' = ds ++ os_trace s ∧ Forall P ds.

Definition pem_result (p : string) (perm : Z) (data : bytes) (s : os)
    (r : result oserr unit) (s' : os) : Prop :=
  disks_since (pem_disk p perm data (os_files s)) s s' ∧
  match r with
  | Ok _ => os_files s' = <[p := File perm data]> (os_files s)
  | Err _ => os_files s' = os_files s ∨ with_temp perm data (os_files s) (os_files s')
  end.

Lemma frame_disks p t perm data s s' :
  tls_temp t → os_files s !! t = None → write_frame p t perm data True s s' →
  ∃ ds, os_trace s' = ds ++ os_trace s ∧ Forall (pem_disk p perm data (os_files s)) ds.
Proof.
  intros Ht Hn (_ & _ & ds & Htr & HF). exists ds. split; [done|].
  eapply Forall_impl; [exact HF|]. intros d [|f Hne Hok|_].
  - by left.
  - right; left. by exists t, f.
  - by right; right.
Qed.

Lemma pem_result_err p t perm data s e s' :
  tls_temp t → os_files s !! t = None → gone_or_left p t perm data True s s' →
  pem_result p perm data s (Err e) s'.
Proof.
  intros Ht Hn [[y (_ & Hf & Hok & Hfr)]|[Hf Hfr]].
  - assert (with_temp perm data (os_files s) (os_files s')) as Hw by by exists t, y.
    split; [|by right]. split; [by right; left|]. by eapply frame_disks.
  - split; [|by left]. split; [by left|]. by eapply frame_disks.
Qed.

Lemma writePEM_spec p ty data perm s :
  (∃ u, p = u +:+ "pem") →
  wp (writePEM p ty data perm) (pem_result p perm (pem_encode ty data) s) s.
Proof.
  intros Hp. unfold writePEM. set (pem := pem_encode ty data). apply wp_bind, wp_create_temp.
  { intros l m u. apply wp_ret. split; [|by left]. split; [by left|]. by exists []. }
  intros l u t Hn [n Ht]. assert (tls_temp t) as Htmp by (eexists _, _; exact Ht).
  pose proof (pem_not_temp p t Hp Htmp) as Hne.
  pose proof (at_temp_created p t perm pem True s l u Hne) as H0. revert H0.
  generalize (set_files (<[t:=File 384 []]> (os_files s)) (set_tmp u (set_faults l s))).
  intros s0 H0.
  assert (∀ y e s1, at_temp p t perm pem True s y s1 →
    wp (bind (remove t) (λ _, ret (Err e))) (pem_result p perm pem s) s1) as Hremove.
  { intros y e s1 H1. wp_call at_temp_remove. intros r s2 H2. apply wp_ret.
    eapply pem_result_err; [done..|]. destruct H2; [left; eauto|by right]. }
  assert (∀ y e s1, at_temp p t perm pem True s y s1 →
    wp (bind (close t) (λ _, bind (remove t) (λ _, ret (Err e)))) (pem_result p perm pem s) s1)
    as Hdiscard.
  { intros y e s1 H1. wp_call at_temp_close. intros r s2 H2. by eapply Hremove. }
  wp_call at_temp_chmod. intros [[]|e] s1 H1; [|by eapply Hdiscard].
  wp_call at_temp_write. intros [[]|e] s2 H2; [|destruct H2 as [y H2]; by eapply Hdiscard].
  wp_call at_temp_sync. intros [[]|e] s3 H3; [|by eapply Hdiscard].
  wp_call at_temp_close. intros [[]|e] s4 H4; [|by eapply Hremove].
  eapply wp_mono; [by eapply at_temp_rename|]. intros [[]|e] s5 H5.
  - destruct H5 as [Hf Hfr]. split; [|done]. split; [by right; right|]. by eapply frame_disks.
  - eapply pem_result_err; [done..|]. left. eauto.
Qed.

(** ** Writing the pair *)

Section pair.
Variables (keyPath certPath : string) (keyPEM certPEM : bytes) (d0 : disk).

(** A file that was not there before: the whole key with mode 0600, the whole
    certificate, or a temp file; one that holds any of the key has mode 0600. *)
Definition new_file (q : string) (f : file) : Prop :=
  (q = keyPath ∧ f = File 384 keyPEM)
  ∨ (q = certPath ∧ f = File 420 certPEM)
  ∨ (tls_temp q ∧ (temp_ok 384 keyPEM f ∨ temp_ok 420 certPEM f)).

(** A disk of the run: old files and new ones, and nothing old is lost but the
    two files themselves. *)
Definition tls_disk (d : disk) : Prop :=
  (∀ q f, d !! q = Some f → d0 !! q = Some f ∨ new_file q f) ∧
  (∀ q f, d0 !! q = Some f → q ≠ keyPath → q ≠ certPath → d !! q = Some f).

Lemma tls_disk_refl : tls_disk d0.
Proof. split; auto. Qed.

Lemma tls_disk_insert q f d :
  tls_disk d → new_file q f → d0 !! q = None ∨ q = keyPath ∨ q = certPath →
  tls_disk (<[q := f]> d).
Proof.
  intros [H1 H2] Hnew Hq. split.
  - intros q' f' [[<- <-]|[_ Hl]]%lookup_insert_Some; auto.
  - intros q' f' Hl Hk Hc. rewrite lookup_insert_ne; [auto|]. intros ->.
    destruct Hq as [|[]]; congruence.
Qed.

Lemma tls_disk_delete d : tls_disk d → tls_disk (delete keyPath d).
Proof.
  intros [H1 H2]. split.
  - intros q f [_ Hl]%lookup_delete_Some. auto.
  - intros q f Hl Hk Hc. rewrite lookup_delete_ne by done. auto.
Qed.

Lemma tls_disk_temp perm data d d' :
  tls_disk d → (perm, data) = (384, keyPEM) ∨ (perm, data) = (420, certPEM) →
  with_temp perm data d d' →
  (∀ t, tls_temp t → d !! t = None → d0 !! t = None) → tls_disk d'.
Proof.
  intros Hd Hpd (t & f & Ht & Hn & Hok & ->) Hfree.
  apply tls_disk_insert; [done| |by left; apply Hfree].
  right; right. split; [done|]. destruct Hpd; simplify_eq; auto.
Qed.
End pair.

Lemma disks_since_trans (P : disk → Prop) s1 s2 s3 :
  disks_since P s1 s2 → disks_since P s2 s3 → disks_since P s1 s3.
Proof.
  intros [_ (ds & Ht & HF)] [Hp (ds' & Ht' & HF')]. split; [done|].
  exists (ds' ++ ds). rewrite Ht', Ht, app_assoc. split; [done|]. by apply Forall_app.
Qed.

Lemma disks_since_same (P : disk → Prop) s s' :
  P (os_files s) → os_files s' = os_files s → os_trace s' = os_trace s → disks_since P s s'.
Proof. unfold disks_since. intros HP -> ->. split; [done|]. by exists []. Qed.

Lemma disks_since_impl (P Q : disk → Prop) s s' :
  (∀ d, P d → Q d) → disks_since P s s' → disks_since Q s s'.
Proof.
  intros H [Hp (ds & Ht & HF)]. split; [auto|]. exists ds. split; [done|].
  eapply Forall_impl; eauto.
Qed.

(** Calls that only read. *)
Definition reads {A} (m : M os A) : Prop :=
  ∀ s, os_files (m s).2 = os_files s ∧ os_trace (m s).2 = os_trace s.

Lemma reads_bind {A B} (m : M os A) (k : A → M os B) :
  reads m → (∀ a, reads (k a)) → reads (bind m k).
Proof.
  intros Hm Hk s. unfold bind. specialize (Hm s). destruct (m s) as [a s1]. simpl in *.
  destruct Hm as [<- <-]. apply Hk.
Qed.

Lemma reads_ret {A} (a : A) : reads (ret a).
Proof. by intros s. Qed.

Lemma reads_fallible {A} (m : M os (result oserr A)) : reads m → reads (fallible m).
Proof.
  intros H. apply reads_bind.
  - intros s. unfold next_fault. by destruct (os_faults s).
  - intros [f|]; [apply reads_ret|done].
Qed.

Lemma reads_stat p : reads (stat p).
Proof. apply reads_fallible. intros s. simpl. by destruct (os_files s !! p). Qed.

Lemma reads_read_file p : reads (read_file p).
Proof. apply reads_fallible. intros s. simpl. by destruct (os_files s !! p). Qed.

Lemma reads_from_rand {A} (f : (nat → byte) → nat → option (A * nat)) : reads (from_rand f).
Proof. intros s. unfold from_rand. by destruct (f _ _) as [[]|]. Qed.

Lemma reads_rand_int128 : reads rand_int128.
Proof. by intros s. Qed.

Lemma reads_now : reads now.
Proof. by intros s. Qed.

#[export] Hint Resolve reads_ret reads_stat reads_read_file reads_from_rand
  reads_rand_int128 reads_now : go.

Lemma reads_fileExists p : reads (fileExists p).
Proof. apply reads_bind; [auto with go|]. intros [[]|]; auto with go. Qed.

Lemma wp_reads {A} (m : M os A) (Q : A → os → Prop) s :
  reads m → (∀ a s', os_files s' = os_files s → os_trace s' = os_trace s → Q a s') → wp m Q s.
Proof. intros Hr H. destruct (Hr s). by apply H. Qed.

Section generate.
Context `{TlsCrypto}.

Lemma reads_LoadX509KeyPair c k : reads (LoadX509KeyPair c k).
Proof.
  apply reads_bind; [auto with go|]. intros []; [|auto with go].
  apply reads_bind; [auto with go|]. intros []; auto with go.
Qed.

(** A generated private key as PEM, and a certificate made with that key. *)
Definition new_pair (keyPEM certPEM : bytes) : Prop :=
  ∃ priv privDER certDER serial issued r i j r' i' j',
    GenerateKey r i = Some (priv, j)
    ∧ MarshalPKCS8PrivateKey priv = Some privDER
    ∧ CreateCertificate (tmpl serial issued) priv r' i' = Some (certDER, j')
    ∧ keyPEM = pem_encode "PRIVATE KEY" privDER ∧ certPEM = pem_encode "CERTIFICATE" certDER.

(** What a run leaves: the same disk throughout, or disks of a new pair only, and
    both its files after a success. *)
Definition pair_result {A} (keyPath certPath : string) (s : os) (r : result tlserr A) (s' : os) : Prop :=
  is_ok r = false ∧ disks_since (eq (os_files s)) s s'
  ∨ ∃ keyPEM certPEM, new_pair keyPEM certPEM
    ∧ disks_since (tls_disk keyPath certPath keyPEM certPEM (os_files s)) s s'
    ∧ (is_ok r = true →
       os_files s' = <[certPath := File 420 certPEM]> (<[keyPath := File 384 keyPEM]> (os_files s))).

Lemma pair_result_same {A} k c s e s' :
  os_files s' = os_files s → os_trace s' = os_trace s → pair_result (A:=A) k c s (Err e) s'.
Proof. intros Hf Ht. left. split; [done|]. by apply disks_since_same. Qed.

Lemma wp_from_rand {A} (f : (nat → byte) → nat → option (A * nat)) (Q : option A → os → Prop) s :
  Q None s → (∀ a r i j s', os_files s' = os_files s → os_trace s' = os_trace s →
    f r i = Some (a, j) → Q (Some a) s') → wp (from_rand f) Q s.
Proof.
  intros Hn Hs. unfold wp, from_rand. destruct (f (os_rand s) (os_rpos s)) as [[a j]|] eqn:E; [|done].
  by eapply Hs.
Qed.

(** The two writes, one after the other. *)
Lemma key_write_disks k c kp cp s s1 r :
  pem_result k 384 kp s r s1 → disks_since (tls_disk k c kp cp (os_files s)) s s1.
Proof.
  intros [Hd _]. eapply disks_since_impl; [|exact Hd]. intros d [->|[Hw| ->]].
  - apply tls_disk_refl.
  - eapply tls_disk_temp; [apply tls_disk_refl| |exact Hw|]; auto.
  - apply tls_disk_insert; [apply tls_disk_refl|by left|auto].
Qed.

Lemma cert_write_disks k c kp cp s s1 s2 r :
  (∃ u, k = u +:+ "pem") →
  os_files s1 = <[k := File 384 kp]> (os_files s) →
  pem_result c 420 cp s1 r s2 → disks_since (tls_disk k c kp cp (os_files s)) s1 s2.
Proof.
  intros Hk Hf1 [Hd _].
  assert (tls_disk k c kp cp (os_files s) (os_files s1)) as H1.
  { rewrite Hf1. apply tls_disk_insert; [apply tls_disk_refl|by left|auto]. }
  eapply disks_since_impl; [|exact Hd]. intros d [->|[Hw| ->]].
  - done.
  - eapply tls_disk_temp; [exact H1|by right|exact Hw|].
    intros t Ht. rewrite Hf1, lookup_insert_ne; [done|]. intros ->. by eapply pem_not_temp.
  - apply tls_disk_insert; [done|by right; left|auto].
Qed.

Lemma generateSelfSigned_spec c k s :
  (∃ u, k = u +:+ "pem") → (∃ u, c = u +:+ "pem") →
  wp (generateSelfSigned c k) (pair_result k c s) s.
Proof.
  intros Hk Hc. unfold generateSelfSigned.
  apply wp_bind, wp_from_rand; [by apply pair_result_same|]. intros priv r0 i0 j0 s1 Hf1 Ht1 Hpriv.
  apply wp_bind, wp_reads; [auto with go|]. intros serial s2 Hf2 Ht2.
  apply wp_bind, wp_now, wp_bind, wp_from_rand; [apply wp_ret, pair_result_same; congruence|].
  intros der r3 i3 j3 s3 Hf3 Ht3 Hder.
  destruct (MarshalPKCS8PrivateKey priv) as [privDER|] eqn:Em; [|apply wp_ret, pair_result_same; congruence].
  set (kp := pem_encode "PRIVATE KEY" privDER). set (cp := pem_encode "CERTIFICATE" der).
  assert (new_pair kp cp) as Hnew by by repeat eexists.
  assert (os_files s3 = os_files s) as Hf by congruence.
  assert (disks_since (tls_disk k c kp cp (os_files s)) s s3) as H3.
  { apply disks_since_same; [apply tls_disk_refl|congruence..]. }
  apply wp_bind. eapply wp_mono; [by apply writePEM_spec|]. intros r s4 Hr.
  pose proof (key_write_disks k c kp cp _ _ _ Hr) as H4. rewrite Hf in H4.
  pose proof (disks_since_trans _ _ _ _ H3 H4) as H34. destruct Hr as [_ Hr].
  destruct r as [[]|e]; [|apply wp_ret; right; by exists kp, cp].
  apply wp_bind. eapply wp_mono; [by apply writePEM_spec|]. intros r s5 Hr5.
  pose proof Hr as Hf4. rewrite Hf in Hf4.
  pose proof (cert_write_disks k c kp cp s s4 s5 r Hk Hf4 Hr5) as H5.
  pose proof (disks_since_trans _ _ _ _ H34 H5) as H35. destruct Hr5 as [_ Hr5].
  destruct r as [[]|e].
  - apply wp_bind, wp_reads; [apply reads_LoadX509KeyPair|]. intros cert s6 Hf6 Ht6.
    assert (pair_result (A:=Certificate) k c s (Err ErrGenerate) s6 ∧
            ∀ x : Certificate, pair_result k c s (Ok x) s6) as [He Hok].
    { assert (disks_since (tls_disk k c kp cp (os_files s)) s5 s6) as H6.
      { apply disks_since_same; [apply H35|congruence..]. }
      pose proof (disks_since_trans _ _ _ _ H35 H6).
      split; [|intros x]; right; exists kp, cp; (split; [done|]); (split; [done|]); [done|].
      intros _. by rewrite Hf6, Hr5, Hf4. }
    destruct cert; apply wp_ret; [apply Hok|apply He].
  - apply wp_bind, wp_remove; intros; apply wp_ret; right; exists kp, cp; (split; [done|]); (split; [|done]).
    + exact H35.
    + exact H35.
    + destruct H35 as [Hp (ds & Ht & HF)]. split; [by apply tls_disk_delete|].
      exists (os_files s5 :: ds). simpl. rewrite Ht. split; [done|]. by constructor.
Qed.
End generate.

(** ** On a machine where no call fails *)

Definition no_temps (s : os) : Prop := ∀ t, tls_temp t → os_files s !! t = None.

Lemma writePEM_quiet p ty data perm s :
  quiet s → no_temps s →
  wp (writePEM p ty data perm) (λ r s', r = Ok tt ∧ quiet s') s.
Proof.
  intros Hq Hfree. apply wp_bind, wp_fallible_quiet; [done|]. unfold wp at 1. cbn zeta.
  set (t := dir p +:+ _). simpl. rewrite Hfree by (by eexists _, _). simpl.
  match goal with |- context [set_files ?d ?s1] => set (s0 := set_files d s1) end.
  assert (quiet s0 ∧ is_Some (os_files s0 !! t)) as [Hq0 Hx0].
  { split; [done|]. simpl. rewrite lookup_insert_eq. eauto. }
  clearbody s0.
  apply wp_bind, wp_fallible_quiet; [done|]. apply wp_bind.
  eapply wp_mono; [by apply update_quiet|]. intros _ s1 [Hq1 Hx1]. apply wp_ret.
  apply wp_bind. unfold write. apply wp_bind. unfold wp at 1, next_fault. rewrite Hq1. simpl.
  apply wp_bind. eapply wp_mono; [by apply update_quiet|]. intros _ s2 [Hq2 [x2 Hx2]].
  apply wp_ret, wp_bind, wp_fallible_quiet; [done|].
  apply wp_ret, wp_bind, wp_fallible_quiet; [done|].
  apply wp_ret, wp_fallible_quiet; [done|]. unfold wp. by rewrite Hx2.
Qed.

Definition has_data (p : string) (d : disk) : bool :=
  match d !! p with Some f => negb (bool_decide (f_data f = [])) | None => false end.

(** The size test is a test for data. *)
Lemma stat_has_data p s :
  (match os_files s !! p with Some f => Z.of_nat (length (f_data f)) >? 0 | None => false end)
  = has_data p (os_files s).
Proof.
  unfold has_data. destruct (os_files s !! p) as [[m [|b l]]|]; done.
Qed.

Lemma fileExists_next p s :
  (∀ f, f ∈ take 1 (os_faults s) → f = None) →
  fileExists p s = (has_data p (os_files s), set_faults (tail (os_faults s)) s).
Proof.
  intros Hf. rewrite <-stat_has_data. unfold fileExists, stat, fallible, bind, next_fault.
  destruct (os_faults s) as [|f l] eqn:E; simpl.
  - assert (set_faults [] s = s) as Hs by (rewrite <-E; apply set_faults_id).
    simpl. rewrite Hs. by destruct (os_files s !! p).
  - simpl in Hf |- *. rewrite (Hf f) by set_solver. simpl. by destruct (os_files s !! p).
Qed.

Section main.
Context `{TlsCrypto}.

(** What the pair on a disk loads to. *)
Definition loaded (certPath keyPath : string) (d : disk) : result tlserr certResult :=
  if has_data certPath d && has_data keyPath d then
    match d !! certPath ≫= λ c, d !! keyPath ≫= λ k, X509KeyPair (f_data c) (f_data k) with
    | Some c => Ok {| cert := c; generated := false |}
    | None => Err ErrTLSCert
    end
  else Err ErrTLSCert.

Lemma LoadX509KeyPair_spec c k s :
  wp (LoadX509KeyPair c k) (λ r s', os_files s' = os_files s ∧ os_trace s' = os_trace s ∧
    let x := os_files s !! c ≫= λ fc, os_files s !! k ≫= λ fk, X509KeyPair (f_data fc) (f_data fk) in
    (r = None ∨ r = x) ∧ (quiet s → r = x ∧ quiet s')) s.
Proof.
  destruct (reads_LoadX509KeyPair c k s) as [Hf Ht]. split; [done|]. split; [done|].
  clear Hf Ht. unfold LoadX509KeyPair, read_file, fallible, bind, next_fault, quiet.
  destruct (os_faults s) as [|[f|] l] eqn:E; unfold ret; simpl; [|naive_solver|].
  - destruct (os_files s !! c) as [fc|]; simpl; [|naive_solver]. rewrite E. simpl.
    destruct (os_files s !! k) as [fk|]; simpl; naive_solver.
  - destruct (os_files s !! c) as [fc|]; simpl; [|naive_solver].
    destruct l as [|[f|] l]; simpl; destruct (os_files s !! k) as [fk|]; simpl; naive_solver.
Qed.

(** C28: The private key is never exposed and nothing else is damaged.  Either the
    disk stays as it is, or a private key is generated and a certificate made
    with it, and on every disk the machine goes through meanwhile, whatever
    fails: a new [key.pem] holds exactly that key in PEM and has mode 0600, a new
    [cert.pem] holds exactly that certificate and has mode 0644, every other new
    file is a temp file with a part of the key and mode 0600 or with a part of
    the certificate, and no other file that was there has changed. *)
Theorem private_key_never_exposed tlsDir s :
  let certPath := path_join [tlsDir; certFile] in
  let keyPath := path_join [tlsDir; keyFile] in
  wp (loadOrCreateCert tlsDir) (λ r s',
    disks_since (eq (os_files s)) s s'
    ∨ ∃ keyPEM certPEM, new_pair keyPEM certPEM
      ∧ disks_since (tls_disk keyPath certPath keyPEM certPEM (os_files s)) s s') s.
Proof.
  intros c k. unfold loadOrCreateCert. fold c k.
  apply wp_bind, wp_reads; [apply reads_fileExists|]. intros a s1 Hf1 Ht1.
  apply wp_bind, wp_reads; [apply reads_fileExists|]. intros b s2 Hf2 Ht2.
  assert (disks_since (eq (os_files s)) s s2) as Hsame by (apply disks_since_same; congruence).
  destruct (a && b).
  { apply wp_bind, wp_reads; [apply reads_LoadX509KeyPair|]. intros [x|] s3 Hf3 Ht3;
      apply wp_ret; left; apply disks_since_same; congruence. }
  destruct (a || b); [by apply wp_ret; left|].
  apply wp_bind. eapply wp_mono.
  { apply generateSelfSigned_spec; [apply key_path_pem|apply cert_path_pem]. }
  intros r s3 Hr.
  assert (disks_since (eq (os_files s)) s s3 ∨ ∃ kp cp, new_pair kp cp
    ∧ disks_since (tls_disk k c kp cp (os_files s)) s s3) as Hgoal; [|by destruct r; apply wp_ret].
  assert (os_files s2 = os_files s) as Hf by congruence.
  destruct Hr as [[_ Hd]|(kp & cp & Hnew & Hd & _)]; [left|right; exists kp, cp; split; [done|]];
    rewrite Hf in Hd; (eapply disks_since_trans; [|exact Hd]); [done|].
  apply disks_since_same; [apply tls_disk_refl|congruence..].
Qed.

(** A pair that is there is never overwritten.  When either file has data
    (and the two calls that look at them do not fail), nothing is written and
    nothing is generated: the answer is the pair the files load to, and
    [ErrTLSCert] for a lone, corrupt or mismatched file; if no later call
    fails either, a pair that loads is returned. *)
Theorem existing_pair_untouched tlsDir s :
  let certPath := path_join [tlsDir; certFile] in
  let keyPath := path_join [tlsDir; keyFile] in
  (∀ f, f ∈ take 2 (os_faults s) → f = None) →
  has_data certPath (os_files s) || has_data keyPath (os_files s) = true →
  wp (loadOrCreateCert tlsDir) (λ r s',
    os_files s' = os_files s ∧ os_trace s' = os_trace s ∧
    (r = loaded certPath keyPath (os_files s) ∨ r = Err ErrTLSCert) ∧
    (quiet s → r = loaded certPath keyPath (os_files s))) s.
Proof.
  intros c k Hf Hd. unfold loadOrCreateCert. fold c k.
  apply wp_bind. unfold wp at 1. rewrite fileExists_next.
  2:{ intros f Hin. apply Hf. destruct (os_faults s) as [|x [|]]; set_solver. }
  apply wp_bind. unfold wp at 1. rewrite fileExists_next.
  2:{ intros f Hin. apply Hf. destruct (os_faults s) as [|x [|]]; simpl in Hin; set_solver. }
  simpl. unfold loaded. destruct (has_data c _ && has_data k _).
  - apply wp_bind. eapply wp_mono; [apply LoadX509KeyPair_spec|]. simpl.
    intros r s1 (Hf1 & Ht1 & Hr & Hq).
    assert (quiet s → r = (os_files s !! c ≫= λ fc, os_files s !! k ≫= λ fk,
      X509KeyPair (f_data fc) (f_data fk))) as Hq'.
    { intros Hs. apply Hq. unfold quiet in *. simpl. by rewrite Hs. }
    destruct (_ ≫= _) as [x|]; destruct r as [y|]; apply wp_ret; split_and!; auto;
      try (destruct Hr; simplify_eq; by auto); intros Hs; specialize (Hq' Hs); by simplify_eq.
  - rewrite Hd. by apply wp_ret; auto.
Qed.
End main.

(** ** The pair is made once *)

Section once.
Context `{TlsLaws}.

Lemma pem_has_data ty data : pem_encode ty data ≠ [].
Proof. done. Qed.

Lemma from_rand_some {A} (f : (nat → byte) → nat → option (A * nat)) Q s :
  is_Some (f (os_rand s) (os_rpos s)) →
  (∀ a r i j, f r i = Some (a, j) → Q (Some a) (set_rpos j s)) → wp (from_rand f) Q s.
Proof.
  intros [[a j] Hs] HQ. unfold wp, from_rand. rewrite Hs. by eapply HQ.
Qed.

Lemma no_temps_insert p f s s' :
  no_temps s → (∃ u, p = u +:+ "pem") → os_files s' = <[p := f]> (os_files s) → no_temps s'.
Proof.
  intros Hn Hp Hf t Ht. rewrite Hf, lookup_insert_ne by (intros ->; by eapply pem_not_temp).
  by apply Hn.
Qed.

Lemma writePEM_quiet_spec p ty data perm s :
  (∃ u, p = u +:+ "pem") → quiet s → no_temps s →
  wp (writePEM p ty data perm) (λ r s', r = Ok tt ∧ quiet s' ∧ no_temps s' ∧
    os_files s' = <[p := File perm (pem_encode ty data)]> (os_files s)) s.
Proof.
  intros Hp Hq Hn. eapply wp_mono; [apply wp_and; [by apply writePEM_quiet|by apply writePEM_spec]|].
  intros r s' [[-> Hq'] [_ Hf]]. split_and!; try done. by eapply no_temps_insert.
Qed.

Lemma generateSelfSigned_quiet c k s :
  (∃ u, k = u +:+ "pem") → (∃ u, c = u +:+ "pem") → k ≠ c → quiet s → no_temps s →
  wp (generateSelfSigned c k) (λ r s', ∃ x kp cp, r = Ok x ∧ quiet s' ∧
    os_files s' = <[c := File 420 cp]> (<[k := File 384 kp]> (os_files s)) ∧
    kp ≠ [] ∧ cp ≠ [] ∧ X509KeyPair cp kp = Some x ∧ new_pair kp cp) s.
Proof.
  intros Hk Hc Hkc Hq Hn. apply wp_bind, from_rand_some; [apply generate_ok|].
  intros priv r0 i0 i Hgen. apply wp_bind, wp_bind, wp_rand_read. intros b _. apply wp_ret.
  apply wp_bind, wp_now, wp_bind, from_rand_some; [apply create_ok|].
  intros der r i' j Hder. destruct (marshal_ok priv) as [privDER Hpriv]. rewrite Hpriv.
  apply wp_bind. eapply wp_mono; [by apply writePEM_quiet_spec|].
  intros r1 s1 (-> & Hq1 & Hn1 & Hf1).
  apply wp_bind. eapply wp_mono; [by apply writePEM_quiet_spec|].
  intros r2 s2 (-> & Hq2 & Hn2 & Hf2).
  apply wp_bind. eapply wp_mono; [apply LoadX509KeyPair_spec|]. cbv zeta.
  intros r3 s3 (Hf3 & _ & _ & Hr3). destruct (Hr3 Hq2) as [-> Hq3].
  assert (os_files s2 !! c = Some (File 420 (pem_encode "CERTIFICATE" der))) as ->.
  { by rewrite Hf2, lookup_insert_eq. }
  assert (os_files s2 !! k = Some (File 384 (pem_encode "PRIVATE KEY" privDER))) as ->.
  { by rewrite Hf2, lookup_insert_ne, Hf1, lookup_insert_eq by done. }
  destruct (pair_ok _ _ _ _ _ _ _ Hder Hpriv) as [x Hx]. cbn [mbind option_bind f_data].
  rewrite Hx. apply wp_ret. exists x. eexists _, _.
  split_and!; [done|done|by rewrite Hf3, Hf2, Hf1|by apply pem_has_data..|done|by repeat eexists].
Qed.

Lemma pair_made tlsDir s :
  let certPath := path_join [tlsDir; certFile] in
  let keyPath := path_join [tlsDir; keyFile] in
  quiet s → no_temps s →
  has_data certPath (os_files s) = false → has_data keyPath (os_files s) = false →
  wp (let! first := loadOrCreateCert tlsDir in
      let! second := loadOrCreateCert tlsDir in
      ret (first, second))
     (λ r s', ∃ c keyPEM certPEM,
        r = (Ok {| cert := c; generated := true |}, Ok {| cert := c; generated := false |}) ∧
        new_pair keyPEM certPEM ∧ X509KeyPair certPEM keyPEM = Some c ∧
        os_files s' = <[certPath := File 420 certPEM]>
                        (<[keyPath := File 384 keyPEM]> (os_files s))) s.
Proof.
  intros c k Hq Hn Hc Hk. apply wp_bind. unfold loadOrCreateCert at 1. fold c k.
  apply wp_bind. unfold wp at 1. rewrite fileExists_next by (rewrite Hq; set_solver).
  apply wp_bind. unfold wp at 1. rewrite fileExists_next by (simpl; rewrite Hq; set_solver).
  simpl. rewrite Hc, Hk. simpl. rewrite Hq. simpl.
  apply wp_bind. eapply wp_mono.
  { apply generateSelfSigned_quiet; [apply key_path_pem|apply cert_path_pem|apply key_not_cert|done|done]. }
  intros r s1 (x & kp & cp & -> & Hq1 & Hf1 & Hkp & Hcp & Hx & Hnew). simpl in Hf1. apply wp_ret.
  assert (os_files s1 !! c = Some (File 420 cp)) as Hlc by by rewrite Hf1, lookup_insert_eq.
  assert (os_files s1 !! k = Some (File 384 kp)) as Hlk.
  { rewrite Hf1, lookup_insert_ne, lookup_insert_eq; [done|]. apply not_eq_sym, key_not_cert. }
  assert (has_data c (os_files s1) = true ∧ has_data k (os_files s1) = true) as [Hdc Hdk].
  { unfold has_data. rewrite Hlc, Hlk. simpl. by rewrite !bool_decide_eq_false_2. }
  apply wp_bind. unfold loadOrCreateCert. fold c k.
  apply wp_bind. unfold wp at 1. rewrite fileExists_next by (rewrite Hq1; set_solver).
  apply wp_bind. unfold wp at 1. rewrite fileExists_next by (simpl; rewrite Hq1; set_solver).
  simpl. rewrite Hdc, Hdk. simpl. rewrite Hq1. simpl.
  apply wp_bind. eapply wp_mono; [apply LoadX509KeyPair_spec|]. simpl.
  intros r s2 (Hf2 & _ & _ & Hr2). destruct (Hr2 eq_refl) as [-> _].
  rewrite Hlc, Hlk. simpl. rewrite Hx. apply wp_ret, wp_ret. exists x, kp, cp.
  split_and!; [done..|]. by rewrite Hf2, Hf1.
Qed.

(** C36: A pair is made once and then reused.  When neither file is there and no
    call fails, [loadOrCreateCert] generates a private key and a certificate made
    with it, leaves exactly the two files, the key with mode 0600 and the
    certificate with 0644, answers with the pair they load to, and the next start
    loads that very pair without generating one.  (Two empty files count as
    absent, and so does a file whose [os.Stat] fails: [empty_pair_overwritten].) *)
Theorem pair_created_once tlsDir s :
  let certPath := path_join [tlsDir; certFile] in
  let keyPath := path_join [tlsDir; keyFile] in
  quiet s → no_temps s →
  os_files s !! certPath = None → os_files s !! keyPath = None →
  wp (let! first := loadOrCreateCert tlsDir in
      let! second := loadOrCreateCert tlsDir in
      ret (first, second))
     (λ r s', ∃ c keyPEM certPEM,
        r = (Ok {| cert := c; generated := true |}, Ok {| cert := c; generated := false |}) ∧
        new_pair keyPEM certPEM ∧ X509KeyPair certPEM keyPEM = Some c ∧
        os_files s' = <[certPath := File 420 certPEM]>
                        (<[keyPath := File 384 keyPEM]> (os_files s))) s.
Proof.
  intros c k Hq Hn Hc Hk. apply pair_made; [done|done|..]; unfold has_data; fold c k.
  - by rewrite Hc.
  - by rewrite Hk.
Qed.

(** Against the comments of [tls.go] an empty certificate and an empty key are no
    error: a new pair is written over them. *)
Theorem empty_pair_overwritten tlsDir s mc mk :
  let certPath := path_join [tlsDir; certFile] in
  let keyPath := path_join [tlsDir; keyFile] in
  quiet s → no_temps s →
  os_files s !! certPath = Some (File mc []) → os_files s !! keyPath = Some (File mk []) →
  wp (let! first := loadOrCreateCert tlsDir in
      let! second := loadOrCreateCert tlsDir in
      ret (first, second))
     (λ r s', is_ok r.1 = true ∧ ∃ f, os_files s' !! certPath = Some f ∧ f_data f ≠ []) s.
Proof.
  intros c k Hq Hn Hc Hk. eapply wp_mono.
  { apply pair_made; [done|done|..]; unfold has_data; fold c k; [by rewrite Hc|by rewrite Hk]. }
  intros r s' (x & kp & cp & -> & (? & ? & ? & ? & ? & ? & ? & ? & ? & ? & ? & _ & _ & _ & _ & ->) & _ & ->).
  split; [done|]. eexists. split; [apply lookup_insert_eq|apply pem_has_data].
Qed.
End once.

(** ** A concrete machine *)

(** A stand-in for the X.509 packages: keys are one byte, a certificate is the
    key it certifies, a pair is two non-empty files. *)
#[export] Instance toy_tls : TlsCrypto := {|
  PrivateKey := byte;
  Certificate := (bytes * bytes);
  GenerateKey r i := Some (r i, S i);
  CreateCertificate _ k _ i := Some ([k], i);
  MarshalPKCS8PrivateKey k := Some [k];
  X509KeyPair c k := match c, k with _ :: _, _ :: _ => Some (c, k) | _, _ => None end;
|}.

#[export] Instance toy_tls_laws : TlsLaws.
Proof. split; intros; simpl; simplify_eq; eauto. Qed.

Definition tls_os (files : disk) : os :=
  {| os_files := files; os_trace := []; os_now := 0; os_rand := λ _, x61; os_rpos := 0;
     os_tmp := []; os_faults := []; os_locks := [] |}.

(** A certificate without its key. *)
Definition lone_cert : os := tls_os {[ "/tls/cert.pem"%string := File 420 [x61] ]}.

Lemma existing_pair_untouched_witness :
  wp (loadOrCreateCert "/tls")
     (λ r s', os_files s' = os_files lone_cert ∧ os_trace s' = [] ∧ r = Err ErrTLSCert) lone_cert.
Proof.
  eapply wp_mono.
  - apply (existing_pair_untouched "/tls" lone_cert).
    + intros f Hf. by apply elem_of_nil in Hf.
    + vm_compute; reflexivity.
  - intros r s' (Hf & Ht & _ & Hr). split; [exact Hf|]. split; [exact Ht|].
    rewrite (Hr eq_refl). vm_compute; reflexivity.
Defined.

Lemma pair_created_once_witness :
  wp (let! first := loadOrCreateCert "/tls" in
      let! second := loadOrCreateCert "/tls" in ret (first, second))
     (λ r s', ∃ c keyPEM certPEM,
        r = (Ok {| cert := c; generated := true |}, Ok {| cert := c; generated := false |}) ∧
        new_pair keyPEM certPEM ∧ X509KeyPair certPEM keyPEM = Some c ∧
        os_files s' = <["/tls/cert.pem"%string := File 420 certPEM]>
                        (<["/tls/key.pem"%string := File 384 keyPEM]> (os_files (tls_os ∅))))
     (tls_os ∅).
Proof.
  apply (pair_created_once "/tls" (tls_os ∅)).
  - reflexivity.
  - intros t _. reflexivity.
  - vm_compute; reflexivity.
  - vm_compute; reflexivity.
Defined.
