(* ===== verification/Mcp.v ===== *)
(** * Mcp: [internal/mcp], the tools.

    The handlers of [ping], [server_info], [execute_command] and [upload_file],
    the audit wrapper of the first two, and the table [NewHandler] registers.
    The MCP library that decodes a call and encodes its answer is not modelled:
    a call is a tool with its decoded input. *)

From S2P Require Import Prelude GoText GoEncoding GoOs GoFs ServerAudit Server CmdExec FileUpload.
Open Scope Z_scope.
Open Scope go_scope.

(** ** The world of the tools

    The clock, the effective user id, when the request's context ends (counted
    from the start of a command; never, if the client stays), the audit trail, the time limits given to [context.WithTimeout], the
    machine commands run on and the file tree. *)
Record tool_world := {
  t_now : Z;
  t_euid : Z;
  t_ctx_end : option Z;
  t_audit : list AuditRecord;
  t_timeouts : list Z;
  t_machine : machine;
  t_fs : fsys;
}.

Definition audit (rec : AuditRecord) : M tool_world unit :=
  modify (λ w, {| t_now := t_now w; t_euid := t_euid w; t_ctx_end := t_ctx_end w;
                  t_audit := t_audit w ++ [stamp (t_now w) rec]; t_timeouts := t_timeouts w;
                  t_machine := t_machine w; t_fs := t_fs w |}).

Definition log_timeout (d : Z) : M tool_world unit :=
  modify (λ w, {| t_now := t_now w; t_euid := t_euid w; t_ctx_end := t_ctx_end w;
                  t_audit := t_audit w; t_timeouts := t_timeouts w ++ [d];
                  t_machine := t_machine w; t_fs := t_fs w |}).

Definition on_machine {A} (m : M machine A) : M tool_world A :=
  zoom t_machine (λ x w, {| t_now := t_now w; t_euid := t_euid w; t_ctx_end := t_ctx_end w;
                            t_audit := t_audit w; t_timeouts := t_timeouts w;
                            t_machine := x; t_fs := t_fs w |}) m.

Definition on_fs {A} (m : M fsys A) : M tool_world A :=
  zoom t_fs (λ x w, {| t_now := t_now w; t_euid := t_euid w; t_ctx_end := t_ctx_end w;
                       t_audit := t_audit w; t_timeouts := t_timeouts w;
                       t_machine := t_machine w; t_fs := x |}) m.

(** ** Handlers *)

(** [*CallToolResult]: the error mark and the texts. *)
Record CallToolResult := { IsError : bool; Content_ : list string }.

Definition text_result (s : string) : option CallToolResult :=
  Some {| IsError := false; Content_ := [s] |}.

(** What a handler returns; [None] is a panic. *)
Definition outcome (Out : Type) : Type := option (option CallToolResult * Out * option string).

Definition ToolHandlerFor (In Out : Type) : Type := context → In → M tool_world (outcome Out).

(** *** audit.go *)

Definition withAudit {In Out} (name : string) (h : ToolHandlerFor In Out) : ToolHandlerFor In Out :=
  λ ctx input,
  let fp := fingerprintFromCtx ctx in
  let remote := remoteAddrFromCtx ctx in
  let! r := h ctx input in
  match r with
  | None => ret None
  | Some (result, out, err) =>
      let failed := match err with
        | Some _ => true
        | None => match result with Some x => IsError x | None => false end
        end in
      let resultStr := if failed then "fail"%string else "success"%string in
      let reason := match err with Some e => e | None => ""%string end in
      do! audit (audit_record fp remote resultStr reason name) in
      ret (Some (result, out, err))
  end.

(** *** tools.go *)

Definition protocolVersion : string := "2025-11-25".

Definition pingHandler : ToolHandlerFor unit unit := λ _ _,
  ret (Some (text_result "pong", tt, None)).

Record ServerInfo := { Name : string; s_Version : string; ProtocolVersion : string }.

Definition serverInfoHandler (ver : string) : ToolHandlerFor unit ServerInfo :=
  let info := {| Name := "raxd"; s_Version := ver; ProtocolVersion := protocolVersion |} in
  let textLine := "raxd " +:+ ver +:+ " (MCP " +:+ protocolVersion +:+ ")" in
  λ _ _, ret (Some (text_result textLine, info, None)).

(** *** exec_tool.go *)

Record ExecInput := { x_Command : string; x_Args : list string; x_TimeoutMs : Z; x_Cwd : string }.

Record ExecOutput := {
  o_Stdout : string;
  o_Stderr : string;
  o_ExitCode : Z;
  o_DurationMs : Z;
  o_TimedOut : bool;
  o_StdoutTruncated : bool;
  o_StderrTruncated : bool;
}.

Definition no_output : ExecOutput :=
  {| o_Stdout := ""; o_Stderr := ""; o_ExitCode := 0; o_DurationMs := 0; o_TimedOut := false;
     o_StdoutTruncated := false; o_StderrTruncated := false |}.

(** An audit record of this tool without the fields of a finished run. *)
Definition exec_record (fp remote res reason : string) (i : ExecInput) : AuditRecord :=
  {| TS := 0; a_Fingerprint := fp; RemoteAddr := remote; a_Result := res; Reason := reason;
     Tool := "execute_command"; a_Command := x_Command i; a_Args := x_Args i; a_ExitCode := None;
     a_Duration := 0; a_TimedOut := false; a_Path := ""; a_Size := 0 |}.

(** One record, and an error for the client. *)
Definition exec_refuse (fp remote res reason : string) (i : ExecInput) (msg : string) :
    M tool_world (outcome ExecOutput) :=
  do! audit (exec_record fp remote res reason i) in ret (Some (None, no_output, Some msg)).

Definition millisecond : Z := 10 ^ 6.

(** [context.WithTimeout]: the end of the new context; an earlier end of the
    parent's stays. *)
Definition WithTimeout (parent : option Z) (timeout : Z) : Z :=
  match parent with Some t => Z.min t timeout | None => timeout end.

Definition exec_run (cfg : CmdExec.Config) (fp remote : string) (input : ExecInput) (effTimeoutMs : Z) :
    M tool_world (outcome ExecOutput) :=
  let cwd := if String.eqb (x_Cwd input) "" then DefaultCwd cfg else x_Cwd input in
  let timeout := wrap64 (effTimeoutMs * millisecond) in
  do! log_timeout timeout in
  let! parent := gets t_ctx_end in
  let! r := on_machine (CmdExec.Run (Some (WithTimeout parent timeout)) cfg
              {| Command := x_Command input; Args := x_Args input; CmdExec.Cwd := cwd |}) in
  match r with
  | None => ret None
  | Some (Err e) =>
      match e with
      | ErrNotAllowed _ => exec_refuse fp remote "deny" "not-allowed" input "command not allowed"
      | ErrBadCwd _ => exec_refuse fp remote "fail" "bad-cwd" input "command not found"
      | OtherErr _ => exec_refuse fp remote "fail" "not-found" input "command not found"
      end
  | Some (Ok res) =>
      let ms := Z.quot (Duration res) millisecond in
      let out := {| o_Stdout := string_of_bytes (Stdout res); o_Stderr := string_of_bytes (Stderr res);
                    o_ExitCode := ExitCode res; o_DurationMs := ms; o_TimedOut := TimedOut res;
                    o_StdoutTruncated := StdoutTruncated res;
                    o_StderrTruncated := StderrTruncated res |} in
      let textSummary :=
        "exit=" +:+ fmt_d (ExitCode res) +:+ " duration=" +:+ fmt_d ms +:+ "ms timed_out="
        +:+ fmt_bool (TimedOut res) +:+ " stdout=" +:+ fmt_d (blen (Stdout res)) +:+ "B stderr="
        +:+ fmt_d (blen (Stderr res)) +:+ "B" in
      let textSummary := if StdoutTruncated res || StderrTruncated res
        then textSummary +:+ " truncated" else textSummary in
      do! audit {| TS := 0; a_Fingerprint := fp; RemoteAddr := remote; a_Result := "success";
                   Reason := ""; Tool := "execute_command"; a_Command := x_Command input;
                   a_Args := x_Args input; a_ExitCode := Some (ExitCode res);
                   a_Duration := Duration res; a_TimedOut := TimedOut res; a_Path := "";
                   a_Size := 0 |} in
      ret (Some (text_result textSummary, out, None))
  end.

(** The checks of the input, in the order of the code. *)
Definition exec_checked (cfg : CmdExec.Config) (fp remote : string) (input : ExecInput) :
    M tool_world (outcome ExecOutput) :=
  let nargs := Z.of_nat (length (x_Args input)) in
  if nargs >? MaxArgs cfg then
    let reason := "too many arguments: " +:+ fmt_d nargs +:+ " > " +:+ fmt_d (MaxArgs cfg) in
    exec_refuse fp remote "deny" reason input reason
  else
  match find (λ arg, str_len arg >? MaxArgLen cfg) (x_Args input) with
  | Some arg =>
      let reason := "argument too long: " +:+ fmt_d (str_len arg) +:+ " > " +:+ fmt_d (MaxArgLen cfg) in
      exec_refuse fp remote "deny" reason input reason
  | None =>
  let effTimeoutMs := if x_TimeoutMs input =? 0 then DefaultTimeoutMs cfg else x_TimeoutMs input in
  if effTimeoutMs >? MaxTimeoutMs cfg then
    let reason := "timeout_ms " +:+ fmt_d effTimeoutMs +:+ " exceeds max " +:+ fmt_d (MaxTimeoutMs cfg) in
    exec_refuse fp remote "deny" reason input reason
  else exec_run cfg fp remote input effTimeoutMs
  end.

Definition execHandler (cfg : CmdExec.Config) : ToolHandlerFor ExecInput ExecOutput := λ ctx input,
  let fp := fingerprintFromCtx ctx in
  let remote := remoteAddrFromCtx ctx in
  let! euid := gets t_euid in
  if euid =? 0 then
    do! audit (exec_record fp remote "warn"
          "running-as-root: raxd executing commands as root (euid==0); ensure raxd runs as non-root" input) in
    if DenyRoot cfg then
      exec_refuse fp remote "deny" "execution as root is forbidden by policy (deny_root=true)" input
        "execution as root is forbidden by policy"
    else exec_checked cfg fp remote input
  else exec_checked cfg fp remote input.

(** *** upload_tool.go *)

Record UploadInput := { up_Path : string; up_Content : string; up_Overwrite : bool; up_Mode : string }.
Record UploadOutput := { uo_Path : string; uo_Size : Z; uo_Overwritten : bool; uo_Mode : string }.

Definition no_upload : UploadOutput :=
  {| uo_Path := ""; uo_Size := 0; uo_Overwritten := false; uo_Mode := "" |}.

Definition upload_record (fp remote res reason path : string) (size : Z) : AuditRecord :=
  {| TS := 0; a_Fingerprint := fp; RemoteAddr := remote; a_Result := res; Reason := reason;
     Tool := "upload_file"; a_Command := ""; a_Args := []; a_ExitCode := None; a_Duration := 0;
     a_TimedOut := false; a_Path := path; a_Size := size |}.

Definition upload_refuse (fp remote res reason path msg : string) : M tool_world (outcome UploadOutput) :=
  do! audit (upload_record fp remote res reason path 0) in ret (Some (None, no_upload, Some msg)).

(** [Error()] of the errors of [fileupload.Write]. *)
Definition uerr_text (e : uerr) : string :=
  match e with
  | ErrBadMode m => "invalid or forbidden file mode: " +:+ m
  | ErrTraversal p => "path is outside the upload root: " +:+ fmt_q p
  | ErrExists => "file already exists (set overwrite to replace)"
  | ErrIsDir => "target path is a directory"
  | ErrTooLarge => "file too large: exceeds max_file_bytes"
  | ErrQuotaExceeded => "upload denied: total upload quota exceeded"
  | UOther m => m
  end.

(** The audit result and reason for a failed write. *)
Definition upload_verdict (e : uerr) : string * string :=
  match e with
  | ErrTraversal _ => ("deny", "traversal")
  | ErrExists => ("deny", "file already exists")
  | ErrIsDir => ("deny", "target is a directory")
  | ErrTooLarge => ("deny", "file too large")
  | ErrBadMode _ => ("deny", "invalid file mode")
  | ErrQuotaExceeded => ("deny", "total upload quota exceeded")
  | UOther _ => ("fail", "write failed")
  end%string.

Definition upload_write (cfg : FileUpload.Config) (fp remote : string) (input : UploadInput)
    (decoded : bytes) (mode : Z) : M tool_world (outcome UploadOutput) :=
  let! w := on_fs (FileUpload.Write cfg {| RelPath := up_Path input; Data := decoded;
                                          Overwrite := up_Overwrite input; Mode := mode |}) in
  match w with
  | Err e =>
      let (auditResult, reason) := upload_verdict e in
      upload_refuse fp remote auditResult reason (up_Path input)
        (if String.eqb auditResult "deny" then uerr_text e else "write failed")
  | Ok res =>
      let out := {| uo_Path := res_RelPath res; uo_Size := res_Size res;
                    uo_Overwritten := res_Overwritten res; uo_Mode := fmt_04o (res_Mode res) |} in
      let textSummary :=
        "path=" +:+ res_RelPath res +:+ " size=" +:+ fmt_d (res_Size res) +:+ "B overwritten="
        +:+ fmt_bool (res_Overwritten res) +:+ " mode=" +:+ uo_Mode out in
      do! audit (upload_record fp remote "success" "" (res_RelPath res) (res_Size res)) in
      ret (Some (text_result textSummary, out, None))
  end.

Definition upload_checked (cfg : FileUpload.Config) (fp remote : string) (input : UploadInput) :
    M tool_world (outcome UploadOutput) :=
  let too_large := "file too large: exceeds max_file_bytes"%string in
  if decoded_len (str_len (up_Content input)) >? MaxFileBytes cfg then
    upload_refuse fp remote "deny" too_large (up_Path input) too_large
  else
  match std_decode (up_Content input) with
  | None => upload_refuse fp remote "deny" "invalid base64 content" (up_Path input) "invalid base64 content"
  | Some decoded =>
      if blen decoded >? MaxFileBytes cfg then
        upload_refuse fp remote "deny" too_large (up_Path input) too_large
      else
      match (if String.eqb (up_Mode input) "" then Ok (DefaultMode cfg) else ParseMode (up_Mode input)) with
      | Err _ => upload_refuse fp remote "deny" "invalid file mode" (up_Path input) "invalid file mode"
      | Ok mode => upload_write cfg fp remote input decoded mode
      end
  end.

Definition uploadHandler (cfg : FileUpload.Config) : ToolHandlerFor UploadInput UploadOutput := λ ctx input,
  let fp := fingerprintFromCtx ctx in
  let remote := remoteAddrFromCtx ctx in
  let! euid := gets t_euid in
  if euid =? 0 then
    do! audit (upload_record fp remote "warn"
          "running-as-root: raxd writing files as root (euid==0); ensure raxd runs as non-root" "" 0) in
    if u_DenyRoot cfg then
      upload_refuse fp remote "deny" "upload as root is forbidden by policy (deny_root=true)" (up_Path input)
        "upload as root is forbidden by policy"
    else upload_checked cfg fp remote input
  else upload_checked cfg fp remote input.

(** *** server.go: the table of tools *)

Inductive tool_call :=
| CallPing
| CallServerInfo
| CallExec (i : ExecInput)
| CallUpload (i : UploadInput).

Inductive tool_output :=
| OutPing
| OutServerInfo (i : ServerInfo)
| OutExec (o : ExecOutput)
| OutUpload (o : UploadOutput).

Definition tool_name (c : tool_call) : string :=
  match c with
  | CallPing => "ping"
  | CallServerInfo => "server_info"
  | CallExec _ => "execute_command"
  | CallUpload _ => "upload_file"
  end.

Definition out_map {A B} (f : A → B) (o : outcome A) : outcome B :=
  match o with Some (r, a, e) => Some (r, f a, e) | None => None end.

Definition NewHandler (ver : string) (execCfg : CmdExec.Config) (uplCfg : FileUpload.Config)
    (ctx : context) (c : tool_call) : M tool_world (outcome tool_output) :=
  match c with
  | CallPing => let! r := withAudit "ping" pingHandler ctx tt in ret (out_map (λ _, OutPing) r)
  | CallServerInfo =>
      let! r := withAudit "server_info" (serverInfoHandler ver) ctx tt in
      ret (out_map OutServerInfo r)
  | CallExec i => let! r := execHandler execCfg ctx i in ret (out_map OutExec r)
  | CallUpload i => let! r := uploadHandler uplCfg ctx i in ret (out_map OutUpload r)
  end.
