(* ===== verification/McpTheorems.v ===== *)
(** * McpTheorems: what the tools guarantee.

    Every call leaves exactly one audit record beside the root warning; a
    command runs and a file is written only after all checks; what is written
    is what the client encoded. *)

From S2P Require Import Prelude GoText GoEncoding GoOs GoFs ServerAudit Server Processes CmdExec FileUpload FileUploadTheorems Mcp.
Open Scope Z_scope.
Open Scope go_scope.

(** ** The parts of the world a call changes *)

(** [w'] is [w] with the given parts. *)
Definition tools (aud : list AuditRecord) (outs : list Z) (m : machine) (f : fsys) (w : tool_world) :
    tool_world :=
  {| t_now := t_now w; t_euid := t_euid w; t_ctx_end := t_ctx_end w; t_audit := aud;
     t_timeouts := outs; t_machine := m; t_fs := f |}.

Lemma wp_audit rec Q w :
  Q tt (tools (t_audit w ++ [stamp (t_now w) rec]) (t_timeouts w) (t_machine w) (t_fs w) w) →
  wp (audit rec) Q w.
Proof. done. Qed.

Lemma wp_on_machine {A} (m : M machine A) Q w :
  wp m (λ a x, Q a (tools (t_audit w) (t_timeouts w) x (t_fs w) w)) (t_machine w) →
  wp (on_machine m) Q w.
Proof. unfold wp, on_machine, zoom. by destruct (m (t_machine w)). Qed.

Lemma wp_on_fs {A} (m : M fsys A) Q w :
  wp m (λ a x, Q a (tools (t_audit w) (t_timeouts w) (t_machine w) x w)) (t_fs w) →
  wp (on_fs m) Q w.
Proof. unfold wp, on_fs, zoom. by destruct (m (t_fs w)). Qed.

(** ** One record per call *)

(** The record that closes a call, and whether it agrees with the answer. *)
Definition closing (fp remote tool : string) (err : option string) (rec : AuditRecord) : Prop :=
  (a_Result rec = "success" ∨ a_Result rec = "fail" ∨ a_Result rec = "deny")%string
  ∧ (a_Result rec = "success"%string ↔ err = None)
  ∧ Tool rec = tool ∧ a_Fingerprint rec = fp ∧ RemoteAddr rec = remote.

(** A call that panicked: no file changed and no process was started. *)
Definition crashed (w w' : tool_world) : Prop :=
  t_fs w' = t_fs w ∧ m_events (t_machine w') = m_events (t_machine w).

(** One record is appended, it closes the call, and [P] holds of it and the end;
    a panic appends none. *)
Definition closes {Out} (fp remote tool : string) (w : tool_world)
    (P : AuditRecord → tool_world → Prop) (r : outcome Out) (w' : tool_world) : Prop :=
  match r with
  | None => t_audit w' = t_audit w ∧ crashed w w'
  | Some (_, _, err) => ∃ rec, t_audit w' = t_audit w ++ [stamp (t_now w) rec]
      ∧ closing fp remote tool err rec ∧ P rec w'
  end.

Section exec.
Variables (cfg : CmdExec.Config) (fp remote : string) (input : ExecInput).

(** The time limit of a run. *)
Definition effective_ms : Z :=
  if x_TimeoutMs input =? 0 then DefaultTimeoutMs cfg else x_TimeoutMs input.

(** What the handler checked before it ran a command. *)
Definition exec_admitted : Prop :=
  Z.of_nat (length (x_Args input)) ≤ MaxArgs cfg
  ∧ Forall (λ a, str_len a ≤ MaxArgLen cfg) (x_Args input)
  ∧ effective_ms ≤ MaxTimeoutMs cfg.

Definition run_input : CmdExec.Input :=
  {| Command := x_Command input; Args := x_Args input;
     CmdExec.Cwd := if String.eqb (x_Cwd input) "" then DefaultCwd cfg else x_Cwd input |}.

(** The record of the command, and either nothing was run and no limit was set,
    or the checks passed and one run took place, whose result is the answer. *)
Definition exec_effect (w : tool_world) (rec : AuditRecord) (w' : tool_world) : Prop :=
  a_Command rec = x_Command input ∧ a_Args rec = x_Args input ∧ t_fs w' = t_fs w ∧
  ((t_machine w' = t_machine w ∧ t_timeouts w' = t_timeouts w ∧ a_Result rec = "deny"%string)
   ∨ (exec_admitted ∧ t_timeouts w' = t_timeouts w ++ [wrap64 (effective_ms * millisecond)]
      ∧ ∃ r, run_post (Some (WithTimeout (t_ctx_end w) (wrap64 (effective_ms * millisecond)))) cfg run_input
                 (t_machine w) (Some r) (t_machine w')
          ∧ match r with
            | Ok res => a_Result rec = "success"%string ∧ a_ExitCode rec = Some (ExitCode res)
                ∧ a_Duration rec = Duration res ∧ a_TimedOut rec = TimedOut res
            | Err (ErrNotAllowed _) => a_Result rec = "deny"%string
            | Err _ => a_Result rec = "fail"%string
            end)).

Lemma exec_refuse_spec res reason msg w :
  res = "deny"%string →
  wp (exec_refuse fp remote res reason input msg)
     (closes fp remote "execute_command" w (exec_effect w)) w.
Proof.
  intros ->. apply wp_bind, wp_audit, wp_ret. eexists. split; [reflexivity|].
  split; [split_and!; auto; done|]. do 3 (split; [done|]). by left.
Qed.

Lemma exec_run_spec w :
  exec_admitted →
  wp (exec_run cfg fp remote input effective_ms)
     (λ r w', closes fp remote "execute_command" w (exec_effect w) r w'
              ∧ (r = None → MaxOutputBytes cfg < 0)) w.
Proof.
  intros Ha. unfold exec_run. cbv zeta. fold run_input.
  apply wp_bind, wp_modify, wp_bind, wp_gets. simpl.
  apply wp_bind, wp_on_machine. simpl. eapply wp_mono; [apply Run_spec|].
  intros r m' Hr. destruct r as [[res|e]|]; [| |apply wp_ret; destruct Hr as [[Hev _] Hneg]; by split_and!].
  - apply wp_bind, wp_audit, wp_ret. split; [|done]. eexists. split; [reflexivity|].
    split; [split_and!; auto; done|]. do 3 (split; [done|]). right. do 2 (split; [done|]).
    eexists. by split; [exact Hr|].
  - destruct e as [c|d|o]; apply wp_bind, wp_audit, wp_ret; (split; [|done]); eexists;
      (split; [reflexivity|]); (split; [split_and!; auto; done|]); do 3 (split; [done|]); right;
      do 2 (split; [done|]); eexists; by split; [exact Hr|].
Qed.

Lemma exec_checked_spec w :
  wp (exec_checked cfg fp remote input)
     (λ r w', closes fp remote "execute_command" w (exec_effect w) r w'
              ∧ (r = None → MaxOutputBytes cfg < 0)) w.
Proof.
  assert (∀ reason msg, wp (exec_refuse fp remote "deny" reason input msg)
    (λ r w', closes fp remote "execute_command" w (exec_effect w) r w'
             ∧ (r = None → MaxOutputBytes cfg < 0)) w) as Hrefuse.
  { intros reason msg. pose proof (exec_refuse_spec "deny" reason msg w eq_refl) as H.
    by split. }
  unfold exec_checked. cbv zeta. fold effective_ms.
  destruct (_ >? MaxArgs cfg) eqn:E1; [apply Hrefuse|].
  destruct (find _ _) as [a|] eqn:E2; [apply Hrefuse|].
  destruct (_ >? MaxTimeoutMs cfg) eqn:E3; [apply Hrefuse|].
  apply exec_run_spec. split_and!.
  - bool_to_Z. lia.
  - apply Forall_forall. intros a Hin.
    pose proof (find_none _ _ E2 a (proj1 (list_elem_of_In _ _) Hin)) as Hf. simpl in Hf.
    bool_to_Z. lia.
  - bool_to_Z. lia.
Qed.
End exec.

Section upload.
Variables (cfg : FileUpload.Config) (fp remote : string) (input : UploadInput).

(** The write the handler asks for once the input is accepted. *)
Definition upload_admitted (decoded : bytes) (mode : Z) : Prop :=
  std_decode (up_Content input) = Some decoded
  ∧ decoded_len (str_len (up_Content input)) ≤ MaxFileBytes cfg
  ∧ blen decoded ≤ MaxFileBytes cfg
  ∧ ((up_Mode input = ""%string ∧ mode = DefaultMode cfg) ∨ ParseMode (up_Mode input) = Ok mode).

Definition write_input (decoded : bytes) (mode : Z) : FileUpload.Input :=
  {| RelPath := up_Path input; Data := decoded; Overwrite := up_Overwrite input; Mode := mode |}.

(** The reasons an upload is refused or fails for: constants, none of them
    taken from the content or from an error of the system. *)
Definition upload_reasons : list string :=
  ["file too large: exceeds max_file_bytes"; "invalid base64 content"; "invalid file mode";
   "upload as root is forbidden by policy (deny_root=true)"; "traversal"; "file already exists";
   "target is a directory"; "file too large"; "total upload quota exceeded"; "write failed"; ""]%string.

(** The record names the path, the size and a constant; and either nothing was
    touched, or the input was accepted and the tree is the one [Write] left. *)
Definition upload_effect (w : tool_world) (rec : AuditRecord) (w' : tool_world) : Prop :=
  Reason rec ∈ upload_reasons ∧ a_Command rec = ""%string ∧ a_Args rec = []
  ∧ t_machine w' = t_machine w ∧ t_timeouts w' = t_timeouts w ∧
  ((t_fs w' = t_fs w ∧ a_Result rec = "deny"%string ∧ a_Path rec = up_Path input ∧ a_Size rec = 0)
   ∨ ∃ decoded mode, upload_admitted decoded mode ∧
       let run := FileUpload.Write cfg (write_input decoded mode) (t_fs w) in
       t_fs w' = run.2 ∧
       match run.1 with
       | Ok res => a_Result rec = "success"%string ∧ a_Path rec = res_RelPath res ∧ a_Size rec = res_Size res
       | Err (UOther _) => a_Result rec = "fail"%string ∧ a_Path rec = up_Path input ∧ a_Size rec = 0
       | Err _ => a_Result rec = "deny"%string ∧ a_Path rec = up_Path input ∧ a_Size rec = 0
       end).

Definition upload_post (w : tool_world) (r : outcome UploadOutput) (w' : tool_world) : Prop :=
  closes fp remote "upload_file" w (upload_effect w) r w' ∧ r ≠ None.

Lemma upload_refuse_spec reason msg w :
  reason ∈ upload_reasons →
  wp (upload_refuse fp remote "deny" reason (up_Path input) msg) (upload_post w) w.
Proof.
  intros Hr. apply wp_bind, wp_audit, wp_ret. split; [|done]. eexists. split; [reflexivity|].
  split; [split_and!; auto; done|]. do 5 (split; [done|]). by left.
Qed.

Lemma upload_write_spec decoded mode w :
  upload_admitted decoded mode →
  wp (upload_write cfg fp remote input decoded mode) (upload_post w) w.
Proof.
  intros Ha. unfold upload_write. fold (write_input decoded mode).
  apply wp_bind, wp_on_fs, wp_intro. intros r f' Hrun.
  destruct r as [res|e].
  - apply wp_bind, wp_audit, wp_ret. split; [|done]. eexists. split; [reflexivity|].
    split; [split_and!; auto; done|]. split; [simpl; set_solver|]. do 4 (split; [done|]).
    right. exists decoded, mode. split; [done|]. by rewrite Hrun.
  - destruct e; apply wp_bind, wp_audit, wp_ret; (split; [|done]); eexists; (split; [reflexivity|]);
      (split; [split_and!; auto; done|]); (split; [simpl; set_solver|]); do 4 (split; [done|]);
      right; exists decoded, mode; (split; [done|]); by rewrite Hrun.
Qed.

Lemma upload_checked_spec w :
  wp (upload_checked cfg fp remote input) (upload_post w) w.
Proof.
  unfold upload_checked. cbv zeta.
  destruct (decoded_len _ >? _) eqn:E1; [apply upload_refuse_spec; set_solver|].
  destruct (std_decode _) as [decoded|] eqn:E2; [|apply upload_refuse_spec; set_solver].
  destruct (blen decoded >? _) eqn:E3; [apply upload_refuse_spec; set_solver|].
  destruct (if String.eqb (up_Mode input) "" then _ else _) as [mode|e] eqn:E4;
    [|apply upload_refuse_spec; set_solver].
  apply upload_write_spec. bool_to_Z. split_and!; [done|lia..|].
  destruct (String.eqb_spec (up_Mode input) ""); [left; by simplify_eq|by right].
Qed.
End upload.

(** ** The handlers *)

Definition exec_warning : string :=
  "running-as-root: raxd executing commands as root (euid==0); ensure raxd runs as non-root".
Definition upload_warning : string :=
  "running-as-root: raxd writing files as root (euid==0); ensure raxd runs as non-root".

(** The separate warning of a daemon that runs as root. *)
Definition root_warnings (fp remote : string) (c : tool_call) (euid : Z) : list AuditRecord :=
  if euid =? 0 then
    match c with
    | CallExec i => [exec_record fp remote "warn" exec_warning i]
    | CallUpload _ => [upload_record fp remote "warn" upload_warning "" 0]
    | _ => []
    end
  else [].

(** Like [closes], after the warnings. *)
Definition closes_after {Out} (warns : list AuditRecord) (fp remote tool : string) (w : tool_world)
    (P : AuditRecord → tool_world → Prop) (r : outcome Out) (w' : tool_world) : Prop :=
  match r with
  | None => t_audit w' = t_audit w ++ map (stamp (t_now w)) warns ∧ crashed w w'
  | Some (_, _, err) => ∃ rec, t_audit w' = t_audit w ++ map (stamp (t_now w)) (warns ++ [rec])
      ∧ closing fp remote tool err rec ∧ P rec w'
  end.

Lemma closes_warned {Out} ws fp remote tool w w1 P (r : outcome Out) w' :
  t_audit w1 = t_audit w ++ map (stamp (t_now w)) ws → t_now w1 = t_now w →
  t_fs w1 = t_fs w → t_machine w1 = t_machine w →
  closes fp remote tool w1 P r w' → closes_after ws fp remote tool w P r w'.
Proof.
  intros H1 H2 H3 H4. destruct r as [[[res out] err]|].
  2: { unfold closes, closes_after, crashed. by rewrite H1, H3, H4. }
  intros (rec & Ha & Hc & HP).
  exists rec. split; [|done]. by rewrite Ha, H1, H2, map_app, app_assoc.
Qed.

Lemma execHandler_spec cfg ctx input w :
  let fp := fingerprintFromCtx ctx in
  let remote := remoteAddrFromCtx ctx in
  wp (execHandler cfg ctx input) (λ r w',
    closes_after (root_warnings fp remote (CallExec input) (t_euid w)) fp remote "execute_command" w
      (λ rec w', exec_effect cfg input w rec w' ∧
         ((t_euid w =? 0) && DenyRoot cfg = true → t_machine w' = t_machine w)) r w'
    ∧ (r = None → MaxOutputBytes cfg < 0)) w.
Proof.
  intros fp remote. unfold execHandler. fold fp remote. apply wp_bind, wp_gets.
  unfold root_warnings. destruct (t_euid w =? 0); simpl.
  - apply wp_bind, wp_audit. set (w1 := tools _ _ _ _ w). destruct (DenyRoot cfg).
    + apply wp_bind, wp_audit, wp_ret. split; [|done].
      apply (closes_warned _ _ _ _ w w1); [done..|]. eexists. split; [reflexivity|].
      split; [split_and!; auto; done|]. split; [|done]. do 3 (split; [done|]). by left.
    + eapply wp_mono; [apply exec_checked_spec|]. intros r w' [Hc Hn]. split; [|done].
      apply (closes_warned _ _ _ _ w w1); [done..|].
      destruct r as [[[res out] err]|]; [|done]. destruct Hc as (rec & ? & ? & ?). by exists rec.
  - eapply wp_mono; [apply exec_checked_spec|]. intros r w' [Hc Hn]. split; [|done].
    apply (closes_warned _ _ _ _ w w); [by rewrite app_nil_r|done..|].
    destruct r as [[[res out] err]|]; [|done]. destruct Hc as (rec & ? & ? & ?). by exists rec.
Qed.

Lemma uploadHandler_spec cfg ctx input w :
  let fp := fingerprintFromCtx ctx in
  let remote := remoteAddrFromCtx ctx in
  wp (uploadHandler cfg ctx input) (λ r w',
    closes_after (root_warnings fp remote (CallUpload input) (t_euid w)) fp remote "upload_file" w
      (λ rec w', upload_effect cfg input w rec w' ∧
         ((t_euid w =? 0) && u_DenyRoot cfg = true → t_fs w' = t_fs w)) r w'
    ∧ r ≠ None) w.
Proof.
  intros fp remote. unfold uploadHandler. fold fp remote. apply wp_bind, wp_gets.
  unfold root_warnings. destruct (t_euid w =? 0); simpl.
  - apply wp_bind, wp_audit. set (w1 := tools _ _ _ _ w). destruct (u_DenyRoot cfg).
    + apply wp_bind, wp_audit, wp_ret. split; [|done].
      apply (closes_warned _ _ _ _ w w1); [done..|]. eexists. split; [reflexivity|].
      split; [split_and!; auto; done|]. split; [|done].
      split; [simpl; set_solver|]. do 4 (split; [done|]). by left.
    + eapply wp_mono; [apply (upload_checked_spec cfg fp remote input w1)|].
      intros r w' [Hc Hn]. split; [|done]. apply (closes_warned _ _ _ _ w w1); [done..|].
      destruct r as [[[res out] err]|]; [|done]. destruct Hc as (rec & ? & ? & ?). by exists rec.
  - eapply wp_mono; [apply (upload_checked_spec cfg fp remote input w)|].
    intros r w' [Hc Hn]. split; [|done].
    apply (closes_warned _ _ _ _ w w); [by rewrite app_nil_r|done..|].
    destruct r as [[[res out] err]|]; [|done]. destruct Hc as (rec & ? & ? & ?). by exists rec.
Qed.

Lemma withAudit_spec {In Out} name (h : ToolHandlerFor In Out) ctx i res out w :
  h ctx i w = (Some (Some {| IsError := false; Content_ := res |}, out, None), w) →
  wp (withAudit name h ctx i) (λ r w',
    closes_after [] (fingerprintFromCtx ctx) (remoteAddrFromCtx ctx) name w (λ _ _, True) r w'
    ∧ r ≠ None) w.
Proof.
  intros Hh. unfold withAudit. apply wp_bind. unfold wp at 1. rewrite Hh. simpl.
  apply wp_bind, wp_audit, wp_ret. split; [|done]. eexists. split; [reflexivity|].
  split; [split_and!; auto; done|done].
Qed.

(** ** Guarantees *)

Lemma closes_out_map {A B} (f : A → B) ws fp remote tool w P (r : outcome A) w' :
  closes_after ws fp remote tool w P r w' → closes_after ws fp remote tool w (λ _ _, True) (out_map f r) w'.
Proof.
  destruct r as [[[res out] err]|]; [|done]. intros (rec & ? & ? & ?). by exists rec.
Qed.

(** C20: Every tool call is audited once.  Whatever the tool, its input and what
    happens on the machine, the call appends one record, after the root warning
    of a daemon that runs as root: it names the tool, the fingerprint and the
    address of the caller, and is a success exactly when the client gets no
    error.  The one way out without a record is a panic of a misconfigured
    command runner. *)
Theorem every_call_audited_once ver execCfg uplCfg ctx c w :
  wp (NewHandler ver execCfg uplCfg ctx c) (λ r w',
    match r with
    | None => (∃ i, c = CallExec i) ∧ MaxOutputBytes execCfg < 0
    | Some (_, _, err) => ∃ rec,
        t_audit w' = t_audit w ++ map (stamp (t_now w))
          (root_warnings (fingerprintFromCtx ctx) (remoteAddrFromCtx ctx) c (t_euid w) ++ [rec])
        ∧ closing (fingerprintFromCtx ctx) (remoteAddrFromCtx ctx) (tool_name c) err rec
    end) w.
Proof.
  assert (∀ r w', closes_after (Out:=tool_output)
      (root_warnings (fingerprintFromCtx ctx) (remoteAddrFromCtx ctx) c (t_euid w))
      (fingerprintFromCtx ctx) (remoteAddrFromCtx ctx) (tool_name c) w (λ _ _, True) r w' →
    (r = None → (∃ i, c = CallExec i) ∧ MaxOutputBytes execCfg < 0) →
    match r with
    | None => (∃ i, c = CallExec i) ∧ MaxOutputBytes execCfg < 0
    | Some (_, _, err) => ∃ rec,
        t_audit w' = t_audit w ++ map (stamp (t_now w))
          (root_warnings (fingerprintFromCtx ctx) (remoteAddrFromCtx ctx) c (t_euid w) ++ [rec])
        ∧ closing (fingerprintFromCtx ctx) (remoteAddrFromCtx ctx) (tool_name c) err rec
    end) as Hpost.
  { intros [[[res out] err]|] w'; [intros (rec & ? & ? & _) _; by exists rec|auto]. }
  destruct c as [| |i|i]; apply wp_bind; (eapply wp_mono;
    [first [by eapply withAudit_spec | apply execHandler_spec | apply uploadHandler_spec]|]);
    intros r w' [Hc Hn]; apply wp_ret, Hpost.
  all: try (intros Hr; destruct r as [[[res out] err]|]; [done|]; split; [by eauto|by apply Hn]).
  all: try (intros Hr; exfalso; destruct r as [[[res out] err]|]; simpl in Hr; congruence).
  3-4: eapply closes_out_map; exact Hc.
  all: eapply closes_out_map; unfold root_warnings; destruct (t_euid w =? 0); exact Hc.
Qed.

(** A command runs only after every check.  Either nothing happened on the
    machine and the call was denied, or the number and length of the arguments
    and the time limit were within the configuration, exactly one run took
    place with the limit given, and the record tells its exit code, duration
    and time-out; the gates of [Run] decide the rest.  With [deny_root] a
    daemon that runs as root runs nothing. *)
Theorem execute_command_gates cfg ctx input w :
  wp (execHandler cfg ctx input) (λ r w',
    match r with
    | None => MaxOutputBytes cfg < 0
    | Some _ => ∃ rec, last (t_audit w') = Some (stamp (t_now w) rec)
        ∧ exec_effect cfg input w rec w'
        ∧ ((t_euid w =? 0) && DenyRoot cfg = true → t_machine w' = t_machine w)
    end) w.
Proof.
  eapply wp_mono; [apply execHandler_spec|]. intros [[[res out] err]|] w' [Hc Hn]; [|by apply Hn].
  destruct Hc as (rec & Ha & _ & HP). exists rec. split; [|done].
  rewrite Ha, map_app, app_assoc. apply last_snoc.
Qed.

(** An upload reaches the disk only through [Write], and only after every
    check.  Either the tree is untouched and the call was denied, or the
    content was valid base64 within the size limit, the mode acceptable, and
    the tree is the one [fileupload.Write] leaves for the decoded bytes.  The
    record shows the path, the size and one of a fixed set of reasons: nothing
    of the content and no error text. *)
Theorem upload_file_gates cfg ctx input w :
  wp (uploadHandler cfg ctx input) (λ r w',
    ∃ rec, last (t_audit w') = Some (stamp (t_now w) rec)
      ∧ upload_effect cfg input w rec w'
      ∧ ((t_euid w =? 0) && u_DenyRoot cfg = true → t_fs w' = t_fs w)) w.
Proof.
  eapply wp_mono; [apply uploadHandler_spec|]. intros [[[res out] err]|] w' [Hc Hn]; [|done].
  destruct Hc as (rec & Ha & _ & HP). exists rec. split; [|done].
  rewrite Ha, map_app, app_assoc. apply last_snoc.
Qed.

(** ** Time limits *)

(** The time limits a call gives. *)
Lemma execHandler_timeouts cfg ctx input w :
  wp (execHandler cfg ctx input) (λ r w', r ≠ None →
    t_timeouts w' = t_timeouts w ∨
    (exec_admitted cfg input
     ∧ t_timeouts w' = t_timeouts w ++ [wrap64 (effective_ms cfg input * millisecond)])) w.
Proof.
  eapply wp_mono; [apply execHandler_spec|]. intros [[[res out] err]|] w' [Hc _]; [|done].
  intros _. destruct Hc as (rec & _ & _ & (_ & _ & _ & [(_ & -> & _)|(Ha & -> & _)]) & _); auto.
Qed.

Lemma effective_exact cfg input :
  0 ≤ DefaultTimeoutMs cfg → MaxTimeoutMs cfg * millisecond ≤ max_int64 → 0 ≤ x_TimeoutMs input →
  exec_admitted cfg input →
  wrap64 (effective_ms cfg input * millisecond) = effective_ms cfg input * millisecond.
Proof.
  intros Hd Hm Hi (_ & _ & Ht). assert (0 ≤ effective_ms cfg input) as H0.
  { unfold effective_ms. destruct (x_TimeoutMs input =? 0); lia. }
  unfold millisecond in *. apply wrap64_id. unfold int64_range, min_int64, max_int64 in *. lia.
Qed.

Lemma effective_range cfg input :
  0 ≤ DefaultTimeoutMs cfg → MaxTimeoutMs cfg * millisecond ≤ max_int64 → 0 ≤ x_TimeoutMs input →
  exec_admitted cfg input →
  0 ≤ wrap64 (effective_ms cfg input * millisecond) ≤ MaxTimeoutMs cfg * millisecond.
Proof.
  intros Hd Hm Hi Ha. rewrite effective_exact by done. destruct Ha as (_ & _ & Ht).
  unfold millisecond, effective_ms in *. destruct (x_TimeoutMs input =? 0); lia.
Qed.

(** Time limits stay within the maximum.  For a configuration whose limits
    are not negative and whose maximum fits in a duration, and a request that
    does not ask for a negative limit, every limit set on a command is between
    zero and [max_timeout_ms], in nanoseconds and without overflow. *)
Theorem timeout_within_maximum cfg ctx input w :
  0 ≤ DefaultTimeoutMs cfg → MaxTimeoutMs cfg * millisecond ≤ max_int64 → 0 ≤ x_TimeoutMs input →
  wp (execHandler cfg ctx input) (λ r w', r ≠ None →
    ∃ new, t_timeouts w' = t_timeouts w ++ new
      ∧ Forall (λ t, 0 ≤ t ≤ MaxTimeoutMs cfg * millisecond) new) w.
Proof.
  intros Hd Hm Hi. eapply wp_mono; [apply execHandler_timeouts|]. intros r w' Hr Hne.
  destruct (Hr Hne) as [->|[Ha ->]].
  - exists []. by rewrite app_nil_r.
  - eexists. split; [reflexivity|]. constructor; [|constructor]. by apply effective_range.
Qed.

(** C13: A command ends in the time its request allows.  The limit is the
    [timeout_ms] of the request, or the default when the request has none.  If
    the request and the default are not negative and the maximum fits in a
    duration, then a call that does not panic (a negative output limit) either
    spent no time on the machine, or its limit was at most [max_timeout_ms] and
    it returned at the latest that limit after its command was started, plus what
    a killed command takes beyond that: five seconds for its pipes, the kernel's
    time to end it, and the reaper's 200 ms, one round and one pause. *)
Theorem execute_command_in_time cfg ctx input w :
  0 ≤ DefaultTimeoutMs cfg → MaxTimeoutMs cfg * millisecond ≤ max_int64 → 0 ≤ x_TimeoutMs input →
  let limit := if x_TimeoutMs input =? 0 then DefaultTimeoutMs cfg else x_TimeoutMs input in
  wp (execHandler cfg ctx input) (λ r w', r ≠ None →
    k_now (m_kernel (t_machine w')) = k_now (m_kernel (t_machine w))
    ∨ limit ≤ MaxTimeoutMs cfg ∧ ∃ cmd c, m_spawn (t_machine w) cmd = Ok c
      ∧ k_now (m_kernel (t_machine w')) ≤
          k_now (m_kernel (t_machine w)) + latest_return (limit * millisecond) c) w.
Proof.
  intros Hd Hm Hi limit. eapply wp_mono; [apply execHandler_spec|]. intros r w' [Hc _] Hne.
  destruct r as [[[res out] err]|]; [|done]. destruct Hc as (rec & _ & _ & (_ & _ & _ & Heff) & _).
  destruct Heff as [(-> & _)|(Ha & _ & [res'|e] & Hp & _)]; [by left| |left; apply Hp].
  right. destruct (run_post_deadline _ _ _ _ _ _ Hp) as (cmd & c & Hs & _ & _ & Hn & _).
  split; [apply Ha|]. exists cmd, c. split; [done|].
  change limit with (effective_ms cfg input). pose proof (effective_range cfg input Hd Hm Hi Ha) as Hr.
  rewrite (effective_exact cfg input Hd Hm Hi Ha) in Hn, Hr.
  unfold latest_return, WithTimeout in *. destruct (t_ctx_end w); lia.
Qed.

Lemma exec_run_timeouts cfg fp remote input ms w :
  wp (exec_run cfg fp remote input ms)
     (λ _ w', t_timeouts w' = t_timeouts w ++ [wrap64 (ms * millisecond)]) w.
Proof.
  unfold exec_run. cbv zeta. apply wp_bind, wp_modify, wp_bind, wp_gets, wp_bind, wp_on_machine, wp_intro.
  by intros [[res|[]]|] m' _.
Qed.

(** A negative limit escapes the maximum.  [timeout_ms] is compared with the
    maximum only from above: -9223372036855 passes the check, and the product
    with a millisecond wraps around to more than 292 years, whatever
    [max_timeout_ms] is (if it is not negative itself). *)
Theorem negative_timeout_escapes_maximum cfg ctx cmd w :
  let input := {| x_Command := cmd; x_Args := []; x_TimeoutMs := -9223372036855; x_Cwd := "" |} in
  0 ≤ MaxArgs cfg → 0 ≤ MaxTimeoutMs cfg → t_euid w ≠ 0 →
  t_timeouts (execHandler cfg ctx input w).2 = t_timeouts w ++ [9223372036854551616].
Proof.
  intros input Ha Hm He.
  apply Z.eqb_neq in He. unfold execHandler. unfold bind at 1, gets at 1. rewrite He.
  unfold exec_checked. cbv zeta. destruct (_ >? MaxArgs cfg) eqn:E1.
  { rewrite Z.gtb_ltb in E1. apply Z.ltb_lt in E1. simpl in E1. lia. }
  change (find _ (x_Args input)) with (@None string).
  change (x_TimeoutMs input =? 0) with false. cbv iota.
  destruct (_ >? MaxTimeoutMs cfg) eqn:E2.
  { rewrite Z.gtb_ltb in E2. apply Z.ltb_lt in E2. simpl in E2. lia. }
  apply exec_run_timeouts.
Qed.

(** ** Round trip *)

(** The estimate: the length rounded up to a multiple of three. *)
Lemma decoded_len_encode data : decoded_len (str_len (std_encode data)) = (blen data + 2) / 3 * 3.
Proof. rewrite std_encode_length. unfold decoded_len, blen. by rewrite Z.div_mul by lia. Qed.

(** A file arrives as it was sent.  Base64 text of [data] whose decoded
    length the first filter accepts, with no mode or an acceptable one, is
    handed to [fileupload.Write] as exactly [data]: the tree is the one [Write]
    leaves, and the client gets an error exactly if [Write] fails. *)
Theorem upload_file_roundtrip cfg ctx path data overwrite mode m w :
  let input := {| up_Path := path; up_Content := std_encode data; up_Overwrite := overwrite;
                  up_Mode := mode |} in
  t_euid w ≠ 0 →
  decoded_len (str_len (std_encode data)) ≤ MaxFileBytes cfg →
  (mode = ""%string ∧ m = DefaultMode cfg ∨ mode ≠ ""%string ∧ ParseMode mode = Ok m) →
  wp (uploadHandler cfg ctx input) (λ r w',
    let run := FileUpload.Write cfg (write_input input data m) (t_fs w) in
    t_fs w' = run.2 ∧
    match r, run.1 with
    | Some (_, out, None), Ok res =>
        uo_Path out = res_RelPath res ∧ uo_Size out = res_Size res
        ∧ uo_Overwritten out = res_Overwritten res ∧ uo_Mode out = fmt_04o (res_Mode res)
    | Some (_, out, Some _), Err _ => out = no_upload
    | _, _ => False
    end) w.
Proof.
  intros input He Hl Hm. apply wp_bind, wp_gets. apply Z.eqb_neq in He. rewrite He.
  unfold upload_checked. cbv zeta. change (up_Content input) with (std_encode data).
  change (up_Mode input) with mode.
  destruct (decoded_len _ >? _) eqn:E1; [rewrite Z.gtb_ltb in E1; bool_to_Z; lia|].
  rewrite std_decode_encode.
  assert (blen data ≤ decoded_len (str_len (std_encode data))) as Hb.
  { rewrite decoded_len_encode. pose proof (Z.div_mod (blen data + 2) 3).
    pose proof (Z.mod_pos_bound (blen data + 2) 3). lia. }
  destruct (blen data >? _) eqn:E2; [rewrite Z.gtb_ltb in E2; bool_to_Z; lia|].
  assert ((if String.eqb mode "" then Ok (DefaultMode cfg) else ParseMode mode) = Ok m) as ->.
  { destruct (String.eqb_spec mode ""); destruct Hm as [[??]|[??]]; by simplify_eq. }
  unfold upload_write. fold (write_input input data m).
  apply wp_bind, wp_on_fs, wp_intro. intros [res|e] f' Hrun; rewrite Hrun.
  - by apply wp_bind, wp_audit, wp_ret.
  - by destruct e; apply wp_bind, wp_audit, wp_ret.
Qed.

(** The first filter is too strict at the limit.  A file of exactly
    [max_file_bytes] bytes is refused as too large unless its length is a
    multiple of three, because the decoded length is estimated with padding. *)
Theorem exact_size_refused cfg ctx path data w :
  let input := {| up_Path := path; up_Content := std_encode data; up_Overwrite := false;
                  up_Mode := "" |} in
  t_euid w ≠ 0 → blen data = MaxFileBytes cfg → blen data mod 3 ≠ 0 →
  uploadHandler cfg ctx input w =
    (Some (None, no_upload, Some "file too large: exceeds max_file_bytes"%string),
     tools (t_audit w ++ [stamp (t_now w) (upload_record (fingerprintFromCtx ctx)
              (remoteAddrFromCtx ctx) "deny" "file too large: exceeds max_file_bytes" path 0)])
           (t_timeouts w) (t_machine w) (t_fs w) w).
Proof.
  intros input He Hl Hm. apply Z.eqb_neq in He. unfold uploadHandler.
  unfold bind at 1, gets at 1. rewrite He. unfold upload_checked. cbv zeta.
  assert ((decoded_len (str_len (up_Content input)) >? MaxFileBytes cfg) = true) as ->; [|done].
  change (up_Content input) with (std_encode data). rewrite decoded_len_encode. apply Z.gtb_lt.
  rewrite <-Hl. pose proof (Z.div_mod (blen data) 3). pose proof (Z.mod_pos_bound (blen data) 3).
  assert ((blen data + 2) / 3 = blen data / 3 + 1) as ->; [|lia].
  symmetry. apply (Z.div_unique _ _ _ (blen data mod 3 - 1)); lia.
Qed.

(** ** Instances *)

Definition demo_tools : tool_world :=
  {| t_now := 1700000000; t_euid := 1000; t_ctx_end := None; t_audit := []; t_timeouts := [];
     t_machine := demo_machine; t_fs := up_state |}.

Definition demo_exec (ms : Z) : ExecInput :=
  {| x_Command := "echo"; x_Args := []; x_TimeoutMs := ms; x_Cwd := "" |}.

Lemma timeout_within_maximum_witness :
  t_timeouts (execHandler demo_cfg background (demo_exec 1500) demo_tools).2 = [1500000000]
  ∧ ∃ new, t_timeouts (execHandler demo_cfg background (demo_exec 1500) demo_tools).2 = [] ++ new
      ∧ Forall (λ t, 0 ≤ t ≤ 300000 * millisecond) new.
Proof.
  split; [vm_compute; reflexivity|].
  apply (timeout_within_maximum demo_cfg background (demo_exec 1500) demo_tools).
  - vm_compute. discriminate.
  - vm_compute. discriminate.
  - vm_compute. discriminate.
  - vm_compute. discriminate.
Defined.

(** The endless command, with a limit of a second where five minutes are
    allowed. *)
Definition endless_tools : tool_world :=
  {| t_now := 1700000000; t_euid := 1000; t_ctx_end := None; t_audit := []; t_timeouts := [];
     t_machine := demo_machine_of endless_child; t_fs := up_state |}.

Lemma execute_command_in_time_witness :
  k_now (m_kernel (t_machine (execHandler demo_cfg background (demo_exec 1000) endless_tools).2))
  ≤ 1000 * 10 ^ 6 + 5201 * 10 ^ 6 + 30.
Proof.
  pose proof (execute_command_in_time demo_cfg background (demo_exec 1000) endless_tools) as H.
  destruct H as [H|(_ & cmd & c & Hs & H)].
  - vm_compute. discriminate.
  - vm_compute. discriminate.
  - vm_compute. discriminate.
  - vm_compute. discriminate.
  - rewrite H. vm_compute. discriminate.
  - change (m_spawn (t_machine endless_tools) cmd) with (@Ok string child endless_child) in Hs.
    injection Hs as <-. etrans; [exact H|]. vm_compute. discriminate.
Defined.

Lemma negative_timeout_escapes_maximum_witness :
  t_timeouts (execHandler demo_cfg background
    {| x_Command := "echo"; x_Args := []; x_TimeoutMs := -9223372036855; x_Cwd := "" |} demo_tools).2
  = [9223372036854551616] ∧ MaxTimeoutMs demo_cfg = 300000.
Proof.
  split; [|vm_compute; reflexivity].
  apply (negative_timeout_escapes_maximum demo_cfg background "echo" demo_tools).
  - vm_compute. discriminate.
  - vm_compute. discriminate.
  - vm_compute. discriminate.
Defined.

Definition demo_upload (data : bytes) : UploadInput :=
  {| up_Path := "new.txt"; up_Content := std_encode data; up_Overwrite := false; up_Mode := "" |}.

Lemma upload_file_roundtrip_witness :
  let w' := (uploadHandler (up_cfg 0) background (demo_upload (bytes_of_string "hi"))
               demo_tools).2 in
  fs_tree (t_fs w') !! (up_root ++ ["new.txt"%string]) = Some (EFile 384 (bytes_of_string "hi")).
Proof.
  intros w'.
  destruct (upload_file_roundtrip (up_cfg 0) background "new.txt" (bytes_of_string "hi")
    false "" 384 demo_tools) as [Hf _].
  - vm_compute. discriminate.
  - vm_compute. discriminate.
  - left. split; reflexivity.
  - unfold w', demo_upload. rewrite Hf. vm_compute. reflexivity.
Defined.

(** A limit of two bytes, and a file of two bytes. *)
Definition tiny_cfg : FileUpload.Config :=
  {| UploadRoot := up_root; MaxFileBytes := 2; MaxTotalBytes := 0; DefaultMode := 384;
     u_DenyRoot := false |}.

Lemma exact_size_refused_witness :
  t_fs (uploadHandler tiny_cfg background
    {| up_Path := "new.txt"; up_Content := std_encode (bytes_of_string "hi"); up_Overwrite := false;
       up_Mode := "" |} demo_tools).2 = up_state.
Proof.
  rewrite (exact_size_refused tiny_cfg background "new.txt" (bytes_of_string "hi") demo_tools).
  - reflexivity.
  - vm_compute. discriminate.
  - vm_compute. reflexivity.
  - vm_compute. discriminate.
Defined.
