(* ===== verification/ServerRun.v ===== *)
(** * ServerRun: [internal/server/server.go], the life of a server.

    [New] puts the certificate, the limiters and the middleware chain together;
    [Run] listens, serves and shuts down.  These are the runs in which requests
    are served one after the other and each is answered before serving ends.
    DaemonRun has the others: requests at the same time, and requests that are
    still under way when [Serve] fails, when [Shutdown] gives up after its 30
    seconds, and when [Run] returns. *)

From S2P Require Import Prelude GoText GoEncoding GoCrypto GoPath GoOs Config Keystore ServerAudit ServerTLS Server.
Open Scope Z_scope.
Open Scope go_scope.

(** What the server needs of the configuration. *)
Record CertInfo := { CertPath : string; KeyPath : string; Generated : bool }.

Inductive runerr :=
| ErrPortInUse (addr : string)
| ErrServe (msg : string).

(** The observable steps of [Run], in order. *)
Inductive sevent :=
| StartGC (interval : Z)
| Listen (addr : string)
| OnListen (addr : string)
| Serve
| Shutdown (timeout : Z)
| AfterShutdownHook
| Flush
| LogWarn (msg err : string).

(** What happens around one run: the outcome of [net.Listen] (the bound address,
    or an error text), whether hooks are set, how serving ends, and the outcome
    of [Shutdown]. *)
Inductive serve_end :=
| ServeFailed (closed : bool) (msg : string)
| CtxDone.

Record surroundings := {
  listen_result : result string string;
  on_listen_set : bool;
  hook_set : bool;
  serve_ends : serve_end;
  shutdown_error : option string;
}.

(** What the server meets while it serves: requests, a tick of the collector,
    and time that passes. *)
Inductive traffic :=
| Req (r : request)
| Tick
| Pass (dt : Z).

(** [isAddrInUse] *)
Definition isAddrInUse (err : option string) : bool :=
  match err with
  | None => false
  | Some msg =>
      contains_sub msg "address already in use" || contains_sub msg "bind: address already in use"
  end.

Section server.
Context `{AS : AppState} `{RL : RateLimiter} `{JC : JsonCodec} `{GT : GoTables} `{TC : TlsCrypto}.

(** [tls.Config] of [buildTLSConfig]: TLS 1.3 is version 0x0304. *)
Record TLSConfig := { MinVersion : Z; Certificates : list Certificate }.

Definition VersionTLS13 : Z := 772.

Definition buildTLSConfig (cert : Certificate) : TLSConfig :=
  {| MinVersion := VersionTLS13; Certificates := [cert] |}.

Record ServerT := {
  Addr : string;
  Handler : handler;
  ReadTimeout : Z;
  ReadHeaderTimeout : Z;
  WriteTimeout : Z;
  IdleTimeout : Z;
  MaxHeaderBytes : Z;
  sv_tls : TLSConfig;
  certInfo : CertInfo;
}.

(** [New]: [Err] wraps [ErrTLSCert]. *)
Definition New (cfg : Config.Config (float64:=float64)) (paths : Config.PathSet) (mcpHandler : option handler) :
    M world (result tlserr ServerT) :=
  let! cr := on_proc (on_os (loadOrCreateCert (Config.TLSDir paths))) in
  match cr with
  | Err e => ret (Err e)
  | Ok cr =>
      do! set_limiters (NewLimiters (Config.RateLimit cfg) (Config.RateBurst cfg) Config.LimiterTTL) in
      ret (Ok {| Addr := Config.BindAddr cfg +:+ ":" +:+ fmt_d (Config.Port cfg);
                 Handler := chain (Config.HostAllow cfg) (Config.OriginAllow cfg)
                              (Config.MaxBodyBytes cfg) (mux mcpHandler);
                 ReadTimeout := Config.ReadTimeout cfg;
                 ReadHeaderTimeout := Config.ReadHeaderTimeout cfg;
                 WriteTimeout := Config.WriteTimeout cfg;
                 IdleTimeout := Config.IdleTimeout cfg;
                 MaxHeaderBytes := Config.MaxHeaderBytes cfg;
                 sv_tls := buildTLSConfig (cert cr);
                 certInfo := {| CertPath := Config.TLSDir paths +:+ "/cert.pem";
                                KeyPath := Config.TLSDir paths +:+ "/key.pem";
                                Generated := generated cr |} |})
  end.

(** ** [Run], with no request in flight at its end *)

Record srv := { sv_world : world; sv_events : list sevent }.

Definition event (e : sevent) : M srv unit :=
  modify (λ s, {| sv_world := sv_world s; sv_events := sv_events s ++ [e] |}).

Definition on_world {A} (m : M world A) : M srv A :=
  zoom sv_world (λ w s, {| sv_world := w; sv_events := sv_events s |}) m.

(** Every request has its own response. *)
Definition new_response : M world unit := on_writer (λ _, fresh_writer).

Definition pass_time (dt : Z) : M world unit :=
  on_proc (on_os (modify (λ s,
    {| os_files := os_files s; os_trace := os_trace s; os_now := os_now s + dt;
       os_rand := os_rand s; os_rpos := os_rpos s; os_tmp := os_tmp s;
       os_faults := os_faults s; os_locks := os_locks s |}))).

Definition serve_one (h : handler) (t : traffic) : M world unit :=
  match t with
  | Req r => do! new_response in do! h r in ret tt
  | Tick =>
      let! t := on_proc (on_os now) in
      let! l := gets w_limiters in set_limiters (gc t l)
  | Pass dt => pass_time dt
  end.

(** Every request to its end: none is in flight when serving ends. *)
Fixpoint serve_all (h : handler) (ts : list traffic) : M world unit :=
  match ts with
  | [] => ret tt
  | t :: ts' => do! serve_one h t in serve_all h ts'
  end.

Definition gc_interval : Z := 5 * 60 * 10 ^ 9.
Definition shutdown_timeout : Z := 30 * 10 ^ 9.

(** The tail after the context is cancelled. *)
Definition shut_down (env : surroundings) : M srv (result runerr unit) :=
  do! event (Shutdown shutdown_timeout) in
  do! (match shutdown_error env with
       | Some e => event (LogWarn "shutdown error" e)
       | None => ret tt
       end) in
  do! (if hook_set env then event AfterShutdownHook else ret tt) in
  do! event Flush in
  let! r := on_world (on_proc FlushUsage) in
  do! (match r with
       | Err e => event (LogWarn "flush usage error" (kerr_msg e))
       | Ok _ => ret tt
       end) in
  ret (Ok tt).

Definition Run (s : ServerT) (env : surroundings) (ts : list traffic) : M srv (result runerr unit) :=
  do! event (StartGC gc_interval) in
  do! event (Listen (Addr s)) in
  match listen_result env with
  | Err msg =>
      if isAddrInUse (Some msg) then ret (Err (ErrPortInUse (Addr s))) else ret (Err (ErrServe msg))
  | Ok addr =>
      do! (if on_listen_set env then event (OnListen addr) else ret tt) in
      do! event Serve in
      do! on_world (serve_all (Handler s) ts) in
      match serve_ends env with
      | ServeFailed closed msg => if closed then ret (Ok tt) else ret (Err (ErrServe msg))
      | CtxDone => shut_down env
      end
  end.
End server.
