(* ===== verification/ServerRunTheorems.v ===== *)
(** * ServerRunTheorems: what a server run guarantees.

    The shutdown flushes the usage buffer after the last request, so that the
    last use of every key that was accepted is on the disk; and which bind
    addresses [New] turns into an address that can be listened on. *)

From S2P Require Import Prelude GoText GoEncoding GoCrypto GoPath GoOs Config Keystore KeystoreProofs KeystoreLive KeystoreHistory KeystoreCodec KeystoreTheorems ServerAudit ServerTLS ServerTLSTheorems Server ServerTheorems ServerRun.
Open Scope Z_scope.
Open Scope go_scope.

(** ** One verification on a machine where no call fails *)

Section verify.
Context `{JC : JsonCodec}.

(** The store after [Verify]: the accepted key's last use is buffered. *)
Definition verified (k : string) (db : Database) (p : proc) : proc :=
  match find_last (candidate k) (Keys db) with
  | None => p
  | Some d => {| p_store := {| path := path (p_store p);
                               usageBuf := <[d_ID d := os_now (p_os p)]> (usageBuf (p_store p)) |};
                 p_os := p_os p |}
  end.

Lemma fallible_quiet {A} (body : M os (result oserr A)) s : quiet s → fallible body s = body s.
Proof. intros Hq. unfold fallible, bind, next_fault. by rewrite Hq. Qed.

Lemma readDB_run p s db : quiet s → db_at p (os_files s) = Some db → is_Some (os_files s !! p) →
  readDB p s = (Ok db, s).
Proof.
  intros Hq Hdb [f Hf]. unfold readDB, bind, read_file. rewrite fallible_quiet by done.
  unfold db_at, db_of_data in Hdb. rewrite Hf in Hdb |- *. destruct (f_data f); [by simplify_eq|].
  by rewrite Hdb.
Qed.

Lemma acquire_shared_run p s : quiet s →
  acquireLock p lockShared s =
    match os_files s !! p with
    | Some _ => (Ok (Some p), set_locks (p :: os_locks s) s)
    | None => (Ok None, s)
    end.
Proof.
  intros Hq. unfold acquireLock, bind, open_read. rewrite fallible_quiet by done.
  destruct (os_files s !! p); [|done]. unfold flock_file, bind, flock. by rewrite fallible_quiet.
Qed.

Lemma release_run p l s : quiet s → os_locks s = p :: l →
  releaseLock (Some p) s = (tt, set_locks l s).
Proof.
  intros Hq Hl. unfold releaseLock, bind, funlock, modify, close. rewrite Hl, drop_first_cons.
  by rewrite fallible_quiet.
Qed.

Lemma set_locks_twice l s : set_locks (os_locks s) (set_locks l s) = s.
Proof. by destruct s. Qed.

Lemma Verify_run k p db :
  quiet (p_os p) → store_db p = Some db →
  Verify k p =
    (Ok (option_map (λ d, with_LastUsed (os_now (p_os p)) (fromDBRecord d))
           (find_last (candidate k) (Keys db))), verified k db p).
Proof.
  destruct p as [[pth buf] s]. unfold store_db, verified. simpl. intros Hq Hdb.
  unfold Verify, bind, gets, on_os, zoom. cbn [path p_store p_os].
  rewrite acquire_shared_run by done.
  destruct (os_files s !! pth) as [f|] eqn:Ef.
  - simpl. unfold deferring, bind. rewrite (readDB_run _ _ db) by (simpl; eauto).
    destruct (find_last (candidate k) (Keys db)); cbn -[releaseLock set_locks];
      unfold on_os, zoom; cbn [p_os]; rewrite (release_run _ (os_locks s)) by done; by rewrite set_locks_twice.
  - unfold db_at in Hdb. rewrite Ef in Hdb. by simplify_eq.
Qed.
End verify.

(** ** Serving *)

Section serving.
Context `{AS : AppState} `{RL : RateLimiter} `{JC : JsonCodec} `{JL : !JsonLaws} `{GT : GoTables} `{TC : TlsCrypto}.

(** The application leaves the key store alone. *)
Definition app_keeps (app : handler) : Prop := ∀ r w, w_proc (app r w).2 = w_proc w.

(** The clock is past year 1, and what was buffered was read off it. *)
Definition buffered_past (p : proc) : Prop :=
  0 ≤ os_now (p_os p) ∧
  ∀ id t, usageBuf (p_store p) !! id = Some t → 0 ≤ t ≤ os_now (p_os p).

(** What serving keeps, and that the last use of [id] is buffered with a time
    no earlier than [t0], or not yet asked for. *)
Record serving (db : Database) (s0 : proc) (w : world) : Prop := {
  sv_quiet : quiet (p_os (w_proc w));
  sv_db : store_db (w_proc w) = Some db;
  sv_files : os_files (p_os (w_proc w)) = os_files (p_os s0);
  sv_tmp : os_tmp (p_os (w_proc w)) = os_tmp (p_os s0);
  sv_path : path (p_store (w_proc w)) = path (p_store s0);
  sv_past : buffered_past (w_proc w);
}.

Definition buffered (id : string) (t0 : Time) (w : world) : Prop :=
  t0 ≤ os_now (p_os (w_proc w)) ∧ ∃ t, usageBuf (p_store (w_proc w)) !! id = Some t ∧ t0 ≤ t.

Lemma verified_past k db p : buffered_past p → buffered_past (verified k db p).
Proof.
  intros [Hn Hb]. unfold verified. destruct (find_last _ _) as [d|]; [|done].
  split; [done|]. simpl. intros id t [[_ <-]|[_ Ht]]%lookup_insert_Some; [lia|by apply (Hb id)].
Qed.

Lemma serving_verified db s0 k w w1 :
  serving db s0 w → w_proc w1 = verified k db (w_proc w) → serving db s0 w1.
Proof.
  intros [H1 H2 H3 H4 H5 H6] Hp. apply (verified_past k db) in H6. unfold verified in *.
  destruct (find_last _ _); (split; rewrite Hp; assumption).
Qed.

Lemma buffered_verified id t0 db k w w1 :
  buffered id t0 w → w_proc w1 = verified k db (w_proc w) → buffered id t0 w1.
Proof.
  intros [Ht (t & Hb & Hle)] Hp. unfold buffered. rewrite Hp. unfold verified.
  destruct (find_last _ _) as [d|]; [|eauto]. simpl. split; [done|].
  destruct (decide (d_ID d = id)) as [<-|].
  - rewrite lookup_insert_eq. eauto.
  - rewrite lookup_insert_ne by done. eauto.
Qed.

Lemma recover_proc app r w : app_keeps app → w_proc (recoverMiddleware app r w).2 = w_proc w.
Proof.
  intros Ha. unfold recoverMiddleware, bind. specialize (Ha r w).
  destruct (app r w) as [p w1]. simpl in Ha. by destruct p.
Qed.

(** A request verifies at most its own token. *)
Lemma chain_proc hostAllow originAllow limit app r w db s0 :
  app_keeps app → serving db s0 w →
  let w1 := (chain hostAllow originAllow limit app r w).2 in
  w_proc w1 = w_proc w ∨ ∃ k, w_proc w1 = verified k db (w_proc w).
Proof.
  intros Ha Hs w1. unfold w1.
  destruct (chain_verdict hostAllow originAllow limit r w)
    as [code rec w2 _ _ _ _ _ Hp Hrun|token key p1 l1 fp _ _ _ Hv _ _ Hrun]; rewrite Hrun.
  - simpl. destruct Hp as [Hp|(k & _ & Hp)]; rewrite Hp; [by left|right]. exists k.
    by rewrite (Verify_run k _ db (sv_quiet _ _ _ Hs) (sv_db _ _ _ Hs)).
  - rewrite recover_proc by done. simpl. right. exists token.
    rewrite (Verify_run token _ db (sv_quiet _ _ _ Hs) (sv_db _ _ _ Hs)) in Hv. by simplify_eq.
Qed.

(** A request with an accepted host, origin and key buffers the key's use. *)
Lemma chain_buffers hostAllow originAllow limit app r w db s0 k d :
  app_keeps app → serving db s0 w →
  contains hostAllow (host_of r) = true → origin_ok originAllow r = true →
  bearerToken r = Some k → find_last (candidate k) (Keys db) = Some d →
  w_proc (chain hostAllow originAllow limit app r w).2 = verified k db (w_proc w).
Proof.
  intros Ha Hs Hh Ho Hk Hd. rewrite gates_run by done. unfold recoverMiddleware, authMiddleware, bind.
  change (bearerToken (limited limit r)) with (bearerToken r). rewrite Hk.
  unfold on_proc, zoom. rewrite (Verify_run k _ db (sv_quiet _ _ _ Hs) (sv_db _ _ _ Hs)), Hd.
  simpl. rewrite rateLimit_run. simpl. destruct (Allow _ _ _ _) as [[] l].
  - unfold authSuccessAuditMiddleware, bind. simpl.
    match goal with |- context [app ?r1 ?w1] => pose proof (Ha r1 w1) as Hap; destruct (app r1 w1) as [p w2] end.
    simpl in Hap. by destruct p.
  - done.
Qed.

Definition timed (t : traffic) : Prop := match t with Pass dt => 0 ≤ dt | _ => True end.

Lemma serve_one_keeps hostAllow originAllow limit app t w db s0 :
  app_keeps app → timed t → serving db s0 w →
  let w1 := (serve_one (chain hostAllow originAllow limit app) t w).2 in
  serving db s0 w1 ∧ ∀ id t0, buffered id t0 w → buffered id t0 w1.
Proof.
  intros Ha Ht Hs. destruct t as [r| |dt]; cbv zeta.
  - set (w0 := {| w_proc := w_proc w; w_limiters := w_limiters w; w_audit := w_audit w;
                  w_writer := fresh_writer; w_app := w_app w |}).
    assert ((serve_one (chain hostAllow originAllow limit app) (Req r) w).2
            = (chain hostAllow originAllow limit app r w0).2) as ->.
    { unfold serve_one, new_response, on_writer, modify, bind. fold w0.
      by destruct (chain hostAllow originAllow limit app r w0). }
    assert (serving db s0 w0) as Hs0 by by destruct Hs.
    destruct (chain_proc hostAllow originAllow limit app r w0 db s0 Ha Hs0) as [Hp|[k Hp]].
    + destruct Hs as [H1 H2 H3 H4 H5 H6].
      split; [split; rewrite Hp; assumption|]. intros id t0 Hb. unfold buffered. by rewrite Hp.
    + split; [by eapply serving_verified|]. intros id t0 Hb. by eapply (buffered_verified id t0 db k w0).
  - split; [by destruct Hs|done].
  - simpl in Ht. split.
    { destruct Hs as [H1 H2 H3 H4 H5 [H6 H7]]. split; [done..|]. split; [simpl; lia|].
      intros id t Hb. simpl. specialize (H7 id t Hb). lia. }
    intros id t0 [H1 H2]. split; [simpl; lia|done].
Qed.

Lemma serve_all_keeps hostAllow originAllow limit app ts w db s0 :
  app_keeps app → Forall timed ts → serving db s0 w →
  let w1 := (serve_all (chain hostAllow originAllow limit app) ts w).2 in
  serving db s0 w1 ∧ ∀ id t0, buffered id t0 w → buffered id t0 w1.
Proof.
  intros Ha. revert w. induction ts as [|t ts IH]; intros w Ht Hs; [by split|].
  apply Forall_cons in Ht as [Ht Hts].
  destruct (serve_one_keeps hostAllow originAllow limit app t w db s0 Ha Ht Hs) as [H1 H2].
  cbn [serve_all]. unfold bind. destruct (serve_one _ t w) as [[] w1].
  destruct (IH w1 Hts H1) as [H3 H4]. split; [exact H3|]. auto.
Qed.

Lemma serve_all_app h ts1 ts2 w :
  serve_all h (ts1 ++ ts2) w = serve_all h ts2 (serve_all h ts1 w).2.
Proof.
  revert w. induction ts1 as [|t ts1 IH]; intros w; [done|]. cbn [app serve_all]. unfold bind.
  destruct (serve_one h t w) as [[] w1]. apply IH.
Qed.

(** ** The shutdown *)

(** The observable steps of a run that ends by cancellation and whose flush
    succeeds. *)
Definition shutdown_events (s : ServerT) (env : surroundings) (addr : string) : list sevent :=
  [StartGC gc_interval; Listen (Addr s)] ++ (if on_listen_set env then [OnListen addr] else [])
  ++ [Serve; Shutdown shutdown_timeout]
  ++ (match shutdown_error env with Some e => [LogWarn "shutdown error" e] | None => [] end)
  ++ (if hook_set env then [AfterShutdownHook] else []) ++ [Flush].

Lemma flush_run w evs p :
  FlushUsage (w_proc w) = (Ok tt, p) →
  on_world (on_proc FlushUsage) {| sv_world := w; sv_events := evs |}
  = (Ok tt, {| sv_world := with_proc p w; sv_events := evs |}).
Proof. intros Hf. unfold on_world, on_proc, zoom. simpl. by rewrite Hf. Qed.

Lemma shut_down_run env w evs p :
  FlushUsage (w_proc w) = (Ok tt, p) →
  shut_down env {| sv_world := w; sv_events := evs |} =
    (Ok tt, {| sv_world := with_proc p w;
               sv_events := evs ++ [Shutdown shutdown_timeout]
                 ++ (match shutdown_error env with
                     | Some e => [LogWarn "shutdown error" e] | None => [] end)
                 ++ (if hook_set env then [AfterShutdownHook] else []) ++ [Flush] |}).
Proof.
  intros Hf. unfold shut_down. destruct (shutdown_error env), (hook_set env);
    unfold bind, event, modify, ret; cbn [sv_world sv_events]; rewrite (flush_run _ _ p Hf);
    by rewrite <-!app_assoc.
Qed.

Lemma Run_cancelled s env ts st addr p :
  listen_result env = Ok addr → serve_ends env = CtxDone →
  let w1 := (serve_all (Handler s) ts (sv_world st)).2 in
  FlushUsage (w_proc w1) = (Ok tt, p) →
  Run s env ts st =
    (Ok tt, {| sv_world := with_proc p w1; sv_events := sv_events st ++ shutdown_events s env addr |}).
Proof.
  intros Hl He w1 Hf. unfold Run, shutdown_events. rewrite Hl, He. destruct st as [w0 evs].
  subst w1. simpl in Hf. destruct (serve_all (Handler s) ts w0) as [[] w2] eqn:Es. simpl in Hf.
  destruct (on_listen_set env); unfold bind, event, modify, ret, on_world at 1, zoom at 1;
    cbn [sv_world sv_events]; rewrite Es; rewrite (shut_down_run env w2 _ p Hf);
    simpl; by rewrite <-!app_assoc.
Qed.

Lemma serve_one_buffers hostAllow originAllow limit app r w db p0 k d :
  app_keeps app → serving db p0 w →
  contains hostAllow (host_of r) = true → origin_ok originAllow r = true →
  bearerToken r = Some k → find_last (candidate k) (Keys db) = Some d →
  let w1 := (serve_one (chain hostAllow originAllow limit app) (Req r) w).2 in
  serving db p0 w1 ∧ buffered (d_ID d) (os_now (p_os (w_proc w))) w1.
Proof.
  intros Ha Hs Hh Ho Hk Hd w1.
  destruct (serve_one_keeps hostAllow originAllow limit app (Req r) w db p0 Ha I Hs) as [Hs1 _].
  split; [exact Hs1|].
  set (w0 := {| w_proc := w_proc w; w_limiters := w_limiters w; w_audit := w_audit w;
                w_writer := fresh_writer; w_app := w_app w |}).
  assert (w1 = (chain hostAllow originAllow limit app r w0).2) as ->.
  { unfold w1, serve_one, new_response, on_writer, modify, bind. fold w0.
    by destruct (chain hostAllow originAllow limit app r w0). }
  unfold buffered. rewrite (chain_buffers hostAllow originAllow limit app r w0 db p0 k d) by
    (done || by destruct Hs). unfold verified. rewrite Hd. simpl. split; [lia|].
  rewrite lookup_insert_eq. eauto using Z.le_refl.
Qed.

(** The flush of what was buffered. *)
Lemma flush_writes w db p0 id t0 :
  serving db p0 w → buffered id t0 w →
  temp_free (path (p_store p0)) (p_os p0) → db_text_ok db = true →
  db_times_ok db = true → os_now (p_os (w_proc w)) < year_10000 →
  ∃ p ks, FlushUsage (w_proc w) = (Ok tt, p)
    ∧ store_db p = Some {| Version := Version db; Keys := ks |}
    ∧ ∀ i d, Keys db !! i = Some d → d_ID d = id → d_Revoked d = false →
        ∃ t, ks !! i = Some (d_with_LastUsed t d) ∧ t0 ≤ t.
Proof.
  intros [H1 H2 H3 H4 H5 [_ Hp]] [_ (t & Hb & Hle)] Hfree Htext Hj Hend.
  assert (temp_free (path (p_store (w_proc w))) (p_os (w_proc w))) as Hfree1.
  { unfold temp_free, temp_path in *. by rewrite H5, H4, H3. }
  destruct (FlushUsage (w_proc w)) as [r p] eqn:Ef.
  assert (∀ id t, usageBuf (p_store (w_proc w)) !! id = Some t → time_ok t = true) as Hok.
  { intros id' t' Ht'. apply Hp in Ht'. apply andb_true_iff. rewrite Z.leb_le, Z.ltb_lt. lia. }
  destruct (wp_run _ _ _ _ _ Ef (FlushUsage_quiet _ db H1 Hfree1 H2 Hj Hok)) as [-> _].
  destruct (wp_run _ _ _ _ _ Ef (FlushUsage_spec _ db H2 Htext)) as (_ & _ & _ & Hs).
  exists p. eexists. split; [done|]. split; [exact Hs|].
  intros i d Hi Hid Hrv. exists t. split; [|done]. simpl.
  unfold apply_usage. rewrite list_lookup_fmap, Hi. simpl. by rewrite Hid, Hb, Hrv.
Qed.

(** C37: A graceful shutdown loses no last use.  Whatever requests and pauses
    come before and after it, when a request with an accepted host, origin and
    key was served, and the run ends by cancellation on a machine where no call
    fails and the clock is before the year 10000, then [Run] returns [nil], its last step, after the shutdown of the
    HTTP server, is the flush, and the record of that key has on disk a last use
    that is not older than the request. *)
Theorem usage_survives_shutdown hostAllow originAllow limit app s env addr before r after st db k d :
  Handler s = chain hostAllow originAllow limit app → app_keeps app →
  listen_result env = Ok addr → serve_ends env = CtxDone → Forall timed (before ++ Req r :: after) →
  let p0 := w_proc (sv_world st) in
  quiet (p_os p0) → temp_free (path (p_store p0)) (p_os p0) →
  store_db p0 = Some db → db_text_ok db = true →
  db_times_ok db = true → buffered_past p0 →
  os_now (p_os (w_proc (serve_all (Handler s) (before ++ Req r :: after) (sv_world st)).2)) < year_10000 →
  contains hostAllow (host_of r) = true → origin_ok originAllow r = true →
  bearerToken r = Some k → find_last (candidate k) (Keys db) = Some d →
  ∃ st' db' i t,
    Run s env (before ++ Req r :: after) st = (Ok tt, st')
    ∧ sv_events st' = sv_events st ++ shutdown_events s env addr
    ∧ store_db (w_proc (sv_world st')) = Some db'
    ∧ Keys db !! i = Some d ∧ Keys db' !! i = Some (d_with_LastUsed t d)
    ∧ os_now (p_os (w_proc (serve_all (Handler s) before (sv_world st)).2)) ≤ t.
Proof.
  intros Hh Ha Hl He Ht p0 Hq Hfree Hdb Htext Hj Hpast Hend Hhost Horig Htok Hd.
  apply Forall_app in Ht as [Ht1 [_ Ht2]%Forall_cons].
  assert (serving db p0 (sv_world st)) as Hs0 by done.
  set (wb := (serve_all (Handler s) before (sv_world st)).2).
  destruct (serve_all_keeps hostAllow originAllow limit app before _ db p0 Ha Ht1 Hs0) as [Hsb _].
  rewrite <-Hh in Hsb. fold wb in Hsb.
  set (wr := (serve_one (Handler s) (Req r) wb).2).
  destruct (serve_one_buffers hostAllow originAllow limit app r wb db p0 k d) as [Hsr Hbr];
    [done..|]. rewrite <-Hh in Hsr, Hbr. fold wr in Hsr, Hbr.
  destruct (serve_all_keeps hostAllow originAllow limit app after wr db p0 Ha Ht2 Hsr) as [Hs1 Hb1].
  rewrite <-Hh in Hs1, Hb1. specialize (Hb1 _ _ Hbr).
  set (w1 := (serve_all (Handler s) after wr).2) in *.
  assert ((serve_all (Handler s) (before ++ Req r :: after) (sv_world st)).2 = w1) as Hrun.
  { rewrite serve_all_app. fold wb. cbn [serve_all]. unfold bind. unfold w1, wr.
    by destruct (serve_one (Handler s) (Req r) wb) as [[] w2]. }
  rewrite Hrun in Hend.
  destruct (flush_writes w1 db p0 (d_ID d) (os_now (p_os (w_proc wb))) Hs1) as (p & ks & Hf & Hs & Hks);
    [done..|].
  apply find_last_Some in Hd as [Hin [Hrv _]%candidate_spec].
  apply list_elem_of_lookup in Hin as [i Hi]. destruct (Hks i d Hi eq_refl Hrv) as (t & Hk & Hle).
  eexists _, _, i, t. split; [eapply Run_cancelled; [done|done|by rewrite Hrun]|].
  split; [done|]. by rewrite Hrun.
Qed.
End serving.

(** ** The address *)

Lemma cut_last_app c a v : ∃ u y, cut_last c (a +:+ String c v) = Some (a +:+ u, y).
Proof.
  induction a as [|x a (u & y & IH)].
  - simpl. destruct (cut_last c v) as [[u y]|]; [by exists (String c u), y|].
    exists EmptyString, v. by rewrite decide_True.
  - exists u, y. rewrite str_app_cons. simpl. by rewrite IH.
Qed.

Lemma has_char_app c a u : has_char c a = true → has_char c (a +:+ u) = true.
Proof.
  unfold has_char. induction a as [|x a IH]; [done|]. rewrite str_app_cons. simpl.
  destruct (bool_decide (x = c)); simpl; [done|]. apply IH.
Qed.

Section address.
Context `{AS : AppState} `{RL : RateLimiter} `{JC : JsonCodec} `{GT : GoTables} `{TC : TlsCrypto}.

(** An IPv6 bind address does not give an address one can listen on.
    [New] writes the bind address and the port with a colon between them and no
    brackets: a bind address with a colon of its own, like the valid IP [::1],
    gives an address that [net.SplitHostPort] refuses. *)
Theorem ipv6_bind_address_refused (cfg : Config.Config (float64:=float64)) paths mcp w s w' :
  New cfg paths mcp w = (Ok s, w') →
  has_char ":" (BindAddr cfg) = true → has_prefix (BindAddr cfg) "[" = false →
  split_host_port (Addr s) = None.
Proof.
  intros Hnew Hc Hb.
  assert (Addr s = BindAddr cfg +:+ String ":" (fmt_d (Port cfg))) as ->.
  { revert Hnew. unfold New, bind. destruct (on_proc _ w) as [[c|e] w1]; [|done].
    intros [= <- _]. reflexivity. }
  unfold split_host_port.
  destruct (cut_last_app ":" (BindAddr cfg) (fmt_d (Port cfg))) as (u & y & ->). simpl.
  rewrite (has_char_app _ _ u Hc).
  destruct (BindAddr cfg) as [|x a]; [done|]. rewrite str_app_cons.
  destruct (ascii_dec x "[") as [->|Hx].
  - unfold has_prefix in Hb. simpl in Hb. by destruct a.
  - repeat case_match; try done; congruence.
Qed.
End address.

(** ** Instances *)

#[local] Existing Instance no_app.

Definition demo_server : ServerT (RL:=int_limiter) :=
  {| Addr := "127.0.0.1:7822";
     Handler := chain (RL:=int_limiter) ["localhost"%string] [] 1048576 (mux None);
     ServerRun.ReadTimeout := 30; ServerRun.ReadHeaderTimeout := 10; ServerRun.WriteTimeout := 30;
     ServerRun.IdleTimeout := 120; ServerRun.MaxHeaderBytes := 1048576;
     sv_tls := buildTLSConfig ([], []);
     certInfo := {| CertPath := "/tls/cert.pem"; KeyPath := "/tls/key.pem"; Generated := false |} |}.

Definition demo_surroundings : surroundings :=
  {| listen_result := Ok "127.0.0.1:7822"%string; on_listen_set := true; hook_set := false;
     serve_ends := CtxDone; shutdown_error := None |}.

(** A request with a wrong key, one with the demo key, a pause. *)
Definition demo_traffic : list traffic :=
  [Pass 5; Req (demo_request "Bearer rax_live_wrong")] ++ Req (demo_request ("Bearer " +:+ demo_key))
    :: [Pass 7; Tick].

Lemma mux_keeps : app_keeps (RL:=int_limiter) (mux None).
Proof. intros r w. unfold mux. by repeat case_match. Qed.

Lemma usage_survives_shutdown_witness :
  ∃ st' db' i t,
    Run demo_server demo_surroundings demo_traffic
      {| sv_world := demo_world; sv_events := [] |} = (Ok tt, st')
    ∧ store_db (w_proc (sv_world st')) = Some db'
    ∧ Keys db' !! i = Some (d_with_LastUsed t (demo_record "bb" false)) ∧ 1005 ≤ t.
Proof.
  destruct (usage_survives_shutdown (RL:=int_limiter) ["localhost"%string] [] 1048576 (mux None)
    demo_server demo_surroundings "127.0.0.1:7822"
    [Pass 5; Req (demo_request "Bearer rax_live_wrong")] (demo_request ("Bearer " +:+ demo_key))
    [Pass 7; Tick] {| sv_world := demo_world; sv_events := [] |} demo_db demo_key
    (demo_record "bb" false)) as (st' & db' & i & t & H1 & _ & H3 & _ & H5 & H6).
  - reflexivity.
  - exact mux_keeps.
  - reflexivity.
  - reflexivity.
  - repeat constructor; vm_compute; discriminate.
  - reflexivity.
  - exact demo_temp_free.
  - exact (demo_store []).
  - reflexivity.
  - reflexivity.
  - split; [vm_compute; discriminate|]. intros id t Hb. vm_compute in Hb. discriminate.
  - vm_compute. reflexivity.
  - vm_compute; reflexivity.
  - vm_compute; reflexivity.
  - vm_compute; reflexivity.
  - vm_compute; reflexivity.
  - exists st', db', i, t. split; [exact H1|]. split; [exact H3|]. split; [exact H5|].
    vm_compute in H6. exact H6.
Defined.

Definition cfg_v6 : Config.Config (float64:=Z) :=
  {| Port := 7822; BindAddr := "::1"; RateLimit := 10; RateBurst := 20; OriginAllow := [];
     HostAllow := []; Config.ReadTimeout := 30; Config.ReadHeaderTimeout := 10;
     Config.WriteTimeout := 30; Config.IdleTimeout := 120; Config.MaxHeaderBytes := 1048576;
     MaxBodyBytes := 1048576;
     Exec := {| e_Allowlist := []; e_DefaultTimeoutMs := 30000; e_MaxTimeoutMs := 300000;
                e_DefaultCwd := "/tmp"; e_EnvWhitelist := []; e_MaxArgs := 256;
                e_MaxArgLen := 131072; e_MaxOutputBytes := 1048576; e_DenyRoot := false |};
     Upload := {| u_Root := ""; u_MaxFileBytes := 716800; u_MaxTotalBytes := 0;
                  u_DefaultMode := "0600"; u_OverwriteDefault := false; up_DenyRoot := false |} |}.

Definition demo_paths : PathSet :=
  {| ConfigDir := "/etc/raxd"; ConfigFile := "/etc/raxd/config.yaml"; StateDir := "/var/lib/raxd";
     KeysDB := "/var/lib/raxd/keys.db"; TLSDir := "/var/lib/raxd/tls" |}.

Lemma ipv6_bind_address_refused_witness :
  ParseIP "::1" = true ∧
  ∃ s w', New (RL:=int_limiter) cfg_v6 demo_paths None demo_world = (Ok s, w')
    ∧ Addr s = "::1:7822"%string ∧ split_host_port (Addr s) = None.
Proof.
  split; [vm_compute; reflexivity|].
  destruct (New (RL:=int_limiter) cfg_v6 demo_paths None demo_world) as [[s|e] w'] eqn:E.
  - exists s, w'. split; [reflexivity|]. split.
    + apply (f_equal (λ x, match x.1 with Ok s => Addr s | Err _ => ""%string end)) in E.
      vm_compute in E. symmetry. exact E.
    + apply (ipv6_bind_address_refused (RL:=int_limiter) cfg_v6 demo_paths None demo_world s w' E).
      * vm_compute; reflexivity.
      * vm_compute; reflexivity.
  - exfalso. apply (f_equal (λ x, is_ok x.1)) in E. vm_compute in E. discriminate.
Defined.
