(* ===== verification/Daemon.v ===== *)
(** * Daemon: the tools behind the middleware chain.

    The composition [raxd serve] makes: the handler of [mcp.NewHandler] is mounted
    at [/mcp] of the server, its audit function is the server's, and a tool gets
    the context the middlewares filled.  The HTTP and JSON-RPC side of the MCP
    library is an interface: which tool calls a request makes, and what is
    answered.  A panic of a tool is taken to come out of that library's
    handler. *)

From S2P Require Import Prelude GoText GoEncoding GoCrypto GoPath GoOs GoFs Keystore ServerAudit Server CmdExec FileUpload Mcp.
Open Scope Z_scope.
Open Scope go_scope.

(** What the tools have beside the clock and the audit log of the server. *)
Record tool_state := {
  d_euid : Z;
  d_ctx_end : option Z;
  d_timeouts : list Z;
  d_machine : machine;
  d_fs : fsys;
}.

Definition daemon_app : AppState := {| app_state := tool_state |}.
#[local] Existing Instance daemon_app.

(** The MCP library, stateless and without streams: a request makes some tool
    calls, one after the other, and their results make the answer.  [None] is
    given to the answer when the request makes no call the tools see. *)
Class McpSdk := {
  sdk_calls : request → list tool_call;
  sdk_answer : request → list (outcome tool_output) → writer → writer;
}.

Section daemon.
Context `{RL : RateLimiter} `{JC : JsonCodec} `{GT : GoTables} `{SDK : McpSdk}.

Definition to_tools (w : world) : tool_world :=
  {| t_now := os_now (p_os (w_proc w)); t_euid := d_euid (w_app w); t_ctx_end := d_ctx_end (w_app w);
     t_audit := w_audit w; t_timeouts := d_timeouts (w_app w); t_machine := d_machine (w_app w);
     t_fs := d_fs (w_app w) |}.

Definition of_tools (t : tool_world) (w : world) : world :=
  {| w_proc := w_proc w; w_limiters := w_limiters w; w_audit := t_audit t; w_writer := w_writer w;
     w_app := {| d_euid := d_euid (w_app w); d_ctx_end := d_ctx_end (w_app w);
                 d_timeouts := t_timeouts t; d_machine := t_machine t; d_fs := t_fs t |} |}.

Definition on_tools {A} (m : M tool_world A) : M world A := zoom to_tools of_tools m.

Section handler.
Variables (ver : string) (execCfg : CmdExec.Config) (uplCfg : FileUpload.Config).

(** The calls of one request; [None]: a tool panicked. *)
Fixpoint run_calls (ctx : context) (cs : list tool_call) :
    M tool_world (option (list (outcome tool_output))) :=
  match cs with
  | [] => ret (Some [])
  | c :: cs' =>
      let! o := NewHandler ver execCfg uplCfg ctx c in
      match o with
      | None => ret None
      | Some _ =>
          let! os := run_calls ctx cs' in
          ret (option_map (cons o) os)
      end
  end.

(** The handler of [NewStreamableHTTPHandler]. *)
Definition mcpHandler : handler := λ r,
  let! os := on_tools (run_calls (Context r) (sdk_calls r)) in
  match os with
  | None => ret true
  | Some os => do! on_writer (sdk_answer r os) in ret false
  end.

(** What [server.New] serves for [serve]. *)
Definition daemon_handler (hostAllow originAllow : list string) (maxBody : Z) : handler :=
  chain hostAllow originAllow maxBody (mux (Some mcpHandler)).
End handler.
End daemon.
