(* ===== verification/DaemonTheorems.v ===== *)
(** * DaemonTheorems: what holds of the daemon as a whole.

    A tool does something only for the holder of an active key; a revocation
    ends that at once and for good; and every command that was started is in
    the audit log. *)

From S2P Require Import Prelude GoText GoEncoding GoCrypto GoPath GoOs GoFs Keystore KeystoreProofs KeystoreHistory KeystoreCodec KeystoreTheorems KeystoreSpec ServerAudit Server ServerTheorems CmdExec FileUpload FileUploadTheorems Mcp McpTheorems ServerRun ServerRunTheorems Daemon.
Open Scope Z_scope.
Open Scope go_scope.
#[local] Existing Instance daemon_app.

(** ** The calls of one request *)

(** The records a run of calls appends are the caller's. *)
Definition mine (fp remote : string) (rec : AuditRecord) : Prop :=
  a_Fingerprint rec = fp ∧ RemoteAddr rec = remote ∧ Tool rec ≠ ""%string.

(** Commands that were started, and commands the log says have run. *)
Definition is_start (e : CmdExec.event) : Prop := match e with EvStart _ => True | _ => False end.
#[export] Instance is_start_dec e : Decision (is_start e).
Proof. destruct e; apply _. Defined.
Definition started (m : machine) : nat := length (filter is_start (m_events m)).

Definition is_run (rec : AuditRecord) : Prop :=
  Tool rec = "execute_command"%string ∧ a_Result rec = "success"%string.
Definition logged_runs (l : list AuditRecord) : nat := length (filter is_run l).

Lemma logged_runs_app l k : logged_runs (l ++ k) = (logged_runs l + logged_runs k)%nat.
Proof. unfold logged_runs. by rewrite filter_app, length_app. Qed.

Lemma is_run_stamp t rec : is_run (stamp t rec) ↔ is_run rec.
Proof. done. Qed.

Lemma logged_runs_stamp t l : logged_runs (map (stamp t) l) = logged_runs l.
Proof.
  unfold logged_runs. induction l as [|rec l IH]; [done|]. simpl. rewrite !filter_cons.
  destruct (decide (is_run rec)) as [H|H]; [|by rewrite decide_False].
  rewrite decide_True by done. simpl. by f_equal.
Qed.

Lemma logged_runs_one t rec : logged_runs [stamp t rec] = (if decide (is_run rec) then 1 else 0)%nat.
Proof. unfold logged_runs. rewrite filter_cons. by destruct (decide (is_run rec)); [rewrite decide_True|rewrite decide_False]. Qed.

Lemma started_app m m' evs :
  m_events m' = m_events m ++ evs → started m' = (started m + length (filter is_start evs))%nat.
Proof. unfold started. intros ->. by rewrite filter_app, length_app. Qed.

(** What a call cannot change. *)
Definition surroundings_of (w : tool_world) : Z * Z * option Z := (t_now w, t_euid w, t_ctx_end w).
Definition steady {A} (m : M tool_world A) : Prop := ∀ x, preserves (λ w, surroundings_of w = x) m.

Lemma steady_audit rec : steady (audit rec).
Proof. by intros x w. Qed.
Lemma steady_timeout d : steady (log_timeout d).
Proof. by intros x w. Qed.
Lemma steady_machine {A} (m : M machine A) : steady (on_machine m).
Proof. intros x w. unfold on_machine, zoom. by destruct (m (t_machine w)). Qed.
Lemma steady_fs {A} (m : M fsys A) : steady (on_fs m).
Proof. intros x w. unfold on_fs, zoom. by destruct (m (t_fs w)). Qed.
Lemma steady_ret {A} (a : A) : steady (ret a).
Proof. by intros x w. Qed.
Lemma steady_gets {A} (f : tool_world → A) : steady (gets f).
Proof. by intros x w. Qed.
Lemma steady_bind {A B} (m : M tool_world A) (k : A → M tool_world B) :
  steady m → (∀ a, steady (k a)) → steady (bind m k).
Proof. intros Hm Hk x. apply preserves_bind; [apply Hm|]. intros a. apply Hk. Qed.
#[local] Hint Resolve steady_audit steady_timeout steady_machine steady_fs steady_ret steady_gets : go.

Ltac steady_walk :=
  repeat first
    [ apply steady_bind; [|intros ?]
    | solve [auto with go]
    | match goal with |- steady (match ?x with _ => _ end) => destruct x end ].

Lemma NewHandler_steady ver execCfg uplCfg ctx c : steady (NewHandler ver execCfg uplCfg ctx c).
Proof.
  destruct c; unfold NewHandler, withAudit, pingHandler, serverInfoHandler, execHandler, uploadHandler,
    exec_checked, exec_refuse, exec_run, upload_checked, upload_refuse, upload_write; steady_walk.
Qed.

Section calls.
Variables (ver : string) (execCfg : CmdExec.Config) (uplCfg : FileUpload.Config).

(** One call keeps the balance between the machine and the log, and logs in the
    caller's name. *)
Record balanced (fp remote : string) (w w' : tool_world) : Prop := {
  bal_still : surroundings_of w' = surroundings_of w;
  bal_log : ∃ recs, t_audit w' = t_audit w ++ map (stamp (t_now w)) recs ∧ Forall (mine fp remote) recs;
  bal_runs : (started (t_machine w') + logged_runs (t_audit w) =
              started (t_machine w) + logged_runs (t_audit w'))%nat;
}.

Lemma balanced_refl fp remote w : balanced fp remote w w.
Proof. split; try done. exists []. by rewrite app_nil_r. Qed.

Lemma balanced_trans fp remote w1 w2 w3 :
  balanced fp remote w1 w2 → balanced fp remote w2 w3 → balanced fp remote w1 w3.
Proof.
  intros [A1 (r1 & A4 & A5) A6] [B1 (r2 & B4 & B5) B6]. split; [congruence| |lia].
  exists (r1 ++ r2). injection A1 as A1 _ _. rewrite B4, A4, A1, map_app, app_assoc.
  split; [done|]. by apply Forall_app.
Qed.

Lemma root_warnings_mine fp remote c euid : Forall (mine fp remote) (root_warnings fp remote c euid).
Proof. unfold root_warnings. destruct (euid =? 0), c; repeat constructor; done. Qed.

Lemma root_warnings_runs fp remote c euid : logged_runs (root_warnings fp remote c euid) = 0%nat.
Proof. unfold root_warnings. by destruct (euid =? 0), c. Qed.

(** A call that ends with the record [rec]. *)
Lemma balanced_closing fp remote c err w w' rec :
  surroundings_of w' = surroundings_of w →
  t_audit w' = t_audit w ++ map (stamp (t_now w)) (root_warnings fp remote c (t_euid w) ++ [rec]) →
  closing fp remote (tool_name c) err rec →
  started (t_machine w') = (started (t_machine w) + if decide (is_run rec) then 1 else 0)%nat →
  balanced fp remote w w'.
Proof.
  intros Hs Ha (_ & _ & Ht & Hf & Hr) Hm. split; [done| |].
  - eexists. split; [exact Ha|]. apply Forall_app. split; [apply root_warnings_mine|].
    constructor; [|constructor]. split_and!; [done..|]. rewrite Ht. by destruct c.
  - rewrite Ha, Hm, logged_runs_app, map_app, logged_runs_app, logged_runs_stamp, root_warnings_runs.
    simpl. rewrite logged_runs_one. lia.
Qed.

(** A call that panicked. *)
Lemma balanced_crash fp remote c w w' :
  surroundings_of w' = surroundings_of w →
  t_audit w' = t_audit w ++ map (stamp (t_now w)) (root_warnings fp remote c (t_euid w)) →
  crashed w w' → balanced fp remote w w'.
Proof.
  intros Hs Ha [_ Hm]. split; [done|eexists; split; [exact Ha|apply root_warnings_mine]|].
  rewrite Ha, logged_runs_app, logged_runs_stamp, root_warnings_runs.
  rewrite (started_app _ _ [] (eq_trans Hm (eq_sym (app_nil_r _)))). simpl. lia.
Qed.

Lemma exec_effect_starts input w rec w' :
  exec_effect execCfg input w rec w' → Tool rec = "execute_command"%string →
  started (t_machine w') = (started (t_machine w) + if decide (is_run rec) then 1 else 0)%nat.
Proof.
  intros (_ & _ & _ & H) Ht. destruct H as [(-> & _ & Hd)|(_ & _ & r & Hp & Hr)].
  - rewrite decide_False; [lia|]. intros [_ Hs]. congruence.
  - destruct r as [res|e].
    + destruct Hr as [Hs _]. rewrite decide_True by done.
      destruct Hp as (_ & cmd & ch & m1 & _ & Hm1 & _ & _ & Hran).
      rewrite (started_app _ _ _ (ran_events _ _ _ _ _ _ _ Hran)), Hm1.
      rewrite filter_cons_True by exact I. rewrite filter_app. unfold kills.
      by destruct (cancelled _ ch).
    + destruct Hp as [[Hev _] _]. rewrite (started_app _ _ [] (eq_trans Hev (eq_sym (app_nil_r _)))).
      rewrite decide_False; [done|]. intros [_ Hs]. destruct e; congruence.
Qed.

Lemma NewHandler_balanced ctx c w :
  wp (NewHandler ver execCfg uplCfg ctx c) (λ _ w',
    balanced (fingerprintFromCtx ctx) (remoteAddrFromCtx ctx) w w') w.
Proof.
  set (fp := fingerprintFromCtx ctx). set (remote := remoteAddrFromCtx ctx).
  pose proof (NewHandler_steady ver execCfg uplCfg ctx c (surroundings_of w) w eq_refl) as Hst.
  apply wp_intro. intros r w' Hrun. rewrite Hrun in Hst. simpl in Hst.
  assert (∀ c' res, root_warnings fp remote c' (t_euid w) = [] →
    w' = tools (t_audit w ++ [stamp (t_now w) (audit_record fp remote "success" "" (tool_name c'))])
           (t_timeouts w) (t_machine w) (t_fs w) w →
    r = Some res → tool_name c' ≠ "execute_command"%string →
    balanced fp remote w w') as Hplain.
  { intros c' res Hw -> -> Hn.
    eapply (balanced_closing fp remote c' None); [done|by rewrite Hw| |].
    - split_and!; auto; done.
    - rewrite decide_False; [simpl; lia|]. by intros [? _]. }
  destruct c as [| |i|i].
  - injection Hrun as <- <-. eapply (Hplain CallPing); [|done..].
    unfold root_warnings. by destruct (_ =? 0).
  - injection Hrun as <- <-. eapply (Hplain CallServerInfo); [|done..].
    unfold root_warnings. by destruct (_ =? 0).
  - unfold NewHandler, bind in Hrun. destruct (execHandler execCfg ctx i w) as [o w1] eqn:E.
    injection Hrun as <- <-. pose proof (execHandler_spec execCfg ctx i w) as H.
    cbv zeta in H. unfold wp in H. rewrite E in H. destruct H as [Hc Hn]. cbn [fst snd] in Hc, Hn.
    destruct o as [[[res out] err]|]; [|by destruct Hc; apply (balanced_crash fp remote (CallExec i))].
    destruct Hc as (rec & Ha & Hcl & He & _). eapply (balanced_closing fp remote (CallExec i)); eauto.
    eapply exec_effect_starts; [exact He|apply Hcl].
  - unfold NewHandler, bind in Hrun. destruct (uploadHandler uplCfg ctx i w) as [o w1] eqn:E.
    injection Hrun as <- <-. pose proof (uploadHandler_spec uplCfg ctx i w) as H.
    cbv zeta in H. unfold wp in H. rewrite E in H. destruct H as [Hc Hn]. cbn [fst snd] in Hc, Hn.
    destruct o as [[[res out] err]|]; [|done].
    destruct Hc as (rec & Ha & Hcl & He & _). eapply (balanced_closing fp remote (CallUpload i)); eauto.
    destruct He as (_ & _ & _ & -> & _). rewrite decide_False; [lia|]. intros [Ht _].
    destruct Hcl as (_ & _ & Htool & _). simpl in Htool. congruence.
Qed.

Lemma run_calls_balanced ctx cs w :
  wp (run_calls ver execCfg uplCfg ctx cs) (λ _ w',
    balanced (fingerprintFromCtx ctx) (remoteAddrFromCtx ctx) w w') w.
Proof.
  revert w. induction cs as [|c cs IH]; intros w; simpl; [apply wp_ret, balanced_refl|].
  apply wp_bind. eapply wp_mono; [by apply NewHandler_balanced|]. intros [o|] w1 H1; [|done].
  apply wp_bind. eapply wp_mono; [apply IH|]. intros os w2 H2. apply wp_ret. by eapply balanced_trans.
Qed.
End calls.

(** ** One request *)

Section requests.
Context `{RL : RateLimiter} `{JC : JsonCodec} `{JL : !JsonLaws} `{GT : GoTables} `{SDK : McpSdk}.
Variables (ver : string) (execCfg : CmdExec.Config) (uplCfg : FileUpload.Config).

Abbreviation mcp := (mcpHandler ver execCfg uplCfg).
Abbreviation daemon := (daemon_handler ver execCfg uplCfg).

Lemma wp_on_tools {A} (m : M tool_world A) Q (w : world) :
  wp m (λ a t, Q a (of_tools t w)) (to_tools w) → wp (on_tools m) Q w.
Proof. unfold wp, on_tools, zoom. by destruct (m (to_tools w)). Qed.

(** What a handler behind the middlewares leaves: the key store and the limiters
    as they were, and a balanced run of tools. *)
Definition tools_ran (fp remote : string) (w w' : world) : Prop :=
  w_proc w' = w_proc w ∧ w_limiters w' = w_limiters w
  ∧ balanced fp remote (to_tools w) (to_tools w').

Lemma mcpHandler_spec r w :
  wp (mcp r) (λ _ w', tools_ran (fingerprintFromCtx (Context r)) (remoteAddrFromCtx (Context r)) w w') w.
Proof.
  apply wp_bind, wp_on_tools. eapply wp_mono; [by apply run_calls_balanced|].
  intros os t [H1 H2 H3]. injection H1 as H1 H4 H5.
  assert (tools_ran (fingerprintFromCtx (Context r)) (remoteAddrFromCtx (Context r)) w (of_tools t w)) as Hr
    by (split; [done|]; split; [done|]; by split).
  destruct os as [os|]; [apply wp_bind, wp_modify|]; by apply wp_ret.
Qed.

(** Behind the router: the tools run at [/mcp] only. *)
Lemma mux_spec r w :
  wp (mux (Some mcp) r) (λ _ w',
    tools_ran (fingerprintFromCtx (Context r)) (remoteAddrFromCtx (Context r)) w w'
    ∧ (w_app w' ≠ w_app w → URLPath r = "/mcp"%string)) w.
Proof.
  assert (∀ f, wp (do! on_writer f in ret false) (λ _ w',
    tools_ran (fingerprintFromCtx (Context r)) (remoteAddrFromCtx (Context r)) w w'
    ∧ (w_app w' ≠ w_app w → URLPath r = "/mcp"%string)) w) as Hplain.
  { intros f. apply wp_bind, wp_modify, wp_ret. split; [|done].
    split; [done|]. split; [done|]. apply (balanced_refl _ _ (to_tools w)). }
  unfold mux. destruct (String.eqb_spec (if String.eqb (Method r) "CONNECT" then URLPath r
    else mux_clean (URLPath r)) (URLPath r)) as [Heq|_]; [|apply Hplain]. simpl.
  destruct (_ && _); [apply Hplain|]. destruct (String.eqb_spec (if String.eqb (Method r) "CONNECT" then URLPath r
    else mux_clean (URLPath r)) "/mcp") as [Hm|_]; [|apply Hplain].
  eapply wp_mono; [by apply mcpHandler_spec|]. intros p w' Hr. split; [done|]. intros _. congruence.
Qed.

(** The fingerprint and the address the records of an accepted request carry. *)
Definition shown_fp (token : string) (key : KeyRecord) : string :=
  let fp := if String.eqb (Fingerprint_ key) "" then Fingerprint token else Fingerprint_ key in
  if String.eqb fp "" then "-" else fp.
Definition shown_addr (r : request) : string :=
  if String.eqb (r_RemoteAddr r) "" then "-" else r_RemoteAddr r.

(** What the audit log and the machine show of one request. *)
Definition accounted (w w' : world) : Prop :=
  (started (d_machine (w_app w')) + logged_runs (w_audit w) =
   started (d_machine (w_app w)) + logged_runs (w_audit w'))%nat.

(** A request as the daemon sees it: turned away before any tool, or attended
    for the holder of a verified key, in whose name every record is. *)
Inductive attended (hostAllow originAllow : list string) (r : request) (w w' : world) : Prop :=
| Refused rec t :
    w_app w' = w_app w → w_audit w' = w_audit w ++ [stamp t rec] → a_Result rec ≠ "success"%string →
    proc_read r w w' → attended hostAllow originAllow r w w'
| Attended token key p1 fp recs auth t :
    contains hostAllow (host_of r) = true → origin_ok originAllow r = true →
    bearerToken r = Some token → Verify token (w_proc w) = (Ok (Some key), p1) → w_proc w' = p1 →
    fp = shown_fp token key →
    w_audit w' = w_audit w ++ stamp t auth :: map (stamp t) recs →
    auth = record fp (r_RemoteAddr r) "success" "" →
    Forall (mine fp (shown_addr r)) recs →
    (w_app w' ≠ w_app w → URLPath r = "/mcp"%string) →
    attended hostAllow originAllow r w w'.

Lemma accounted_of_balanced fp remote (w w' : world) :
  balanced fp remote (to_tools w) (to_tools w') → accounted w w'.
Proof. intros [_ _ H]. exact H. Qed.

Lemma accounted_trans (w1 w2 w3 : world) : accounted w1 w2 → accounted w2 w3 → accounted w1 w3.
Proof. unfold accounted. lia. Qed.

Lemma not_run_accounted t rec (w w' : world) :
  w_app w' = w_app w → w_audit w' = w_audit w ++ [stamp t rec] → ¬ is_run rec → accounted w w'.
Proof.
  intros H1 H2 Hr. unfold accounted.
  by rewrite H1, H2, logged_runs_app, logged_runs_one, decide_False, Nat.add_0_r.
Qed.

(** A panic becomes an answer. *)
Lemma wp_recover (h : handler) r (P : world → Prop) w :
  wp (h r) (λ _, P) w → (∀ f w', P w' → P (on_writer f w').2) →
  wp (recoverMiddleware h r) (λ p w', p = false ∧ P w') w.
Proof.
  intros H Hset. apply wp_bind. eapply wp_mono; [exact H|]. intros [|] w' HP; [|by apply wp_ret].
  apply wp_bind, wp_modify, wp_ret. split; [done|].
  exact (Hset (λ w, write_body newline (write_header 500 w)) w' HP).
Qed.

Lemma attended_writer hostAllow originAllow r w f w' :
  attended hostAllow originAllow r w w' → attended hostAllow originAllow r w (on_writer f w').2.
Proof. intros [rec t|token key p1 fp recs auth t]; [by eapply Refused|by eapply Attended]. Qed.

Lemma daemon_request hostAllow originAllow maxBody r w :
  wp (daemon hostAllow originAllow maxBody r) (λ p w', p = false
    ∧ attended hostAllow originAllow r w w' ∧ accounted w w') w.
Proof.
  destruct (chain_verdict hostAllow originAllow maxBody r w)
    as [code rec w1 _ Hrec Ha _ Happ Hp Hrun|token key p1 l1 fp Hh Ho Ht Hv Hfp _ Hrun];
    unfold daemon_handler, wp; rewrite Hrun.
  - set (w2 := answered _ _). split; [done|].
    assert (w_audit w2 = w_audit w ++ [stamp (os_now (p_os (w_proc w1))) rec]) as Hlog
      by (simpl; by rewrite Ha).
    split; [by eapply Refused|]. eapply not_run_accounted; [done..|]. by intros [_ ?].
  - set (r1 := admitted_request _ _ _ _). set (w1 := audited _ _).
    apply (wp_recover (mux (Some mcp)) r1
      (λ w', attended hostAllow originAllow r w w' ∧ accounted w w') w1).
    2: { intros f w' [H1 H2]. split; [by apply attended_writer|exact H2]. }
    eapply wp_mono; [by apply mux_spec|].
    intros p w' ((Hp & _ & Hb) & Hpath). split.
    + pose proof Hb as [_ (recs & Hlog & Hmine) _].
      assert (fingerprintFromCtx (Context r1) = shown_fp token key) as Hs
        by (unfold shown_fp; by rewrite <-Hfp).
      apply (Attended _ _ _ _ _ token key p1 (shown_fp token key) recs
        (record (shown_fp token key) (r_RemoteAddr r) "success" "") (os_now (p_os p1)));
        [done..|exact Hp|done| |done| |exact Hpath].
      * trans (t_audit (to_tools w')); [done|]. rewrite Hlog, <-Hs. simpl. by rewrite <-app_assoc.
      * rewrite <-Hs. exact Hmine.
    + apply (accounted_trans _ w1); [|by eapply accounted_of_balanced].
      eapply not_run_accounted; [done|reflexivity|]. by intros [? _].
Qed.

(** Nobody uses the tools without having been given access.  Take any trace
    of the key store from a store without keys, by any number of processes
    (commands, the daemon and others), and a request to a daemon that is one of
    them.  If the request changes anything the tools work on, then some [Create]
    of the trace gave out a key with the same salted hash as the bearer token
    (the token itself, or a collision of SHA-256), and no [Revoke] of the trace
    has acknowledged the revocation of the id it was given out under. *)
Theorem tools_act_for_granted_keys hostAllow originAllow maxBody r w y ls y1 v j buf :
  db_at (y_path y) (os_files (y_os y)) = Some {| Version := v; Keys := [] |} →
  trace sys_step y ls y1 → y_bufs y1 !! j = Some buf → w_proc w = proc_of y1 buf →
  w_app (daemon hostAllow originAllow maxBody r w).2 ≠ w_app w →
  ∃ token i t fuel label key rec, bearerToken r = Some token
    ∧ LOp i t (OpCreate fuel label) (RCreated key rec) ∈ ls
    ∧ hashKey token (salt rec) = hashKey key (salt rec)
    ∧ ∀ i' t', LOp i' t' (OpRevoke (ID rec)) RRevoked ∉ ls.
Proof.
  intros Hdb Ht Hj Hw Hne.
  pose proof (daemon_request hostAllow originAllow maxBody r w) as (_ & H & _).
  destruct H as [rec t Happ _ _ _|token key p2 fp recs auth t Hh Ho Htok Hv _ _ _ _ _ _]; [done|].
  assert (run_op (OpVerify token) (proc_of y1 buf) = (RAccepted key, p2)) as Hrun
    by (unfold run_op, bind; rewrite <-Hw, Hv; done).
  destruct (accepted_was_granted y ls y1 _ v j _ token key Hdb Ht (SysOp j (OpVerify token) y1 buf _ _ Hj I Hrun))
    as [(i & t0 & fuel & k & rec0 & Hin & Hid & Hk) Hrev].
  exists token, i, t0, fuel, (Label key), k, rec0. rewrite Hid. by split_and!.
Qed.

(** C2: The tools act for the holder of an active key only.  If a request
    changes anything the tools work on, then it came to [/mcp] from an accepted
    host and origin with a bearer token whose salted hash is that of a record
    of the key store that is not revoked; and what it leaves in the audit log is
    one success record of the transport followed by the tools' records, all with
    that key's fingerprint and the caller's address. *)
Theorem tools_need_active_key hostAllow originAllow maxBody r w db :
  store_db (w_proc w) = Some db →
  let w' := (daemon hostAllow originAllow maxBody r w).2 in
  w_app w' ≠ w_app w →
  ∃ token d, bearerToken r = Some token ∧ d ∈ Keys db ∧ d_Revoked d = false
    ∧ d_Hash d = hashKey token (d_Salt d)
    ∧ contains hostAllow (host_of r) = true ∧ origin_ok originAllow r = true
    ∧ URLPath r = "/mcp"%string
    ∧ ∃ t recs, w_audit w' = w_audit w ++ map (stamp t)
          (record (shown_fp token (fromDBRecord d)) (r_RemoteAddr r) "success" "" :: recs)
        ∧ Forall (mine (shown_fp token (fromDBRecord d)) (shown_addr r)) recs.
Proof.
  intros Hdb w' Hne. pose proof (daemon_request hostAllow originAllow maxBody r w) as H.
  unfold wp in H. fold w' in H. destruct H as (_ & [rec t Happ _ _ _|token key p1 fp recs auth t
    Hh Ho Ht Hv _ -> Hlog -> Hmine Hpath] & _); [done|].
  pose proof (wp_run _ _ _ _ _ Hv (Verify_spec token (w_proc w) db Hdb)) as [_ (d & Hd & -> & _)].
  apply find_last_Some in Hd as [Hin [Hr Hh']%candidate_spec].
  exists token, d. split_and!; auto. by exists t, recs.
Qed.

(** C4: Revoking a key ends the tools for its holder, at once and for good.
    After [Revoke id] has returned [nil], and any history of the key store, a
    request that changes anything the tools work on carries a token that was
    verified as an active record with another id. *)
Theorem revocation_stops_tools hostAllow originAllow maxBody r w id p p1 db :
  store_db p = Some db → wf_db db →
  Revoke id p = (Ok tt, p1) → rtc step p1 (w_proc w) →
  w_app (daemon hostAllow originAllow maxBody r w).2 ≠ w_app w →
  ∃ token db2 d, bearerToken r = Some token ∧ store_db (w_proc w) = Some db2 ∧ d ∈ Keys db2
    ∧ d_Revoked d = false ∧ d_Hash d = hashKey token (d_Salt d) ∧ d_ID d ≠ id.
Proof.
  intros Hdb Hwf Hrev Hs Hne.
  destruct (revoked_stays _ _ _ _ _ Hdb Hwf Hrev Hs) as (db2 & Hdb2 & Hids).
  pose proof (daemon_request hostAllow originAllow maxBody r w) as (_ & H & _).
  destruct H as [rec t Happ _ _ _|token key p2 fp recs auth t Hh Ho Ht Hv _ _ _ _ _ _]; [done|].
  pose proof (wp_run _ _ _ _ _ Hv (Verify_spec token (w_proc w) db2 Hdb2)) as [_ (d & Hd & _)].
  apply find_last_Some in Hd as [Hin [Hr Hh']%candidate_spec].
  exists token, db2, d. split_and!; auto.
Qed.

Lemma serve_one_accounted hostAllow originAllow maxBody t w :
  accounted w (serve_one (daemon hostAllow originAllow maxBody) t w).2.
Proof.
  destruct t as [r| |dt]; try reflexivity. unfold serve_one, new_response, on_writer, modify, bind.
  match goal with |- context [daemon_handler _ _ _ _ _ _ r ?w0] =>
    pose proof (daemon_request hostAllow originAllow maxBody r w0) as (_ & _ & H);
    by destruct (daemon hostAllow originAllow maxBody r w0) end.
Qed.

Lemma serve_all_accounted hostAllow originAllow maxBody ts w :
  accounted w (serve_all (daemon hostAllow originAllow maxBody) ts w).2.
Proof.
  revert w. induction ts as [|t ts IH]; intros w; [reflexivity|]. cbn [serve_all]. unfold bind.
  pose proof (serve_one_accounted hostAllow originAllow maxBody t w) as H.
  destruct (serve_one _ t w) as [[] w1]. eapply accounted_trans; [exact H|apply IH].
Qed.

End requests.

(** ** Instances *)

(** A library whose requests to [tools/call] make one call of [execute_command]. *)
#[export] Instance demo_sdk : McpSdk := {|
  sdk_calls r := if String.eqb (Body r) "exec" then [CallExec (demo_exec 1500)] else [];
  sdk_answer _ os w := write_body (String.concat "" (map (λ _, "x"%string) os)) (write_header 200 w);
|}.

Definition demo_daemon_world (p : proc) : world :=
  {| w_proc := p; w_limiters := NewLimiters (RL:=int_limiter) (10 : Z) 20 600; w_audit := [];
     w_writer := fresh_writer;
     w_app := {| d_euid := 1000; d_ctx_end := None; d_timeouts := []; d_machine := demo_machine;
                 d_fs := up_state |} |}.

Definition exec_request : request :=
  {| Method := "POST"; URLPath := "/mcp"; Host := "localhost:7822";
     Header := [("Authorization"%string, "Bearer " +:+ demo_key)]; r_RemoteAddr := "127.0.0.1:5000";
     Body := "exec"; BodyLimit := None; Context := background |}.

Definition demo_daemon : handler :=
  daemon_handler (RL:=int_limiter) "1.0" demo_cfg (up_cfg 0) ["localhost"%string] [] 1048576.

Example exec_request_runs :
  let w' := (demo_daemon exec_request (demo_daemon_world (demo_proc []))).2 in
  started (d_machine (w_app w')) = 1%nat ∧ length (w_audit w') = 2%nat.
Proof. vm_compute. done. Qed.

Lemma demo_ran p :
  started (d_machine (w_app (demo_daemon exec_request (demo_daemon_world p)).2)) = 1%nat →
  w_app (demo_daemon exec_request (demo_daemon_world p)).2 ≠ w_app (demo_daemon_world p).
Proof. intros H Heq. rewrite Heq in H. discriminate. Qed.

Lemma tools_need_active_key_witness :
  ∃ token d, bearerToken exec_request = Some token ∧ d ∈ Keys demo_db ∧ d_Revoked d = false
    ∧ d_Hash d = hashKey token (d_Salt d).
Proof.
  destruct (tools_need_active_key (RL:=int_limiter) "1.0" demo_cfg (up_cfg 0) ["localhost"%string] []
    1048576 exec_request (demo_daemon_world (demo_proc [])) demo_db)
    as (token & d & H1 & H2 & H3 & H4 & _).
  - exact (demo_store []).
  - apply demo_ran. vm_compute. reflexivity.
  - exists token, d. split_and!; assumption.
Defined.

(** Two active records for the demo key; one of them is revoked. *)
Definition two_db : Database :=
  {| Version := 1; Keys := [demo_record "aa" false; demo_record "bb" false] |}.
Definition two_proc : proc :=
  {| p_store := p_store (demo_proc []);
     p_os := demo_os {[demo_path := File 384 (pos_bytes (encode two_db))]} [] |}.

Lemma revocation_stops_tools_witness :
  ∃ p1, Revoke "bb" two_proc = (Ok tt, p1)
    ∧ ∃ token db2 d, bearerToken exec_request = Some token ∧ store_db p1 = Some db2
        ∧ d ∈ Keys db2 ∧ d_ID d ≠ "bb"%string.
Proof.
  destruct (Revoke "bb" two_proc) as [r p1] eqn:E.
  assert (r = Ok tt) as -> by (trans (Revoke "bb" two_proc).1; [rewrite E; reflexivity|vm_compute; reflexivity]).
  exists p1. split; [reflexivity|].
  destruct (revocation_stops_tools (RL:=int_limiter) "1.0" demo_cfg (up_cfg 0) ["localhost"%string] []
    1048576 exec_request (demo_daemon_world p1) "bb" two_proc p1 two_db)
    as (token & db2 & d & H1 & H2 & H3 & _ & _ & H6).
  - unfold store_db, db_at. cbn [p_store p_os path two_proc os_files demo_os demo_proc].
    rewrite lookup_singleton_eq. apply db_of_data_encoded.
  - split; [reflexivity|]. apply (bool_decide_unpack (NoDup _)). vm_compute. reflexivity.
  - exact E.
  - apply rtc_refl.
  - apply demo_ran. replace p1 with (Revoke "bb" two_proc).2 by (rewrite E; reflexivity).
    vm_compute. reflexivity.
  - exists token, db2, d. split_and!; assumption.
Defined.

(** A command creates the key, the daemon is the other process. *)
Definition created_daemon : world := demo_daemon_world (proc_of created.2 ∅).
Definition key_request : request :=
  {| Method := "POST"; URLPath := "/mcp"; Host := "localhost:7822";
     Header := [("Authorization"%string, "Bearer " +:+ the_key)]; r_RemoteAddr := "127.0.0.1:5000";
     Body := "exec"; BodyLimit := None; Context := background |}.

Lemma tools_act_for_granted_keys_witness :
  ∃ token i t fuel label key rec, bearerToken key_request = Some token
    ∧ LOp i t (OpCreate fuel label) (RCreated key rec) ∈ [created.1]
    ∧ hashKey token (salt rec) = hashKey key (salt rec).
Proof.
  destruct (tools_act_for_granted_keys (RL:=int_limiter) "1.0" demo_cfg (up_cfg 0) ["localhost"%string] []
    1048576 key_request created_daemon both_open [created.1] created.2 1 2 ∅)
    as (token & i & t & fuel & label & key & rec & H1 & H2 & H3 & _).
  - exact both_open_db.
  - exact both_open_trace.
  - unfold created, after. destruct (run_op _ _). reflexivity.
  - reflexivity.
  - intros Heq. assert (started (d_machine (w_app (daemon_handler (RL:=int_limiter) "1.0" demo_cfg (up_cfg 0)
      ["localhost"%string] [] 1048576 key_request created_daemon).2)) = 1%nat) as Hs by (vm_compute; reflexivity).
    rewrite Heq in Hs. discriminate.
  - exists token, i, t, fuel, label, key, rec. split_and!; assumption.
Defined.
