(* ===== verification/Concurrent.v ===== *)
(** * Concurrent: many requests at a time.

    net/http serves each request in a goroutine of its own.  Here the daemon's
    handler is written again as a program of atomic actions: the sections the
    code protects with a mutex or a file lock, and the calls whose effect is one
    event (a line of the log, the run of a command, an upload).  Run alone, the
    program is the handler of Daemon (ConcurrentTheorems.one_at_a_time); a
    system runs any number of them, action by action in any order, beside the
    collection of idle limiters, the other processes that have the key store
    open, and the changes of the machine.  KeystoreLock and UploadRaces look
    inside two of these actions. *)

From S2P Require Import Prelude Interleave GoText GoEncoding GoCrypto GoPath GoOs GoFs.
From S2P Require Import Keystore KeystoreHistory KeystoreSpec ServerAudit Server CmdExec FileUpload Mcp Daemon.
Open Scope Z_scope.
Open Scope go_scope.
#[local] Existing Instance daemon_app.

(** ** Actions and programs *)

(** [AAllow] is the critical section of [Limiters.mu], [AVerify] the read of the
    database under the shared lock with the update of the usage buffer, [ARun]
    the run of a command, [AUpload] [fileupload.Write] (under the lock of its
    root when there is a quota); [ARespond] writes to the request's own
    response. *)
Inductive act : Type → Type :=
| AVerify (token : string) : act (result kerr (option KeyRecord))
| AAllow (fp ip : string) : act bool
| AAudit (rec : AuditRecord) : act unit
| ARespond (f : writer → writer) : act unit
| AEuid : act Z
| ACtxEnd : act (option Z)
| ATimeout (d : Z) : act unit
| AToolAudit (rec : AuditRecord) : act unit
| ARun (ctx_end : option Z) (cfg : CmdExec.Config) (i : CmdExec.Input) :
    act (option (result xerr CmdExec.Result))
| AUpload (cfg : FileUpload.Config) (i : FileUpload.Input) : act (result uerr FileUpload.Result).

Abbreviation prog := (Interleave.prog act).
Open Scope prog_scope.

(** ** The handlers, action by action *)

Definition phandler := request → prog bool.

Definition c_refuse (code : Z) (rec : AuditRecord) : prog bool :=
  act!! AAudit rec in
  act!! ARespond (λ w, write_body newline (write_header code w)) in Done false.

Section programs.
Context `{GT : GoTables}.

Definition c_hostOrigin (hostAllow originAllow : list string) (next : phandler) : phandler := λ r,
  let remote := remoteIP r in
  let host := if String.eqb (Host r) "" then header_get r "Host" else Host r in
  let hostOnly := match split_host_port host with Some (h, _) => h | None => host end in
  if negb (contains hostAllow hostOnly) then
    c_refuse 403 (record "-" remote "deny" "invalid host header")
  else
    let origin := header_get r "Origin" in
    if negb (String.eqb origin "") && negb (originAllowed origin originAllow) then
      c_refuse 403 (record "-" remote "deny" "invalid origin header")
    else next r.

Definition c_bodyLimit (limit : Z) (next : phandler) : phandler := λ r,
  next {| Method := Method r; URLPath := URLPath r; Host := Host r; Header := Header r;
          r_RemoteAddr := r_RemoteAddr r; Body := Body r; BodyLimit := Some limit;
          Context := Context r |}.

Definition c_recover (next : phandler) : phandler := λ r,
  pbind (next r) (λ panicked,
    if panicked then
      act!! ARespond (λ w, write_body newline (write_header 500 w)) in Done false
    else Done false).

Definition c_auth (next : phandler) : phandler := λ r,
  let remote := remoteIP r in
  match bearerToken r with
  | None => c_refuse 401 (record "-" remote "fail" "no authorization header")
  | Some token =>
      act! v := AVerify token in
      match v with
      | Err e =>
          let fp := if is_corrupt e then "-"%string else Fingerprint token in
          c_refuse 403 (record fp remote "deny" "key store unavailable")
      | Ok None => c_refuse 401 (record (Fingerprint token) remote "fail" "authentication failed")
      | Ok (Some rec) =>
          let fp := if String.eqb (Fingerprint_ rec) "" then Fingerprint token
                    else Fingerprint_ rec in
          next (with_context {| ctxKeyFingerprint := Some fp; ctxKeyKeyID := Some (ID rec);
                                ctxKeyRemoteAddr := Some remote |} r)
      end
  end.

Definition c_rateLimit (next : phandler) : phandler := λ r,
  let fp := fingerprintFromCtx (Context r) in
  act! ok := AAllow fp (ipOnly (remoteIP r)) in
  if negb ok then
    c_refuse 429 (record fp (remoteIP r) "rate-limited"
      (if String.eqb fp "-" then "rate limit exceeded (ip)" else "rate limit exceeded (key)"))
  else next r.

Definition c_authSuccess (next : phandler) : phandler := λ r,
  act!! AAudit (record (fingerprintFromCtx (Context r)) (remoteIP r) "success" "") in next r.

Definition c_respond (f : writer → writer) : prog bool := act!! ARespond f in Done false.

Definition c_mux (mcp : phandler) : phandler := λ r,
  let p := if String.eqb (Method r) "CONNECT" then URLPath r else mux_clean (URLPath r) in
  if negb (String.eqb p (URLPath r)) then c_respond (write_header 301)
  else if String.eqb p "/healthz" && (String.eqb (Method r) "GET" || String.eqb (Method r) "HEAD")
  then c_respond (λ w, write_body "pong" (write_header 200 w))
  else if String.eqb p "/mcp" then mcp r
  else c_respond (λ w, write_body "not implemented" (write_header 501 w)).

(** *** The tools *)

Definition c_exec_refuse (fp remote res reason : string) (i : ExecInput) (msg : string) :
    prog (outcome ExecOutput) :=
  act!! AToolAudit (exec_record fp remote res reason i) in Done (Some (None, no_output, Some msg)).

(** The record and the answer of a command that was run. *)
Definition ran_record (fp remote : string) (input : ExecInput) (res : CmdExec.Result) : AuditRecord :=
  {| TS := 0; a_Fingerprint := fp; RemoteAddr := remote; a_Result := "success"; Reason := "";
     Tool := "execute_command"; a_Command := x_Command input; a_Args := x_Args input;
     a_ExitCode := Some (ExitCode res); a_Duration := Duration res; a_TimedOut := TimedOut res;
     a_Path := ""; a_Size := 0 |}.

Definition ran_answer (res : CmdExec.Result) : option CallToolResult * ExecOutput * option string :=
  let ms := Z.quot (Duration res) millisecond in
  let out := {| o_Stdout := string_of_bytes (Stdout res); o_Stderr := string_of_bytes (Stderr res);
                o_ExitCode := ExitCode res; o_DurationMs := ms; o_TimedOut := TimedOut res;
                o_StdoutTruncated := StdoutTruncated res; o_StderrTruncated := StderrTruncated res |} in
  let textSummary :=
    "exit=" +:+ fmt_d (ExitCode res) +:+ " duration=" +:+ fmt_d ms +:+ "ms timed_out="
    +:+ fmt_bool (TimedOut res) +:+ " stdout=" +:+ fmt_d (blen (Stdout res)) +:+ "B stderr="
    +:+ fmt_d (blen (Stderr res)) +:+ "B" in
  let textSummary := if StdoutTruncated res || StderrTruncated res
    then textSummary +:+ " truncated" else textSummary in
  (text_result textSummary, out, None).

Definition c_exec_run (cfg : CmdExec.Config) (fp remote : string) (input : ExecInput) (effTimeoutMs : Z) :
    prog (outcome ExecOutput) :=
  let cwd := if String.eqb (x_Cwd input) "" then DefaultCwd cfg else x_Cwd input in
  let timeout := wrap64 (effTimeoutMs * millisecond) in
  act!! ATimeout timeout in
  act! parent := ACtxEnd in
  act! r := ARun (Some (WithTimeout parent timeout)) cfg
              {| Command := x_Command input; Args := x_Args input; CmdExec.Cwd := cwd |} in
  match r with
  | None => Done None
  | Some (Err e) =>
      match e with
      | ErrNotAllowed _ => c_exec_refuse fp remote "deny" "not-allowed" input "command not allowed"
      | ErrBadCwd _ => c_exec_refuse fp remote "fail" "bad-cwd" input "command not found"
      | OtherErr _ => c_exec_refuse fp remote "fail" "not-found" input "command not found"
      end
  | Some (Ok res) => act!! AToolAudit (ran_record fp remote input res) in Done (Some (ran_answer res))
  end.

Definition c_exec_checked (cfg : CmdExec.Config) (fp remote : string) (input : ExecInput) :
    prog (outcome ExecOutput) :=
  let nargs := Z.of_nat (length (x_Args input)) in
  if nargs >? MaxArgs cfg then
    let reason := "too many arguments: " +:+ fmt_d nargs +:+ " > " +:+ fmt_d (MaxArgs cfg) in
    c_exec_refuse fp remote "deny" reason input reason
  else
  match find (λ arg, str_len arg >? MaxArgLen cfg) (x_Args input) with
  | Some arg =>
      let reason := "argument too long: " +:+ fmt_d (str_len arg) +:+ " > " +:+ fmt_d (MaxArgLen cfg) in
      c_exec_refuse fp remote "deny" reason input reason
  | None =>
  let effTimeoutMs := if x_TimeoutMs input =? 0 then DefaultTimeoutMs cfg else x_TimeoutMs input in
  if effTimeoutMs >? MaxTimeoutMs cfg then
    let reason := "timeout_ms " +:+ fmt_d effTimeoutMs +:+ " exceeds max " +:+ fmt_d (MaxTimeoutMs cfg) in
    c_exec_refuse fp remote "deny" reason input reason
  else c_exec_run cfg fp remote input effTimeoutMs
  end.

Definition c_execHandler (cfg : CmdExec.Config) (ctx : context) (input : ExecInput) : prog (outcome ExecOutput) :=
  let fp := fingerprintFromCtx ctx in
  let remote := remoteAddrFromCtx ctx in
  act! euid := AEuid in
  if euid =? 0 then
    act!! AToolAudit (exec_record fp remote "warn"
      "running-as-root: raxd executing commands as root (euid==0); ensure raxd runs as non-root" input) in
    if DenyRoot cfg then
      c_exec_refuse fp remote "deny" "execution as root is forbidden by policy (deny_root=true)" input
        "execution as root is forbidden by policy"
    else c_exec_checked cfg fp remote input
  else c_exec_checked cfg fp remote input.

Definition c_upload_refuse (fp remote res reason path msg : string) : prog (outcome UploadOutput) :=
  act!! AToolAudit (upload_record fp remote res reason path 0) in Done (Some (None, no_upload, Some msg)).

Definition c_upload_write (cfg : FileUpload.Config) (fp remote : string) (input : UploadInput)
    (decoded : bytes) (mode : Z) : prog (outcome UploadOutput) :=
  act! w := AUpload cfg {| RelPath := up_Path input; Data := decoded;
                           Overwrite := up_Overwrite input; Mode := mode |} in
  match w with
  | Err e =>
      let (auditResult, reason) := upload_verdict e in
      c_upload_refuse fp remote auditResult reason (up_Path input)
        (if String.eqb auditResult "deny" then uerr_text e else "write failed")
  | Ok res =>
      let out := {| uo_Path := res_RelPath res; uo_Size := res_Size res;
                    uo_Overwritten := res_Overwritten res; uo_Mode := fmt_04o (res_Mode res) |} in
      let textSummary :=
        "path=" +:+ res_RelPath res +:+ " size=" +:+ fmt_d (res_Size res) +:+ "B overwritten="
        +:+ fmt_bool (res_Overwritten res) +:+ " mode=" +:+ uo_Mode out in
      act!! AToolAudit (upload_record fp remote "success" "" (res_RelPath res) (res_Size res)) in
      Done (Some (text_result textSummary, out, None))
  end.

Definition c_upload_checked (cfg : FileUpload.Config) (fp remote : string) (input : UploadInput) :
    prog (outcome UploadOutput) :=
  let too_large := "file too large: exceeds max_file_bytes"%string in
  if decoded_len (str_len (up_Content input)) >? MaxFileBytes cfg then
    c_upload_refuse fp remote "deny" too_large (up_Path input) too_large
  else
  match std_decode (up_Content input) with
  | None => c_upload_refuse fp remote "deny" "invalid base64 content" (up_Path input) "invalid base64 content"
  | Some decoded =>
      if blen decoded >? MaxFileBytes cfg then
        c_upload_refuse fp remote "deny" too_large (up_Path input) too_large
      else
      match (if String.eqb (up_Mode input) "" then Ok (DefaultMode cfg) else ParseMode (up_Mode input)) with
      | Err _ => c_upload_refuse fp remote "deny" "invalid file mode" (up_Path input) "invalid file mode"
      | Ok mode => c_upload_write cfg fp remote input decoded mode
      end
  end.

Definition c_uploadHandler (cfg : FileUpload.Config) (ctx : context) (input : UploadInput) :
    prog (outcome UploadOutput) :=
  let fp := fingerprintFromCtx ctx in
  let remote := remoteAddrFromCtx ctx in
  act! euid := AEuid in
  if euid =? 0 then
    act!! AToolAudit (upload_record fp remote "warn"
      "running-as-root: raxd writing files as root (euid==0); ensure raxd runs as non-root" "" 0) in
    if u_DenyRoot cfg then
      c_upload_refuse fp remote "deny" "upload as root is forbidden by policy (deny_root=true)" (up_Path input)
        "upload as root is forbidden by policy"
    else c_upload_checked cfg fp remote input
  else c_upload_checked cfg fp remote input.

Definition c_withAudit {In Out} (name : string) (h : context → In → prog (outcome Out)) :
    context → In → prog (outcome Out) := λ ctx input,
  let fp := fingerprintFromCtx ctx in
  let remote := remoteAddrFromCtx ctx in
  pbind (h ctx input) (λ r,
    match r with
    | None => Done None
    | Some (result, out, err) =>
        let failed := match err with
          | Some _ => true
          | None => match result with Some x => IsError x | None => false end
          end in
        let resultStr := if failed then "fail"%string else "success"%string in
        let reason := match err with Some e => e | None => ""%string end in
        act!! AToolAudit (audit_record fp remote resultStr reason name) in
        Done (Some (result, out, err))
    end).

Definition c_pingHandler (ctx : context) (input : unit) : prog (outcome unit) :=
  Done (Some (text_result "pong", tt, None)).

Definition c_serverInfoHandler (ver : string) : context → unit → prog (outcome ServerInfo) :=
  let info := {| Name := "raxd"; s_Version := ver; ProtocolVersion := protocolVersion |} in
  let textLine := "raxd " +:+ ver +:+ " (MCP " +:+ protocolVersion +:+ ")" in
  λ _ _, Done (Some (text_result textLine, info, None)).

Definition c_NewHandler (ver : string) (execCfg : CmdExec.Config) (uplCfg : FileUpload.Config)
    (ctx : context) (c : tool_call) : prog (outcome tool_output) :=
  match c with
  | CallPing => pbind (c_withAudit "ping" c_pingHandler ctx tt) (λ r, Done (out_map (λ _, OutPing) r))
  | CallServerInfo =>
      pbind (c_withAudit "server_info" (c_serverInfoHandler ver) ctx tt) (λ r, Done (out_map OutServerInfo r))
  | CallExec i => pbind (c_execHandler execCfg ctx i) (λ r, Done (out_map OutExec r))
  | CallUpload i => pbind (c_uploadHandler uplCfg ctx i) (λ r, Done (out_map OutUpload r))
  end.

Section handler.
Context `{SDK : McpSdk}.
Variables (ver : string) (execCfg : CmdExec.Config) (uplCfg : FileUpload.Config).

Fixpoint c_run_calls (ctx : context) (cs : list tool_call) : prog (option (list (outcome tool_output))) :=
  match cs with
  | [] => Done (Some [])
  | c :: cs' =>
      pbind (c_NewHandler ver execCfg uplCfg ctx c) (λ o,
        match o with
        | None => Done None
        | Some _ => pbind (c_run_calls ctx cs') (λ os, Done (option_map (cons o) os))
        end)
  end.

Definition c_mcpHandler : phandler := λ r,
  pbind (c_run_calls (Context r) (sdk_calls r)) (λ os,
    match os with
    | None => Done true
    | Some os => act!! ARespond (sdk_answer r os) in Done false
    end).

Definition c_daemon (hostAllow originAllow : list string) (maxBody : Z) : phandler :=
  c_bodyLimit maxBody
    (c_recover
      (c_hostOrigin hostAllow originAllow
        (c_auth
          (c_rateLimit
            (c_authSuccess (c_mux c_mcpHandler)))))).
End handler.
End programs.

(** ** What the actions do *)

Section system.
Context `{RL : RateLimiter} `{JC : JsonCodec} `{GT : GoTables}.

Definition handle {X} (a : act X) : M world X :=
  match a in act X return M world X with
  | AVerify token => on_proc (Verify token)
  | AAllow fp ip =>
      let! t := on_proc (on_os now) in
      let! l := gets w_limiters in
      let (ok, l') := Allow fp ip t l in
      do! set_limiters l' in ret ok
  | AAudit rec => auditFn rec
  | ARespond f => on_writer f
  | AEuid => on_tools (gets t_euid)
  | ACtxEnd => on_tools (gets t_ctx_end)
  | ATimeout d => on_tools (log_timeout d)
  | AToolAudit rec => on_tools (audit rec)
  | ARun e cfg i => on_tools (on_machine (CmdExec.Run e cfg i))
  | AUpload cfg i => on_tools (on_fs (FileUpload.Write cfg i))
  end.

(** A program without others beside it. *)
Definition alone {A} (p : prog A) : M world A := interp (@handle) p.

(** ** The system

    The daemon's world without a response, the other processes that have the key
    store open (the daemon is number 0), and the requests with their responses. *)
Record thread := { th_request : request; th_writer : writer; th_prog : prog bool }.

Record system := {
  sm_world : world;
  sm_others : gmap nat (gmap string Time);
  sm_threads : list thread;
}.

Definition with_writer (wr : writer) (w : world) : world :=
  {| w_proc := w_proc w; w_limiters := w_limiters w; w_audit := w_audit w; w_writer := wr;
     w_app := w_app w |}.

(** The key store as the processes share it. *)
Definition keys_of (s : system) : sys :=
  let p := w_proc (sm_world s) in
  {| y_os := p_os p; y_path := path (p_store p);
     y_bufs := <[0%nat := usageBuf (p_store p)]> (sm_others s) |}.

Definition set_keys (y : sys) (w : world) : world :=
  {| w_proc := {| p_store := {| path := y_path y; usageBuf := default ∅ (y_bufs y !! 0%nat) |};
                  p_os := y_os y |};
     w_limiters := w_limiters w; w_audit := w_audit w; w_writer := w_writer w; w_app := w_app w |}.

(** What a step shows: an action of a request at a time with its answer, a new
    request, a collection, or a step of the key store. *)
Inductive sm_event :=
| EvAct (i : nat) (t : Time) {X : Type} (a : act X) (x : X)
| EvArrive (r : request)
| EvCollect (t : Time)
| EvKeys (l : KeystoreSpec.label).

Variable serve : phandler.

Inductive sm_step (s : system) : sm_event → system → Prop :=
| StepAct i th X (a : act X) k x w' :
    sm_threads s !! i = Some th → th_prog th = Do a k →
    handle a (with_writer (th_writer th) (sm_world s)) = (x, w') →
    sm_step s (EvAct i (os_now (p_os (w_proc (sm_world s)))) a x)
      {| sm_world := with_writer (w_writer (sm_world s)) w'; sm_others := sm_others s;
         sm_threads := <[i := {| th_request := th_request th; th_writer := w_writer w'; th_prog := k x |}]>
                         (sm_threads s) |}
| StepArrive r :
    sm_step s (EvArrive r)
      {| sm_world := sm_world s; sm_others := sm_others s;
         sm_threads := sm_threads s ++ [{| th_request := r; th_writer := fresh_writer; th_prog := serve r |}] |}
| StepCollect :
    sm_step s (EvCollect (os_now (p_os (w_proc (sm_world s)))))
      {| sm_world := (set_limiters (gc (os_now (p_os (w_proc (sm_world s)))) (w_limiters (sm_world s)))
                      (sm_world s)).2;
         sm_others := sm_others s; sm_threads := sm_threads s |}
| StepKeys l y :
    sys_step (keys_of s) l y → is_Some (y_bufs y !! 0%nat) →
    sm_step s (EvKeys l)
      {| sm_world := set_keys y (sm_world s); sm_others := delete 0%nat (y_bufs y);
         sm_threads := sm_threads s |}.

Inductive sm_run : system → list sm_event → system → Prop :=
| run_nil s : sm_run s [] s
| run_snoc s es s1 e s2 : sm_run s es s1 → sm_step s1 e s2 → sm_run s (es ++ [e]) s2.
End system.
