(* ===== verification/ConcurrentTheorems.v ===== *)
(** * ConcurrentTheorems: what holds however the requests are interleaved.

    The program of actions is the sequential handler when it runs alone; in a
    system every action of a tool comes after the authentication of its request,
    at a moment when the key store had the key and no revocation of it; the
    limiter is asked as if the requests came one by one; and when no request is
    under way, every command that was started is in the audit log. *)

From S2P Require Import Prelude Interleave GoText GoEncoding GoCrypto GoPath GoOs GoFs.
From S2P Require Import Keystore KeystoreProofs KeystoreHistory KeystoreCodec KeystoreTheorems KeystoreSpec ServerAudit Server ServerTheorems Processes CmdExec FileUpload FileUploadTheorems Mcp McpTheorems Daemon DaemonTheorems Concurrent.
Open Scope Z_scope.
Open Scope go_scope.
#[local] Existing Instance daemon_app.

(** ** A program that runs alone *)

Section alone.
Context `{RL : RateLimiter} `{JC : JsonCodec} `{GT : GoTables} `{SDK : McpSdk}.
Variables (ver : string) (execCfg : CmdExec.Config) (uplCfg : FileUpload.Config).

Lemma alone_pbind {A B} (p : prog A) (k : A → prog B) w :
  alone (pbind p k) w = (let! x := alone p in alone (k x)) w.
Proof. apply interp_pbind. Qed.

(** *** The tools *)

Lemma of_tools_of t t' w : of_tools t (of_tools t' w) = of_tools t w.
Proof. done. Qed.

Lemma to_of_tools (m : M tool_world unit) t w :
  surroundings_of t = surroundings_of (to_tools w) → to_tools (of_tools t w) = t.
Proof. destruct t. intros [= H1 H2 H3]. unfold to_tools, of_tools. simpl in *. by rewrite <-H1, <-H2, <-H3. Qed.

Lemma on_tools_bind {A B} (m : M tool_world A) (k : A → M tool_world B) w :
  steady m → on_tools (bind m k) w = (let! x := on_tools m in on_tools (k x)) w.
Proof.
  intros Hs. specialize (Hs (surroundings_of (to_tools w)) (to_tools w) eq_refl).
  unfold on_tools, zoom, bind. destruct (m (to_tools w)) as [a t]. simpl in Hs.
  rewrite (to_of_tools (ret tt) t w Hs). by destruct (k a t).
Qed.

Lemma on_tools_ret {A} (a : A) w : on_tools (ret a) w = (a, w).
Proof. unfold on_tools, zoom, ret. f_equal. by destruct w as [? ? ? ? []]. Qed.

(** The program is the tool's code on the daemon's world. *)
Definition tooled {A} (p : prog A) (m : M tool_world A) : Prop := ∀ w, alone p w = on_tools m w.

Lemma tooled_done {A} (a : A) : tooled (Done a) (ret a).
Proof. intros w. by rewrite on_tools_ret. Qed.

Lemma tooled_do {A X} (a : act X) (m : M tool_world X) (k : X → prog A) (k' : X → M tool_world A) :
  (∀ w, handle a w = on_tools m w) → steady m → (∀ x, tooled (k x) (k' x)) → tooled (Do a k) (bind m k').
Proof.
  intros Ha Hm Hk w. rewrite on_tools_bind by done. simpl. unfold bind. rewrite Ha.
  destruct (on_tools m w) as [x w1]. apply Hk.
Qed.

Lemma tooled_pbind {A B} (p : prog A) (m : M tool_world A) (k : A → prog B) (k' : A → M tool_world B) :
  tooled p m → steady m → (∀ x, tooled (k x) (k' x)) → tooled (pbind p k) (bind m k').
Proof.
  intros Hp Hm Hk w. rewrite alone_pbind, on_tools_bind by done. unfold bind. rewrite Hp.
  destruct (on_tools m w) as [x w1]. apply Hk.
Qed.

#[local] Hint Resolve steady_audit steady_timeout steady_machine steady_fs steady_ret steady_gets : go.
#[local] Hint Resolve tooled_done : go.

Ltac tooled_walk :=
  repeat first
    [ apply tooled_done
    | apply tooled_do; [by intros ?|auto with go|intros ?]
    | match goal with |- tooled (match ?x with _ => _ end) _ => destruct x end ].

Lemma c_exec_refuse_tool fp remote res reason i msg :
  tooled (c_exec_refuse fp remote res reason i msg) (exec_refuse fp remote res reason i msg).
Proof. unfold c_exec_refuse, exec_refuse. tooled_walk. Qed.
#[local] Hint Resolve c_exec_refuse_tool : go.

Lemma c_exec_run_tool cfg fp remote i ms :
  tooled (c_exec_run cfg fp remote i ms) (exec_run cfg fp remote i ms).
Proof. unfold c_exec_run, exec_run. cbv zeta. tooled_walk; auto with go. Qed.
#[local] Hint Resolve c_exec_run_tool : go.

Lemma c_execHandler_tool cfg ctx i : tooled (c_execHandler cfg ctx i) (execHandler cfg ctx i).
Proof.
  unfold c_execHandler, execHandler, c_exec_checked, exec_checked. cbv zeta.
  tooled_walk; auto with go.
Qed.

Lemma c_upload_refuse_tool fp remote res reason pth msg :
  tooled (c_upload_refuse fp remote res reason pth msg) (upload_refuse fp remote res reason pth msg).
Proof. unfold c_upload_refuse, upload_refuse. tooled_walk. Qed.
#[local] Hint Resolve c_upload_refuse_tool : go.

Lemma c_uploadHandler_tool cfg ctx i : tooled (c_uploadHandler cfg ctx i) (uploadHandler cfg ctx i).
Proof.
  unfold c_uploadHandler, uploadHandler, c_upload_checked, upload_checked, c_upload_write, upload_write.
  cbv zeta. tooled_walk; auto with go.
Qed.

Lemma execHandler_steady cfg ctx i : steady (execHandler cfg ctx i).
Proof. unfold execHandler, exec_checked, exec_refuse, exec_run. steady_walk. Qed.

Lemma uploadHandler_steady cfg ctx i : steady (uploadHandler cfg ctx i).
Proof. unfold uploadHandler, upload_checked, upload_refuse, upload_write. steady_walk. Qed.

Lemma c_NewHandler_tool ctx c :
  tooled (c_NewHandler ver execCfg uplCfg ctx c) (NewHandler ver execCfg uplCfg ctx c).
Proof.
  destruct c as [| |i|i]; unfold c_NewHandler, NewHandler; [by intros w..| |].
  - apply tooled_pbind; [apply c_execHandler_tool|apply execHandler_steady|auto with go].
  - apply tooled_pbind; [apply c_uploadHandler_tool|apply uploadHandler_steady|auto with go].
Qed.

Lemma run_calls_steady ctx cs : steady (run_calls ver execCfg uplCfg ctx cs).
Proof.
  induction cs as [|c cs IH]; cbn [run_calls]; [auto with go|].
  apply steady_bind; [apply NewHandler_steady|]. intros [o|]; [|auto with go].
  apply steady_bind; [done|auto with go].
Qed.

Lemma c_run_calls_tool ctx cs :
  tooled (c_run_calls ver execCfg uplCfg ctx cs) (run_calls ver execCfg uplCfg ctx cs).
Proof.
  induction cs as [|c cs IH]; cbn [run_calls c_run_calls]; [auto with go|].
  apply tooled_pbind; [apply c_NewHandler_tool|apply NewHandler_steady|]. intros [o|]; [|auto with go].
  apply tooled_pbind; [done|apply run_calls_steady|auto with go].
Qed.

(** *** The middlewares *)

(** The program is the handler. *)
Definition handled (p : phandler) (h : handler) : Prop := ∀ r w, alone (p r) w = h r w.

Lemma c_refuse_run code rec w : alone (c_refuse code rec) w = refuse code rec w.
Proof. done. Qed.

Lemma c_mcpHandler_run :
  handled (c_mcpHandler ver execCfg uplCfg) (mcpHandler ver execCfg uplCfg).
Proof.
  intros r w. unfold c_mcpHandler, mcpHandler. rewrite alone_pbind. unfold bind at 1 2.
  rewrite c_run_calls_tool. destruct (on_tools _ w) as [[os|] w1]; done.
Qed.

Lemma c_mux_run p h : handled p h → handled (c_mux p) (mux (Some h)).
Proof.
  intros Hp r w. unfold c_mux, mux. destruct (negb _); [done|]. destruct (_ && _); [done|].
  destruct (String.eqb _ "/mcp"); [apply Hp|done].
Qed.

Lemma c_authSuccess_run p h : handled p h → handled (c_authSuccess p) (authSuccessAuditMiddleware h).
Proof. intros Hp r w. apply Hp. Qed.

Lemma c_rateLimit_run p h : handled p h → handled (c_rateLimit p) (rateLimitMiddleware h).
Proof.
  intros Hp r w. rewrite rateLimit_run. unfold c_rateLimit. simpl.
  unfold bind, on_proc, on_os, zoom, now, gets, set_limiters, modify, ret. simpl.
  destruct (Allow _ _ _ _) as [ok l]. destruct w as [[st o] lm au wr]. destruct ok; simpl; [apply Hp|done].
Qed.

Lemma c_auth_run p h : handled p h → handled (c_auth p) (authMiddleware h).
Proof.
  intros Hp r w. unfold c_auth, authMiddleware. destruct (bearerToken r) as [token|]; [|done].
  simpl. unfold bind at 1 2. destruct (on_proc (Verify token) w) as [[[rec|]|e] w1]; [apply Hp|done..].
Qed.

Lemma c_hostOrigin_run ha oa p h : handled p h → handled (c_hostOrigin ha oa p) (hostOriginMiddleware ha oa h).
Proof.
  intros Hp r w. unfold c_hostOrigin, hostOriginMiddleware.
  destruct (negb (contains ha _)); [done|]. destruct (_ && _); [done|apply Hp].
Qed.

Lemma c_recover_run p h : handled p h → handled (c_recover p) (recoverMiddleware h).
Proof.
  intros Hp r w. unfold c_recover, recoverMiddleware. rewrite alone_pbind. unfold bind at 1 2. rewrite Hp.
  by destruct (h r w) as [[|] w1].
Qed.

Lemma c_daemon_run hostAllow originAllow maxBody :
  handled (c_daemon ver execCfg uplCfg hostAllow originAllow maxBody)
          (daemon_handler ver execCfg uplCfg hostAllow originAllow maxBody).
Proof.
  intros r w. unfold c_daemon, daemon_handler, chain, c_bodyLimit, bodyLimitMiddleware.
  apply c_recover_run, c_hostOrigin_run, c_auth_run, c_rateLimit_run, c_authSuccess_run, c_mux_run,
    c_mcpHandler_run.
Qed.
End alone.

(** ** Which actions need a key *)

(** What a tool does to the machine, the tree and the log. *)
Definition is_tool {X} (a : act X) : bool :=
  match a with ATimeout _ | AToolAudit _ | ARun _ _ _ | AUpload _ _ => true | _ => false end.

Fixpoint no_tools {A} (p : prog A) : Prop :=
  match p with
  | Done _ => True
  | Do a k => is_tool a = false ∧ ∀ x, no_tools (k x)
  end.

(** The next action asks the limiter, and its no ends the tools; or there are
    none. *)
Definition asks_limiter {A} (p : prog A) : Prop :=
  no_tools p ∨
  match p with
  | Done _ => True
  | Do a k =>
      match a in act X return (X → prog A) → Prop with
      | AAllow _ _ => λ k, no_tools (k false)
      | _ => λ _, False
      end k
  end.

(** The next action verifies the token of [r], or there will be no tool. *)
Definition asks_key (r : request) {A} (p : prog A) : Prop :=
  no_tools p ∨
  match p with
  | Done _ => True
  | Do a k =>
      match a in act X return (X → prog A) → Prop with
      | AVerify token => λ k, bearerToken r = Some token ∧
          ∀ v, match v with Ok (Some _) => asks_limiter (k v) | _ => no_tools (k v) end
      | _ => λ _, False
      end k
  end.

Lemma no_tools_pbind {A B} (p : prog A) (k : A → prog B) :
  no_tools p → (∀ a, no_tools (k a)) → no_tools (pbind p k).
Proof. intros Hp Hk. induction p as [a|X a k' IH]; simpl in *; [done|]. destruct Hp. split; [done|]. auto. Qed.

Lemma c_refuse_no_tools code rec : no_tools (c_refuse code rec).
Proof. done. Qed.

Section shape.
Context `{GT : GoTables} `{SDK : McpSdk}.

Lemma c_recover_asks p r :
  asks_key r (p r) → asks_key r (c_recover p r).
Proof.
  unfold c_recover. set (k := λ panicked : bool, _).
  assert (∀ b, no_tools (k b)) as Hk by by intros [].
  intros [Hn|Hp]; [left; by apply no_tools_pbind|].
  destruct (p r) as [b|X a k']; [by left; apply Hk|]. right. destruct a; try done. simpl in *.
  destruct Hp as [Ht Hv]. split; [done|]. intros v. specialize (Hv v).
  destruct v as [[rec|]|e]; [|by apply no_tools_pbind..].
  destruct Hv as [Hn|Hv]; [left; by apply no_tools_pbind|].
  destruct (k' _) as [b|X a k2]; [by left; apply Hk|]. right. destruct a; try done.
  by apply no_tools_pbind.
Qed.

Lemma asks_key_same (r r' : request) {A} (p : prog A) :
  bearerToken r = bearerToken r' → asks_key r p → asks_key r' p.
Proof.
  intros Hb [Hn|Hp]; [by left|]. right. destruct p as [b|X a k]; [done|]. destruct a; try done.
  by rewrite <-Hb.
Qed.

Lemma c_daemon_asks ver execCfg uplCfg hostAllow originAllow maxBody r :
  asks_key r (c_daemon ver execCfg uplCfg hostAllow originAllow maxBody r).
Proof.
  unfold c_daemon, c_bodyLimit. set (r1 := {| Method := _ |}).
  apply (asks_key_same r1 r); [done|]. apply c_recover_asks.
  unfold c_hostOrigin. destruct (negb _); [by left|]. destruct (_ && _); [by left|].
  unfold c_auth. destruct (bearerToken r1) as [token|] eqn:E; [|by left].
  right. split; [done|]. intros [[rec|]|e]; [by right|done..].
Qed.
End shape.

(** ** Events *)

Definition ev_tool (i : nat) (e : sm_event) : Prop :=
  match e with EvAct j _ a _ => j = i ∧ is_tool a = true | _ => False end.

(** Request [i] presented [token] and it was accepted with [rec]. *)
Definition ev_verified (i : nat) (token : string) (rec : KeyRecord) (e : sm_event) : Prop :=
  match e with
  | @EvAct j _ X a x => j = i ∧
      match a in act X return X → Prop with
      | AVerify tok => λ v, tok = token ∧ v = Ok (Some rec)
      | _ => λ _, False
      end x
  | _ => False
  end.

Definition ev_allowed (i : nat) (e : sm_event) : Prop :=
  match e with
  | @EvAct j _ X a x => j = i ∧
      match a in act X return X → Prop with
      | AAllow _ _ => λ ok, ok = true
      | _ => λ _, False
      end x
  | _ => False
  end.

(** The steps of the key store in a run: those of the other processes, and the
    daemon's own verifications. *)
Definition key_ops_of (e : sm_event) : list KeystoreSpec.label :=
  match e with
  | @EvAct _ t X a x =>
      match a in act X return X → list KeystoreSpec.label with
      | AVerify tok => λ v, [LOp 0 t (OpVerify tok)
          (match v with Ok (Some rec) => RAccepted rec | Ok None => RRefused | Err e => RError e end)]
      | _ => λ _, []
      end x
  | EvKeys l => [l]
  | _ => []
  end.
Definition key_ops (es : list sm_event) : list KeystoreSpec.label := concat (map key_ops_of es).

Lemma key_ops_snoc es e : key_ops (es ++ [e]) = key_ops es ++ key_ops_of e.
Proof. unfold key_ops. rewrite map_app, concat_app. simpl. by rewrite app_nil_r. Qed.

(** The requests in the order they came: the number of a request is its place. *)
Definition arrival (e : sm_event) : list request := match e with EvArrive r => [r] | _ => [] end.
Definition arrivals (es : list sm_event) : list request := concat (map arrival es).

Lemma arrivals_snoc es e : arrivals (es ++ [e]) = arrivals es ++ arrival e.
Proof. unfold arrivals. rewrite map_app, concat_app. simpl. by rewrite app_nil_r. Qed.

Section runs.
Context `{RL : RateLimiter} `{JC : JsonCodec} `{JL : !JsonLaws} `{GT : GoTables}.
Variable serve : phandler.
Hypothesis serve_asks : ∀ r, asks_key r (serve r).

(** *** Each request *)

(** A verification of the request's own token, then a yes of the limiter. *)
Definition cleared (i : nat) (r : request) (es : list sm_event) : Prop :=
  ∃ es1 v es2 token rec, es = es1 ++ v :: es2 ∧ bearerToken r = Some token
    ∧ ev_verified i token rec v ∧ Exists (ev_allowed i) es2.

Definition verified (i : nat) (r : request) (es : list sm_event) : Prop :=
  ∃ es1 v es2 token rec, es = es1 ++ v :: es2 ∧ bearerToken r = Some token ∧ ev_verified i token rec v.

Lemma verified_more i r es e : verified i r es → verified i r (es ++ [e]).
Proof.
  intros (es1 & v & es2 & token & rec & -> & Hb & Hv). exists es1, v, (es2 ++ [e]), token, rec.
  by rewrite <-app_assoc.
Qed.

Lemma cleared_more i r es e : cleared i r es → cleared i r (es ++ [e]).
Proof.
  intros (es1 & v & es2 & token & rec & -> & Hb & Hv & Ha). exists es1, v, (es2 ++ [e]), token, rec.
  rewrite <-app_assoc. split_and!; try done. apply Exists_app. by left.
Qed.

Lemma cleared_now i r es e : verified i r es → ev_allowed i e → cleared i r (es ++ [e]).
Proof.
  intros (es1 & v & es2 & token & rec & -> & Hb & Hv) Ha. exists es1, v, (es2 ++ [e]), token, rec.
  rewrite <-app_assoc. split_and!; try done. apply Exists_app. right. by constructor.
Qed.

(** How far a request has come. *)
Definition stage (i : nat) (th : thread) (es : list sm_event) : Prop :=
  cleared i (th_request th) es
  ∨ (verified i (th_request th) es ∧ asks_limiter (th_prog th))
  ∨ asks_key (th_request th) (th_prog th).

Lemma stage_more i th es e : stage i th es → stage i th (es ++ [e]).
Proof.
  intros [H|[[H1 H2]|H]]; [left; by apply cleared_more|right; left; by split; [apply verified_more|]|by right; right].
Qed.

(** The thread takes a step. *)
Lemma stage_step i th es X (a : act X) k x t wr :
  th_prog th = Do a k → stage i th es →
  stage i {| th_request := th_request th; th_writer := wr; th_prog := k x |} (es ++ [EvAct i t a x])
  ∧ (is_tool a = true → cleared i (th_request th) es).
Proof.
  intros Hp Hs. assert (no_tools (th_prog th) → is_tool a = false ∧
    stage i {| th_request := th_request th; th_writer := wr; th_prog := k x |} (es ++ [EvAct i t a x])) as Hquiet.
  { rewrite Hp. intros [Ha Hk]. split; [done|]. right; right. left. apply Hk. }
  destruct Hs as [Hc|[[Hv [Hn|Hl]]|[Hn|Hk]]].
  - split; [left; by apply cleared_more|done].
  - destruct (Hquiet Hn) as [Ha Hs]. split; [done|by rewrite Ha].
  - rewrite Hp in Hl. destruct a as [tok|fp ip| | | | | | | |]; try done. split; [|done].
    destruct x; [left; by apply cleared_now|right; right; left; exact Hl].
  - destruct (Hquiet Hn) as [Ha Hs]. split; [done|by rewrite Ha].
  - rewrite Hp in Hk. destruct a as [tok|fp ip| | | | | | | |]; try done. split; [|done].
    destruct Hk as [Hb Hk]. specialize (Hk x). destruct x as [[rec|]|e]; [|by right; right; left..].
    right; left. split; [|exact Hk]. by exists es, (EvAct i t (AVerify tok) (Ok (Some rec))), [], tok, rec.
Qed.

(** Tools come after the clearance of their request. *)
Definition tools_cleared (es : list sm_event) : Prop :=
  ∀ es1 e es2 i, es = es1 ++ e :: es2 → ev_tool i e → ∃ r, arrivals es1 !! i = Some r ∧ cleared i r es1.

Lemma tools_cleared_snoc es e :
  tools_cleared es → (∀ i, ev_tool i e → ∃ r, arrivals es !! i = Some r ∧ cleared i r es) →
  tools_cleared (es ++ [e]).
Proof.
  intros Hes He es1 e' es2 i Heq Ht.
  destruct es2 as [|e2 es2 _] using rev_ind.
  - apply app_inj_tail in Heq as [-> ->]. by apply He.
  - rewrite app_comm_cons, app_assoc in Heq. apply app_inj_tail in Heq as [-> _]. by eapply Hes.
Qed.

(** The threads are the requests that came. *)
Definition placed (ths : list thread) (es : list sm_event) : Prop := map th_request ths = arrivals es.

Lemma placed_lookup ths es i th : placed ths es → ths !! i = Some th → arrivals es !! i = Some (th_request th).
Proof. intros <- Hi. by rewrite list_lookup_fmap, Hi. Qed.

Lemma run_stages s0 es s :
  sm_run serve s0 es s → sm_threads s0 = [] →
  placed (sm_threads s) es ∧ (∀ i th, sm_threads s !! i = Some th → stage i th es) ∧ tools_cleared es.
Proof.
  intros Hr H0. induction Hr as [s0|s0 es s1 e s2 _ IH Hstep].
  { unfold placed. rewrite H0. split_and!; [done..|]. intros es1 e es2 i Heq. by destruct es1. }
  destruct (IH H0) as (Hpl & Hst & Htc). clear IH. unfold placed. rewrite arrivals_snoc.
  destruct Hstep as [i th X a k x w' Hi Hp Hh|r| |l y _ _]; simpl; rewrite ?app_nil_r.
  - destruct (stage_step i th es X a k x (os_now (p_os (w_proc (sm_world s1)))) (w_writer w') Hp (Hst i th Hi))
      as [Hnew Htool]. split_and!.
    + rewrite <-Hpl. apply list_eq. intros j. rewrite !list_lookup_fmap, list_lookup_insert.
      case_decide as E; [|done]. destruct E as [<- _]. by rewrite Hi.
    + intros j th' [(-> & <- & _)|(Hne & Hj)]%list_lookup_insert_Some; [done|by apply stage_more, Hst].
    + apply tools_cleared_snoc; [done|]. intros j [<- Ht]. eauto using placed_lookup.
  - split_and!; [by rewrite map_app, Hpl| |by apply tools_cleared_snoc; [|done]].
    intros j th [Hj|[_ Hj]]%lookup_app_Some; [by apply stage_more, Hst|].
    apply list_lookup_singleton_Some in Hj as [_ <-]. right; right. apply serve_asks.
  - split_and!; [done| |by apply tools_cleared_snoc; [|done]]. intros i th Hi. by apply stage_more, Hst.
  - split_and!; [done| |by apply tools_cleared_snoc; [|done]]. intros i th Hi. by apply stage_more, Hst.
Qed.
End runs.

(** ** What an action touches *)

Section touches.
Context `{RL : RateLimiter} `{JC : JsonCodec} `{GT : GoTables}.

(** The record an action appends to the log. *)
Definition act_record {X} (a : act X) : list AuditRecord :=
  match a with AAudit rec | AToolAudit rec => [rec] | _ => [] end.

Record touches {X} (a : act X) (x : X) (w w' : world) : Prop := {
  touches_keys :
    match a in act X return X → Prop with
    | AVerify token => λ v, Verify token (w_proc w) = (v, w_proc w')
    | _ => λ _, w_proc w' = w_proc w
    end x;
  touches_limiters :
    match a in act X return X → Prop with
    | AAllow fp ip => λ ok, Allow fp ip (os_now (p_os (w_proc w))) (w_limiters w) = (ok, w_limiters w')
    | _ => λ _, w_limiters w' = w_limiters w
    end x;
  touches_log : w_audit w' = w_audit w ++ map (stamp (os_now (p_os (w_proc w)))) (act_record a);
  touches_machine :
    match a in act X return X → Prop with
    | ARun e cfg i => λ r, run_post e cfg i (d_machine (w_app w)) r (d_machine (w_app w'))
    | _ => λ _, d_machine (w_app w') = d_machine (w_app w)
    end x;
}.

Lemma handle_touches {X} (a : act X) w x w' : handle a w = (x, w') → touches a x w w'.
Proof.
  intros Hh. destruct a; simpl in Hh;
    unfold on_proc, on_os, now, on_tools, on_writer, on_machine, on_fs, auditFn, audit, log_timeout, gets,
      modify, set_limiters, zoom, bind in Hh; simpl in Hh.
  - destruct (Verify token (w_proc w)) as [v p'] eqn:E. injection Hh as <- <-.
    split; rewrite ?app_nil_r; done.
  - destruct (Allow _ _ _ _) as [ok l'] eqn:E. injection Hh as <- <-. destruct w as [[] ? ? ?].
    split; rewrite ?app_nil_r; done.
  - injection Hh as _ <-. by split.
  - injection Hh as _ <-. by split; rewrite ?app_nil_r.
  - injection Hh as _ <-. by split; rewrite ?app_nil_r.
  - injection Hh as _ <-. by split; rewrite ?app_nil_r.
  - injection Hh as _ <-. by split; rewrite ?app_nil_r.
  - injection Hh as _ <-. by split.
  - pose proof (Run_spec ctx_end cfg i (d_machine (w_app w))) as Hr. unfold wp in Hr.
    destruct (CmdExec.Run _ _ _ _) as [v m']. injection Hh as <- <-. by split; rewrite ?app_nil_r.
  - destruct (FileUpload.Write _ _ _) as [v t]. injection Hh as _ <-. by split; rewrite ?app_nil_r.
Qed.
End touches.

(** ** The key store of a run *)

Section projection.
Context `{RL : RateLimiter} `{JC : JsonCodec} `{JL : !JsonLaws} `{GT : GoTables}.
Variable serve : phandler.

Lemma keys_of_same (s s' : system) :
  w_proc (sm_world s') = w_proc (sm_world s) → sm_others s' = sm_others s → keys_of s' = keys_of s.
Proof. unfold keys_of. by intros -> ->. Qed.

Lemma with_writer_proc wr w : w_proc (with_writer wr w) = w_proc w.
Proof. done. Qed.

(** A step is a step of the key store, or none. *)
Lemma step_keys s e s' sp :
  sm_step serve s e s' → abstracts (keys_of s) sp →
  key_ops_of e = [] ∧ keys_of s' = keys_of s
  ∨ ∃ l, key_ops_of e = [l] ∧ sys_step (keys_of s) l (keys_of s').
Proof.
  intros Hstep (_ & db & Hdb & Hwf & _). destruct Hstep as [i th X a k x w' Hi Hp Hh|r| |l y Hl Hb].
  - pose proof (touches_keys _ _ _ _ (handle_touches _ _ _ _ Hh)) as Hk. destruct a as [tok|fp ip| | | | | | | |];
      try (left; split; [done|]; by apply keys_of_same). right.
    rewrite with_writer_proc in Hk. eexists. split; [done|]. simpl.
    set (p := w_proc (sm_world s)) in *. set (p' := w_proc w') in *.
    assert (run_op (OpVerify tok) (proc_of (keys_of s) (usageBuf (p_store p))) = (match x with
      | Ok (Some rec) => RAccepted rec | Ok None => RRefused | Err e => RError e end, p')) as Hrun.
    { assert (proc_of (keys_of s) (usageBuf (p_store p)) = p) as -> by (unfold p, keys_of; by destruct (w_proc _) as [[] ?]).
      unfold run_op, bind. by rewrite Hk. }
    pose proof (run_op_path (OpVerify tok) (proc_of (keys_of s) (usageBuf (p_store p))) db I Hdb Hwf) as Hpath. rewrite Hrun in Hpath. simpl in Hpath.
    pose proof (SysOp 0 (OpVerify tok) (keys_of s) _ _ _ (lookup_insert_eq _ _ _) I Hrun) as Hop.
    unfold keys_of at 3 in Hop. simpl in Hop. rewrite insert_insert_eq in Hop.
    unfold keys_of at 2. simpl. fold p'. rewrite Hpath. exact Hop.
  - left. by split.
  - left. by split.
  - right. exists l. split; [done|]. destruct Hb as [buf Hb].
    assert (keys_of {| sm_world := set_keys y (sm_world s); sm_others := delete 0%nat (y_bufs y);
      sm_threads := sm_threads s |} = y) as ->; [|exact Hl].
    unfold keys_of. simpl. rewrite Hb. simpl. rewrite insert_delete_eq, insert_id by done. by destruct y.
Qed.

Lemma run_keys s0 es s sp :
  sm_run serve s0 es s → abstracts (keys_of s0) sp → trace sys_step (keys_of s0) (key_ops es) (keys_of s).
Proof.
  intros Hr Ha. induction Hr as [s0|s0 es s1 e s2 _ IH Hstep]; [constructor|]. specialize (IH Ha).
  destruct (trace_simulation _ _ _ _ IH Ha) as (sp1 & _ & Ha1). rewrite key_ops_snoc.
  destruct (step_keys _ _ _ _ Hstep Ha1) as [[-> ->]|(l & -> & Hl)]; [by rewrite app_nil_r|].
  by eapply trace_snoc.
Qed.

Lemma run_snoc_inv s0 es e s :
  sm_run serve s0 (es ++ [e]) s → ∃ s1, sm_run serve s0 es s1 ∧ sm_step serve s1 e s.
Proof.
  remember (es ++ [e]) as l eqn:Hl. intros Hr. destruct Hr as [s'|s1 es1 s2 e1 s3 Hr Hstep]; [by destruct es|].
  apply app_inj_tail in Hl as [-> ->]. eauto.
Qed.

(** A run has a state before each of its events. *)
Lemma run_split s0 es1 e es2 s :
  sm_run serve s0 (es1 ++ e :: es2) s → ∃ s1 s2, sm_run serve s0 es1 s1 ∧ sm_step serve s1 e s2.
Proof.
  revert s. induction es2 as [|e2 es2 IH] using rev_ind; intros s Hr.
  - apply run_snoc_inv in Hr as (s1 & H1 & H2). eauto.
  - rewrite app_comm_cons, app_assoc in Hr. apply run_snoc_inv in Hr as (s1 & H1 & _). by eapply IH.
Qed.
End projection.

(** ** The limiters of a run *)



Section limiters.
Context `{RL : RateLimiter} `{JC : JsonCodec} `{GT : GoTables}.
Variable serve : phandler.




End limiters.

(** ** Commands and their records *)

(** A program that keeps account of its commands: [d] says that it has run one
    whose record is still to come. *)
Fixpoint owes (d : bool) {A} (p : prog A) : Prop :=
  match p with
  | Done _ => d = false
  | @Do _ _ X a k =>
      match a in act X return (X → Prop) → (X → Prop) → (X → Prop) → Prop with
      | ARun _ _ _ => λ _ pays runs, d = false ∧ ∀ x, match x with Some (Ok _) => runs x | _ => pays x end
      | AToolAudit rec => λ same pays _, if decide (is_run rec) then d = true ∧ ∀ x, pays x else ∀ x, same x
      | AAudit rec => λ same _ _, (¬ is_run rec) ∧ ∀ x, same x
      | _ => λ same _ _, ∀ x, same x
      end (λ x, owes d (k x)) (λ x, owes false (k x)) (λ x, owes true (k x))
  end.

(** Pays every record before it ends. *)
Abbreviation pays := (owes false).

Lemma owes_pbind {A B} d (p : prog A) (k : A → prog B) : owes d p → (∀ a, pays (k a)) → owes d (pbind p k).
Proof.
  intros Hp Hk. revert d Hp. induction p as [a|X a k' IH]; intros d Hp; simpl in Hp; [subst d; apply Hk|].
  destruct a; simpl in Hp |- *; eauto.
  - destruct Hp. split; eauto.
  - destruct (decide (is_run rec)); [destruct Hp; split; eauto|eauto].
  - destruct Hp as [Hd Hp]. split; [done|]. intros x. specialize (Hp x). destruct x as [[res|e]|]; eauto.
Qed.

Section owing.
Context `{GT : GoTables} `{SDK : McpSdk}.

Lemma not_run_result (rec : AuditRecord) : a_Result rec ≠ "success"%string → ¬ is_run rec.
Proof. by intros H [_ ?]. Qed.
Lemma not_run_tool (rec : AuditRecord) : Tool rec ≠ "execute_command"%string → ¬ is_run rec.
Proof. by intros H [? _]. Qed.

Lemma owes_note {A} d rec (p : prog A) : ¬ is_run rec → owes d p → owes d (act!! AToolAudit rec in p).
Proof. intros Hr Hp. simpl. by rewrite decide_False. Qed.

Lemma c_refuse_pays code fp remote res reason :
  pays (c_refuse code (record fp remote res reason)).
Proof. simpl. split; [by intros [? _]|done]. Qed.

Lemma c_exec_refuse_pays fp remote res reason i msg :
  res ≠ "success"%string → pays (c_exec_refuse fp remote res reason i msg).
Proof. intros Hr. unfold c_exec_refuse. apply (owes_note false); [by apply not_run_result|done]. Qed.

Lemma c_exec_run_pays cfg fp remote i ms : pays (c_exec_run cfg fp remote i ms).
Proof.
  intros [] parent. simpl. split; [done|]. intros [[res|[| |]]|]; try done; by apply c_exec_refuse_pays.
Qed.

Lemma c_execHandler_pays cfg ctx i : pays (c_execHandler cfg ctx i).
Proof.
  assert (pays (c_exec_checked cfg (fingerprintFromCtx ctx) (remoteAddrFromCtx ctx) i)) as Hc.
  { unfold c_exec_checked. destruct (_ >? _); [by apply c_exec_refuse_pays|].
    destruct (find _ _); [by apply c_exec_refuse_pays|].
    destruct (_ >? _) in |- *; [by apply c_exec_refuse_pays|apply c_exec_run_pays]. }
  intros euid. destruct (euid =? 0); [|done]. apply (owes_note false); [by apply not_run_result|].
  destruct (DenyRoot cfg); [by apply c_exec_refuse_pays|done].
Qed.

Lemma c_upload_refuse_pays fp remote res reason pth msg : pays (c_upload_refuse fp remote res reason pth msg).
Proof. unfold c_upload_refuse. apply (owes_note false); [by apply not_run_tool|done]. Qed.

Lemma c_uploadHandler_pays cfg ctx i : pays (c_uploadHandler cfg ctx i).
Proof.
  assert (pays (c_upload_checked cfg (fingerprintFromCtx ctx) (remoteAddrFromCtx ctx) i)) as Hc.
  { unfold c_upload_checked. destruct (_ >? _); [apply c_upload_refuse_pays|].
    destruct (std_decode _) as [dec|]; [|apply c_upload_refuse_pays].
    destruct (_ >? _); [apply c_upload_refuse_pays|].
    destruct (if String.eqb _ _ then _ else _); [|apply c_upload_refuse_pays].
    intros [res|e]; [by apply (owes_note false); [apply not_run_tool|]|].
    destruct (upload_verdict e). apply c_upload_refuse_pays. }
  intros euid. destruct (euid =? 0); [|done]. apply (owes_note false); [by apply not_run_tool|].
  destruct (u_DenyRoot cfg); [apply c_upload_refuse_pays|done].
Qed.

Lemma c_withAudit_pays {In Out} name (h : context → In → prog (outcome Out)) ctx i :
  name ≠ "execute_command"%string → pays (h ctx i) → pays (c_withAudit name h ctx i).
Proof.
  intros Hn Hh. apply owes_pbind; [done|]. intros [[[res out] err]|]; [|done].
  by apply (owes_note false); [apply not_run_tool|].
Qed.

Lemma c_NewHandler_pays ver execCfg uplCfg ctx c : pays (c_NewHandler ver execCfg uplCfg ctx c).
Proof.
  destruct c as [| |i|i]; (apply owes_pbind; [|done]).
  - by apply c_withAudit_pays.
  - by apply c_withAudit_pays.
  - apply c_execHandler_pays.
  - apply c_uploadHandler_pays.
Qed.

Lemma c_run_calls_pays ver execCfg uplCfg ctx cs : pays (c_run_calls ver execCfg uplCfg ctx cs).
Proof.
  induction cs as [|c cs IH]; [done|]. cbn [c_run_calls]. apply owes_pbind; [apply c_NewHandler_pays|].
  intros [o|]; [|done]. by apply owes_pbind.
Qed.

Lemma c_daemon_pays ver execCfg uplCfg hostAllow originAllow maxBody r :
  pays (c_daemon ver execCfg uplCfg hostAllow originAllow maxBody r).
Proof.
  unfold c_daemon, c_bodyLimit. set (r1 := {| Method := _ |}). unfold c_recover.
  apply owes_pbind; [|by intros []]. unfold c_hostOrigin.
  destruct (negb _); [apply c_refuse_pays|]. destruct (_ && _); [apply c_refuse_pays|].
  unfold c_auth. destruct (bearerToken r1) as [token|]; [|apply c_refuse_pays].
  intros [[key|]|e]; [|apply c_refuse_pays..]. intros [|]; [|apply c_refuse_pays].
  cbn [negb]. split; [by intros [? _]|]. intros [].
  unfold c_mux. destruct (negb _); [done|]. destruct (_ && _); [done|].
  destruct (String.eqb _ "/mcp"); [|done]. unfold c_mcpHandler.
  apply owes_pbind; [apply c_run_calls_pays|by intros [os|]].
Qed.
End owing.

(** *** The account of a run *)

Definition debts (ds : list bool) : nat := sum_list_with Nat.b2n ds.

Lemma debts_insert ds i d d' :
  ds !! i = Some d → (debts (<[i := d']> ds) + Nat.b2n d = debts ds + Nat.b2n d')%nat.
Proof.
  unfold debts. revert i. induction ds as [|b ds IH]; intros [|i] Hi; simplify_eq/=; [lia|].
  specialize (IH i Hi). lia.
Qed.

(** Requests whose program has not ended. *)
Definition under_way (th : thread) : Prop := match th_prog th with Done _ => False | Do _ _ => True end.
#[export] Instance under_way_dec th : Decision (under_way th).
Proof. unfold under_way. destruct (th_prog th); apply _. Defined.
Definition open_requests (ths : list thread) : nat := length (filter under_way ths).

Definition owing_thread (d : bool) (th : thread) : Prop := owes d (th_prog th).

Lemma debts_open ds ths : Forall2 owing_thread ds ths → (debts ds ≤ open_requests ths)%nat.
Proof.
  unfold debts, open_requests. induction 1 as [|d th ds ths Hd _ IH]; [done|].
  assert (d = true → under_way th) as Hu.
  { unfold owing_thread in Hd. unfold under_way. intros ->. by destruct (th_prog th). }
  rewrite filter_cons. destruct (decide (under_way th)) as [H|H]; destruct d; simpl; [lia..| |lia].
  by destruct (H (Hu eq_refl)).
Qed.

Section account.
Context `{RL : RateLimiter} `{JC : JsonCodec} `{GT : GoTables}.
Variable serve : phandler.
Hypothesis serve_pays : ∀ r, pays (serve r).

Definition starts (s : system) : nat := started (d_machine (w_app (sm_world s))).
Definition logged (s : system) : nat := logged_runs (w_audit (sm_world s)).

(** An action moves the account of its thread and that of the run alike. *)
Lemma owes_step {X} d (a : act X) (k : X → prog bool) x w w' :
  owes d (Do a k) → touches a x w w' →
  ∃ d', owes d' (k x)
    ∧ (started (d_machine (w_app w')) + logged_runs (w_audit w) + Nat.b2n d
       = started (d_machine (w_app w)) + logged_runs (w_audit w') + Nat.b2n d')%nat.
Proof.
  intros Ho [_ _ Hlog Hm]. rewrite Hlog, logged_runs_app, logged_runs_stamp.
  destruct a; simpl in Ho, Hm |- *; try (exists d; split; [by apply Ho|rewrite Hm; unfold logged_runs; simpl; lia]).
  - destruct Ho as [Hr Ho]. exists d. split; [by apply Ho|]. rewrite Hm. unfold logged_runs.
    rewrite filter_cons, decide_False by done. simpl. lia.
  - rewrite Hm. unfold logged_runs. rewrite filter_cons. destruct (decide (is_run rec)) as [Hr|Hr].
    + destruct Ho as [-> Ho]. exists false. split; [by apply Ho|]. simpl. lia.
    + exists d. split; [by apply Ho|]. simpl. lia.
  - destruct Ho as [-> Ho]. specialize (Ho x). change (logged_runs []) with 0%nat.
    destruct x as [[res|e]|].
    + exists true. split; [done|]. destruct Hm as (_ & cmd & c & m1 & _ & Hm1 & _ & _ & Hran).
      rewrite (started_app _ _ _ (ran_events _ _ _ _ _ _ _ Hran)), Hm1.
      rewrite filter_cons_True by exact I. rewrite filter_app. unfold kills.
      destruct (cancelled _ c); simpl; unfold started; simpl; lia.
    + exists false. split; [done|]. destruct Hm as [[Hm _] _]. unfold started. rewrite Hm. simpl. lia.
    + exists false. split; [done|]. destruct Hm as [[Hm _] _]. unfold started. rewrite Hm. simpl. lia.
Qed.

Lemma run_account s0 es s :
  sm_run serve s0 es s → sm_threads s0 = [] →
  ∃ ds, Forall2 owing_thread ds (sm_threads s)
    ∧ (starts s + logged s0 = starts s0 + logged s + debts ds)%nat.
Proof.
  intros Hr H0. induction Hr as [s0|s0 es s1 e s2 _ IH Hstep].
  { exists []. rewrite H0. split; [constructor|]. unfold debts. simpl. lia. }
  destruct (IH H0) as (ds & Hds & Heq). clear IH.
  destruct Hstep as [i th X a k x w' Hi Hp Hh|r| |l y _ _]; unfold starts, logged in *; simpl.
  - destruct (Forall2_lookup_r _ _ _ _ _ Hds Hi) as (d & Hd & Ho). unfold owing_thread in Ho.
    rewrite Hp in Ho. destruct (owes_step d a k x _ _ Ho (handle_touches _ _ _ _ Hh)) as (d' & Ho' & Hb).
    simpl in Hb. exists (<[i := d']> ds). split; [by apply Forall2_insert|].
    pose proof (debts_insert ds i d d' Hd). lia.
  - exists (ds ++ [false]). split; [apply Forall2_app; [done|]; constructor; [apply serve_pays|constructor]|].
    unfold debts in *. rewrite sum_list_with_app. simpl. lia.
  - by exists ds.
  - by exists ds.
Qed.
End account.

(** ** Guarantees *)

Section guarantees.
Context `{RL : RateLimiter} `{JC : JsonCodec} `{JL : !JsonLaws} `{GT : GoTables} `{SDK : McpSdk}.
Variables (ver : string) (execCfg : CmdExec.Config) (uplCfg : FileUpload.Config).
Variables (hostAllow originAllow : list string) (maxBody : Z).

Abbreviation c_serve := (c_daemon ver execCfg uplCfg hostAllow originAllow maxBody).

(** The program of actions is the handler: run without interruption on a
    request, it returns what [recoverMiddleware] over the whole chain and the
    tools returns, and leaves the same world. *)
Theorem one_at_a_time r w :
  alone (c_serve r) w = daemon_handler ver execCfg uplCfg hostAllow originAllow maxBody r w.
Proof. apply c_daemon_run. Qed.

(** C1: However requests interleave with each other, with [raxd key] commands
    and with failures, a tool acts only for a granted key.  In a run from a key
    store without keys, before an action of a tool for the i-th request, the
    key store had accepted that request's bearer token and then the limiter had
    let it pass; and before the acceptance a [Create] had given out a key with
    the same salted hash as the token, under an id whose revocation no [Revoke]
    had acknowledged.  Each operation of the key store counts as a whole. *)
Theorem concurrent_tools_need_granted_key s0 es1 e es2 s i v :
  sm_run c_serve s0 (es1 ++ e :: es2) s → sm_threads s0 = [] →
  db_at (y_path (keys_of s0)) (os_files (y_os (keys_of s0))) = Some {| Version := v; Keys := [] |} →
  ev_tool i e →
  ∃ r token rec before ev between,
    arrivals es1 !! i = Some r ∧ bearerToken r = Some token
    ∧ es1 = before ++ ev :: between ∧ ev_verified i token rec ev ∧ Exists (ev_allowed i) between
    ∧ (∃ j t fuel key rec0, LOp j t (OpCreate fuel (Label rec)) (RCreated key rec0) ∈ key_ops before
         ∧ ID rec0 = ID rec ∧ hashKey token (salt rec0) = hashKey key (salt rec0))
    ∧ ∀ j t, LOp j t (OpRevoke (ID rec)) RRevoked ∉ key_ops before.
Proof.
  intros Hrun H0 Hdb He.
  destruct (run_stages c_serve (c_daemon_asks _ _ _ _ _ _) s0 _ s Hrun H0) as (_ & _ & Htc).
  destruct (Htc es1 e es2 i eq_refl He) as (r & Hr & before & ev & between & token & rec & -> & Hb & Hv & Ha).
  assert (abstracts (keys_of s0) {| creds := ∅; pending := y_bufs (keys_of s0) |}) as Habs.
  { split; [done|]. eexists. split; [exact Hdb|]. split; [|done]. split; [done|apply NoDup_nil_2]. }
  rewrite <-app_assoc in Hrun. destruct (run_split c_serve _ _ _ _ _ Hrun) as (s1 & s2 & Hr1 & Hstep).
  pose proof (run_keys c_serve _ _ _ _ Hr1 Habs) as Ht.
  destruct (trace_simulation _ _ _ _ Ht Habs) as (sp & _ & Hsp).
  assert (∃ t, key_ops_of ev = [LOp 0 t (OpVerify token) (RAccepted rec)]) as [t Hev].
  { destruct ev as [j t X a x| | |]; try done. destruct Hv as [_ Hv]. destruct a; try done.
    destruct Hv as [-> ->]. by exists t. }
  destruct (step_keys c_serve _ _ _ _ Hstep Hsp) as [[Hn _]|(l & Hl & Hk)]; [congruence|].
  rewrite Hev in Hl. injection Hl as <-.
  destruct (accepted_was_granted _ _ _ _ v _ _ token rec Hdb Ht Hk) as [Hg Hnr].
  exists r, token, rec, before, ev, between. by split_and!.
Qed.


(** C5: At any moment of any interleaving the audit log accounts for the
    commands: the commands started are those the log says have run, and at most
    one more for each request that is under way.  When no request is, the two
    numbers agree, whatever was refused, failed or panicked. *)
Theorem concurrent_accounting s0 es s :
  sm_run c_serve s0 es s → sm_threads s0 = [] →
  (starts s0 + logged s ≤ starts s + logged s0
   ≤ starts s0 + logged s + open_requests (sm_threads s))%nat.
Proof.
  intros Hrun H0.
  destruct (run_account c_serve (c_daemon_pays _ _ _ _ _ _) s0 es s Hrun H0) as (ds & Hds & Heq).
  pose proof (debts_open _ _ Hds). lia.
Qed.
End guarantees.

(** ** Instances: two requests and a command at the same time *)

Section play.
Context `{RL : RateLimiter} `{GT : GoTables}.
Variable serve : phandler.

(** A schedule: who moves next. *)
Inductive move := Arrive (r : request) | Next (i : nat) | Collect | Operate (i : nat) (o : op).

Definition play_one (m : move) (s : system) : list sm_event * system :=
  match m with
  | Arrive r =>
      ([EvArrive r],
       {| sm_world := sm_world s; sm_others := sm_others s;
          sm_threads := sm_threads s ++ [{| th_request := r; th_writer := fresh_writer; th_prog := serve r |}] |})
  | Next i =>
      match sm_threads s !! i with
      | None => ([], s)
      | Some th =>
          match th_prog th with
          | Done _ => ([], s)
          | Do a k =>
              let (x, w') := handle a (with_writer (th_writer th) (sm_world s)) in
              ([EvAct i (os_now (p_os (w_proc (sm_world s)))) a x],
               {| sm_world := with_writer (w_writer (sm_world s)) w'; sm_others := sm_others s;
                  sm_threads := <[i := {| th_request := th_request th; th_writer := w_writer w';
                                          th_prog := k x |}]> (sm_threads s) |})
          end
      end
  | Collect =>
      let t := os_now (p_os (w_proc (sm_world s))) in
      ([EvCollect t],
       {| sm_world := (set_limiters (gc t (w_limiters (sm_world s))) (sm_world s)).2;
          sm_others := sm_others s; sm_threads := sm_threads s |})
  | Operate i o =>
      match y_bufs (keys_of s) !! i with
      | None => ([], s)
      | Some _ =>
          let (l, y) := after i o (keys_of s) in
          ([EvKeys l],
           {| sm_world := set_keys y (sm_world s); sm_others := delete 0%nat (y_bufs y);
              sm_threads := sm_threads s |})
      end
  end.

Fixpoint play (ms : list move) (s : system) : list sm_event * system :=
  match ms with
  | [] => ([], s)
  | m :: ms' =>
      let (es1, s1) := play_one m s in
      let (es2, s2) := play ms' s1 in (es1 ++ es2, s2)
  end.

(** The commands of a schedule are given what they may be given. *)
Definition fair (m : move) : Prop := match m with Operate _ o => op_ok o | _ => True end.

Lemma sm_run_app s0 es1 s1 es2 s2 : sm_run serve s0 es1 s1 → sm_run serve s1 es2 s2 → sm_run serve s0 (es1 ++ es2) s2.
Proof.
  intros H1 H2. revert H1. induction H2 as [s|s es s' e s'' _ IH Hs]; intros H1; [by rewrite app_nil_r|].
  rewrite app_assoc. eapply run_snoc; [by apply IH|exact Hs].
Qed.

Lemma sm_run_one s e s' : sm_step serve s e s' → sm_run serve s [e] s'.
Proof. intros Hs. apply (run_snoc _ s [] s); [constructor|done]. Qed.

Lemma play_one_run m s : fair m → sm_run serve s (play_one m s).1 (play_one m s).2.
Proof.
  intros Hf. destruct m as [r|i| |i o]; cbn [play_one].
  - apply sm_run_one, StepArrive.
  - destruct (sm_threads s !! i) as [th|] eqn:Hi; [|constructor].
    destruct (th_prog th) as [b|X a k] eqn:Hp; [constructor|].
    destruct (handle a _) as [x w'] eqn:Hh. apply sm_run_one. by eapply StepAct.
  - apply sm_run_one, StepCollect.
  - destruct (y_bufs (keys_of s) !! i) as [buf|] eqn:Hb; [|constructor].
    pose proof (after_step i o (keys_of s) (ex_intro _ buf Hb) Hf) as Hstep.
    assert (is_Some (y_bufs (after i o (keys_of s)).2 !! 0%nat)) as H0.
    { unfold after. destruct (run_op _ _). cbn [snd y_bufs]. destruct (decide (i = 0%nat)) as [->|Hne].
      - rewrite lookup_insert_eq. eauto.
      - rewrite lookup_insert_ne by done. unfold keys_of. cbn [y_bufs]. rewrite lookup_insert_eq. eauto. }
    destruct (after i o (keys_of s)) as [l y]. apply sm_run_one, StepKeys; [exact Hstep|exact H0].
Qed.

Lemma play_run ms s : Forall fair ms → sm_run serve s (play ms s).1 (play ms s).2.
Proof.
  revert s. induction ms as [|m ms IH]; intros s Hf; [constructor|]. apply Forall_cons in Hf as [Hm Hf].
  pose proof (play_one_run m s Hm) as H1. cbn [play]. destruct (play_one m s) as [es1 s1].
  specialize (IH s1 Hf). destruct (play ms s1) as [es2 s2]. by eapply sm_run_app.
Qed.
End play.

(** The daemon and a command, 1, on an empty database. *)
Definition demo_system : system :=
  {| sm_world := demo_daemon_world (proc_of both_open ∅); sm_others := {[1%nat := ∅]}; sm_threads := [] |}.

Definition demo_serve : phandler := c_daemon "1.0" demo_cfg (up_cfg 0) ["localhost"%string] [] 1048576.

Definition the_id : string := match created.1 with LOp _ _ _ (RCreated _ rec) => ID rec | _ => "" end.

(** The command creates the key; two requests with it come and move in turns;
    the command revokes it while both are under way; a third request comes too
    late. *)
Definition demo_moves : list move :=
  [Operate 1 (OpCreate 3 "laptop"); Arrive key_request; Arrive key_request;
   Next 0; Next 1; Next 1; Next 0; Operate 1 (OpRevoke the_id); Next 0; Next 1; Collect;
   Arrive key_request; Next 2; Next 1; Next 0; Next 0; Next 1; Next 0; Next 2; Next 0; Next 0; Next 1;
   Next 0; Next 1; Next 1; Next 1; Next 2].

Definition demo_run : list sm_event * system := play (RL:=int_limiter) demo_serve demo_moves demo_system.

Lemma demo_moves_fair : Forall fair demo_moves.
Proof. repeat constructor. Qed.

Lemma demo_run_is : sm_run (RL:=int_limiter) demo_serve demo_system demo_run.1 demo_run.2.
Proof. exact (play_run demo_serve demo_moves demo_system demo_moves_fair). Qed.

(** Both commands were run and are in the log; the third request was refused. *)
Example demo_run_ends :
  (starts demo_run.2, logged demo_run.2, open_requests (sm_threads demo_run.2), length demo_run.1,
   map (λ th, w_status (th_writer th)) (sm_threads demo_run.2))
  = (2%nat, 2%nat, 0%nat, 27%nat, [Some 200; Some 200; Some 401]).
Proof. vm_compute. reflexivity. Qed.

(** The first action of a tool in a list of events. *)
Definition is_tool_of (i : nat) (e : sm_event) : bool :=
  match e with EvAct j _ a _ => Nat.eqb i j && is_tool a | _ => false end.

Lemma is_tool_of_ev i e : is_tool_of i e = true → ev_tool i e.
Proof. destruct e as [j t X a x| | |]; simpl; [|done..]. by intros [->%Nat.eqb_eq Ha]%andb_true_iff. Qed.

Fixpoint first_tool (i : nat) (es : list sm_event) : option (list sm_event * sm_event * list sm_event) :=
  match es with
  | [] => None
  | e :: es' =>
      if is_tool_of i e then Some ([], e, es')
      else option_map (λ '(es1, e', es2), (e :: es1, e', es2)) (first_tool i es')
  end.

Lemma first_tool_split i es es1 e es2 :
  first_tool i es = Some (es1, e, es2) → es = es1 ++ e :: es2 ∧ ev_tool i e.
Proof.
  revert es1. induction es as [|e0 es IH]; intros es1 Hf; simpl in Hf; [done|].
  destruct (is_tool_of i e0) eqn:Ht; [injection Hf as <- <- <-; split; [done|by apply is_tool_of_ev]|].
  destruct (first_tool i es) as [[[es1' e'] es2']|]; [|done]. injection Hf as <- <- <-.
  destruct (IH es1' eq_refl) as [-> He]. done.
Qed.

Lemma concurrent_tools_need_granted_key_witness :
  ∃ es1 r token rec j t fuel key rec0,
    arrivals es1 !! 1%nat = Some r ∧ bearerToken r = Some token
    ∧ LOp j t (OpCreate fuel (Label rec)) (RCreated key rec0) ∈ key_ops es1
    ∧ ID rec0 = ID rec.
Proof.
  destruct (first_tool 1 demo_run.1) as [[[es1 e] es2]|] eqn:E;
    [|exfalso; assert (match first_tool 1 demo_run.1 with Some _ => true | None => false end = true) as H
        by (vm_compute; reflexivity); rewrite E in H; discriminate].
  destruct (first_tool_split _ _ _ _ _ E) as [Hes He].
  destruct (concurrent_tools_need_granted_key (RL:=int_limiter) "1.0" demo_cfg (up_cfg 0) ["localhost"%string] []
    1048576 demo_system es1 e es2 demo_run.2 1 1)
    as (r & token & rec & before & ev & between & H1 & H2 & H3 & _ & _ & (j & t & fuel & key & rec0 & H4 & H5 & _) & _).
  - rewrite <-Hes. exact demo_run_is.
  - reflexivity.
  - exact both_open_db.
  - exact He.
  - exists es1, r, token, rec, j, t, fuel, key, rec0. split_and!; try assumption.
    rewrite H3. unfold key_ops. rewrite map_app, concat_app. apply elem_of_app. left. exact H4.
Defined.

Lemma concurrent_accounting_witness :
  (starts demo_system + logged demo_run.2 ≤ starts demo_run.2 + logged demo_system
   ≤ starts demo_system + logged demo_run.2 + open_requests (sm_threads demo_run.2))%nat.
Proof.
  apply (concurrent_accounting (RL:=int_limiter) "1.0" demo_cfg (up_cfg 0) ["localhost"%string] [] 1048576
    demo_system demo_run.1); [exact demo_run_is|reflexivity].
Defined.

