(* ===== verification/DaemonRun.v ===== *)
(** * DaemonRun: the life of the daemon with its requests in flight.

    [ServerRun.Run] is the method [Run] of [internal/server/server.go] for runs in
    which every request is answered before serving ends.  Here the same function
    runs beside the goroutines of the requests, action by action (Concurrent):
    requests may be under way when [Serve] fails, when [Shutdown] gives up after
    its 30 seconds, during the flush, and when [Run] returns and the process
    ends.  What [Run] logs and its hooks are in [ServerRun]. *)

From S2P Require Import Prelude Interleave GoText GoEncoding GoCrypto GoPath GoOs GoFs.
From S2P Require Import Keystore KeystoreProofs KeystoreHistory KeystoreCodec KeystoreTheorems KeystoreSpec ServerAudit Server ServerTheorems Processes CmdExec FileUpload FileUploadTheorems Mcp McpTheorems ServerRun Daemon DaemonTheorems Concurrent ConcurrentTheorems.
Open Scope Z_scope.
Open Scope go_scope.
#[local] Existing Instance daemon_app.

(** ** The goroutine of [Run] *)

(** How serving ended: [Serve] returned before the context was cancelled,
    [Shutdown] found every connection idle, or it was called at [since] and gave
    up waiting at [until]. *)
Inductive ending :=
| EndServe (closed : bool) (msg : string)
| EndDrained
| EndTimedOut (since until : Time).

(** In the [select], in [Shutdown] since a time, between [Shutdown] and the
    flush, and after the return. *)
Inductive phase := Serving | Draining (since : Time) | Flushing (e : ending) | Returned (e : ending).

#[export] Instance ending_eq_dec : EqDecision ending.
Proof. solve_decision. Defined.
#[export] Instance phase_eq_dec : EqDecision phase.
Proof. solve_decision. Defined.

(** What [Run] returns. *)
Definition run_result (e : ending) : result runerr unit :=
  match e with
  | EndServe closed msg => if closed then Ok tt else Err (ErrServe msg)
  | _ => Ok tt
  end.

Definition drained (ph : phase) : bool :=
  match ph with Flushing EndDrained | Returned EndDrained => true | _ => false end.

Section life.
Context `{RL : RateLimiter} `{JC : JsonCodec} `{GT : GoTables}.
Variable serve : phandler.

Definition clock (s : system) : Time := os_now (p_os (w_proc (sm_world s))).

(** No request is under way. *)
Definition all_answered (s : system) : Prop := Forall (λ th, ¬ under_way th) (sm_threads s).

(** What goes on beside the goroutine of [Run]: the requests, other processes, the
    machine.  A connection that was accepted can bring a request also while
    [Shutdown] waits, but not when all connections are closed.  The daemon's own
    operations on the key store are the actions of its requests and the flush. *)
Definition beside (ph : phase) (e : sm_event) : bool :=
  match e with
  | EvArrive _ => negb (drained ph)
  | EvKeys (LOp O _ _ _) => false
  | _ => true
  end.

Inductive life_step : system * phase → list sm_event → system * phase → Prop :=
| LifeBeside s ph e s' :
    beside ph e = true → sm_step serve s e s' → life_step (s, ph) [e] (s', ph)
| LifeServeEnds s closed msg :
    life_step (s, Serving) [] (s, Returned (EndServe closed msg))
| LifeCancelled s :
    life_step (s, Serving) [] (s, Draining (clock s))
| LifeDrained s t :
    all_answered s → life_step (s, Draining t) [] (s, Flushing EndDrained)
| LifeTimedOut s t :
    t + shutdown_timeout ≤ clock s → life_step (s, Draining t) [] (s, Flushing (EndTimedOut t (clock s)))
| LifeFlush s e t r s' :
    sm_step serve s (EvKeys (LOp 0 t OpFlush r)) s' →
    life_step (s, Flushing e) [EvKeys (LOp 0 t OpFlush r)] (s', Returned e).

(** A run from the moment the port is bound. *)
Inductive life_run (s0 : system) : list sm_event → system * phase → Prop :=
| life_nil : life_run s0 [] (s0, Serving)
| life_snoc es x es' y : life_run s0 es x → life_step x es' y → life_run s0 (es ++ es') y.

(** ** Invariants *)

Lemma life_run_system s0 es x : life_run s0 es x → sm_run serve s0 es x.1.
Proof.
  induction 1 as [|es x es' y _ IH Hs]; [constructor|].
  destruct Hs; simpl in *; try (by rewrite app_nil_r); by eapply run_snoc.
Qed.

(** Once all requests are answered and none can come, the steps that remain leave
    it so, and leave the daemon's side of the key store alone or are steps of
    other processes. *)
Lemma answered_step s ph e s' :
  drained ph = true → beside ph e = true → all_answered s → sm_step serve s e s' →
  all_answered s' ∧ (w_proc (sm_world s') = w_proc (sm_world s) ∧ key_ops_of e = [] ∨ ∃ l, e = EvKeys l).
Proof.
  intros Hd Hb Ha Hs. destruct Hs as [i th X a k x w' Hi Hp _|r| |l y Hy _].
  - exfalso. eapply Forall_lookup_1 in Ha; [|exact Hi]. apply Ha. unfold under_way. by rewrite Hp.
  - simpl in Hb. by rewrite Hd in Hb.
  - by split; [|left].
  - split; [exact Ha|]. right. by exists l.
Qed.

Lemma life_answered s0 es s ph :
  life_run s0 es (s, ph) → drained ph = true → all_answered s.
Proof.
  intros Hr. remember (s, ph) as x eqn:Hx. revert s ph Hx.
  induction Hr as [|es x es' y _ IH Hs]; intros s ph Hx Hd; [by simplify_eq|].
  destruct Hs as [s1 ph1 e s2 Hb Hs|s1 closed msg|s1|s1 t Ha|s1 t Ht|s1 e t r s2 Hs]; simplify_eq/=; try done.
  - specialize (IH _ _ eq_refl Hd). by destruct (answered_step _ _ _ _ Hd Hb IH Hs).
  - specialize (IH _ _ eq_refl Hd). inversion Hs; subst. exact IH.
Qed.

Lemma answered_open s : all_answered s → open_requests (sm_threads s) = 0%nat.
Proof.
  unfold all_answered, open_requests. induction 1 as [|th ths Hn _ IH]; [done|].
  by rewrite filter_cons, decide_False by done.
Qed.

(** ** The flush empties the buffer *)

Lemma FlushUsage_empties p : wp FlushUsage (λ r p', r = Ok tt → usageBuf (p_store p') = ∅) p.
Proof.
  destruct p as [st s]. apply wp_bind, wp_gets. simpl. case_decide as Hb; [by apply wp_ret|].
  apply wp_bind, wp_modify, wp_bind, wp_gets, wp_bind, wp_on_os, wp_intro. intros lk s1 _.
  destruct lk as [lf|e]; [|by apply wp_bind, wp_modify, wp_ret].
  apply wp_deferring, wp_bind, wp_on_os, wp_intro. intros db s2 _.
  destruct db as [db|e].
  - apply wp_on_os, wp_intro. intros r s3 _. by apply wp_on_os, wp_intro.
  - apply wp_bind, wp_modify, wp_ret, wp_on_os, wp_intro. by intros.
Qed.

Definition buffer (s : system) : gmap string Time := usageBuf (p_store (w_proc (sm_world s))).

Lemma flush_step s t s' :
  sm_step serve s (EvKeys (LOp 0 t OpFlush RFlushed)) s' → buffer s' = ∅.
Proof.
  intros Hs. inversion Hs as [| | |l y Hy Hi]; subst. inversion Hy as [| | |i o y0 buf r p' Hb Ho Hrun]; subst.
  unfold buffer, set_keys. simpl. rewrite lookup_insert_eq. simpl.
  unfold run_op, bind in Hrun. destruct (FlushUsage _) as [[[]|e] p1] eqn:E; [|done].
  injection Hrun as <-. exact (wp_run _ _ _ _ _ E (FlushUsage_empties _) eq_refl).
Qed.

(** The steps of other processes leave the daemon's buffer alone. *)
Lemma foreign_step s l s' :
  beside (Returned EndDrained) (EvKeys l) = true → sm_step serve s (EvKeys l) s' → buffer s' = buffer s.
Proof.
  intros Hb Hs. inversion Hs as [| | |l0 y Hy Hi]; subst. unfold buffer, set_keys. simpl.
  assert (y_bufs (keys_of s) !! 0%nat = Some (buffer s)) as H0 by apply lookup_insert_eq.
  inversion Hy as [i y0 Hn Ho|i y0|y0 o Hf|i o y0 buf r p' Hbuf Ho Hrun]; subst; simpl in *.
  - rewrite lookup_insert_ne; [by rewrite H0|]. intros ->. congruence.
  - rewrite lookup_delete_ne; [by rewrite H0|]. intros ->. rewrite lookup_delete_eq in Hi. by destruct Hi.
  - by rewrite H0.
  - destruct i as [|i]; [done|]. rewrite lookup_insert_ne by done. by rewrite H0.
Qed.

(** What [Shutdown] waited. *)
Lemma life_timeout s0 es s since until :
  life_run s0 es (s, Returned (EndTimedOut since until)) → since + shutdown_timeout ≤ until.
Proof.
  intros Hr.
  assert (∀ x, life_run s0 es x → match x.2 with
    | Flushing (EndTimedOut a b) | Returned (EndTimedOut a b) => a + shutdown_timeout ≤ b
    | _ => True
    end) as H; [|exact (H _ Hr)].
  clear Hr. induction 1 as [|es x es' y _ IH Hs]; [done|]. by destruct Hs.
Qed.

Context `{JL : !JsonLaws}.

(** What a flush that succeeds leaves on the disk. *)
Lemma flush_writes_uses s t s' db :
  sm_step serve s (EvKeys (LOp 0 t OpFlush RFlushed)) s' →
  store_db (w_proc (sm_world s)) = Some db → wf_db db →
  store_db (w_proc (sm_world s')) = Some {| Version := Version db; Keys := apply_usage (buffer s) (Keys db) |}.
Proof.
  intros Hs Hdb [Ht _]. inversion Hs as [| | |l y Hy Hi]; subst.
  inversion Hy as [| | |i o y0 buf r p' Hb Ho Hrun]; subst.
  assert (y_bufs (keys_of s) !! 0%nat = Some (buffer s)) as H0 by apply lookup_insert_eq.
  rewrite H0 in Hb. injection Hb as <-.
  unfold run_op, bind in Hrun. destruct (FlushUsage _) as [[[]|e] p1] eqn:E; [|done].
  injection Hrun as <-.
  destruct (wp_run _ _ _ _ _ E (FlushUsage_spec (proc_of (keys_of s) (buffer s)) db Hdb Ht)) as (_ & Hpath & _ & Hst).
  unfold store_db in *. rewrite Hpath in Hst. exact Hst.
Qed.

Lemma apply_usage_used buf ks d used :
  d ∈ apply_usage buf ks → d_Revoked d = false → buf !! d_ID d = Some used → d_LastUsed d = used.
Proof.
  unfold apply_usage. intros (k & -> & Hk)%list_elem_of_fmap. destruct (buf !! d_ID k) as [t|] eqn:E.
  - destruct (d_Revoked k) eqn:Er; [congruence|]. simpl. congruence.
  - congruence.
Qed.

(** *** The last uses *)

(** The time of the last verification that accepted a key with the id. *)
Definition use_of (id : string) (acc : option Time) (l : KeystoreSpec.label) : option Time :=
  match l with
  | LOp O t (OpVerify _) (RAccepted rec) => if String.eqb (ID rec) id then Some t else acc
  | _ => acc
  end.
Definition last_use (id : string) (ls : list KeystoreSpec.label) : option Time := foldl (use_of id) None ls.

Lemma last_use_app id ls ls' : last_use id (ls ++ ls') = foldl (use_of id) (last_use id ls) ls'.
Proof. apply foldl_app. Qed.

Lemma act_buffer s i th {X} (a : act X) x w' db id :
  store_db (w_proc (sm_world s)) = Some db →
  handle a (with_writer (th_writer th) (sm_world s)) = (x, w') →
  usageBuf (p_store (w_proc w')) !! id
  = foldl (use_of id) (buffer s !! id) (key_ops_of (@EvAct i (clock s) X a x)).
Proof.
  intros Hdb Hh. pose proof (touches_keys _ _ _ _ (handle_touches _ _ _ _ Hh)) as Hk.
  unfold buffer, clock. destruct a; try (by rewrite Hk). rewrite with_writer_proc in Hk. simpl.
  destruct (wp_run _ _ _ _ _ Hk (Verify_spec token _ db Hdb)) as [_ Hr].
  destruct x as [[rec|]|e]; simpl; [|by destruct Hr as [_ ->]..].
  destruct Hr as (d & _ & -> & ->). simpl. destruct (String.eqb_spec (d_ID d) id) as [->|Hne].
  - by rewrite lookup_insert_eq.
  - by rewrite lookup_insert_ne.
Qed.

(** The key store is well formed at any moment. *)
Lemma life_store s0 es x db0 :
  life_run s0 es x → store_db (w_proc (sm_world s0)) = Some db0 → wf_db db0 →
  ∃ db, store_db (w_proc (sm_world x.1)) = Some db ∧ wf_db db.
Proof.
  intros Hr Hdb Hwf. apply life_run_system in Hr.
  assert (abstracts (keys_of s0) {| creds := creds_of (Keys db0); pending := y_bufs (keys_of s0) |}) as Ha
    by (split; [done|]; by exists db0).
  pose proof (run_keys serve _ _ _ _ Hr Ha) as Ht.
  destruct (trace_simulation _ _ _ _ Ht Ha) as (sp & _ & _ & db & Hd & Hw & _). by exists db.
Qed.

(** Until [Run] returns, the buffer has the last use of each key. *)
Lemma life_buffer s0 es s ph db0 :
  life_run s0 es (s, ph) → store_db (w_proc (sm_world s0)) = Some db0 → wf_db db0 → buffer s0 = ∅ →
  (∀ e, ph ≠ Returned e) → ∀ id, buffer s !! id = last_use id (key_ops es).
Proof.
  intros Hr Hdb Hwf Hb0. remember (s, ph) as x eqn:Hx. revert s ph Hx.
  induction Hr as [|es x es' y Hr IH Hs]; intros s ph Hx Hph id; [simplify_eq; by rewrite Hb0|].
  destruct (life_store _ _ _ _ Hr Hdb Hwf) as (db & Hd & _).
  destruct Hs as [s1 ph1 e s2 Hb Hs|s1 closed msg|s1|s1 t Ha|s1 t Ht|s1 e t r s2 Hs]; simplify_eq/=;
    try (rewrite app_nil_r; by eapply IH); [|by destruct (Hph e)].
  specialize (IH _ _ eq_refl Hph id). rewrite key_ops_snoc, last_use_app, <-IH.
  destruct Hs as [i th X a k x w' Hi Hp Hh|r| |l z Hy Hz]; [|done|done|].
  - exact (act_buffer s1 i th a x w' db id Hd Hh).
  - assert (buffer {| sm_world := set_keys z (sm_world s1); sm_others := delete 0%nat (y_bufs z);
      sm_threads := sm_threads s1 |} = buffer s1) as -> by by apply (foreign_step s1 l); [|apply StepKeys].
    by destruct l as [| | |[|] ? [] []].
Qed.

(** A drained run has flushed, and no verification came later. *)
Lemma life_flush s0 es s :
  life_run s0 es (s, Returned EndDrained) →
  ∃ es1 s1 t r s2 es2, es = es1 ++ EvKeys (LOp 0 t OpFlush r) :: es2
    ∧ life_run s0 es1 (s1, Flushing EndDrained) ∧ sm_step serve s1 (EvKeys (LOp 0 t OpFlush r)) s2
    ∧ buffer s = buffer s2 ∧ ∀ i, last_use i (key_ops es) = last_use i (key_ops es1).
Proof.
  intros Hr. remember (s, Returned EndDrained) as x eqn:Hx. revert s Hx.
  induction Hr as [|es x es' y Hr IH Hs]; intros s Hx; [by simplify_eq|].
  destruct Hs as [s1 ph1 e s2 Hb Hs|s1 closed msg|s1|s1 t Ha|s1 t Ht|s1 e t r s2 Hs]; simplify_eq/=.
  - destruct (IH _ eq_refl) as (es1 & s3 & t & r & s4 & es2 & -> & H1 & H2 & H3 & H4).
    pose proof (life_answered _ _ _ _ Hr eq_refl) as Ha.
    exists es1, s3, t, r, s4, (es2 ++ [e]). rewrite <-app_assoc. split; [done|]. split; [done|].
    split; [done|]. rewrite <-H3.
    destruct (answered_step s1 (Returned EndDrained) e s eq_refl Hb Ha Hs) as [_ [[Hw Hk]|[l ->]]].
    + split; [unfold buffer; by rewrite Hw|]. intros i. rewrite app_assoc, <-(H4 i).
      by rewrite key_ops_snoc, Hk, app_nil_r.
    + split; [by eapply foreign_step|]. intros i. rewrite app_assoc, <-(H4 i).
      rewrite key_ops_snoc, last_use_app. by destruct l as [| | |[|] ? [] []].
  - exists es, s1, t, r, s, []. split_and!; try done. intros i.
    by rewrite key_ops_snoc, last_use_app.
Qed.
End life.

(** ** Guarantees *)

Section guarantees.
Context `{RL : RateLimiter} `{JC : JsonCodec} `{JL : !JsonLaws} `{GT : GoTables} `{SDK : McpSdk}.
Variables (ver : string) (execCfg : CmdExec.Config) (uplCfg : FileUpload.Config).
Variables (hostAllow originAllow : list string) (maxBody : Z).

Abbreviation c_serve := (c_daemon ver execCfg uplCfg hostAllow originAllow maxBody).

(** C9: From the first request to the end of the process the audit log accounts
    for the commands.  At any moment the commands started are those the log says
    have run, and at most one more for each request under way.  When the process
    ends after [Shutdown] found every request answered, the two numbers are
    equal: no command is without its record.  They can differ at the end only
    after [Serve] failed by itself, or when [Shutdown] gave up, 30 seconds or more
    after the cancellation, with requests under way. *)
Theorem run_accounts_for_commands s0 es s ph :
  life_run c_serve s0 es (s, ph) → sm_threads s0 = [] →
  (starts s0 + logged s ≤ starts s + logged s0
   ≤ starts s0 + logged s + open_requests (sm_threads s))%nat
  ∧ ∀ e, ph = Returned e →
      match e with
      | EndDrained => (starts s + logged s0 = starts s0 + logged s)%nat
      | EndTimedOut since until => since + shutdown_timeout ≤ until
      | EndServe _ _ => True
      end.
Proof.
  intros Hrun H0. pose proof (life_run_system _ _ _ _ Hrun) as Hsm.
  destruct (run_account c_serve (c_daemon_pays _ _ _ _ _ _) s0 es s Hsm H0) as (ds & Hds & Heq).
  pose proof (debts_open _ _ Hds) as Hd. split; [lia|]. intros [closed msg| |since until] ->; [done| |].
  - pose proof (answered_open _ (life_answered _ _ _ _ _ Hrun eq_refl)). lia.
  - by eapply life_timeout.
Qed.

(** C10: A drained shutdown saves the last use of every key.  When [Run] returns
    after [Shutdown] found every request answered, it has flushed, after the last
    verification of any request, and if the flush succeeded then nothing is left
    in the buffer, and each active record on the disk of the flush has as its
    last use the time of the last request that was accepted with its key, if
    there was one; however the requests interleaved, with each other and with
    [raxd key] commands, and whatever calls failed before. *)
Theorem drained_run_saves_last_uses s0 es s db0 :
  life_run c_serve s0 es (s, Returned EndDrained) →
  store_db (w_proc (sm_world s0)) = Some db0 → wf_db db0 → buffer s0 = ∅ →
  ∃ es1 t r es2 s2, es = es1 ++ EvKeys (LOp 0 t OpFlush r) :: es2
    ∧ sm_run c_serve s0 (es1 ++ [EvKeys (LOp 0 t OpFlush r)]) s2
    ∧ (r = RFlushed → buffer s = ∅ ∧ ∃ db, store_db (w_proc (sm_world s2)) = Some db
        ∧ ∀ d used, d ∈ Keys db → d_Revoked d = false →
            last_use (d_ID d) (key_ops es) = Some used → d_LastUsed d = used).
Proof.
  intros Hrun Hdb Hwf Hb. destruct (life_flush _ _ _ _ Hrun) as (es1 & s1 & t & r & s2 & es2 & -> & H1 & H2 & H3 & H4).
  exists es1, t, r, es2, s2. split; [done|].
  split; [eapply run_snoc; [exact (life_run_system _ _ _ _ H1)|exact H2]|]. intros ->.
  split; [rewrite H3; by eapply flush_step|].
  destruct (life_store _ _ _ _ _ H1 Hdb Hwf) as (db1 & Hd1 & Hw1).
  pose proof (life_buffer _ _ _ _ _ _ H1 Hdb Hwf Hb ltac:(done)) as Hbuf.
  eexists. split; [by eapply flush_writes_uses|]. simpl. intros d used Hd Hrv Hu. rewrite H4, <-Hbuf in Hu.
  by eapply apply_usage_used.
Qed.
End guarantees.

(** ** Instances *)

Section lives.
Context `{RL : RateLimiter} `{GT : GoTables}.
Variable serve : phandler.

Lemma life_goes_on sb es0 s es s' ph :
  life_run serve sb es0 (s, ph) → sm_run serve s es s' → forallb (beside ph) es = true →
  life_run serve sb (es0 ++ es) (s', ph).
Proof.
  intros H0 Hr. revert H0. induction Hr as [s|s es s1 e s2 _ IH Hs]; intros H0 Hb; [by rewrite app_nil_r|].
  rewrite forallb_app in Hb. apply andb_true_iff in Hb as [Hb He]. simpl in He.
  rewrite andb_true_r in He. rewrite app_assoc. eapply life_snoc; [by apply IH|]. by apply LifeBeside.
Qed.

Lemma life_moves sb es x y : life_run serve sb es x → life_step serve x [] y → life_run serve sb es y.
Proof. intros Hr Hs. rewrite <-(app_nil_r es). by eapply life_snoc. Qed.

Lemma life_flushes sb es s e :
  life_run serve sb es (s, Flushing e) →
  life_run serve sb (es ++ (play_one serve (Operate 0 OpFlush) s).1)
    ((play_one serve (Operate 0 OpFlush) s).2, Returned e).
Proof.
  intros Hr. eapply life_snoc; [exact Hr|]. cbn [play_one].
  assert (y_bufs (keys_of s) !! 0%nat = Some (buffer s)) as H0 by apply lookup_insert_eq. rewrite H0.
  pose proof (after_step 0 OpFlush (keys_of s) (ex_intro _ _ H0) I) as Hs. unfold after in *.
  destruct (run_op _ _) as [r p']. apply LifeFlush, StepKeys; [exact Hs|].
  simpl. rewrite lookup_insert_eq. eauto.
Qed.
End lives.

(** The run of [demo_run], a cancellation when all is answered, and the flush. *)
Definition drained_run : list sm_event * system :=
  play_one (RL:=int_limiter) demo_serve (Operate 0 OpFlush) demo_run.2.

Lemma demo_serving : life_run (RL:=int_limiter) demo_serve demo_system demo_run.1 (demo_run.2, Serving).
Proof.
  refine (life_goes_on demo_serve demo_system [] demo_system demo_run.1 demo_run.2 Serving (life_nil _ _) demo_run_is _).
  vm_compute. reflexivity.
Qed.

Lemma drained_run_is :
  life_run (RL:=int_limiter) demo_serve demo_system (demo_run.1 ++ drained_run.1)
    (drained_run.2, Returned EndDrained).
Proof.
  refine (life_flushes demo_serve demo_system demo_run.1 demo_run.2 EndDrained _).
  refine (life_moves _ _ _ _ _ (life_moves _ _ _ _ _ demo_serving (LifeCancelled _ _)) (LifeDrained _ _ _ _)).
  apply (bool_decide_unpack (Forall (λ th, ¬ under_way th) (sm_threads demo_run.2))). vm_compute. exact I.
Qed.

Lemma run_accounts_for_commands_witness :
  starts drained_run.2 = 2%nat ∧ logged drained_run.2 = 2%nat.
Proof.
  destruct (run_accounts_for_commands (RL:=int_limiter) "1.0" demo_cfg (up_cfg 0) ["localhost"%string] [] 1048576
    demo_system _ _ _ drained_run_is eq_refl) as [_ H].
  specialize (H EndDrained eq_refl). cbv beta iota in H.
  assert (starts drained_run.2 = 2%nat) as Hs by (vm_compute; reflexivity). split; [exact Hs|].
  rewrite Hs in H. change (logged demo_system) with 0%nat in H. change (starts demo_system) with 0%nat in H.
  rewrite Nat.add_0_r in H. symmetry. exact H.
Defined.

Lemma drained_run_saves_last_uses_witness :
  ∃ es1 t r es2, demo_run.1 ++ drained_run.1 = es1 ++ EvKeys (LOp 0 t OpFlush r) :: es2
    ∧ (r = RFlushed → buffer drained_run.2 = ∅).
Proof.
  destruct (drained_run_saves_last_uses (RL:=int_limiter) "1.0" demo_cfg (up_cfg 0) ["localhost"%string] [] 1048576
    demo_system _ _ empty_db drained_run_is both_open_db) as (es1 & t & r & es2 & s2 & H1 & _ & H2).
  - split; [vm_compute; reflexivity|apply NoDup_nil_2].
  - vm_compute; reflexivity.
  - exists es1, t, r, es2. split; [exact H1|]. intros Hr. exact (proj1 (H2 Hr)).
Defined.

(** One use was in the buffer, and was saved. *)
Example drained_run_flushes :
  (key_ops drained_run.1, size (buffer demo_run.2), size (buffer drained_run.2))
  = ([LOp 0 1000 OpFlush RFlushed], 1%nat, 0%nat).
Proof. vm_compute. reflexivity. Qed.

(** *** A command without a record *)

(** A request that has got as far as its command when the daemon is told to stop;
    30 seconds later it is still there. *)
Definition busy_moves : list move :=
  [Operate 1 (OpCreate 3 "laptop"); Arrive key_request; Next 0; Next 0; Next 0; Next 0; Next 0; Next 0; Next 0].
Definition busy_run : list sm_event * system := play (RL:=int_limiter) demo_serve busy_moves demo_system.

Definition later (dt : Z) (s : system) : system :=
  {| sm_world := set_keys {| y_os := p_os (w_proc (pass_time dt (sm_world s)).2); y_path := y_path (keys_of s);
                             y_bufs := y_bufs (keys_of s) |} (sm_world s);
     sm_others := delete 0%nat (y_bufs (keys_of s)); sm_threads := sm_threads s |}.

Definition waited : system := later shutdown_timeout busy_run.2.
Definition cut_run : list sm_event * system := play_one (RL:=int_limiter) demo_serve (Operate 0 OpFlush) waited.
Definition cut_ending : ending := EndTimedOut (clock busy_run.2) (clock waited).

Lemma busy_serving : life_run (RL:=int_limiter) demo_serve demo_system busy_run.1 (busy_run.2, Serving).
Proof.
  refine (life_goes_on demo_serve demo_system [] demo_system busy_run.1 busy_run.2 Serving (life_nil _ _) _ _).
  - refine (play_run demo_serve busy_moves demo_system _). repeat constructor.
  - vm_compute. reflexivity.
Qed.

Lemma later_step (serve : phandler) dt s : sm_step (RL:=int_limiter) serve s (EvKeys LHost) (later dt s).
Proof.
  refine (StepKeys serve s LHost _ (SysHost (keys_of s) (p_os (w_proc (pass_time dt (sm_world s)).2)) eq_refl) _).
  simpl. rewrite lookup_insert_eq. eauto.
Qed.

Lemma busy_waits :
  life_run (RL:=int_limiter) demo_serve demo_system (busy_run.1 ++ [EvKeys LHost])
    (waited, Draining (clock busy_run.2)).
Proof.
  refine (life_snoc _ _ _ _ _ _ (life_moves _ _ _ _ _ busy_serving (LifeCancelled _ _)) _).
  apply LifeBeside; [reflexivity|apply later_step].
Qed.

Lemma cut_run_is :
  life_run (RL:=int_limiter) demo_serve demo_system (busy_run.1 ++ [EvKeys LHost] ++ cut_run.1)
    (cut_run.2, Returned cut_ending).
Proof.
  rewrite app_assoc.
  refine (life_flushes demo_serve demo_system (busy_run.1 ++ [EvKeys LHost]) waited cut_ending _).
  refine (life_moves _ _ _ _ _ busy_waits (LifeTimedOut _ _ _ _)). vm_compute. discriminate.
Qed.

(** [Run] returns [nil] with the command run and no record of it, nor an answer. *)
Theorem command_without_record :
  life_run (RL:=int_limiter) demo_serve demo_system (busy_run.1 ++ [EvKeys LHost] ++ cut_run.1)
    (cut_run.2, Returned cut_ending)
  ∧ run_result cut_ending = Ok tt
  ∧ (starts cut_run.2, logged cut_run.2, open_requests (sm_threads cut_run.2)) = (1%nat, 0%nat, 1%nat).
Proof. split; [exact cut_run_is|]. split; [reflexivity|]. vm_compute. reflexivity. Qed.
