(* ===== verification/ServiceTemplates.v ===== *)
(** * ServiceTemplates: [internal/service/templates.go].

    The systemd unit, the launchd plist and the journald drop-in as the templates
    of the source, a small model of [text/template] for the actions they use, and
    the validation of the data that goes into them. *)

From S2P Require Import Prelude GoText GoEncoding GoPath.
Open Scope Z_scope.
Open Scope go_scope.

(** ** [text/template]: fields, and conditionals with trimmed markers *)

(** A leaf is a text ([inl]) or a field ([inr]). *)
Inductive node :=
| Leaf (l : string + string)
| If (name : string) (yes no : list (string + string)).

(** Texts and actions in turn; an action is marked [true]. *)
Fixpoint lex (act : bool) (acc : string) (s : string) : list (bool * string) :=
  match s with
  | EmptyString => [(act, str_rev acc)]
  | String "{" (String "{" s') => (act, str_rev acc) :: lex true EmptyString s'
  | String "}" (String "}" s') => (act, str_rev acc) :: lex false EmptyString s'
  | String c s' => lex act (String c acc) s'
  end.

(** What a left trim marker takes away: spaces, tabs and line ends. *)
Definition trimmed_char (c : ascii) : bool :=
  (code c =? 32) || (code c =? 9) || (code c =? 13) || (code c =? 10).
Fixpoint drop_trimmed (s : string) : string :=
  match s with
  | EmptyString => EmptyString
  | String c s' => if trimmed_char c then drop_trimmed s' else s
  end.
Definition trim_right (s : string) : string := str_rev (drop_trimmed (str_rev s)).

(** An action that begins with a dash trims the text before it. *)
Fixpoint trim_marks (items : list (bool * string)) : list (bool * string) :=
  match items with
  | [] => []
  | (true, a) :: rest => (true, trim_prefix a "- ") :: trim_marks rest
  | (false, t) :: rest =>
      (false, match rest with
              | (_, a) :: _ => if has_prefix a "- " then trim_right t else t
              | [] => t
              end) :: trim_marks rest
  end.

(** The leaves up to the end of a branch. *)
Fixpoint branch (items : list (bool * string)) : list (string + string) * list (bool * string) :=
  match items with
  | [] => ([], [])
  | (false, t) :: rest => let (b, r) := branch rest in (inl t :: b, r)
  | (true, a) :: rest =>
      if String.eqb a "else" || String.eqb a "end" then ([], items)
      else let (b, r) := branch rest in (inr (drop_str 1 a) :: b, r)
  end.

Fixpoint parse (fuel : nat) (items : list (bool * string)) : list node :=
  match fuel with
  | O => []
  | S fuel =>
      match items with
      | [] => []
      | (false, t) :: rest => Leaf (inl t) :: parse fuel rest
      | (true, a) :: rest =>
          if has_prefix a "if ." then
            let (yes, r1) := branch rest in
            let (no, r2) := branch (tail r1) in
            If (drop_str 4 a) yes no :: parse fuel (tail r2)
          else Leaf (inr (drop_str 1 a)) :: parse fuel rest
      end
  end.

Definition template_parse (text : string) : list node :=
  let items := trim_marks (lex false EmptyString text) in parse (length items) items.

(** [Execute], on the string and the boolean fields of the data. *)
Definition exec_leaf (str : string → string) (l : string + string) : string :=
  match l with inl t => t | inr f => str f end.

Fixpoint exec_leaves (str : string → string) (ls : list (string + string)) : string :=
  match ls with
  | [] => EmptyString
  | l :: ls' => exec_leaf str l +:+ exec_leaves str ls'
  end.

Fixpoint exec_nodes (str : string → string) (cond : string → bool) (ns : list node) : string :=
  match ns with
  | [] => EmptyString
  | Leaf l :: ns' => exec_leaf str l +:+ exec_nodes str cond ns'
  | If f yes no :: ns' =>
      exec_leaves str (if cond f then yes else no) +:+ exec_nodes str cond ns'
  end.

(** The literals below write a tilde for a double quote. *)
Fixpoint quoted (s : string) : string :=
  match s with
  | EmptyString => EmptyString
  | String c s' => String (if Ascii.eqb c "~" then dquote else c) (quoted s')
  end.

(** ** The data and its validation *)

Record TemplateData := {
  ExecPath : string;
  User : string;
  Group : string;
  Label : string;
  Port : Z;
  NeedNetBindCap : bool;
  StateDir : string;
  ConfigDir : string;
  LogPath : string;
  ConfigHome : string;
  StateHome : string;
}.

Definition in_range (lo hi c : ascii) : bool := (code lo <=? code c) && (code c <=? code hi).
Definition is_lower (c : ascii) : bool := in_range "a" "z" c.

(** The expression [^[a-z_][a-z0-9_-]{0,31}$]. *)
Definition name_char (c : ascii) : bool :=
  is_lower c || in_range "0" "9" c || Ascii.eqb c "_" || Ascii.eqb c "-".
Definition posixNameRe (s : string) : bool :=
  match s with
  | EmptyString => false
  | String c s' => (is_lower c || Ascii.eqb c "_") && str_forallb name_char s' && (str_len s' <=? 31)
  end.

(** The expression [^[a-z][a-z0-9._-]{0,253}$]. *)
Definition labelRe (s : string) : bool :=
  match s with
  | EmptyString => false
  | String c s' =>
      is_lower c && str_forallb (λ c, name_char c || Ascii.eqb c ".") s' && (str_len s' <=? 253)
  end.

(** A rune below 0x20, or 0x7f: such a rune is one byte, and such a byte is a
    rune wherever it stands. *)
Definition control_char (c : ascii) : bool := (code c <? 32) || (code c =? 127).
Definition hasControlChar (s : string) : bool := str_existsb control_char s.

Definition check_dir (name val : string) : option string :=
  if String.eqb val "" then Some (name +:+ " is empty (SR-90)")
  else if negb (is_abs val) then Some (name +:+ " " +:+ fmt_q val +:+ " is not absolute (SR-90)")
  else if hasControlChar val then Some (name +:+ " " +:+ fmt_q val +:+ " contains control characters (SR-90)")
  else None.

Fixpoint first_error (l : list (option string)) : option string :=
  match l with
  | [] => None
  | Some e :: _ => Some e
  | None :: l' => first_error l'
  end.

(** [None] is [nil]. *)
Definition ValidateTemplateData (d : TemplateData) : option string :=
  if negb (posixNameRe (User d)) then Some ("invalid User " +:+ fmt_q (User d) +:+ ": must match ^[a-z_][a-z0-9_-]{0,31}$ (SR-90)") else
  if negb (posixNameRe (Group d)) then Some ("invalid Group " +:+ fmt_q (Group d) +:+ ": must match ^[a-z_][a-z0-9_-]{0,31}$ (SR-90)") else
  if negb (labelRe (Label d)) then Some ("invalid Label " +:+ fmt_q (Label d) +:+ ": must match ^[a-z][a-z0-9._-]{0,253}$ (SR-90)") else
  if String.eqb (ExecPath d) "" then Some "ExecPath is empty (SR-90)"%string else
  if negb (is_abs (ExecPath d)) then Some ("ExecPath " +:+ fmt_q (ExecPath d) +:+ " is not absolute (SR-90)") else
  if hasControlChar (ExecPath d) then
    Some ("ExecPath " +:+ fmt_q (ExecPath d) +:+ " contains control characters (SR-90)") else
  if negb (String.eqb (clean (ExecPath d)) (ExecPath d)) then
    Some ("ExecPath " +:+ fmt_q (ExecPath d) +:+ " is not normalized (cleaned: " +:+ fmt_q (clean (ExecPath d))
          +:+ ") (SR-90)") else
  if (Port d <? 1) || (65535 <? Port d) then
    Some ("Port " +:+ fmt_d (Port d) +:+ " is out of range 1..65535 (SR-90)") else
  first_error [check_dir "StateDir" (StateDir d); check_dir "ConfigDir" (ConfigDir d);
               check_dir "LogPath" (LogPath d); check_dir "ConfigHome" (ConfigHome d);
               check_dir "StateHome" (StateHome d)].

(** The fields by name. *)
Definition str_field (d : TemplateData) (f : string) : string :=
  if String.eqb f "ExecPath" then ExecPath d else
  if String.eqb f "User" then User d else
  if String.eqb f "Group" then Group d else
  if String.eqb f "Label" then Label d else
  if String.eqb f "StateDir" then StateDir d else
  if String.eqb f "ConfigDir" then ConfigDir d else
  if String.eqb f "LogPath" then LogPath d else
  if String.eqb f "ConfigHome" then ConfigHome d else
  if String.eqb f "StateHome" then StateHome d else EmptyString.
Definition bool_field (d : TemplateData) (f : string) : bool :=
  if String.eqb f "NeedNetBindCap" then NeedNetBindCap d else false.

Definition render (ns : list node) (d : TemplateData) : result string string :=
  match ValidateTemplateData d with
  | Some e => Err e
  | None => Ok (exec_nodes (str_field d) (bool_field d) ns)
  end.

(** ** The texts *)

Definition unitTemplateText : string :=
"# /etc/systemd/system/raxd.service
# Generated by: raxd service install. Do not edit manually.
# Regenerate: raxd service install (idempotent, AC9).

[Unit]
Description=raxd — Remote Access Daemon for AI agents (OEM TECH)
After=network.target
Documentation=https://github.com/vladimirvkhs/raxd

[Service]
Type=exec
ExecStart={{.ExecPath}} serve
User={{.User}}
Group={{.Group}}

# Restart on failure only (AC4); graceful SIGTERM → clean exit → no restart (AC5).
Restart=on-failure
RestartSec=2s

# State directory: systemd creates /var/lib/raxd with owner=raxd before start.
# StateDirectoryMode=0700 is EXPLICIT — default is 0755, which is wider than baseline §2.
StateDirectory=raxd
StateDirectoryMode=0700

# Config directory: systemd creates /etc/raxd owned by raxd BEFORE ExecStart (BUG-1 fix).
# Without this, config.EnsureDirs → MkdirAll(/etc/raxd) fails under ProtectSystem=strict.
# ConfigurationDirectoryMode=0700 is EXPLICIT per SR-89 baseline.
ConfigurationDirectory=raxd
ConfigurationDirectoryMode=0700

# Path environment: overrides XDG defaults so internal/config/paths.go resolves
# /etc/raxd (ConfigDir) and /var/lib/raxd (StateDir) without code changes (ADR-002).
Environment=XDG_CONFIG_HOME=/etc
Environment=XDG_STATE_HOME=/var/lib
Environment=HOME=/var/lib/raxd

# Journal: stderr → journald (explicit per service-design.md §2.1, AC8 documentation).
StandardOutput=journal
StandardError=journal
SyslogIdentifier=raxd
{{- if .NeedNetBindCap}}

# Ambient capability: present ONLY when Port<1024 (NeedNetBindCap=true, ADR-003).
# The hardening directive for privilege escalation is omitted here (ADR-003, accepted deviation П-1).
# Remaining hardening PRESERVED (SR-87).
CapabilityBoundingSet=CAP_NET_BIND_SERVICE
AmbientCapabilities=CAP_NET_BIND_SERVICE
{{- else}}

# Full hardening for default port >= 1024.
NoNewPrivileges=yes
{{- end}}
ProtectSystem=strict
ProtectHome=yes
PrivateTmp=yes

[Install]
WantedBy=multi-user.target
".

Definition unitTmpl : list node := Eval vm_compute in template_parse unitTemplateText.
Definition RenderUnit : TemplateData → result string string := render unitTmpl.

Definition plistTemplateText : string := quoted
"<?xml version=~1.0~ encoding=~UTF-8~?>
<!DOCTYPE plist PUBLIC ~-//Apple//DTD PLIST 1.0//EN~
    ~http://www.apple.com/DTDs/PropertyList-1.0.dtd~>
<!-- /Library/LaunchDaemons/{{.Label}}.plist -->
<!-- Generated by: raxd service install. Do not edit manually. -->
<plist version=~1.0~>
<dict>
    <!-- Required: unique job identifier (reverse DNS) -->
    <key>Label</key>
    <string>{{.Label}}</string>

    <!-- Command: raxd serve (AC1) -->
    <key>ProgramArguments</key>
    <array>
        <string>{{.ExecPath}}</string>
        <string>serve</string>
    </array>

    <!-- Autostart at load/boot (AC3) -->
    <key>RunAtLoad</key>
    <true/>

    <!-- Restart on failure only: SuccessfulExit=false means restart when exit!=0.
         Graceful stop returns code 0 → NOT restarted (AC5).
         Kill / panic → exit!=0 → restarted (AC4). -->
    <key>KeepAlive</key>
    <dict>
        <key>SuccessfulExit</key>
        <false/>
    </dict>

    <!-- Non-root execution: launchd starts as root, drops to UserName (AC6, SR-83) -->
    <key>UserName</key>
    <string>{{.User}}</string>

    <key>GroupName</key>
    <string>{{.Group}}</string>

    <!-- Environment: XDG paths so internal/config/paths.go resolves system dirs
         without code changes (ADR-002). HOME needed as fallback in paths.go.
         ConfigHome=filepath.Dir(ConfigDir), StateHome=filepath.Dir(StateDir) —
         invariant: XDG_CONFIG_HOME + ~/raxd~ == ConfigDir (BUG-1 macOS fix). -->
    <key>EnvironmentVariables</key>
    <dict>
        <key>XDG_CONFIG_HOME</key>
        <string>{{.ConfigHome}}</string>
        <key>XDG_STATE_HOME</key>
        <string>{{.StateHome}}</string>
        <key>HOME</key>
        <string>{{.StateDir}}</string>
    </dict>

    <!-- Working directory -->
    <key>WorkingDirectory</key>
    <string>{{.StateDir}}</string>

    <!-- Log output (macOS has no journald; rotation via newsyslog, see ops docs) -->
    <key>StandardOutPath</key>
    <string>{{.LogPath}}/raxd.log</string>

    <key>StandardErrorPath</key>
    <string>{{.LogPath}}/raxd.log</string>
</dict>
</plist>
".

Definition plistTmpl : list node := Eval vm_compute in template_parse plistTemplateText.
Definition RenderPlist : TemplateData → result string string := render plistTmpl.

Definition journaldDropInContent : string :=
"# /etc/systemd/journald.conf.d/raxd.conf
# Installed by: raxd service install
# Removed by:   raxd service uninstall (SR-93)
# Purpose: limit audit log growth (closes command-exec OR-2 / file-upload OR-U4)
#
# NOTE: journald limits are per-host (global), not per-unit (ADR-004, П-3).

[Journal]
SystemMaxUse=200M
SystemMaxFileSize=50M
".
Definition JournaldDropIn : string := journaldDropInContent.
