(* ===== verification/Service.v ===== *)
(** * Service: the common part of [internal/service].

    Errors, configuration and status of [service.go]; the host the managers work
    on; running a manager command ([exec.go]); the guard before a recursive
    removal ([purge.go]); and the interface both managers implement.  The two
    managers are in [ServiceSystemd] and [ServiceLaunchd]. *)

From S2P Require Import Prelude GoText GoEncoding GoPath GoOs ServiceTemplates.
Open Scope Z_scope.
Open Scope go_scope.

(** ** service.go: errors *)

Inductive sentinel :=
| ErrAlreadyInstalled
| ErrNotInstalled
| ErrManagerUnavailable
| ErrPermission
| ErrUnsupported
| ErrUserMismatch
| ErrSuspiciousPath
| ErrPurgeNotConfirmed.

#[export] Instance sentinel_eq_dec : EqDecision sentinel.
Proof. solve_decision. Defined.

Definition sentinel_msg (s : sentinel) : string :=
  match s with
  | ErrAlreadyInstalled => "service is already installed"
  | ErrNotInstalled => "service is not installed"
  | ErrManagerUnavailable => "service manager is not available"
  | ErrPermission => "insufficient privileges"
  | ErrUnsupported => "platform not supported for service management"
  | ErrUserMismatch => "user account does not match expected raxd system account"
  | ErrSuspiciousPath => "suspicious path rejected by purge safety check"
  | ErrPurgeNotConfirmed => "purge requires explicit confirmation (--yes flag)"
  end.

(** An error: the sentinel [errors.Is] finds in it, if any, and its text. *)
Record serror := { is_sentinel : option sentinel; err_text : string }.

#[export] Instance serror_eq_dec : EqDecision serror.
Proof. solve_decision. Defined.

Definition sentinel_error (s : sentinel) : serror :=
  {| is_sentinel := Some s; err_text := sentinel_msg s |}.

(** [ServiceError] and its text. *)
Definition wrapErr (s : sentinel) (detail : string) : serror :=
  {| is_sentinel := Some s;
     err_text := if String.eqb detail "" then sentinel_msg s else sentinel_msg s +:+ ": " +:+ detail |}.

(** [fmt.Errorf("prefix: %w", err)]. *)
Definition prefixed (p : string) (e : serror) : serror :=
  {| is_sentinel := is_sentinel e; err_text := p +:+ ": " +:+ err_text e |}.

Definition plain_error (m : string) : serror := {| is_sentinel := None; err_text := m |}.

(** ** service.go: data *)

Record Status := { Installed : bool; Active : bool; PID : Z; EUID : Z; State : string }.

Record Config := {
  c_ExecPath : string;
  c_Port : Z;
  c_User : string;
  c_Group : string;
  c_Label : string;
  c_StateDir : string;
  c_ConfigDir : string;
  c_LogPath : string;
}.

Definition DefaultConfigForGOOS (goos : string) : Config :=
  if String.eqb goos "darwin" then
    {| c_ExecPath := ""; c_Port := 7822; c_User := "raxd"; c_Group := "raxd";
       c_Label := "tech.oem.raxd"; c_ConfigDir := "/usr/local/etc/raxd";
       c_StateDir := "/usr/local/var/raxd"; c_LogPath := "/usr/local/var/log/raxd" |}
  else
    {| c_ExecPath := ""; c_Port := 7822; c_User := "raxd"; c_Group := "raxd";
       c_Label := "tech.oem.raxd"; c_ConfigDir := "/etc/raxd";
       c_StateDir := "/var/lib/raxd"; c_LogPath := "/var/log/raxd" |}.

Record PurgeOptions := { Confirmed : bool; AuditOut : bool }.

Record PurgeReport := {
  Platform : string;
  Stopped : bool;
  Uninstalled : bool;
  UserRemoved : bool;
  UserAbsent : bool;
  DirsRemoved : list string;
  DirsAbsent : list string;
}.

Definition empty_report (platform : string) : PurgeReport :=
  {| Platform := platform; Stopped := false; Uninstalled := false; UserRemoved := false;
     UserAbsent := false; DirsRemoved := []; DirsAbsent := [] |}.

Definition TemplateDataFromConfig (cfg : Config) : TemplateData :=
  {| ExecPath := c_ExecPath cfg; User := c_User cfg; Group := c_Group cfg; Label := c_Label cfg;
     Port := c_Port cfg; NeedNetBindCap := c_Port cfg <? 1024; StateDir := c_StateDir cfg;
     ConfigDir := c_ConfigDir cfg; LogPath := c_LogPath cfg;
     ConfigHome := dir (c_ConfigDir cfg); StateHome := dir (c_StateDir cfg) |}.

(** ** The host

    Files by path, directories, what [filepath.EvalSymlinks] says of a path, the
    home directory and the user the program runs with, and what external
    commands do: the outcome of a command may depend on all that was done
    before. *)

(** How a command ended: with an exit code, or not started at all. *)
Inductive exec_end :=
| Exited (code : Z)
| NotFound
| StartError (msg : string)
| Cancelled (msg : string).

Record exec_result := { x_stdout : string; x_stderr : string; x_end : exec_end }.

(** What was done to the host, in order. *)
Inductive hevent :=
| HCmd (argv : list string)
| HRemoveAll (path : string)
| HPurgeAudit (platform : string) (userPresent : bool) (dirsPresent : list string).

#[export] Instance hevent_eq_dec : EqDecision hevent.
Proof. solve_decision. Defined.

Record host := {
  h_os : os;
  h_dirs : gset string;
  h_eval : string → result oserr string;
  h_home : option string;
  h_euid : Z;
  h_exec : list hevent → list string → exec_result;
  h_log : list hevent;
}.

Definition set_host (o : os) (d : gset string) (l : list hevent) (h : host) : host :=
  {| h_os := o; h_dirs := d; h_eval := h_eval h; h_home := h_home h; h_euid := h_euid h;
     h_exec := h_exec h; h_log := l |}.

Definition on_hos {A} (m : M os A) : M host A :=
  zoom h_os (λ o h, set_host o (h_dirs h) (h_log h) h) m.

Definition hlog (e : hevent) : M host unit :=
  modify (λ h, set_host (h_os h) (h_dirs h) (h_log h ++ [e]) h).

(** [exec.Cmd.Run]: the command is recorded, its outcome is the host's. *)
Definition run_cmd (argv : list string) : M host exec_result :=
  let! h := gets (λ h, h) in
  do! hlog (HCmd argv) in
  ret (h_exec h (h_log h) argv).

(** [os.WriteFile]: an existing file is truncated and keeps its mode. *)
Definition os_write_file (p : string) (data : bytes) (mode : Z) : M os (result oserr unit) :=
  let! r := fallible (λ s,
    match os_files s !! p with
    | Some f => (Ok tt, set_files (<[p := File (f_mode f) []]> (os_files s)) s)
    | None => (Ok tt, set_files (<[p := File mode []]> (os_files s)) s)
    end) in
  match r with
  | Err e => ret (Err e)
  | Ok _ =>
      let! w := write p data in
      match w with
      | Err e => do! close p in ret (Err e)
      | Ok _ => close p
      end
  end.

(** [os.MkdirAll] of a directory, and [os.Stat] of one. *)
Definition mkdir_all (d : string) : M host (result oserr unit) :=
  let! r := on_hos (fallible (ret (Ok tt))) in
  match r with
  | Err e => ret (Err e)
  | Ok _ => do! modify (λ h, set_host (h_os h) ({[d]} ∪ h_dirs h) (h_log h) h) in ret (Ok tt)
  end.

Definition stat_dir (d : string) : M host (result oserr unit) :=
  let! r := on_hos (fallible (ret (Ok tt))) in
  match r with
  | Err e => ret (Err e)
  | Ok _ =>
      let! h := gets (λ h, h) in
      ret (if decide (d ∈ h_dirs h) then Ok tt else Err NotExist)
  end.

(** The path [p] or something below it. *)
Definition under (d p : string) : bool := String.eqb p d || has_prefix p (d +:+ "/").

(** [os.RemoveAll]: everything at and below the path is gone.  A failure is
    taken at its worst: all below is gone, the directory itself stays. *)
Definition remove_all (d : string) : M host (result oserr unit) :=
  do! hlog (HRemoveAll d) in
  let! r := on_hos (fallible (ret (Ok tt))) in
  do! modify (λ h, set_host
    (set_files (filter (λ x, negb (under d x.1) = true) (os_files (h_os h))) (h_os h))
    (match r with
     | Ok _ => filter (λ x, negb (under d x) = true) (h_dirs h)
     | Err _ => filter (λ x, negb (under d x) = true ∨ x = d) (h_dirs h)
     end) (h_log h) h) in
  ret r.

(** [writeFile] of systemd.go. *)
Definition writeFile (path : string) (content : string) (mode : Z) : M host (result serror unit) :=
  let d := dir path in
  let! r := mkdir_all d in
  match r with
  | Err e => ret (Err (plain_error ("cannot create dir " +:+ d +:+ ": " +:+ oserr_msg e)))
  | Ok _ =>
      let! w := on_hos (os_write_file path (bytes_of_string content) mode) in
      match w with
      | Err e => ret (Err (plain_error (oserr_msg e)))
      | Ok _ => ret (Ok tt)
      end
  end.

(** ** exec.go *)

Definition neutralizeStderr (raw : string) : string := "manager command failed".

Definition isExitCode (r : exec_result) (code : Z) : bool :=
  match x_end r with Exited c => (c =? code) && negb (c =? 0) | _ => false end.

Definition mapExitCode (name : string) (code : Z) (detail : string) : serror :=
  if (code =? 1) && String.eqb detail "manager command failed" then
    wrapErr ErrManagerUnavailable (name +:+ " exited with code " +:+ fmt_d code +:+ ": " +:+ detail)
  else wrapErr ErrManagerUnavailable (name +:+ " exited with code " +:+ fmt_d code).

Definition RunManager (name : string) (args : list string) : M host (result serror string) :=
  let! r := run_cmd (name :: args) in
  ret (match x_end r with
       | Exited code =>
           if code =? 0 then Ok (x_stdout r)
           else Err (mapExitCode name code (neutralizeStderr (x_stderr r)))
       | NotFound => Err (wrapErr ErrManagerUnavailable ("binary " +:+ fmt_q name +:+ " not found"))
       | Cancelled m => Err (plain_error ("manager command cancelled: " +:+ m))
       | StartError m =>
           Err (wrapErr ErrManagerUnavailable ("cannot execute " +:+ fmt_q name +:+ ": " +:+ neutralizeStderr m))
       end).

(** ** purge.go *)

Definition blockedSystemRoots : list string :=
  ["/etc"; "/var"; "/usr"; "/usr/local"; "/tmp"; "/bin"; "/sbin"; "/lib"; "/lib64"; "/boot"; "/dev";
   "/proc"; "/sys"; "/run"]%string.

Definition isEqualOrAncestor (candidate base : string) : bool :=
  if String.eqb candidate base then true else has_prefix base (candidate +:+ "/").

Definition validatePurgePath (h : host) (path : string) (allowedRoots : list string) : option serror :=
  let suspicious d := Some (wrapErr ErrSuspiciousPath d) in
  if String.eqb path "" then suspicious "empty path"%string
  else if negb (String.eqb (clean path) path) then suspicious "path is not clean"%string
  else if negb (is_abs path) then suspicious "path is not absolute"%string
  else if String.eqb path "/" then suspicious "root path rejected"%string
  else if (match h_home h with Some home => isEqualOrAncestor path home | None => false end) then
    suspicious "path is HOME or HOME ancestor"%string
  else if existsb (String.eqb path) blockedSystemRoots then
    suspicious "path is a blocked system root"%string
  else
    match h_eval h path with
    | Err NotExist => None
    | Err _ => suspicious "cannot resolve symlinks"%string
    | Ok resolved =>
        if existsb (λ root, has_prefix (resolved +:+ "/") (root +:+ "/") || String.eqb resolved root)
             allowedRoots
        then None
        else suspicious "resolved path is outside expected layout"%string
    end.

(** ** The last steps of a purge, which both managers share in the source line
    by line: the directories that are there, the audit record, the account, the
    directories. *)

Definition emitPurgeAuditRecord (opts : PurgeOptions) (platform : string) (userPresent : bool)
    (dirsPresent : list string) : M host unit :=
  if AuditOut opts then hlog (HPurgeAudit platform userPresent dirsPresent) else ret tt.

Fixpoint dirs_present (dirs : list string) : M host (list string) :=
  match dirs with
  | [] => ret []
  | d :: dirs' =>
      let! r := stat_dir d in
      let! ds := dirs_present dirs' in
      ret (match r with Ok _ => d :: ds | Err _ => ds end)
  end.

Fixpoint remove_dirs (dirs present : list string) (report : PurgeReport) :
    M host (PurgeReport * option serror) :=
  match dirs with
  | [] => ret (report, None)
  | d :: dirs' =>
      let! r := remove_all d in
      match r with
      | Err _ => ret (report, Some (wrapErr ErrManagerUnavailable ("cannot remove " +:+ d)))
      | Ok _ =>
          remove_dirs dirs' present
            (if existsb (String.eqb d) present then
               {| Platform := Platform report; Stopped := Stopped report;
                  Uninstalled := Uninstalled report; UserRemoved := UserRemoved report;
                  UserAbsent := UserAbsent report; DirsRemoved := DirsRemoved report ++ [d];
                  DirsAbsent := DirsAbsent report |}
             else
               {| Platform := Platform report; Stopped := Stopped report;
                  Uninstalled := Uninstalled report; UserRemoved := UserRemoved report;
                  UserAbsent := UserAbsent report; DirsRemoved := DirsRemoved report;
                  DirsAbsent := DirsAbsent report ++ [d] |})
      end
  end.

(** The guard on every directory, in order. *)
Fixpoint validate_all (h : host) (dirs allowedRoots : list string) : option serror :=
  match dirs with
  | [] => None
  | d :: dirs' =>
      match validatePurgePath h d allowedRoots with
      | Some e => Some e
      | None => validate_all h dirs' allowedRoots
      end
  end.

Definition set_user (removed absent : bool) (report : PurgeReport) : PurgeReport :=
  {| Platform := Platform report; Stopped := Stopped report; Uninstalled := Uninstalled report;
     UserRemoved := removed; UserAbsent := absent; DirsRemoved := DirsRemoved report;
     DirsAbsent := DirsAbsent report |}.

(** From the guards on. *)
Definition purge_tail (opts : PurgeOptions) (dirs : list string)
    (verify : M host (result serror bool)) (delete : M host (option serror)) (report : PurgeReport) :
    M host (PurgeReport * option serror) :=
  let no_report := empty_report "" in
  let! h := gets (λ h, h) in
  match validate_all h dirs dirs with
  | Some e => ret (no_report, Some e)
  | None =>
      let! v := verify in
      match v with
      | Err e => ret (no_report, Some e)
      | Ok userPresent =>
          let! present := dirs_present dirs in
          do! emitPurgeAuditRecord opts (Platform report) userPresent present in
          if userPresent then
            let! d := delete in
            match d with
            | Some e => ret (no_report, Some e)
            | None => remove_dirs dirs present (set_user true false report)
            end
          else remove_dirs dirs present (set_user false true report)
      end
  end.

(** ** service.go: the interface and its constructor *)

Record ServiceManager := {
  Install : M host (result serror unit);
  Uninstall : M host (result serror unit);
  Start : M host (result serror unit);
  Stop : M host (result serror unit);
  StatusOf : M host Status;
  Purge : PurgeOptions → M host (PurgeReport * option serror);
}.

(** Every mutating method begins with this guard. *)
Definition as_root {A} (denied : serror → A) (m : M host A) : M host A :=
  let! euid := gets h_euid in
  if euid =? 0 then m
  else ret (denied (wrapErr ErrPermission "must be run as root or with sudo")).
