(* ===== verification/ServiceSystemd.v ===== *)
(** * ServiceSystemd: [internal/service/systemd.go], the Linux manager. *)

From S2P Require Import Prelude GoText GoEncoding GoPath GoOs ServiceTemplates Service.
Open Scope Z_scope.
Open Scope go_scope.

Definition unitPath : string := "/etc/systemd/system/raxd.service".
Definition dropInDir : string := "/etc/systemd/journald.conf.d".
Definition dropInPath : string := "/etc/systemd/journald.conf.d/raxd.conf".
Definition systemctlBin : string := "/bin/systemctl".
Definition useraddBin : string := "/usr/sbin/useradd".
Definition useraddExitAlreadyExists : Z := 9.
Definition userdelBin : string := "/usr/sbin/userdel".
Definition getentBin : string := "/usr/bin/getent".

Definition noLoginShells : list string :=
  ["/usr/sbin/nologin"; "/sbin/nologin"; "/usr/bin/false"]%string.

(** ** Helpers *)

Definition put_prop (m : gmap string string) (line : string) : gmap string string :=
  match cut_on "=" line with
  | Some (k, v) => <[trim_space k := trim_space v]> m
  | None => m
  end.

Definition parseSystemctlProps (out : string) : gmap string string :=
  fold_left put_prop (split_on nl (trim_space out)) ∅.

(** The effective uid is the second number after the mark. *)
Fixpoint euid_of_lines (lines : list string) : Z :=
  match lines with
  | [] => 0
  | line :: rest =>
      if has_prefix line "Uid:" then
        match fields line with
        | _ :: _ :: e :: _ => (atoi e).1
        | _ => euid_of_lines rest
        end
      else euid_of_lines rest
  end.

Definition readProcEUID (pid : Z) : M host Z :=
  let! r := on_hos (read_file ("/proc/" +:+ fmt_d pid +:+ "/status")) in
  match r with
  | Err _ => ret 0
  | Ok data => ret (euid_of_lines (split_on nl (string_of_bytes data)))
  end.

Definition parsePasswdLine (line expectedName : string) : result serror bool :=
  match split_on ":" line with
  | name :: _ :: uid :: _ :: _ :: _ :: shell :: _ =>
      if negb (String.eqb name expectedName) then
        Err (wrapErr ErrUserMismatch "username does not match expected raxd account")
      else
        let (n, err) := atoi uid in
        if (match err with Some _ => true | None => false end) || (n <=? 0) || (1000 <=? n) then
          Err (wrapErr ErrUserMismatch "uid is not in system account range [1,999]")
        else if negb (existsb (String.eqb shell) noLoginShells) then
          Err (wrapErr ErrUserMismatch "user has a login shell — not a raxd system account")
        else Ok true
  | _ => Err (wrapErr ErrManagerUnavailable "getent passwd: unexpected output format")
  end.

Definition verifyTargetUserLinux (name : string) : M host (result serror bool) :=
  let! r := run_cmd [getentBin; "passwd"%string; name] in
  ret (match x_end r with
       | Exited 0 =>
           let line := trim_space (x_stdout r) in
           if String.eqb line "" then Ok false else parsePasswdLine line name
       | Exited 2 => Ok false
       | Exited _ => Err (wrapErr ErrManagerUnavailable "getent passwd failed")
       | _ => Ok false
       end).

Definition mapUserdelExitCode (code : Z) : option serror :=
  if code =? 0 then None
  else if code =? 6 then None
  else if code =? 1 then Some (wrapErr ErrPermission "userdel: insufficient privileges")
  else if code =? 10 then Some (wrapErr ErrPermission "userdel: cannot update group file")
  else if code =? 8 then Some (wrapErr ErrManagerUnavailable "userdel: user is currently logged in")
  else Some (wrapErr ErrManagerUnavailable ("userdel: unexpected exit code " +:+ fmt_d code)).

Definition deleteUserLinux (name : string) : M host (option serror) :=
  let! r := run_cmd [userdelBin; name] in
  ret (match x_end r with
       | Exited code => if code =? 0 then None else mapUserdelExitCode code
       | _ => Some (wrapErr ErrManagerUnavailable "userdel: unexpected error")
       end).

(** ** The manager *)

Section systemd.
Variable cfg : Config.

Definition createUser : M host (result serror unit) :=
  let! r := run_cmd [useraddBin; "--system"; "--no-create-home"; "--shell"; "/usr/sbin/nologin";
                     "--comment"; "raxd daemon"; c_User cfg]%string in
  ret (match x_end r with
       | Exited 0 => Ok tt
       | _ => if isExitCode r useraddExitAlreadyExists then Ok tt
              else Err (wrapErr ErrPermission "useradd failed")
       end).

Definition rollback (unit dropIn : bool) : M host () :=
  do! (if unit then on_hos (remove unitPath) else ret (Ok tt)) in
  do! (if dropIn then on_hos (remove dropInPath) else ret (Ok tt)) in
  ret tt.

(** The steps after the unit is written. *)
Definition install_rest : M host (result serror unit) :=
  let! r := mkdir_all dropInDir in
  match r with
  | Err e =>
      do! rollback true false in
      ret (Err (prefixed "service install: create drop-in dir" (plain_error (oserr_msg e))))
  | Ok _ =>
  let! r := writeFile dropInPath JournaldDropIn 420 in
  match r with
  | Err e => do! rollback true false in ret (Err (prefixed "service install: write drop-in" e))
  | Ok _ =>
  let! r := RunManager systemctlBin ["daemon-reload"%string] in
  match r with
  | Err _ =>
      do! rollback true true in
      ret (Err (wrapErr ErrManagerUnavailable "systemctl daemon-reload failed"))
  | Ok _ =>
  let! r := RunManager systemctlBin ["enable"; "raxd"]%string in
  match r with
  | Err _ =>
      do! rollback true true in
      ret (Err (wrapErr ErrManagerUnavailable "systemctl enable failed"))
  | Ok _ => ret (Ok tt)
  end end end end.

Definition sd_Install : M host (result serror unit) :=
  as_root Err
   (let! st := on_hos (stat unitPath) in
    match st with
    | Ok _ => ret (Err (sentinel_error ErrAlreadyInstalled))
    | Err _ =>
    let! u := createUser in
    match u with
    | Err e => ret (Err (prefixed "service install: create user" e))
    | Ok _ =>
    match RenderUnit (TemplateDataFromConfig cfg) with
    | Err e => ret (Err (prefixed "service install: render unit" (plain_error e)))
    | Ok unitContent =>
    let! w := writeFile unitPath unitContent 420 in
    match w with
    | Err e => ret (Err (prefixed "service install: write unit" e))
    | Ok _ => install_rest
    end end end end).

(** A removal that counts an absent file as removed. *)
Definition remove_if_there (p : string) : M host (result oserr unit) :=
  let! r := on_hos (remove p) in
  ret (match r with Err NotExist => Ok tt | r => r end).

(** The unit is there: stop, disable, remove the two files. *)
Definition uninstall_rest : M host (result serror unit) :=
  do! RunManager systemctlBin ["stop"; "raxd"]%string in
  do! RunManager systemctlBin ["disable"; "raxd"]%string in
  do! RunManager systemctlBin ["daemon-reload"%string] in
  let! r := remove_if_there unitPath in
  match r with
  | Err e => ret (Err (wrapErr ErrManagerUnavailable ("cannot remove unit: " +:+ oserr_msg e)))
  | Ok _ =>
      let! r := remove_if_there dropInPath in
      match r with
      | Err e => ret (Err (wrapErr ErrManagerUnavailable ("cannot remove drop-in: " +:+ oserr_msg e)))
      | Ok _ => do! RunManager systemctlBin ["daemon-reload"%string] in ret (Ok tt)
      end
  end.

Definition sd_Uninstall : M host (result serror unit) :=
  as_root Err
   (let! st := on_hos (stat unitPath) in
    match st with
    | Err NotExist => ret (Err (sentinel_error ErrNotInstalled))
    | _ => uninstall_rest
    end).

(** Start and stop differ in the verb. *)
Definition sd_verb (verb : string) : M host (result serror unit) :=
  as_root Err
   (let! st := on_hos (stat unitPath) in
    match st with
    | Err NotExist => ret (Err (sentinel_error ErrNotInstalled))
    | _ =>
        let! r := RunManager systemctlBin [verb; "raxd"%string] in
        match r with
        | Err _ => ret (Err (wrapErr ErrManagerUnavailable ("systemctl " +:+ verb +:+ " failed")))
        | Ok _ => ret (Ok tt)
        end
    end).
Definition sd_Start : M host (result serror unit) := sd_verb "start".
Definition sd_Stop : M host (result serror unit) := sd_verb "stop".

Definition unknown_status (installed : bool) (state : string) : Status :=
  {| Installed := installed; Active := false; PID := 0; EUID := 0; State := state |}.

(** What [systemctl show] says of the unit. *)
Definition sd_show : M host Status :=
  let! r := RunManager systemctlBin
    ["show"; "-p"; "MainPID,ActiveState,SubState,UnitFileState"; "raxd"]%string in
  match r with
  | Err _ => ret (unknown_status true "unknown")
  | Ok out =>
      let props := parseSystemctlProps out in
      let pid := match props !! "MainPID"%string with Some s => (atoi s).1 | None => 0 end in
      let activeState := default ""%string (props !! "ActiveState"%string) in
      let subState := default ""%string (props !! "SubState"%string) in
      let stateStr := if String.eqb subState "" then activeState
                      else activeState +:+ " (" +:+ subState +:+ ")" in
      let active := String.eqb activeState "active" in
      let! euid := (if (0 <? pid) && active then readProcEUID pid else ret 0) in
      ret {| Installed := true; Active := active; PID := pid; EUID := euid; State := stateStr |}
  end.

Definition sd_Status : M host Status :=
  let! st := on_hos (stat unitPath) in
  match st with
  | Err NotExist => ret (unknown_status false "not installed")
  | _ => sd_show
  end.

(** Uninstall, then the shared tail. *)
Definition sd_purge_installed (opts : PurgeOptions) (stopped : bool) : M host (PurgeReport * option serror) :=
  let! u := sd_Uninstall in
  let report b := {| Platform := "linux"; Stopped := stopped; Uninstalled := b; UserRemoved := false;
                     UserAbsent := false; DirsRemoved := []; DirsAbsent := [] |} in
  let tail b := purge_tail opts [c_StateDir cfg; c_ConfigDir cfg]
                  (verifyTargetUserLinux (c_User cfg)) (deleteUserLinux (c_User cfg)) (report b) in
  match u with
  | Err e =>
      if decide (is_sentinel e = Some ErrNotInstalled) then tail false
      else ret (empty_report "", Some e)
  | Ok _ => tail true
  end.

Definition sd_Purge (opts : PurgeOptions) : M host (PurgeReport * option serror) :=
  as_root (λ e, (empty_report "", Some e))
   (if negb (Confirmed opts) then ret (empty_report "", Some (sentinel_error ErrPurgeNotConfirmed)) else
    let! st := sd_Status in
    if Active st then
      let! r := sd_Stop in
      match r with
      | Err _ => ret (empty_report "", Some (wrapErr ErrManagerUnavailable "service did not stop"))
      | Ok _ => sd_purge_installed opts true
      end
    else sd_purge_installed opts false).

Definition newSystemdManager : ServiceManager :=
  {| Install := sd_Install; Uninstall := sd_Uninstall; Start := sd_Start; Stop := sd_Stop;
     StatusOf := sd_Status; Purge := sd_Purge |}.
End systemd.
