(* ===== verification/ServiceLaunchd.v ===== *)
(** * ServiceLaunchd: [internal/service/launchd.go], the macOS manager, and the
    constructor [New] of service.go. *)

From S2P Require Import Prelude GoText GoEncoding GoPath GoOs ServiceTemplates Service ServiceSystemd.
Open Scope Z_scope.
Open Scope go_scope.

Definition dsclBin : string := "/usr/bin/dscl".
Definition plistPath : string := "/Library/LaunchDaemons/tech.oem.raxd.plist".
Definition launchctlBin : string := "/bin/launchctl".
Definition launchLabel : string := "system/tech.oem.raxd".
Definition chownBin : string := "/usr/sbin/chown".

(** ** Helpers *)

Fixpoint dscl_shell (lines : list string) : result serror bool :=
  match lines with
  | [] => Err (wrapErr ErrManagerUnavailable "dscl: unexpected output format")
  | line :: rest =>
      let line := trim_space line in
      if has_prefix line "UserShell:" then
        let shell := trim_space (trim_prefix line "UserShell:") in
        if negb (existsb (String.eqb shell) noLoginShells) then
          Err (wrapErr ErrUserMismatch "user has a login shell — not a raxd system account")
        else Ok true
      else dscl_shell rest
  end.
Definition parseDsclShellOutput (output : string) : result serror bool := dscl_shell (split_on nl output).

(** Every failure of [dscl] counts as an absent user. *)
Definition verifyTargetUserDarwin (name : string) : M host (result serror bool) :=
  let! r := run_cmd [dsclBin; "."; "-read"; "/Users/" +:+ name; "UserShell"]%string in
  ret (match x_end r with
       | Exited 0 => parseDsclShellOutput (x_stdout r)
       | _ => Ok false
       end).

Definition mapDsclDeleteError (stderr : string) : option serror :=
  if contains_sub stderr "eDSRecordNotFound" || contains_sub stderr "Unknown node"
     || contains_sub stderr "No such record" then None
  else if contains_sub stderr "Permission denied" || contains_sub stderr "Operation not permitted"
          || contains_sub stderr "eDSPermissionError" then
    Some (wrapErr ErrPermission "dscl delete: insufficient privileges")
  else Some (wrapErr ErrManagerUnavailable "dscl delete failed").

Definition deleteUserDarwin (name : string) : M host (option serror) :=
  let! r := run_cmd [dsclBin; "."; "-delete"; "/Users/" +:+ name]%string in
  ret (match x_end r with Exited 0 => None | _ => mapDsclDeleteError (x_stderr r) end).

(** The decimal number [fmt.Sscanf] reads with [%d]: spaces, a sign, digits. *)
Fixpoint skip_spaces (s : string) : string :=
  match s with
  | String c s' => if is_space_ascii c then skip_spaces s' else s
  | EmptyString => EmptyString
  end.
Fixpoint digit_run (s : string) : string :=
  match s with
  | String c s' => if in_range "0" "9" c then String c (digit_run s') else EmptyString
  | EmptyString => EmptyString
  end.
Definition scan_int (s : string) : option Z :=
  let s := skip_spaces s in
  let (sign, body) := match s with
    | String c s' => if Ascii.eqb c "-" || Ascii.eqb c "+" then (String c EmptyString, s') else (EmptyString, s)
    | EmptyString => (EmptyString, EmptyString)
    end in
  match atoi (sign +:+ digit_run body) with (n, None) => Some n | _ => None end.

(** The last line that names a pid wins. *)
Definition pid_of_lines (lines : list string) : Z :=
  fold_left (λ pid line,
    let line := trim_space line in
    if has_prefix line "pid = " then default pid (scan_int (trim_prefix line "pid = ")) else pid) lines 0.

(** ** The manager *)

Section launchd.
Variable cfg : Config.

Fixpoint create_dirs (dirs : list string) : M host (result serror unit) :=
  match dirs with
  | [] => ret (Ok tt)
  | d :: dirs' =>
      let! r := mkdir_all d in
      match r with
      | Err e => ret (Err (plain_error ("cannot create " +:+ d +:+ ": " +:+ oserr_msg e)))
      | Ok _ =>
          do! run_cmd [chownBin; "-R"; c_User cfg +:+ ":" +:+ c_Group cfg; d]%string in
          create_dirs dirs'
      end
  end.
Definition createDirs : M host (result serror unit) :=
  create_dirs [c_StateDir cfg; c_LogPath cfg; c_ConfigDir cfg].

Definition ld_Install : M host (result serror unit) :=
  as_root Err
   (let! st := on_hos (stat plistPath) in
    match st with
    | Ok _ => ret (Err (sentinel_error ErrAlreadyInstalled))
    | Err _ =>
    match RenderPlist (TemplateDataFromConfig cfg) with
    | Err e => ret (Err (prefixed "service install: render plist" (plain_error e)))
    | Ok plistContent =>
    let! d := createDirs in
    match d with
    | Err e => ret (Err (prefixed "service install: create dirs" e))
    | Ok _ =>
    let! w := writeFile plistPath plistContent 420 in
    match w with
    | Err e => ret (Err (prefixed "service install: write plist" e))
    | Ok _ =>
    let! r := RunManager launchctlBin ["bootstrap"; "system"; plistPath]%string in
    match r with
    | Err _ =>
        do! on_hos (remove plistPath) in
        ret (Err (wrapErr ErrManagerUnavailable "launchctl bootstrap failed"))
    | Ok _ => do! RunManager launchctlBin ["enable"%string; launchLabel] in ret (Ok tt)
    end end end end end).

Definition ld_Uninstall : M host (result serror unit) :=
  as_root Err
   (let! st := on_hos (stat plistPath) in
    match st with
    | Err NotExist => ret (Err (sentinel_error ErrNotInstalled))
    | _ =>
        do! RunManager launchctlBin ["bootout"%string; launchLabel] in
        do! RunManager launchctlBin ["disable"%string; launchLabel] in
        let! r := remove_if_there plistPath in
        match r with
        | Err e => ret (Err (wrapErr ErrManagerUnavailable ("cannot remove plist: " +:+ oserr_msg e)))
        | Ok _ => ret (Ok tt)
        end
    end).

(** Start and stop differ in the arguments. *)
Definition ld_verb (args : list string) (failed : string) : M host (result serror unit) :=
  as_root Err
   (let! st := on_hos (stat plistPath) in
    match st with
    | Err NotExist => ret (Err (sentinel_error ErrNotInstalled))
    | _ =>
        let! r := RunManager launchctlBin args in
        match r with
        | Err _ => ret (Err (wrapErr ErrManagerUnavailable failed))
        | Ok _ => ret (Ok tt)
        end
    end).
Definition ld_Start : M host (result serror unit) :=
  ld_verb ["kickstart"%string; "-k"%string; launchLabel] "launchctl kickstart failed".
Definition ld_Stop : M host (result serror unit) :=
  ld_verb ["kill"%string; "SIGTERM"%string; launchLabel] "launchctl kill SIGTERM failed".

Definition ld_Status : M host Status :=
  let! st := on_hos (stat plistPath) in
  match st with
  | Err NotExist => ret (unknown_status false "not installed")
  | _ =>
      let! r := RunManager launchctlBin ["print"%string; launchLabel] in
      match r with
      | Err _ => ret (unknown_status true "unknown")
      | Ok out =>
          let active := contains_sub out "state = running" in
          let pid := pid_of_lines (split_on nl out) in
          ret {| Installed := true; Active := active; PID := pid; EUID := 0;
                 State := if active then "running" else "inactive" |}
      end
  end.

Definition ld_purge_installed (opts : PurgeOptions) (stopped : bool) : M host (PurgeReport * option serror) :=
  let! u := ld_Uninstall in
  let report b := {| Platform := "darwin"; Stopped := stopped; Uninstalled := b; UserRemoved := false;
                     UserAbsent := false; DirsRemoved := []; DirsAbsent := [] |} in
  let tail b := purge_tail opts [c_StateDir cfg; c_ConfigDir cfg; c_LogPath cfg]
                  (verifyTargetUserDarwin (c_User cfg)) (deleteUserDarwin (c_User cfg)) (report b) in
  match u with
  | Err e =>
      if decide (is_sentinel e = Some ErrNotInstalled) then tail false
      else ret (empty_report "", Some e)
  | Ok _ => tail true
  end.

Definition ld_Purge (opts : PurgeOptions) : M host (PurgeReport * option serror) :=
  as_root (λ e, (empty_report "", Some e))
   (if negb (Confirmed opts) then ret (empty_report "", Some (sentinel_error ErrPurgeNotConfirmed)) else
    let! st := ld_Status in
    if Active st then
      let! r := ld_Stop in
      match r with
      | Err _ => ret (empty_report "", Some (wrapErr ErrManagerUnavailable "service did not stop"))
      | Ok _ => ld_purge_installed opts true
      end
    else ld_purge_installed opts false).

Definition newLaunchdManager : ServiceManager :=
  {| Install := ld_Install; Uninstall := ld_Uninstall; Start := ld_Start; Stop := ld_Stop;
     StatusOf := ld_Status; Purge := ld_Purge |}.
End launchd.

(** ** [New]: empty fields take the platform's defaults *)

Definition or_default (s d : string) : string := if String.eqb s "" then d else s.

(** [executable]: [os.Executable]. *)
Definition with_defaults (goos : string) (exe : string) (cfg : Config) : Config :=
  let d := DefaultConfigForGOOS goos in
  {| c_ExecPath := or_default (c_ExecPath cfg) exe;
     c_User := or_default (c_User cfg) (c_User d);
     c_Group := or_default (c_Group cfg) (c_Group d);
     c_Label := or_default (c_Label cfg) (c_Label d);
     c_StateDir := or_default (c_StateDir cfg) (c_StateDir d);
     c_ConfigDir := or_default (c_ConfigDir cfg) (c_ConfigDir d);
     c_LogPath := or_default (c_LogPath cfg) (c_LogPath d);
     c_Port := if c_Port cfg =? 0 then c_Port d else c_Port cfg |}.

Definition New (goos : string) (executable : result string string) (cfg : Config) :
    result serror ServiceManager :=
  let build exe :=
    let cfg := with_defaults goos exe cfg in
    if String.eqb goos "linux" then Ok (newSystemdManager cfg)
    else if String.eqb goos "darwin" then Ok (newLaunchdManager cfg)
    else Err (wrapErr ErrUnsupported ("GOOS=" +:+ goos)) in
  if String.eqb (c_ExecPath cfg) "" then
    match executable with
    | Err e => Err (plain_error ("cannot determine executable path: " +:+ e))
    | Ok exe => build exe
    end
  else build (c_ExecPath cfg).
