(* ===== verification/ServicePurge.v ===== *)
(** * ServicePurge: what a purge may do.

    The contract of [Purge] as an interface over the two managers: which steps
    may delete, under which conditions, and what stays as it was.  Both managers
    are shown to keep it. *)

From S2P Require Import Prelude GoText GoEncoding GoPath GoOs ServiceTemplates Service ServiceSystemd ServiceLaunchd.
Open Scope Z_scope.
Open Scope go_scope.

(** ** Rules for the host *)

Definition logged (evs : list hevent) (h : host) : host := set_host (h_os h) (h_dirs h) (h_log h ++ evs) h.

Lemma wp_on_hos {A} (m : M os A) Q h :
  wp m (λ a o, Q a (set_host o (h_dirs h) (h_log h) h)) (h_os h) → wp (on_hos m) Q h.
Proof. unfold wp, on_hos, zoom. by destruct (m (h_os h)). Qed.

Lemma wp_run_cmd argv Q h :
  Q (h_exec h (h_log h) argv) (logged [HCmd argv] h) → wp (run_cmd argv) Q h.
Proof. done. Qed.

Lemma wp_RunManager name args Q h :
  (∀ r, Q r (logged [HCmd (name :: args)] h)) → wp (RunManager name args) Q h.
Proof. intros H. unfold RunManager. apply wp_bind, wp_run_cmd, wp_ret. apply H. Qed.

(** A call on the files that leaves them as they are. *)
Lemma wp_fallible_unit (Q : result oserr unit → os → Prop) s :
  (∀ l r, Q r (set_faults l s)) → wp (fallible (ret (Ok tt))) Q s.
Proof. intros H. apply wp_fallible; intros; [|apply wp_ret]; apply H. Qed.

(** ** The profile of a manager *)

(** The directories it removes, the files it installs, the commands that delete
    an account and the one of these it uses, the command that looks the account
    up, and what the answer must show. *)
Record purge_profile := {
  pp_dirs : list string;
  pp_owned : list string;
  pp_kills : list string → bool;
  pp_delete : list string;
  pp_verify : list string;
  pp_vouch : exec_result → Prop;
}.

(** Everything but the profile's files and directories is as before. *)
Record frame (pp : purge_profile) (h h' : host) : Prop := {
  fr_eval : h_eval h' = h_eval h;
  fr_home : h_home h' = h_home h;
  fr_euid : h_euid h' = h_euid h;
  fr_exec : h_exec h' = h_exec h;
  fr_files p : p ∉ pp_owned pp → (∀ d, d ∈ pp_dirs pp → under d p = false) →
    os_files (h_os h') !! p = os_files (h_os h) !! p;
  fr_dirs p : (∀ d, d ∈ pp_dirs pp → under d p = false) → p ∈ h_dirs h' ↔ p ∈ h_dirs h;
}.

Lemma frame_refl pp h : frame pp h h.
Proof. by split. Qed.

Lemma frame_trans pp h1 h2 h3 : frame pp h1 h2 → frame pp h2 h3 → frame pp h1 h3.
Proof.
  intros [A1 A2 A3 A4 A5 A6] [B1 B2 B3 B4 B5 B6]. split; try congruence.
  - intros p Hp Hd. by rewrite B5, A5.
  - intros p Hd. by rewrite B6, A6.
Qed.

(** A change of the log, the faults and nothing else. *)
Lemma frame_log pp h o l :
  os_files o = os_files (h_os h) → frame pp h (set_host o (h_dirs h) l h).
Proof. intros Ho. split; simpl; try done. intros. by rewrite Ho. Qed.

Lemma validate_frame pp h h' dirs roots :
  frame pp h h' → validate_all h' dirs roots = validate_all h dirs roots.
Proof.
  intros Hf. induction dirs as [|d dirs IH]; [done|]. simpl. unfold validatePurgePath.
  rewrite (fr_eval _ _ _ Hf), (fr_home _ _ _ Hf), IH. done.
Qed.

(** Steps that delete nothing of the user's. *)
Definition harmless (pp : purge_profile) (e : hevent) : Prop :=
  match e with
  | HRemoveAll _ => False
  | HCmd argv => pp_kills pp argv = false
  | HPurgeAudit _ _ _ => True
  end.

Definition grows (pp : purge_profile) (h h' : host) : Prop :=
  frame pp h h' ∧ ∃ evs, h_log h' = h_log h ++ evs ∧ Forall (harmless pp) evs.

Lemma grows_refl pp h : grows pp h h.
Proof. split; [apply frame_refl|]. exists []. by rewrite app_nil_r. Qed.

Lemma grows_trans pp h1 h2 h3 : grows pp h1 h2 → grows pp h2 h3 → grows pp h1 h3.
Proof.
  intros [F1 (e1 & L1 & H1)] [F2 (e2 & L2 & H2)]. split; [by eapply frame_trans|].
  exists (e1 ++ e2). rewrite L2, L1, app_assoc. split; [done|]. by apply Forall_app.
Qed.

(** ** Programs that only make harmless steps *)

Definition safe {A} (pp : purge_profile) (m : M host A) : Prop := ∀ h, wp m (λ _, grows pp h) h.

Section safe.
Variable pp : purge_profile.

Lemma safe_ret {A} (a : A) : safe pp (ret a).
Proof. intros h. apply wp_ret, grows_refl. Qed.

Lemma safe_gets {A} (f : host → A) : safe pp (gets f).
Proof. intros h. apply wp_gets, grows_refl. Qed.

Lemma safe_bind {A B} (m : M host A) (k : A → M host B) :
  safe pp m → (∀ a, safe pp (k a)) → safe pp (bind m k).
Proof.
  intros Hm Hk h. apply wp_bind. eapply wp_mono; [apply Hm|]. intros a h1 H1.
  eapply wp_mono; [apply Hk|]. intros b h2. by apply grows_trans.
Qed.

Lemma safe_on_hos {A} (m : M os A) :
  (∀ s, os_files (m s).2 = os_files s) → safe pp (on_hos m).
Proof.
  intros Hm h. apply wp_on_hos. unfold wp. split; [by apply frame_log, Hm|].
  exists []. by rewrite app_nil_r.
Qed.

Lemma safe_stat p : safe pp (on_hos (stat p)).
Proof.
  apply safe_on_hos. intros s. unfold stat, fallible, bind, next_fault.
  destruct (os_faults s) as [|[f|] l]; simpl; by destruct (os_files s !! p).
Qed.

Lemma safe_read_file p : safe pp (on_hos (read_file p)).
Proof.
  apply safe_on_hos. intros s. unfold read_file, fallible, bind, next_fault.
  destruct (os_faults s) as [|[f|] l]; simpl; by destruct (os_files s !! p).
Qed.

Lemma safe_unit_call : safe pp (on_hos (fallible (ret (Ok tt)))).
Proof.
  apply safe_on_hos. intros s. unfold fallible, bind, next_fault.
  by destruct (os_faults s) as [|[f|] l].
Qed.

Lemma safe_run_cmd argv : pp_kills pp argv = false → safe pp (run_cmd argv).
Proof.
  intros Ha h. apply wp_run_cmd. split; [by apply frame_log|]. exists [HCmd argv].
  split; [done|]. by constructor.
Qed.

Lemma safe_RunManager name args : pp_kills pp (name :: args) = false → safe pp (RunManager name args).
Proof. intros Ha. apply safe_bind; [by apply safe_run_cmd|]. intros r. apply safe_ret. Qed.

Lemma safe_remove p : p ∈ pp_owned pp → safe pp (on_hos (remove p)).
Proof.
  intros Hp h. apply wp_on_hos, wp_remove; intros.
  - split; [by apply frame_log|]. exists []. by rewrite app_nil_r.
  - split; [by apply frame_log|]. exists []. by rewrite app_nil_r.
  - split; [|exists []; by rewrite app_nil_r]. split; simpl; try done.
    intros q Hq _. rewrite lookup_delete_ne; [done|]. by intros ->.
Qed.

Lemma safe_as_root {A} (denied : serror → A) m : safe pp m → safe pp (as_root denied m).
Proof.
  intros Hm. apply safe_bind; [apply safe_gets|]. intros e. destruct (e =? 0); [done|apply safe_ret].
Qed.
End safe.

#[export] Hint Resolve safe_ret safe_gets safe_stat safe_read_file safe_unit_call : go.

(** Walks through a program of harmless steps. *)
Ltac safe_walk :=
  repeat (first
    [ apply safe_as_root
    | apply safe_bind; [|intros ?]
    | solve [auto with go]
    | apply safe_RunManager; solve [auto with go]
    | apply safe_remove; solve [auto with go]
    | match goal with |- context [match ?x with _ => _ end] => destruct x end ]).

(** ** The contract *)

(** One purge: the steps before the point of no return are harmless; what
    deletes comes after a confirmed call by root, the guard on every directory,
    the audit record and a look at the account; it removes the profile's
    directories and nothing else. *)
Definition purge_contract (pp : purge_profile) (opts : PurgeOptions) (h h' : host) : Prop :=
  frame pp h h' ∧
  ∃ pre post, h_log h' = h_log h ++ pre ++ post ∧ Forall (harmless pp) pre ∧
    (post = [] ∨
     Confirmed opts = true ∧ h_euid h = 0 ∧ validate_all h (pp_dirs pp) (pp_dirs pp) = None
     ∧ (AuditOut opts = true → ∃ pl u ds, last pre = Some (HPurgeAudit pl u ds))
     ∧ Forall (λ e, e = HCmd (pp_delete pp) ∨ ∃ d, d ∈ pp_dirs pp ∧ e = HRemoveAll d) post
     ∧ (HCmd (pp_delete pp) ∈ post → ∃ log, pp_vouch pp (h_exec h log (pp_verify pp)))).

Class PurgeSafe (m : ServiceManager) (pp : purge_profile) : Prop :=
  purge_safe opts h : wp (Purge m opts) (λ _, purge_contract pp opts h) h.

Lemma contract_harmless pp opts h h' : grows pp h h' → purge_contract pp opts h h'.
Proof.
  intros [Hf (evs & Hl & Hh)]. split; [done|]. exists evs, []. rewrite app_nil_r. auto.
Qed.

(** ** The removals *)

Lemma frame_remove_all pp d h (r : result oserr unit) :
  d ∈ pp_dirs pp →
  frame pp h (set_host
    (set_files (filter (λ x, negb (under d x.1) = true) (os_files (h_os h))) (h_os h))
    (match r with
     | Ok _ => filter (λ x, negb (under d x) = true) (h_dirs h)
     | Err _ => filter (λ x, negb (under d x) = true ∨ x = d) (h_dirs h)
     end) (h_log h) h).
Proof.
  intros Hd. split; simpl; try done.
  - intros p _ Hp. specialize (Hp d Hd).
    destruct (os_files (h_os h) !! p) as [f|] eqn:E.
    + apply map_lookup_filter_Some. split; [done|]. simpl. by rewrite Hp.
    + apply map_lookup_filter_None. by left.
  - intros p Hp. specialize (Hp d Hd). destruct r; rewrite elem_of_filter, Hp; simpl; naive_solver.
Qed.

Lemma remove_all_spec pp d h :
  d ∈ pp_dirs pp →
  wp (remove_all d) (λ r h', frame pp h h' ∧ h_log h' = h_log h ++ [HRemoveAll d]
    ∧ (is_ok r = true → ∀ p, under d p = true → os_files (h_os h') !! p = None ∧ p ∉ h_dirs h')
    ∧ (∀ p, os_files (h_os h) !! p = None → os_files (h_os h') !! p = None)
    ∧ h_dirs h' ⊆ h_dirs h) h.
Proof.
  intros Hd. apply wp_bind, wp_modify, wp_bind, wp_on_hos, wp_fallible_unit. intros l r.
  apply wp_bind, wp_modify, wp_ret. split_and!.
  - eapply frame_trans.
    + by apply (frame_log pp h (set_faults l (h_os h)) (h_log h ++ [HRemoveAll d])).
    + by apply (frame_remove_all pp d
        (set_host (set_faults l (h_os h)) (h_dirs h) (h_log h ++ [HRemoveAll d]) h) r).
  - done.
  - intros Hr p Hp. destruct r; [|done]. simpl. split.
    + apply map_lookup_filter_None. right. intros x _. simpl. by rewrite Hp.
    + rewrite elem_of_filter, Hp. by intros [].
  - intros p Hp. simpl. apply map_lookup_filter_None. by left.
  - simpl. destruct r; intros p; rewrite elem_of_filter; naive_solver.
Qed.

Definition gone (d : string) (h : host) : Prop :=
  ∀ p, under d p = true → os_files (h_os h) !! p = None ∧ p ∉ h_dirs h.

Lemma remove_dirs_spec pp dirs present report h :
  dirs ⊆ pp_dirs pp →
  wp (remove_dirs dirs present report) (λ r h', frame pp h h'
    ∧ (∃ evs, h_log h' = h_log h ++ evs ∧ Forall (λ e, ∃ d, d ∈ pp_dirs pp ∧ e = HRemoveAll d) evs)
    ∧ (∀ p, os_files (h_os h) !! p = None → os_files (h_os h') !! p = None)
    ∧ h_dirs h' ⊆ h_dirs h
    ∧ (r.2 = None → Forall (λ d, gone d h') dirs)) h.
Proof.
  revert report h. induction dirs as [|d dirs IH]; intros report h Hsub; simpl.
  - apply wp_ret. split; [apply frame_refl|]. split; [exists []; by rewrite app_nil_r|].
    split; [done|]. split; [done|]. intros _. constructor.
  - apply wp_bind. eapply wp_mono; [apply (remove_all_spec pp); set_solver|].
    intros r h1 (F1 & L1 & G1 & K1 & D1). destruct r as [[]|e].
    + eapply wp_mono; [apply IH; set_solver|]. intros r2 h2 (F2 & (evs & L2 & H2) & K2 & D2 & G2).
      split_and!; [by eapply frame_trans| | |set_solver|].
      * exists (HRemoveAll d :: evs). rewrite L2, L1, <-app_assoc. split; [done|].
        constructor; [|done]. exists d. set_solver.
      * eauto.
      * intros Hr. constructor; [|by apply G2]. intros p Hp.
        destruct (G1 eq_refl p Hp) as [Hf Hn]. split; [by apply K2|set_solver].
    + apply wp_ret. split_and!; [done| |done..|done]. exists [HRemoveAll d]. split; [done|].
      constructor; [|done]. exists d. set_solver.
Qed.

(** ** The shared tail *)

Lemma grows_logged pp evs h : Forall (harmless pp) evs → grows pp h (logged evs h).
Proof. intros H. split; [by apply frame_log|]. by exists evs. Qed.

Lemma contract_after pp opts h0 h h' :
  grows pp h0 h → purge_contract pp opts h h' → purge_contract pp opts h0 h'.
Proof.
  intros [F0 (evs & L0 & H0)] [F1 (pre & post & L1 & H1 & Hp)].
  split; [by eapply frame_trans|]. exists (evs ++ pre), post.
  rewrite L1, L0, <-!app_assoc. split; [done|]. split; [by apply Forall_app|].
  destruct Hp as [->|(Hc & He & Hv & Ha & Hd & Hu)]; [by left|right]. split; [done|].
  rewrite <-(fr_euid _ _ _ F0). split; [done|]. rewrite <-(validate_frame _ _ _ _ _ F0). split; [done|].
  split; [|split; [done|]].
  - intros Hao. destruct (Ha Hao) as (pl & u & ds & Hl). exists pl, u, ds. by rewrite last_app, Hl.
  - intros Hin. rewrite <-(fr_exec _ _ _ F0). by apply Hu.
Qed.

Lemma dirs_present_safe pp dirs : safe pp (dirs_present dirs).
Proof.
  induction dirs as [|d dirs IH]; simpl; [apply safe_ret|].
  apply safe_bind.
  - unfold stat_dir. apply safe_bind; [apply safe_unit_call|]. intros []; safe_walk.
  - intros r. apply safe_bind; [done|]. intros ds. apply safe_ret.
Qed.

Lemma dirs_present_files dirs h :
  wp (dirs_present dirs) (λ _ h', os_files (h_os h') = os_files (h_os h)) h.
Proof.
  revert h. induction dirs as [|d dirs IH]; intros h; simpl; [done|].
  apply wp_bind, wp_bind, wp_on_hos, wp_fallible_unit. intros l r.
  destruct r; [apply wp_bind, wp_gets|]; apply wp_ret, wp_bind; (eapply wp_mono; [apply IH|]);
    intros ? h2 H2; by apply wp_ret.
Qed.

Section tail.
Context (pp : purge_profile) (opts : PurgeOptions).
Context (verify : M host (result serror bool)) (delete : M host (option serror)).
Context (verify_other : pp_kills pp (pp_verify pp) = false).
Context (verify_run : ∀ h, wp verify (λ r h', h' = logged [HCmd (pp_verify pp)] h
  ∧ (r = Ok true → pp_vouch pp (h_exec h (h_log h) (pp_verify pp)))) h).
Context (delete_run : ∀ h, wp delete (λ _ h', h' = logged [HCmd (pp_delete pp)] h) h).

(** The audit record, and the state in which the deletions begin. *)
Definition audit_events (platform : string) (userPresent : bool) (present : list string) : list hevent :=
  if AuditOut opts then [HPurgeAudit platform userPresent present] else [].

Lemma emit_audit_run platform userPresent present h :
  emitPurgeAuditRecord opts platform userPresent present h
  = (tt, logged (audit_events platform userPresent present) h).
Proof.
  unfold emitPurgeAuditRecord, audit_events, logged. destruct (AuditOut opts); [done|].
  unfold ret. rewrite app_nil_r. by destruct h.
Qed.

Record ready (h0 h : host) (userPresent : bool) (log : list hevent) : Prop := {
  rd_confirmed : Confirmed opts = true;
  rd_root : h_euid h = 0;
  rd_grows : grows pp h0 h;
  rd_valid : validate_all h (pp_dirs pp) (pp_dirs pp) = None;
  rd_vouch : userPresent = true → pp_vouch pp (h_exec h log (pp_verify pp));
}.

(** The steps after the audit record delete what the contract allows. *)
Lemma deletions_contract h0 h userPresent log platform present h2 h' post :
  let aud := audit_events platform userPresent present in
  ready h0 h userPresent log →
  frame pp (logged aud h) h2 → frame pp h2 h' → h_log h' = h_log (logged aud h) ++ post →
  Forall (λ e, e = HCmd (pp_delete pp) ∨ ∃ d, d ∈ pp_dirs pp ∧ e = HRemoveAll d) post →
  (HCmd (pp_delete pp) ∈ post → userPresent = true) → purge_contract pp opts h0 h'.
Proof.
  intros aud [Hc He Hg Hv Hu] F1 F2 Hl Hpost Hin. apply (contract_after _ _ h0 h); [done|].
  split; [by eapply frame_trans; [apply frame_log|eapply frame_trans; [exact F1|exact F2]]|].
  exists aud, post. rewrite Hl. simpl. rewrite <-app_assoc. split; [done|]. split.
  { unfold aud, audit_events. destruct (AuditOut opts); by constructor. }
  right. do 3 (split; [done|]). split; [|split; [done|]].
  - intros Hao. unfold aud, audit_events. rewrite Hao. eauto.
  - intros Hd. exists log. auto.
Qed.

(** What the deletions leave of the files, beside the contract. *)
Definition deletions_post (h0 h : host) (r : PurgeReport * option serror) (h' : host) : Prop :=
  purge_contract pp opts h0 h'
  ∧ (∀ p, os_files (h_os h) !! p = None → os_files (h_os h') !! p = None)
  ∧ (r.2 = None → Forall (λ d, gone d h') (pp_dirs pp)).

Lemma remove_dirs_post h0 h userPresent log platform present pr rep h2 evs :
  let aud := audit_events platform userPresent present in
  ready h0 h userPresent log →
  h_log h2 = h_log (logged aud h) ++ evs → frame pp (logged aud h) h2 →
  os_files (h_os h2) = os_files (h_os h) →
  (∀ e, e ∈ evs → e = HCmd (pp_delete pp) ∧ userPresent = true) →
  wp (remove_dirs (pp_dirs pp) pr rep) (deletions_post h0 h) h2.
Proof.
  intros aud Hrd Hl2 F2 Hf2 Hevs. eapply wp_mono; [by apply (remove_dirs_spec pp)|].
  intros r h' (F3 & (evs3 & Hl3 & Hall) & Hk & _ & Hgone). split; [|split; [by rewrite <-Hf2|done]].
  eapply (deletions_contract h0 h userPresent log platform present h2 h' (evs ++ evs3));
    [done|done|done|by rewrite Hl3, Hl2, app_assoc|..].
  - apply Forall_app. split; [|eapply Forall_impl; [exact Hall|auto]].
    apply Forall_forall. intros e Hin. left. by apply Hevs.
  - intros [Hin|Hin]%elem_of_app; [by apply (Hevs _ Hin)|].
    rewrite Forall_forall in Hall. by destruct (Hall _ Hin) as (d & _ & ?).
Qed.

Lemma deletions_spec h0 h present userPresent report log :
  ready h0 h userPresent log →
  wp (do! emitPurgeAuditRecord opts (Platform report) userPresent present in
      if userPresent then
        let! d := delete in
        match d with
        | Some e => ret (empty_report "", Some e)
        | None => remove_dirs (pp_dirs pp) present (set_user true false report)
        end
      else remove_dirs (pp_dirs pp) present (set_user false true report))
     (deletions_post h0 h) h.
Proof.
  intros Hrd. apply wp_bind. unfold wp at 1. rewrite emit_audit_run. cbn [fst snd].
  set (aud := audit_events _ _ _). destruct userPresent.
  - apply wp_bind. eapply wp_mono; [apply delete_run|]. intros d h2 ->.
    assert (frame pp (logged aud h) (logged [HCmd (pp_delete pp)] (logged aud h))) as F2
      by by apply frame_log.
    destruct d as [e|].
    + apply wp_ret. split; [|done].
      eapply (deletions_contract h0 h true log (Platform report) present (logged aud h) _
        [HCmd (pp_delete pp)]); [done|apply frame_refl|done|done| |done].
      constructor; [by left|constructor].
    + eapply (remove_dirs_post _ _ true _ _ present _ _ _ [HCmd (pp_delete pp)]); [done..|].
      intros e He'. by apply list_elem_of_singleton in He' as ->.
  - eapply (remove_dirs_post _ _ false _ _ present _ _ _ []);
      [done|by rewrite app_nil_r|apply frame_refl|done|].
    intros e Hin. by apply elem_of_nil in Hin.
Qed.

Lemma purge_tail_spec report h :
  Confirmed opts = true → h_euid h = 0 →
  wp (purge_tail opts (pp_dirs pp) verify delete report)
     (deletions_post h h) h.
Proof.
  intros Hc He. apply wp_bind, wp_gets.
  destruct (validate_all h (pp_dirs pp) (pp_dirs pp)) as [e|] eqn:Hv.
  { apply wp_ret. split; [|done]. apply contract_harmless, grows_refl. }
  apply wp_bind. eapply wp_mono; [apply verify_run|]. intros v h1 [-> Hvouch].
  assert (grows pp h (logged [HCmd (pp_verify pp)] h)) as Hg1.
  { apply grows_logged. by constructor. }
  destruct v as [userPresent|e]; [|apply wp_ret; split; [by apply contract_harmless|done]].
  apply wp_bind. eapply wp_mono.
  { apply wp_and; [apply (dirs_present_safe pp)|apply dirs_present_files]. }
  intros present h2 [Hg2 Hf2]. pose proof (grows_trans _ _ _ _ Hg1 Hg2) as Hg.
  pose proof Hg as [F _].
  eapply wp_mono.
  { apply (deletions_spec h h2 present userPresent report (h_log h)). split; [done| |done| |].
    - by rewrite (fr_euid _ _ _ F).
    - by rewrite (validate_frame _ _ _ _ _ F).
    - intros ->. rewrite (fr_exec _ _ _ F). by apply Hvouch. }
  intros r h' (H1 & H2 & H3). split; [done|]. split; [|done]. intros p Hp. apply H2. by rewrite Hf2.
Qed.
End tail.

(** ** The two managers *)

Definition sd_profile_on (dirs : list string) (cfg : Config) : purge_profile := {|
  pp_dirs := dirs;
  pp_owned := [unitPath; dropInPath];
  pp_kills argv := match argv with a :: _ => String.eqb a userdelBin | [] => false end;
  pp_delete := [userdelBin; c_User cfg];
  pp_verify := [getentBin; "passwd"%string; c_User cfg];
  pp_vouch r := x_end r = Exited 0 ∧ parsePasswdLine (trim_space (x_stdout r)) (c_User cfg) = Ok true;
|}.

Definition sd_profile (cfg : Config) : purge_profile := sd_profile_on [c_StateDir cfg; c_ConfigDir cfg] cfg.

Definition ld_profile_on (dirs : list string) (cfg : Config) : purge_profile := {|
  pp_dirs := dirs;
  pp_owned := [plistPath];
  pp_kills argv := String.eqb (hd ""%string argv) dsclBin && String.eqb (nth 2 argv ""%string) "-delete";
  pp_delete := [dsclBin; "."; "-delete"; "/Users/" +:+ c_User cfg]%string;
  pp_verify := [dsclBin; "."; "-read"; "/Users/" +:+ c_User cfg; "UserShell"]%string;
  pp_vouch r := x_end r = Exited 0 ∧ parseDsclShellOutput (x_stdout r) = Ok true;
|}.

Definition ld_profile (cfg : Config) : purge_profile :=
  ld_profile_on [c_StateDir cfg; c_ConfigDir cfg; c_LogPath cfg] cfg.

(** The commands of the managers delete no account. *)
#[export] Hint Extern 1 (pp_kills _ _ = false) => reflexivity : go.
#[export] Hint Extern 1 (_ ∈ pp_owned _) => (simpl; set_solver) : go.

Lemma remove_if_there_safe pp p : p ∈ pp_owned pp → safe pp (remove_if_there p).
Proof. intros Hp. apply safe_bind; [by apply safe_remove|]. intros r. apply safe_ret. Qed.

Section systemd.
Context (cfg : Config).

Lemma sd_Status_safe dirs : safe (sd_profile_on dirs cfg) sd_Status.
Proof.
  assert (safe (sd_profile_on dirs cfg) sd_show) as Hshow.
  { apply safe_bind; [apply safe_RunManager; auto with go|]. intros [out|e]; [|apply safe_ret].
    cbv zeta. apply safe_bind; [|intros; apply safe_ret].
    destruct (_ && _); [|apply safe_ret]. apply safe_bind; [apply safe_read_file|].
    intros []; apply safe_ret. }
  apply safe_bind; [apply safe_stat|]. intros [x|[]]; [exact Hshow|apply safe_ret|exact Hshow].
Qed.

Lemma sd_verb_safe dirs verb : safe (sd_profile_on dirs cfg) (sd_verb verb).
Proof.
  unfold sd_verb. apply safe_as_root, safe_bind; [apply safe_stat|].
  intros [x|[]]; [|apply safe_ret|]; (apply safe_bind; [apply safe_RunManager; auto with go|]);
    intros []; apply safe_ret.
Qed.

Lemma uninstall_rest_safe dirs : safe (sd_profile_on dirs cfg) uninstall_rest.
Proof.
  do 3 (apply safe_bind; [apply safe_RunManager; auto with go|intros _]).
  apply safe_bind; [apply remove_if_there_safe; auto with go|]. intros []; [|apply safe_ret].
  apply safe_bind; [apply remove_if_there_safe; auto with go|]. intros []; [|apply safe_ret].
  apply safe_bind; [apply safe_RunManager; auto with go|intros _; apply safe_ret].
Qed.

Lemma sd_Uninstall_safe dirs : safe (sd_profile_on dirs cfg) sd_Uninstall.
Proof.
  apply safe_as_root, safe_bind; [apply safe_stat|].
  intros [x|[]]; [apply uninstall_rest_safe|apply safe_ret|apply uninstall_rest_safe].
Qed.

Lemma verifyTargetUserLinux_run h :
  wp (verifyTargetUserLinux (c_User cfg)) (λ r h',
    h' = logged [HCmd (pp_verify (sd_profile cfg))] h
    ∧ (r = Ok true → pp_vouch (sd_profile cfg) (h_exec h (h_log h) (pp_verify (sd_profile cfg))))) h.
Proof.
  apply wp_bind, wp_run_cmd, wp_ret. split; [done|].
  change (pp_verify (sd_profile cfg)) with [getentBin; "passwd"%string; c_User cfg].
  destruct (h_exec h (h_log h) [getentBin; "passwd"%string; c_User cfg]) as [out err e]. simpl.
  destruct e as [[|[[]|[]|]|]| | |]; try done. intros Hr. split; [done|].
  by destruct (String.eqb (trim_space out) "").
Qed.

Lemma deleteUserLinux_run h :
  wp (deleteUserLinux (c_User cfg)) (λ _ h', h' = logged [HCmd (pp_delete (sd_profile cfg))] h) h.
Proof. by apply wp_bind, wp_run_cmd, wp_ret. Qed.
End systemd.

Section launchd.
Context (cfg : Config).

Lemma ld_Status_safe dirs : safe (ld_profile_on dirs cfg) ld_Status.
Proof.
  unfold ld_Status. apply safe_bind; [apply safe_stat|]. intros st.
  destruct st as [x|[]]; [|apply safe_ret|];
    (apply safe_bind; [apply safe_RunManager; auto with go|]); intros []; apply safe_ret.
Qed.

Lemma ld_verb_safe dirs args failed : safe (ld_profile_on dirs cfg) (ld_verb args failed).
Proof.
  unfold ld_verb. apply safe_as_root, safe_bind; [apply safe_stat|].
  intros [x|[]]; [|apply safe_ret|]; (apply safe_bind; [apply safe_RunManager; auto with go|]);
    intros []; apply safe_ret.
Qed.

Lemma ld_Uninstall_safe dirs : safe (ld_profile_on dirs cfg) ld_Uninstall.
Proof.
  unfold ld_Uninstall. apply safe_as_root, safe_bind; [apply safe_stat|].
  intros [x|[]]; [|apply safe_ret|];
    do 2 (apply safe_bind; [apply safe_RunManager; auto with go|intros _]);
    (apply safe_bind; [apply remove_if_there_safe; auto with go|]); intros []; apply safe_ret.
Qed.

Lemma verifyTargetUserDarwin_run h :
  wp (verifyTargetUserDarwin (c_User cfg)) (λ r h',
    h' = logged [HCmd (pp_verify (ld_profile cfg))] h
    ∧ (r = Ok true → pp_vouch (ld_profile cfg) (h_exec h (h_log h) (pp_verify (ld_profile cfg))))) h.
Proof.
  apply wp_bind, wp_run_cmd, wp_ret. split; [done|].
  change (pp_verify (ld_profile cfg))
    with [dsclBin; "."; "-read"; "/Users/" +:+ c_User cfg; "UserShell"]%string.
  destruct (h_exec h _ _) as [out err e]. simpl. by destruct e as [[]| | |].
Qed.

Lemma deleteUserDarwin_run h :
  wp (deleteUserDarwin (c_User cfg)) (λ _ h', h' = logged [HCmd (pp_delete (ld_profile cfg))] h) h.
Proof. by apply wp_bind, wp_run_cmd, wp_ret. Qed.
End launchd.

(** ** A whole purge *)

(** What holds after a purge: the contract, and after a success nothing is left
    of the directories and the service file is gone. *)
Definition purge_post (pp : purge_profile) (unit : string) (opts : PurgeOptions) (h : host)
    (r : PurgeReport * option serror) (h' : host) : Prop :=
  purge_contract pp opts h h' ∧
  (r.2 = None → Forall (λ d, gone d h') (pp_dirs pp) ∧ os_files (h_os h') !! unit = None).

Lemma purge_post_after pp unit opts h h1 r h' :
  grows pp h h1 → purge_post pp unit opts h1 r h' → purge_post pp unit opts h r h'.
Proof. intros Hg [Hc Hd]. split; [by eapply contract_after|done]. Qed.

Section whole.
Context (pp : purge_profile) (unit : string) (opts : PurgeOptions).
Context (verify : M host (result serror bool)) (delete : M host (option serror)).
Context (uninstall : M host (result serror ())) (stop : M host (result serror ())) (status : M host Status).
Context (verify_other : pp_kills pp (pp_verify pp) = false).
Context (verify_run : ∀ h, wp verify (λ r h', h' = logged [HCmd (pp_verify pp)] h
  ∧ (r = Ok true → pp_vouch pp (h_exec h (h_log h) (pp_verify pp)))) h).
Context (delete_run : ∀ h, wp delete (λ _ h', h' = logged [HCmd (pp_delete pp)] h) h).
Context (uninstall_safe : safe pp uninstall) (stop_safe : safe pp stop) (status_safe : safe pp status).
Context (uninstall_unit : ∀ h, h_euid h = 0 → wp uninstall (λ u h',
  match u with
  | Ok _ => os_files (h_os h') !! unit = None
  | Err e => is_sentinel e = Some ErrNotInstalled → os_files (h_os h') !! unit = None
  end) h).

Lemma purge_installed_spec (report : bool → PurgeReport) h :
  Confirmed opts = true → h_euid h = 0 →
  wp (let! u := uninstall in
      let tail b := purge_tail opts (pp_dirs pp) verify delete (report b) in
      match u with
      | Err e =>
          if decide (is_sentinel e = Some ErrNotInstalled) then tail false
          else ret (empty_report "", Some e)
      | Ok _ => tail true
      end) (purge_post pp unit opts h) h.
Proof.
  intros Hc He. apply wp_bind. eapply wp_mono; [apply wp_and; [apply uninstall_safe|by apply uninstall_unit]|].
  intros u h1 [Hg Hu]. pose proof Hg as [F _].
  assert (∀ b, os_files (h_os h1) !! unit = None →
    wp (purge_tail opts (pp_dirs pp) verify delete (report b)) (purge_post pp unit opts h) h1) as Htail.
  { intros b Hn. eapply wp_mono.
    { apply purge_tail_spec; [done..|]. by rewrite (fr_euid _ _ _ F). }
    intros r h' (H1 & H2 & H3). apply (purge_post_after _ _ _ h h1); [done|]. split; [done|]. auto. }
  destruct u as [[]|e]; [by apply Htail|].
  destruct (decide _) as [Hs|Hs]; [by apply Htail, Hu|].
  apply wp_ret. split; [by apply contract_harmless|done].
Qed.

Lemma purge_spec (installed : bool → M host (PurgeReport * option serror)) h :
  (∀ b h, Confirmed opts = true → h_euid h = 0 → wp (installed b) (purge_post pp unit opts h) h) →
  wp (as_root (λ e, (empty_report "", Some e))
       (if negb (Confirmed opts) then ret (empty_report "", Some (sentinel_error ErrPurgeNotConfirmed)) else
        let! st := status in
        if Active st then
          let! r := stop in
          match r with
          | Err _ => ret (empty_report "", Some (wrapErr ErrManagerUnavailable "service did not stop"))
          | Ok _ => installed true
          end
        else installed false)) (purge_post pp unit opts h) h.
Proof.
  intros Hinst.
  assert (∀ h1 rep e, grows pp h h1 → purge_post pp unit opts h (rep, Some e) h1) as Herr.
  { intros h1 rep e Hg. split; [by apply contract_harmless|done]. }
  apply wp_bind, wp_gets. destruct (Z.eqb_spec (h_euid h) 0) as [He|He].
  2: { apply wp_ret, Herr, grows_refl. }
  destruct (Confirmed opts) eqn:Hc; simpl; [|apply wp_ret, Herr, grows_refl].
  apply wp_bind. eapply wp_mono; [apply status_safe|]. intros st h1 Hg1.
  assert (∀ b h2, grows pp h h2 → wp (installed b) (purge_post pp unit opts h) h2) as Hgo.
  { intros b h2 Hg. pose proof Hg as [F _]. eapply wp_mono.
    - apply Hinst; [done|by rewrite (fr_euid _ _ _ F)].
    - intros r h'. by apply purge_post_after. }
  destruct (Active st); [|by apply Hgo].
  apply wp_bind. eapply wp_mono; [apply stop_safe|]. intros r h2 Hg2.
  pose proof (grows_trans _ _ _ _ Hg1 Hg2) as Hg. destruct r; [by apply Hgo|by apply wp_ret, Herr].
Qed.
End whole.

(** ** Uninstalling removes the service file *)

Lemma remove_if_there_gone p h :
  wp (remove_if_there p) (λ r h', (is_ok r = true → os_files (h_os h') !! p = None)
    ∧ ∀ q, os_files (h_os h) !! q = None → os_files (h_os h') !! q = None) h.
Proof.
  apply wp_bind, wp_on_hos, wp_remove; intros; apply wp_ret; simpl; split; try done.
  - intros _. apply lookup_delete_eq.
  - intros q Hq. by rewrite lookup_delete_None, Hq; right.
Qed.

Lemma RunManager_files name args h :
  wp (RunManager name args) (λ _ h', os_files (h_os h') = os_files (h_os h)) h.
Proof. by apply wp_RunManager. Qed.

Lemma stat_not_exist p h :
  wp (on_hos (stat p)) (λ r h', os_files (h_os h') = os_files (h_os h)
    ∧ (r = Err NotExist → os_files (h_os h) !! p = None)) h.
Proof.
  apply wp_on_hos, wp_fallible; [done|]. intros l. unfold wp. simpl.
  by destruct (os_files (h_os h) !! p).
Qed.

(** The outcome of removing the service whose file is given. *)
Definition unit_gone (file : string) (u : result serror unit) (h' : host) : Prop :=
  match u with
  | Ok _ => os_files (h_os h') !! file = None
  | Err e => is_sentinel e = Some ErrNotInstalled → os_files (h_os h') !! file = None
  end.

Lemma uninstall_rest_unit h : wp uninstall_rest (unit_gone unitPath) h.
Proof.
  apply wp_bind, wp_RunManager. intros _. apply wp_bind, wp_RunManager. intros _.
  apply wp_bind, wp_RunManager. intros _.
  apply wp_bind. eapply wp_mono; [apply remove_if_there_gone|]. intros r h2 [Hu _].
  destruct r as [[]|e]; [|by apply wp_ret]. apply wp_bind.
  eapply wp_mono; [apply remove_if_there_gone|]. intros r h3 [_ Hk].
  destruct r as [[]|e]; [|by apply wp_ret]. apply wp_bind, wp_RunManager. intros _.
  apply wp_ret. simpl. by apply Hk, Hu.
Qed.

Lemma sd_Uninstall_unit h : h_euid h = 0 → wp sd_Uninstall (unit_gone unitPath) h.
Proof.
  intros He. apply wp_bind, wp_gets. rewrite He. simpl.
  apply wp_bind. eapply wp_mono; [apply stat_not_exist|]. intros st h1 [Hf1 Hst].
  destruct st as [x|[]]; [apply uninstall_rest_unit| |apply uninstall_rest_unit].
  apply wp_ret. intros _. rewrite Hf1. by apply Hst.
Qed.

Lemma ld_Uninstall_unit h :
  h_euid h = 0 → wp ld_Uninstall (unit_gone plistPath) h.
Proof.
  intros He. apply wp_bind, wp_gets. rewrite He. simpl.
  apply wp_bind. eapply wp_mono; [apply stat_not_exist|]. intros st h1 [Hf1 Hst].
  destruct st as [x|[]]; [|apply wp_ret; intros _; rewrite Hf1; by apply Hst|];
    apply wp_bind, wp_RunManager; intros _; apply wp_bind, wp_RunManager; intros _;
    apply wp_bind; (eapply wp_mono; [apply remove_if_there_gone|]); intros r h2 [Hu _];
    (destruct r as [[]|e]; apply wp_ret; [by apply Hu|done]).
Qed.

Lemma sd_Purge_spec cfg opts h :
  wp (sd_Purge cfg opts) (purge_post (sd_profile cfg) unitPath opts h) h.
Proof.
  apply (purge_spec (sd_profile cfg) unitPath opts sd_Stop sd_Status).
  - apply sd_verb_safe.
  - apply sd_Status_safe.
  - intros b h1 Hc He. apply (purge_installed_spec (sd_profile cfg)); try done.
    all: first [apply verifyTargetUserLinux_run|apply deleteUserLinux_run|apply sd_Uninstall_safe
               |apply sd_Uninstall_unit].
Qed.

Lemma ld_Purge_spec cfg opts h :
  wp (ld_Purge cfg opts) (purge_post (ld_profile cfg) plistPath opts h) h.
Proof.
  apply (purge_spec (ld_profile cfg) plistPath opts ld_Stop ld_Status).
  - apply ld_verb_safe.
  - apply ld_Status_safe.
  - intros b h1 Hc He. apply (purge_installed_spec (ld_profile cfg)); try done.
    all: first [apply verifyTargetUserDarwin_run|apply deleteUserDarwin_run|apply ld_Uninstall_safe
               |apply ld_Uninstall_unit].
Qed.

#[export] Instance sd_purge_safe cfg : PurgeSafe (newSystemdManager cfg) (sd_profile cfg).
Proof. intros opts h. eapply wp_mono; [apply sd_Purge_spec|]. by intros r h' [H _]. Qed.

#[export] Instance ld_purge_safe cfg : PurgeSafe (newLaunchdManager cfg) (ld_profile cfg).
Proof. intros opts h. eapply wp_mono; [apply ld_Purge_spec|]. by intros r h' [H _]. Qed.
