(* ===== verification/ServiceTheorems.v ===== *)
(** * ServiceTheorems: installing, rendering and purging.

    A unit cannot be injected into, an installation is all or nothing and is
    undone by the removal, and a purge deletes only what the configuration
    names, after every guard. *)

From S2P Require Import Prelude GoText GoEncoding GoPath GoOs Config ServiceTemplates Service ServiceSystemd ServiceLaunchd ServicePurge.
Open Scope Z_scope.
Open Scope go_scope.

(** ** The unit *)

Definition before_exec : string := Eval vm_compute in
  match unitTmpl with
  | Leaf (inl t) :: _ => match cut_last nl t with Some (a, _) => a | None => EmptyString end
  | _ => EmptyString
  end.

(** The lines of the unit around the three that carry data. *)
Definition unit_head : list string := Eval vm_compute in split_on nl before_exec.

Definition after_group (cap : bool) : string := Eval vm_compute in
  match unitTmpl with
  | [_; _; _; _; _; _; Leaf (inl t); If _ yes no; Leaf (inl e)] =>
      match cut_on nl t with
      | Some (_, r) => r +:+ exec_leaves (λ _, EmptyString) (if cap then yes else no) +:+ e
      | None => EmptyString
      end
  | _ => EmptyString
  end.
Definition unit_tail (cap : bool) : list string := Eval vm_compute in split_on nl (after_group cap).

Lemma has_char_app_false c a b : has_char c (a +:+ b) = has_char c a || has_char c b.
Proof.
  unfold has_char. induction a as [|x a IH]; [done|]. rewrite str_app_cons. simpl.
  by rewrite IH, orb_assoc.
Qed.

Lemma no_control_no_newline s : hasControlChar s = false → has_char nl s = false.
Proof.
  unfold hasControlChar, has_char. induction s as [|c s IH]; [done|]. simpl.
  intros [Hc Hs]%orb_false_iff. rewrite IH by done. apply orb_false_iff. split; [|done].
  apply bool_decide_eq_false. intros ->. done.
Qed.

Lemma name_no_newline s : posixNameRe s = true → has_char nl s = false.
Proof.
  destruct s as [|c s]; [done|]. simpl. intros [[Hc Hs]%andb_true_iff _]%andb_true_iff.
  unfold has_char. simpl. apply orb_false_iff. split.
  - apply bool_decide_eq_false. intros ->. done.
  - clear Hc. induction s as [|x s IH]; [done|]. simpl in Hs |- *.
    apply andb_true_iff in Hs as [Hx Hs]. rewrite IH by done. apply orb_false_iff. split; [|done].
    apply bool_decide_eq_false. intros ->. done.
Qed.

(** The fields a unit carries, once they are accepted. *)
Lemma validated_fields d :
  ValidateTemplateData d = None →
  has_char nl (ExecPath d) = false ∧ has_char nl (User d) = false ∧ has_char nl (Group d) = false.
Proof.
  unfold ValidateTemplateData. destruct (posixNameRe (User d)) eqn:Eu; [|done].
  destruct (posixNameRe (Group d)) eqn:Eg; [|done]. destruct (labelRe (Label d)); [|done].
  destruct (String.eqb (ExecPath d) ""); [done|]. destruct (is_abs (ExecPath d)); [|done].
  destruct (hasControlChar (ExecPath d)) eqn:Ee; [done|]. intros _.
  split_and!; [by apply no_control_no_newline|by apply name_no_newline..].
Qed.

Lemma unit_text d :
  exec_nodes (str_field d) (bool_field d) unitTmpl =
    before_exec +:+ String nl (("ExecStart=" +:+ ExecPath d +:+ " serve") +:+ String nl
      (("User=" +:+ User d) +:+ String nl (("Group=" +:+ Group d) +:+ String nl
        (after_group (NeedNetBindCap d))))).
Proof.
  rewrite <-!str_app_assoc. destruct d as [ex us gr la po [] st co lo ch sh]; reflexivity.
Qed.

Lemma RenderUnit_split d u :
  RenderUnit d = Ok u →
  split_on nl u = unit_head ++ ["ExecStart=" +:+ ExecPath d +:+ " serve"; "User=" +:+ User d;
                                "Group=" +:+ Group d] ++ unit_tail (NeedNetBindCap d).
Proof.
  unfold RenderUnit, render. destruct (ValidateTemplateData d) eqn:Ev; [done|].
  destruct (validated_fields d Ev) as (He & Hu & Hg). intros Hr.
  assert (u = exec_nodes (str_field d) (bool_field d) unitTmpl) as -> by congruence.
  rewrite unit_text.
  rewrite !split_app.
  rewrite (split_no_sep _ ("ExecStart=" +:+ ExecPath d +:+ " serve"))
    by (rewrite !has_char_app_false, He; reflexivity).
  rewrite (split_no_sep _ ("User=" +:+ User d)) by (rewrite has_char_app_false, Hu; reflexivity).
  rewrite (split_no_sep _ ("Group=" +:+ Group d)) by (rewrite has_char_app_false, Hg; reflexivity).
  by destruct (NeedNetBindCap d).
Qed.


(** C22: Nothing can be injected into the unit.  Whatever the accepted data, the
    unit consists, line by line, of the fixed lines of the template and the
    three lines for the command, the user and the group: a port below 1024
    alone decides whether it has the capability lines instead of
    [NoNewPrivileges]. *)
Theorem RenderUnit_lines d u :
  RenderUnit d = Ok u →
  split_on nl u = unit_head ++ ["ExecStart=" +:+ ExecPath d +:+ " serve"; "User=" +:+ User d;
                                "Group=" +:+ Group d] ++ unit_tail (NeedNetBindCap d).
Proof. apply RenderUnit_split. Qed.

(** The environment the unit gives the daemon: the first assignment of a
    variable. *)
Definition unit_env (u : string) (var : string) : string :=
  let mark := "Environment=" +:+ var +:+ "=" in
  match List.filter (λ l, has_prefix l mark) (split_on nl u) with
  | l :: _ => trim_prefix l mark
  | [] => EmptyString
  end.

(** The daemon finds the directories systemd makes for it.  Whatever data is
    accepted, the environment in the unit leads [config.Paths] to the
    directories of the default configuration, which [StateDirectory] and
    [ConfigurationDirectory] create. *)
Theorem unit_environment d u :
  RenderUnit d = Ok u →
  Paths (unit_env u) = Ok {| Config.ConfigDir := c_ConfigDir (DefaultConfigForGOOS "linux");
                             ConfigFile := "/etc/raxd/config.yaml";
                             Config.StateDir := c_StateDir (DefaultConfigForGOOS "linux");
                             KeysDB := "/var/lib/raxd/keys.db"; TLSDir := "/var/lib/raxd/tls" |}.
Proof.
  intros Hu%RenderUnit_split. unfold Paths, unit_env. rewrite Hu.
  destruct (NeedNetBindCap d); vm_compute; reflexivity.
Qed.

(** The hardening of the unit. *)
Example unit_hardening :
  "NoNewPrivileges=yes"%string ∈ unit_tail false ∧ ("NoNewPrivileges=yes"%string ∉ unit_tail true)
  ∧ "AmbientCapabilities=CAP_NET_BIND_SERVICE"%string ∈ unit_tail true
  ∧ "ProtectSystem=strict"%string ∈ unit_tail true ∧ "ProtectSystem=strict"%string ∈ unit_tail false
  ∧ "StateDirectoryMode=0700"%string ∈ unit_tail false.
Proof. split_and!; apply (bool_decide_unpack _); vm_compute; exact I. Qed.

(** ** Installing on Linux *)

Lemma os_write_file_quiet p data mode s :
  quiet s → os_files s !! p = None →
  wp (os_write_file p data mode) (λ r s', r = Ok tt ∧ quiet s' ∧
    os_files s' = <[p := File mode data]> (os_files s)) s.
Proof.
  intros Hq Hp. apply wp_bind, wp_fallible_quiet; [done|]. unfold wp at 1. rewrite Hp. simpl.
  apply wp_bind. unfold write, wp at 1, bind, next_fault. simpl. rewrite Hq. simpl.
  unfold update_file. simpl. rewrite lookup_insert_eq. simpl.
  apply wp_fallible_quiet; [done|]. apply wp_ret. split_and!; [done|done|]. simpl.
  apply insert_insert_eq.
Qed.

(** The host's files are [f] and no call on them fails. *)
Definition files_are (f : disk) (h : host) : Prop := quiet (h_os h) ∧ os_files (h_os h) = f.

Lemma mkdir_all_quiet d f h :
  files_are f h → wp (mkdir_all d) (λ r h', r = Ok tt ∧ files_are f h' ∧ h_euid h' = h_euid h) h.
Proof.
  intros [Hq Hf]. apply wp_bind, wp_on_hos, wp_fallible_quiet; [done|].
  by apply wp_ret, wp_bind, wp_modify, wp_ret.
Qed.

Lemma writeFile_quiet p content mode f h :
  files_are f h → f !! p = None →
  wp (writeFile p content mode) (λ r h', r = Ok tt ∧
    files_are (<[p := File mode (bytes_of_string content)]> f) h' ∧ h_euid h' = h_euid h) h.
Proof.
  intros Hf Hp. apply wp_bind. eapply wp_mono; [by apply (mkdir_all_quiet _ f)|].
  intros r h1 (-> & [Hq Hf1] & He). apply wp_bind, wp_on_hos.
  eapply wp_mono; [apply os_write_file_quiet; [done|by rewrite Hf1]|].
  intros r s (-> & Hqs & Hfs). apply wp_ret. split_and!; [done|split; [done|]|done].
  simpl. by rewrite Hfs, Hf1.
Qed.

Lemma RunManager_quiet name args f h :
  files_are f h → wp (RunManager name args) (λ _ h', files_are f h' ∧ h_euid h' = h_euid h
    ∧ h_log h' = h_log h ++ [HCmd (name :: args)]) h.
Proof. intros Hf. by apply wp_RunManager. Qed.

Lemma remove_quiet p f h :
  files_are f h → wp (on_hos (remove p)) (λ r h', (r = Ok tt ∨ r = Err NotExist)
    ∧ files_are (delete p f) h' ∧ h_euid h' = h_euid h) h.
Proof.
  intros [Hq Hf]. apply wp_on_hos, wp_fallible_quiet; [done|]. unfold wp. simpl. rewrite Hf.
  destruct (f !! p) eqn:E; simpl.
  - split_and!; [by left|done|done].
  - split; [by right|]. split; [|done]. split; [done|]. simpl. by rewrite delete_id.
Qed.

Section install.
Variables (f0 : disk) (unit : bytes).
Context (no_unit : f0 !! unitPath = None) (no_dropin : f0 !! dropInPath = None).

Definition with_unit : disk := <[unitPath := File 420 unit]> f0.
Definition with_both : disk :=
  <[dropInPath := File 420 (bytes_of_string JournaldDropIn)]> with_unit.

Lemma rollback_unit h :
  files_are with_unit h →
  wp (rollback true false) (λ _, files_are f0) h.
Proof.
  intros Hf. apply wp_bind. eapply wp_mono; [by apply remove_quiet|]. intros r h1 (_ & Hf1 & _).
  apply wp_bind, wp_ret, wp_ret. unfold with_unit in Hf1. by rewrite delete_insert_id in Hf1.
Qed.

Lemma rollback_both h : files_are with_both h → wp (rollback true true) (λ _, files_are f0) h.
Proof.
  intros Hf. apply wp_bind. eapply wp_mono; [by apply remove_quiet|]. intros r h1 (_ & Hf1 & _).
  apply wp_bind. eapply wp_mono; [by apply remove_quiet|]. intros r' h2 (_ & Hf2 & _).
  apply wp_ret. unfold with_both, with_unit in Hf2.
  rewrite delete_delete, delete_insert_id, delete_insert_id in Hf2; [done|done|].
  by rewrite lookup_insert_ne.
Qed.

Lemma install_rest_spec h :
  files_are with_unit h →
  wp install_rest (λ r h', match r with
    | Ok _ => files_are with_both h' ∧ h_euid h' = h_euid h
        ∧ last (h_log h') = Some (HCmd [systemctlBin; "enable"; "raxd"]%string)
    | Err _ => files_are f0 h'
    end) h.
Proof.
  intros Hf. apply wp_bind. eapply wp_mono; [by apply (mkdir_all_quiet _ with_unit)|].
  intros r h1 (-> & Hf1 & He1).
  apply wp_bind. eapply wp_mono; [apply (writeFile_quiet _ _ _ with_unit); [done|]|].
  { unfold with_unit. by rewrite lookup_insert_ne. }
  intros r h2 (-> & Hf2 & He2).
  apply wp_bind. eapply wp_mono; [by apply (RunManager_quiet _ _ with_both)|].
  intros r h3 (Hf3 & He3 & _). destruct r as [out|e].
  2: { apply wp_bind. eapply wp_mono; [by apply rollback_both|]. intros ? h4 H4. by apply wp_ret. }
  apply wp_bind. eapply wp_mono; [by apply (RunManager_quiet _ _ with_both)|].
  intros r h4 (Hf4 & He4 & Hl4). destruct r as [out'|e].
  2: { apply wp_bind. eapply wp_mono; [by apply rollback_both|]. intros ? h5 H5. by apply wp_ret. }
  apply wp_ret. split; [done|]. split; [congruence|]. rewrite Hl4. apply last_snoc.
Qed.
End install.

(** The files of a finished installation. *)
Definition installed (u : string) (f : disk) : disk := with_both f (bytes_of_string u).

Lemma sd_Install_spec cfg f h :
  files_are f h → f !! unitPath = None → f !! dropInPath = None →
  wp (sd_Install cfg) (λ r h', match r with
    | Ok _ => ∃ u, RenderUnit (TemplateDataFromConfig cfg) = Ok u ∧ files_are (installed u f) h'
        ∧ h_euid h = 0 ∧ h_euid h' = 0
        ∧ last (h_log h') = Some (HCmd [systemctlBin; "enable"; "raxd"]%string)
    | Err _ => files_are f h'
    end) h.
Proof.
  intros Hf Hu Hd. apply wp_bind, wp_gets. destruct (Z.eqb_spec (h_euid h) 0) as [He|_]; [|by apply wp_ret].
  pose proof Hf as [Hq Hfiles]. apply wp_bind, wp_on_hos, wp_fallible_quiet; [done|].
  unfold wp at 1. simpl. rewrite Hfiles, Hu. simpl.
  match goal with |- context [set_host ?o ?d ?l h] => set (h1 := set_host o d l h) end.
  assert (files_are f h1 ∧ h_euid h1 = 0) as [Hf1 He1] by done. clearbody h1.
  apply wp_bind. unfold createUser. apply wp_bind, wp_run_cmd, wp_ret.
  match goal with |- context [match ?x with Ok _ => _ | Err _ => _ end] => destruct x as [[]|e] end;
    [|by apply wp_ret].
  destruct (RenderUnit _) as [u|e] eqn:Er; [|by apply wp_ret].
  apply wp_bind. eapply wp_mono; [by apply (writeFile_quiet _ _ _ f)|].
  intros r h2 (-> & Hf2 & He2).
  eapply wp_mono; [by apply (install_rest_spec f (bytes_of_string u))|].
  intros [[]|e] h3; [|done]. intros (Hf3 & He3 & Hl). exists u.
  split; [done|]. split; [exact Hf3|]. split; [done|]. split; [|done]. by rewrite He3, He2.
Qed.

(** C38: An installation that no call of the file system disturbs, on a host
    without the unit and the drop-in, is all or nothing, whatever the commands
    do: success means that the rendered unit and the drop-in are there with mode
    0644, every other file is as before, and the service was enabled last; after
    any error, from [useradd], the validation or [systemctl], the files are those
    from before.  (The account and the drop-in's directory may stay.  A write
    that fails can leave a part of the unit: [failed_write_leaves_unit].) *)
Theorem install_all_or_nothing cfg f h :
  files_are f h → f !! unitPath = None → f !! dropInPath = None →
  wp (sd_Install cfg) (λ r h', match r with
    | Ok _ => ∃ u, RenderUnit (TemplateDataFromConfig cfg) = Ok u ∧ files_are (installed u f) h'
        ∧ h_euid h = 0 ∧ h_euid h' = 0
        ∧ last (h_log h') = Some (HCmd [systemctlBin; "enable"; "raxd"]%string)
    | Err _ => files_are f h'
    end) h.
Proof. apply sd_Install_spec. Qed.

Lemma not_installed u f :
  f !! unitPath = None → f !! dropInPath = None →
  delete dropInPath (delete unitPath (installed u f)) = f.
Proof.
  intros Hu Hd. unfold installed, with_both, with_unit.
  rewrite delete_delete, delete_insert_id, delete_insert_id; [done|done|].
  by rewrite lookup_insert_ne.
Qed.

Lemma remove_if_there_quiet p f h :
  files_are f h → wp (remove_if_there p) (λ r h', r = Ok tt ∧ files_are (delete p f) h') h.
Proof.
  intros Hf. apply wp_bind. eapply wp_mono; [by apply remove_quiet|].
  by intros r h1 ([-> | ->] & Hf1 & _); apply wp_ret.
Qed.

(** The removal undoes the installation.  After a successful installation
    [Uninstall] succeeds and the files are exactly those from before, whatever
    the commands it runs answer. *)
Theorem uninstall_undoes_install cfg f h :
  files_are f h → f !! unitPath = None → f !! dropInPath = None →
  wp (let! i := sd_Install cfg in let! u := sd_Uninstall in ret (i, u))
     (λ r h', is_ok r.1 = true → r.2 = Ok tt ∧ files_are f h') h.
Proof.
  intros Hf Hu Hd. apply wp_bind. eapply wp_mono; [by apply (sd_Install_spec cfg f)|].
  intros i h1 Hi. destruct i as [[]|e].
  2: { apply wp_bind, wp_intro. intros r h2 ?. by apply wp_ret. }
  destruct Hi as (u & _ & Hf1 & _ & He1 & _). apply wp_bind, wp_bind, wp_gets. rewrite He1. simpl.
  pose proof Hf1 as [Hq1 Hfiles1].
  assert (os_files (h_os h1) !! unitPath = Some (File 420 (bytes_of_string u))) as Hlu.
  { rewrite Hfiles1. unfold installed, with_both, with_unit.
    rewrite lookup_insert_ne by done. apply lookup_insert_eq. }
  apply wp_bind, wp_on_hos, wp_fallible_quiet; [done|]. unfold wp at 1. simpl. rewrite Hlu. simpl.
  match goal with |- context [set_host ?o ?d ?l h1] => set (h2 := set_host o d l h1) end.
  assert (files_are (installed u f) h2) as Hf2 by done. clearbody h2.
  do 3 (apply wp_bind, wp_RunManager; intros ?).
  apply wp_bind. eapply wp_mono; [by apply (remove_if_there_quiet _ (installed u f))|].
  intros r3 h3 [-> Hf3].
  apply wp_bind. eapply wp_mono; [by apply (remove_if_there_quiet _ (delete unitPath (installed u f)))|].
  intros r4 h4 [-> Hf4]. rewrite not_installed in Hf4 by done.
  apply wp_bind, wp_RunManager. intros ?. by apply wp_ret.
Qed.

(** ** Purging *)

(** What a purge of the manager [New] returns may remove. *)
Definition settled (goos : string) (exe : result string string) (cfg : Config) : Config :=
  with_defaults goos (if String.eqb (c_ExecPath cfg) "" then match exe with Ok e => e | Err _ => "" end
                      else c_ExecPath cfg) cfg.

Definition profile_of (goos : string) (exe : result string string) (cfg : Config) : purge_profile :=
  if String.eqb goos "linux" then sd_profile (settled goos exe cfg) else ld_profile (settled goos exe cfg).

Definition service_file (goos : string) : string :=
  if String.eqb goos "linux" then unitPath else plistPath.

Lemma New_managers goos exe cfg m :
  New goos exe cfg = Ok m →
  goos = "linux"%string ∧ m = newSystemdManager (settled goos exe cfg)
  ∨ goos = "darwin"%string ∧ m = newLaunchdManager (settled goos exe cfg).
Proof.
  unfold New, settled. destruct (String.eqb (c_ExecPath cfg) ""); [destruct exe; [|done]|];
    (destruct (String.eqb_spec goos "linux"); [intros [= <-]; by left|]);
    (destruct (String.eqb_spec goos "darwin"); [intros [= <-]; by right|done]).
Qed.

Lemma New_Purge_spec goos exe cfg m opts h :
  New goos exe cfg = Ok m →
  wp (Purge m opts) (purge_post (profile_of goos exe cfg) (service_file goos) opts h) h.
Proof.
  intros [[-> ->]|[-> ->]]%New_managers; [apply sd_Purge_spec|apply ld_Purge_spec].
Qed.

(** What the guard lets through. *)
Definition guarded (h : host) (d : string) (roots : list string) : Prop :=
  clean d = d ∧ is_abs d = true ∧ d ≠ "/"%string ∧ (d ∉ blockedSystemRoots)
  ∧ (∀ home, h_home h = Some home → home ≠ d ∧ has_prefix home (d +:+ "/") = false)
  ∧ match h_eval h d with
    | Ok real => ∃ root, root ∈ roots ∧ (real = root ∨ has_prefix (real +:+ "/") (root +:+ "/") = true)
    | Err e => e = NotExist
    end.

Lemma existsb_eqb_not_in d l : existsb (String.eqb d) l = false → d ∉ l.
Proof.
  intros H Hin. rewrite <-not_true_iff_false in H. apply H. apply existsb_exists. exists d.
  split; [by apply list_elem_of_In|apply String.eqb_refl].
Qed.

Lemma validate_guarded h d roots : validatePurgePath h d roots = None → guarded h d roots.
Proof.
  unfold validatePurgePath. destruct (String.eqb d ""); [done|].
  destruct (String.eqb_spec (clean d) d) as [Hc|]; [|done].
  destruct (is_abs d) eqn:Ha; [|done]. destruct (String.eqb_spec d "/") as [|Hr]; [done|]. cbn [negb].
  destruct (match h_home h with Some home => isEqualOrAncestor d home | None => false end) eqn:Hh; [done|].
  destruct (existsb (String.eqb d) blockedSystemRoots) eqn:Hb; [done|].
  apply existsb_eqb_not_in in Hb. intros He. repeat (split; [done|]). split.
  - intros home Eh. rewrite Eh in Hh. unfold isEqualOrAncestor in Hh.
    destruct (String.eqb_spec d home) as [|Hn]; [done|]. split; [by intros ->|done].
  - destruct (h_eval h d) as [real|[]]; try done. destruct (existsb _ roots) eqn:Hx; [|done].
    apply existsb_exists in Hx as (root & Hin & Ho). exists root. split; [by apply list_elem_of_In|].
    apply orb_true_iff in Ho as [Ho|Ho%String.eqb_eq]; auto.
Qed.

Lemma validate_all_guarded h dirs roots d :
  validate_all h dirs roots = None → d ∈ dirs → guarded h d roots.
Proof.
  induction dirs as [|x dirs IH]; [by intros _ ?%elem_of_nil|]. simpl.
  destruct (validatePurgePath h x roots) eqn:E; [done|]. intros Hv [->|Hin]%elem_of_cons; [|auto].
  by apply validate_guarded.
Qed.

(** An event that is not harmless lies after the point of no return. *)
Lemma late_event pp (pre post : list hevent) before e after :
  Forall (harmless pp) pre → ¬ harmless pp e → pre ++ post = before ++ e :: after →
  ∃ done, before = pre ++ done ∧ post = done ++ e :: after.
Proof.
  intros Hpre He. revert before. induction pre as [|x pre IH]; intros before Hl.
  - by exists before.
  - apply Forall_cons in Hpre as [Hx Hpre]. destruct before as [|y before].
    + by injection Hl as -> _.
    + injection Hl as <- Hl. destruct (IH Hpre before Hl) as (d & -> & ->). by exists d.
Qed.

(** C21: A purge deletes only what is the service's own.  For the manager [New]
    returns, on either platform, whatever the commands answer and whichever
    call fails: every file that is not the service's own and not below a
    configured directory stays as it was, and a directory is removed only if it
    is one of the configured ones, the caller is root and has confirmed, the
    path is clean, absolute, not the root, not a system root, not the home
    directory or above it, resolves into the configured layout or does not
    exist, and the audit record, when asked for, has been written before. *)
Theorem purge_deletes_only_its_own goos exe cfg m opts h :
  New goos exe cfg = Ok m →
  wp (Purge m opts) (λ _ h', let pp := profile_of goos exe cfg in
    (∀ p, (p ∉ pp_owned pp) → (∀ d, d ∈ pp_dirs pp → under d p = false) →
       os_files (h_os h') !! p = os_files (h_os h) !! p)
    ∧ (∀ before d after, h_log h' = h_log h ++ before ++ HRemoveAll d :: after →
        d ∈ pp_dirs pp ∧ Confirmed opts = true ∧ h_euid h = 0 ∧ guarded h d (pp_dirs pp)
        ∧ (AuditOut opts = true → ∃ pl u ds, HPurgeAudit pl u ds ∈ before))) h.
Proof.
  intros Hm. eapply wp_mono; [by apply (New_Purge_spec _ _ _ _ opts h Hm)|].
  intros r h' [[Hf (pre & post & Hl & Hpre & Hpost)] _]. split; [apply (fr_files _ _ _ Hf)|].
  intros before d after Hl'. rewrite Hl in Hl'. apply (inj (app (h_log h))) in Hl'.
  destruct (late_event _ _ _ _ (HRemoveAll d) _ Hpre id Hl') as (x & -> & ->).
  destruct Hpost as [Hpost|(Hc & He & Hv & Ha & Hd & _)]; [by destruct x|].
  assert (d ∈ pp_dirs (profile_of goos exe cfg)) as Hin.
  { apply Forall_app in Hd as [_ [Hd _]%Forall_cons]. destruct Hd as [?|(d' & ? & [= ->])]; done. }
  repeat (split; [done|]). split; [by apply (validate_all_guarded _ _ _ _ Hv)|].
  intros Hao. destruct (Ha Hao) as (pl & u & ds & Hlast). exists pl, u, ds.
  apply elem_of_app. left. apply last_Some in Hlast as [l ->]. set_solver.
Qed.

Lemma parsePasswdLine_Ok line name :
  parsePasswdLine line name = Ok true →
  ∃ pw uid gid gecos home shell rest n,
    split_on ":" line = name :: pw :: uid :: gid :: gecos :: home :: shell :: rest
    ∧ atoi uid = (n, None) ∧ 1 ≤ n ≤ 999 ∧ shell ∈ noLoginShells.
Proof.
  unfold parsePasswdLine.
  destruct (split_on ":" line) as [|nm [|pw [|uid [|gid [|gecos [|home [|shell rest]]]]]]]; try done.
  destruct (String.eqb_spec nm name) as [->|]; [|done]. cbn [negb].
  destruct (atoi uid) as [n e] eqn:Ea. destruct e; [done|]. cbn [orb].
  destruct (Z.leb_spec n 0); [done|]. destruct (Z.leb_spec 1000 n); [done|]. cbn [orb].
  destruct (existsb (String.eqb shell) noLoginShells) eqn:Es; [|done]. intros _.
  exists pw, uid, gid, gecos, home, shell, rest, n. split; [done|]. split; [done|]. split; [lia|].
  apply existsb_exists in Es as (x & Hin & ->%String.eqb_eq). by apply list_elem_of_In.
Qed.

(** A purge spares every account that is not the service's.  On Linux
    [userdel] runs only for the configured name, and only when [getent] has
    shown a system account of that very name: a uid between 1 and 999 and a
    shell that admits no login. *)
Theorem purge_spares_login_accounts cfg opts h :
  wp (Purge (newSystemdManager cfg) opts) (λ _ h', ∀ before args after,
    h_log h' = h_log h ++ before ++ HCmd (userdelBin :: args) :: after →
    args = [c_User cfg] ∧ Confirmed opts = true ∧ h_euid h = 0
    ∧ ∃ log out pw uid gid gecos home shell rest n,
        h_exec h log [getentBin; "passwd"%string; c_User cfg] = out ∧ x_end out = Exited 0
        ∧ split_on ":" (trim_space (x_stdout out)) =
            c_User cfg :: pw :: uid :: gid :: gecos :: home :: shell :: rest
        ∧ atoi uid = (n, None) ∧ 1 ≤ n ≤ 999 ∧ shell ∈ noLoginShells) h.
Proof.
  eapply wp_mono; [apply (sd_Purge_spec cfg opts h)|].
  intros r h' [[Hf (pre & post & Hl & Hpre & Hpost)] _] before args after Hl'.
  rewrite Hl in Hl'. apply (inj (app (h_log h))) in Hl'.
  assert (¬ harmless (sd_profile cfg) (HCmd (userdelBin :: args))) as Hk by done.
  destruct (late_event _ _ _ _ _ _ Hpre Hk Hl') as (x & -> & ->).
  destruct Hpost as [Hpost|(Hc & He & _ & _ & Hd & Hv)]; [by destruct x|].
  assert (HCmd (userdelBin :: args) = HCmd [userdelBin; c_User cfg]) as [= ->].
  { apply Forall_app in Hd as [_ [Hd _]%Forall_cons]. by destruct Hd as [?|(d' & _ & ?)]. }
  split; [done|]. split; [done|]. split; [done|].
  destruct (Hv ltac:(set_solver)) as (log & Hx & Hp).
  destruct (parsePasswdLine_Ok _ _ Hp) as (pw & uid & gid & gecos & home & shell & rest & n & Hl2 & Ha & Hn & Hs).
  by exists log, (h_exec h log [getentBin; "passwd"%string; c_User cfg]), pw, uid, gid, gecos, home, shell, rest, n.
Qed.

(** A purge that succeeds is complete.  No file and no directory is left at
    or below any of the configured directories, and the service file is gone. *)
Theorem purge_complete goos exe cfg m opts h :
  New goos exe cfg = Ok m →
  wp (Purge m opts) (λ r h', r.2 = None →
    (∀ d p, d ∈ pp_dirs (profile_of goos exe cfg) → under d p = true →
       os_files (h_os h') !! p = None ∧ p ∉ h_dirs h')
    ∧ os_files (h_os h') !! service_file goos = None) h.
Proof.
  intros Hm. eapply wp_mono; [by apply (New_Purge_spec _ _ _ _ opts h Hm)|].
  intros r h' [_ Hd] Hr. destruct (Hd Hr) as [Hg Hu]. split; [|done].
  intros d p Hin. rewrite Forall_forall in Hg. by apply Hg.
Qed.

(** ** Witnesses: a Linux host with the service's account and directories *)

Definition demo_cfg : Config :=
  {| c_ExecPath := "/usr/local/bin/raxd"; c_Port := 443; c_User := "raxd"; c_Group := "raxd";
     c_Label := ""; c_StateDir := ""; c_ConfigDir := ""; c_LogPath := "" |}.

Definition full_cfg : Config := Eval vm_compute in settled "linux" (Ok "/usr/local/bin/raxd"%string) demo_cfg.

Definition answers (argv : list string) : exec_result :=
  {| x_stdout := if String.eqb (hd ""%string argv) getentBin
                 then "raxd:x:998:998:raxd daemon:/home/raxd:/usr/sbin/nologin" else "";
     x_stderr := ""; x_end := Exited 0 |}.

Definition demo_host (files : disk) (dirs : gset string) : host :=
  {| h_os := Os files [] 0 (λ _, Byte.x00) 0 [] [] []; h_dirs := dirs;
     h_eval p := if decide (p ∈ dirs) then Ok p else Err NotExist;
     h_home := Some "/root"%string; h_euid := 0; h_exec _ := answers; h_log := [] |}.

Definition demo_files : disk :=
  {["/var/lib/raxd/keys.db"%string := File 384 []; "/home/alice/notes"%string := File 384 []]}.
Definition demo_dirs : gset string := {["/var/lib/raxd"; "/home/alice"]}%string.

Lemma RenderUnit_lines_witness :
  ∃ u, RenderUnit (TemplateDataFromConfig full_cfg) = Ok u
  ∧ split_on nl u = unit_head ++ ["ExecStart=/usr/local/bin/raxd serve"; "User=raxd"; "Group=raxd"]%string
                    ++ unit_tail true.
Proof.
  eexists. split; [vm_compute; reflexivity|].
  exact (RenderUnit_lines (TemplateDataFromConfig full_cfg) _ eq_refl).
Defined.


Lemma install_all_or_nothing_witness :
  files_are demo_files (demo_host demo_files demo_dirs)
  ∧ is_ok (sd_Install full_cfg (demo_host demo_files demo_dirs)).1 = true
  ∧ wp (sd_Install full_cfg) (λ r h', match r with
      | Ok _ => ∃ u, RenderUnit (TemplateDataFromConfig full_cfg) = Ok u
          ∧ files_are (installed u demo_files) h' ∧ 0 = 0 ∧ h_euid h' = 0
          ∧ last (h_log h') = Some (HCmd [systemctlBin; "enable"; "raxd"]%string)
      | Err _ => files_are demo_files h'
      end) (demo_host demo_files demo_dirs).
Proof.
  split; [split; reflexivity|]. split; [vm_compute; reflexivity|].
  apply (install_all_or_nothing full_cfg demo_files (demo_host demo_files demo_dirs));
    [split; reflexivity|vm_compute; reflexivity..].
Defined.

Lemma uninstall_undoes_install_witness :
  is_ok ((let! i := sd_Install full_cfg in let! u := sd_Uninstall in ret (i, u))
           (demo_host demo_files demo_dirs)).1.1 = true
  ∧ wp (let! i := sd_Install full_cfg in let! u := sd_Uninstall in ret (i, u))
      (λ r h', is_ok r.1 = true → r.2 = Ok tt ∧ files_are demo_files h')
      (demo_host demo_files demo_dirs).
Proof.
  split; [vm_compute; reflexivity|].
  apply (uninstall_undoes_install full_cfg demo_files (demo_host demo_files demo_dirs));
    [split; reflexivity|vm_compute; reflexivity..].
Defined.

(** The disk fills up while the unit is written: [Install] fails and leaves the
    first six bytes of the unit, and the next one answers that the service is
    installed. *)
Example failed_write_leaves_unit :
  let h := demo_host demo_files demo_dirs in
  let full := set_host (set_faults [None; None; None; Some (Fault "no space left" 6)] (h_os h))
                (h_dirs h) (h_log h) h in
  let r := (let! i := sd_Install full_cfg in let! j := sd_Install full_cfg in ret (i, j)) full in
  is_ok r.1.1 = false ∧ r.1.2 = Err (sentinel_error ErrAlreadyInstalled)
  ∧ os_files (h_os r.2) !! unitPath = Some (File 420 (bytes_of_string "# /etc")).
Proof. vm_compute. done. Qed.

(** The purge of that host: what is run and removed, and what is left. *)
Example purge_of_the_demo :
  let '(r, h) := sd_Purge full_cfg {| Confirmed := true; AuditOut := true |}
                   (demo_host demo_files demo_dirs) in
  r.2 = None ∧ DirsRemoved r.1 = ["/var/lib/raxd"]%string ∧ DirsAbsent r.1 = ["/etc/raxd"]%string
  ∧ h_log h = [HCmd [getentBin; "passwd"; "raxd"]%string;
               HPurgeAudit "linux" true ["/var/lib/raxd"]%string;
               HCmd [userdelBin; "raxd"]%string;
               HRemoveAll "/var/lib/raxd"; HRemoveAll "/etc/raxd"]
  ∧ map_to_list (os_files (h_os h)) = [("/home/alice/notes"%string, File 384 [])].
Proof. vm_compute. repeat split. Qed.

Lemma purge_deletes_only_its_own_witness :
  ∃ m, New "linux" (Ok "/usr/local/bin/raxd"%string) demo_cfg = Ok m
  ∧ wp (Purge m {| Confirmed := true; AuditOut := true |}) (λ _ h',
      let pp := profile_of "linux" (Ok "/usr/local/bin/raxd"%string) demo_cfg in
      (∀ p, (p ∉ pp_owned pp) → (∀ d, d ∈ pp_dirs pp → under d p = false) →
         os_files (h_os h') !! p = os_files (h_os (demo_host demo_files demo_dirs)) !! p)
      ∧ (∀ before d after,
          h_log h' = h_log (demo_host demo_files demo_dirs) ++ before ++ HRemoveAll d :: after →
          d ∈ pp_dirs pp ∧ true = true ∧ 0 = 0 ∧ guarded (demo_host demo_files demo_dirs) d (pp_dirs pp)
          ∧ (true = true → ∃ pl u ds, HPurgeAudit pl u ds ∈ before))) (demo_host demo_files demo_dirs).
Proof.
  eexists. split; [reflexivity|].
  exact (purge_deletes_only_its_own "linux" (Ok "/usr/local/bin/raxd"%string) demo_cfg _
           {| Confirmed := true; AuditOut := true |} (demo_host demo_files demo_dirs) eq_refl).
Defined.

Lemma purge_complete_witness :
  ∃ m, New "linux" (Ok "/usr/local/bin/raxd"%string) demo_cfg = Ok m
  ∧ (let '(r, h') := Purge m {| Confirmed := true; AuditOut := true |} (demo_host demo_files demo_dirs) in
     r.2 = None
     ∧ (∀ p, under "/var/lib/raxd" p = true → os_files (h_os h') !! p = None ∧ p ∉ h_dirs h')).
Proof.
  eexists. split; [reflexivity|].
  pose proof (purge_complete "linux" (Ok "/usr/local/bin/raxd"%string) demo_cfg _
    {| Confirmed := true; AuditOut := true |} (demo_host demo_files demo_dirs) eq_refl) as H.
  unfold wp in H.
  destruct (Purge _ _ _) as [r h'] eqn:E. 
  assert (r.2 = None) as Hr by (change r with (r, h').1; rewrite <-E; vm_compute; reflexivity).
  split; [exact Hr|]. intros p. apply (proj1 (H Hr)). apply list_elem_of_here.
Defined.

Lemma unit_environment_witness :
  ∃ u, RenderUnit (TemplateDataFromConfig full_cfg) = Ok u
  ∧ ∃ p, Paths (unit_env u) = Ok p ∧ TLSDir p = "/var/lib/raxd/tls"%string.
Proof.
  eexists. split; [vm_compute; reflexivity|]. eexists.
  split; [exact (unit_environment (TemplateDataFromConfig full_cfg) _ eq_refl)|reflexivity].
Defined.
