(* ===== verification/CliOutput.v ===== *)
(** * CliOutput: what a command prints.

    The console of [internal/cli]: the texts, log lines and tables a command
    writes to its two streams, the formatting verbs it uses, the errors a command
    returns, and the texts of [internal/banner] and [internal/version]. *)

From S2P Require Import Prelude GoText GoEncoding GoTime.
Open Scope Z_scope.
Open Scope go_scope.

(** ** The console *)

Inductive stream := ToStdout | ToStderr.

(** A value of a field of a log line. *)
Inductive field := FStr (s : string) | FInt (z : Z) | FBool (b : bool) | FList (l : list string).

(** One write: a text, a line of the [charmbracelet/log] logger (an information
    with fields, or a warning with an error), or a table of [tablewriter], whose
    layout is the library's. *)
Inductive out :=
| Text (to : stream) (s : string)
| LogInfo (to : stream) (msg : string) (fields : list (string * field))
| LogError (to : stream) (msg err : string)
| Table (to : stream) (header : list string) (rows : list (list string)).

#[export] Instance stream_eq_dec : EqDecision stream.
Proof. solve_decision. Defined.
#[export] Instance field_eq_dec : EqDecision field.
Proof. solve_decision. Defined.
#[export] Instance out_eq_dec : EqDecision out.
Proof. solve_decision. Defined.

Definition stream_of (o : out) : stream :=
  match o with Text s _ | LogInfo s _ _ | LogError s _ _ | Table s _ _ => s end.

(** A system [S] with the console on top. *)
Record console (S : Type) := { sys : S; shown : list out }.
Arguments sys {S} _.
Arguments shown {S} _.

Definition on_sys {S A} (m : M S A) : M (console S) A :=
  zoom sys (λ s c, {| sys := s; shown := shown c |}) m.

Definition show {S} (o : out) : M (console S) unit :=
  modify (λ c, {| sys := sys c; shown := shown c ++ [o] |}).

(** Lines that end with a newline, as [fmt.Fprintf] with a final [\n] and
    [fmt.Fprintln] write them. *)
Definition eol : string := String nl EmptyString.
Definition line {S} (to : stream) (s : string) : M (console S) unit := show (Text to (s +:+ eol)).

Fixpoint lines {S} (to : stream) (ss : list string) : M (console S) unit :=
  match ss with
  | [] => ret tt
  | s :: ss' => do! line to s in lines to ss'
  end.

(** [%-ns]: padded on the right to [n] runes. *)
Definition pad_right (n : nat) (s : string) : string := s +:+ repeat_str " " (n - rune_count s).

(** A row ["  %-ns value"]. *)
Definition row (n : nat) (label val : string) : string := "  " +:+ pad_right n label +:+ " " +:+ val.

(** ** internal/version *)

Record BuildInfo := { bi_Version : string; bi_Commit : string; bi_Date : string }.

Definition build_defaults : BuildInfo :=
  {| bi_Version := "dev"; bi_Commit := "none"; bi_Date := "unknown" |}.

Definition version_Set (v commit date : string) (b : BuildInfo) : BuildInfo :=
  {| bi_Version := if String.eqb v "" then bi_Version b else v;
     bi_Commit := if String.eqb commit "" then bi_Commit b else commit;
     bi_Date := if String.eqb date "" then bi_Date b else date |}.

Definition version_Info (b : BuildInfo) : string :=
  "raxd " +:+ bi_Version b +:+ " (commit " +:+ bi_Commit b +:+ ", built " +:+ bi_Date b +:+ ")".

(** ** internal/banner *)

Definition max3 (a b c : Z) : Z :=
  let m := a in
  let m := if m <? b then b else m in
  if m <? c then c else m.

Definition banner_lines (b : BuildInfo) : list string :=
  ["raxd  —  Remote Access Daemon"%string;
   bi_Version b +:+ "  ·  commit " +:+ bi_Commit b +:+ "  ·  built " +:+ bi_Date b;
   "Vladimir Kovalev, OEM TECH"%string].

Definition banner_width (b : BuildInfo) : Z :=
  let ls := banner_lines b in
  max3 (str_len (nth 0 ls ""%string)) (str_len (nth 1 ls ""%string)) (str_len (nth 2 ls ""%string)) + 4.

Definition banner_pad (width : Z) (s : string) : string :=
  "│  " +:+ s +:+ repeat_str " " (Z.to_nat (width - 2 - str_len s)) +:+ "  │".

(** The lines of [Render], which joins them with newlines. *)
Definition banner_rows (b : BuildInfo) : list string :=
  let w := banner_width b in
  let bar := repeat_str "─" (Z.to_nat w) in
  ["┌" +:+ bar +:+ "┐"] ++ map (banner_pad w) (banner_lines b) ++ ["└" +:+ bar +:+ "┘"].

Definition Render (b : BuildInfo) : string := join eol (banner_rows b).
