(* ===== verification/CliKey.v ===== *)
(** * CliKey: [internal/cli/key.go], the commands on API keys.

    [raxd key create], [key list] and [key delete]: they open the key store of
    the user's state directory, call one or two of its operations, and print. *)

From S2P Require Import Prelude GoText GoEncoding GoTime GoCrypto GoPath GoOs Config Keystore CliOutput.
Open Scope Z_scope.
Open Scope go_scope.

(** The errors the functions return: of the paths, of the key store, of the table
    library, or of the arguments. *)
Inductive key_error :=
| EPaths (e : cerr)
| EKey (e : kerr)
| ETable (what msg : string)
| EArgs (msg : string).

#[export] Instance key_error_eq_dec : EqDecision key_error.
Proof. solve_decision. Defined.

Definition cerr_msg (e : cerr) : string := match e with CErr m => m end.

Definition key_error_msg (e : key_error) : string :=
  match e with
  | EPaths e => "cannot resolve config paths: " +:+ cerr_msg e
  | EKey e => kerr_msg e
  | ETable what m => what +:+ ": " +:+ m
  | EArgs m => m
  end.

(** The failures of the table library. *)
Class TableWriter := {
  append_error : list string → option string;
  render_error : list (list string) → option string;
}.

(** [printError] *)
Definition printError {S} (to : stream) (message : string) (hints : list string) : M (console S) unit :=
  do! line to ("error: " +:+ message) in
  lines to (map (λ h, "  hint: " +:+ h) hints).

(** The message and the hints [printStoreError] chooses. *)
Definition store_error_text (e : key_error) (op : string) : string * list string :=
  match e with
  | EKey (ErrCorrupt _) =>
      ("key store is corrupted or unreadable",
       ["check file permissions on keys.db (must be readable by current user)";
        "do not attempt to repair the file manually — contact support if data recovery is needed"])
  | EKey ErrLabelTooLong =>
      ("label is too long (max 64 characters)", ["choose a shorter label and try again"])
  | EKey ErrNotFound =>
      ("key " +:+ fmt_q op +:+ " not found",
       ["run " +:+ quoted "raxd key list" +:+ " to see available key IDs"])
  | EKey ErrAlreadyRevoked =>
      ("key " +:+ fmt_q op +:+ " is already revoked",
       ["run " +:+ quoted "raxd key list" +:+ " to see active keys"])
  | _ => (op +:+ ": " +:+ key_error_msg e, [])
  end%string.

Definition printStoreError {S} (to : stream) (e : key_error) (op : string) : M (console S) unit :=
  let (m, hints) := store_error_text e op in printError to m hints.

(** Writing an error and returning it. *)
Definition fail_store {S A} (e : key_error) (op : string) : M (console S) (result key_error A) :=
  do! printStoreError ToStderr e op in ret (Err e).

(** [truncateEllipsis]: to [n] runes; a byte that is no UTF-8 becomes U+FFFD when
    the runes are put together again. *)
Definition rune_text (r : bytes * bool) : string :=
  if r.2 then string_of_bytes r.1 else "�".

Definition truncateEllipsis (s : string) (n : nat) : string :=
  if (rune_count s <=? n)%nat then s
  else String.concat "" (map rune_text (take (n - 1) (runes s))) +:+ "…".

(** [printKeyBox] *)
Definition printKeyBox {S} (to : stream) (key : string) : M (console S) unit :=
  let inner := "  " +:+ key +:+ "  " in
  let width := rune_count inner in
  do! line to ("┌" +:+ repeat_str "─" width +:+ "┐") in
  do! line to ("│" +:+ inner +:+ "│") in
  line to ("└" +:+ repeat_str "─" width +:+ "┘").

Definition label_display (label : string) : string := if String.eqb label "" then "-" else label.

Section commands.
Context `{JC : JsonCodec} `{TW : TableWriter}.
Variable getenv : string → string.

(** [openStore] *)
Definition openStore : M os (result key_error Store) :=
  match Paths getenv with
  | Err e => ret (Err (EPaths e))
  | Ok paths => let! r := Open (KeysDB paths) in ret (result_map_err EKey r)
  end.

(** An operation of the store the command holds. *)
Definition on_store {A} (st : Store) (m : M proc A) : M os A :=
  λ s, let (a, p) := m {| p_store := st; p_os := s |} in (a, p_os p).

(** [runKeyCreate]; [None]: the search for a free id has not ended within
    [fuel] draws. *)
Definition runKeyCreate (fuel : nat) (label : string) :
    M (console os) (option (result key_error unit)) :=
  let! st := on_sys openStore in
  match st with
  | Err e => let! r := fail_store e "create" in ret (Some r)
  | Ok store =>
      let! c := on_sys (on_store store (Create fuel label)) in
      match c with
      | None => ret None
      | Some (Err e) => let! r := fail_store (EKey e) "create" in ret (Some r)
      | Some (Ok (plain, rec)) =>
          do! line ToStderr "  ! WARNING: This key will NOT be shown again. Save it now." in
          do! line ToStderr "" in
          do! printKeyBox ToStdout plain in
          do! line ToStdout "" in
          do! line ToStderr (row 9 "id" (ID rec)) in
          do! line ToStderr (row 9 "label" (label_display (Label rec))) in
          do! line ToStderr (row 9 "created" (format_date (Created rec))) in
          do! line ToStderr "" in
          do! show (LogInfo ToStderr "key created"
                [("action", FStr "create"); ("id", FStr (ID rec));
                 ("fingerprint", FStr (Fingerprint_ rec))])%string in
          ret (Some (Ok tt))
      end
  end.

(** A row of [key list]. *)
Definition key_row (r : KeyRecord) : list string :=
  ["  " +:+ ID r; truncateEllipsis (label_display (Label r)) 20; format_date (Created r);
   if LastUsed r =? zero_time then "never"%string else format_date (LastUsed r)].

Definition key_header : list string := ["  ID"; "LABEL"; "CREATED"; "LAST USED"]%string.

(** The rows appended until one is refused. *)
Fixpoint append_rows (rows : list (list string)) : result key_error unit :=
  match rows with
  | [] => Ok tt
  | r :: rows' =>
      match append_error r with
      | Some e => Err (ETable "cannot append table row" e)
      | None => append_rows rows'
      end
  end.

Definition runKeyList : M (console os) (result key_error unit) :=
  let! st := on_sys openStore in
  match st with
  | Err e => fail_store e "list"
  | Ok store =>
      let! l := on_sys (on_store store List) in
      match l with
      | Err e => fail_store (EKey e) "list"
      | Ok [] =>
          do! line ToStdout "  No API keys found." in
          do! line ToStdout ("  hint: create your first key with " +:+
                             quoted "raxd key create --name <label>") in
          ret (Ok tt)
      | Ok records =>
          let rows := map key_row records in
          match append_rows rows with
          | Err e => ret (Err e)
          | Ok _ =>
              match render_error rows with
              | Some e => ret (Err (ETable "cannot render table" e))
              | None => do! show (Table ToStdout key_header rows) in ret (Ok tt)
              end
          end
      end
  end.

(** The fingerprint [runKeyDelete] reads before it revokes. *)
Definition listed_fingerprint (id : string) (l : result kerr (list KeyRecord)) : string :=
  match l with
  | Err _ => ""
  | Ok recs =>
      match find (λ r, String.eqb (ID r) id) recs with
      | Some r => Fingerprint_ r
      | None => ""
      end
  end.

Definition runKeyDelete (args : list string) : M (console os) (result key_error unit) :=
  match args with
  | [] =>
      do! printError ToStderr "key delete requires an id argument"
            ["run " +:+ quoted "raxd key list" +:+ " to find the key ID, then use " +:+
             quoted "raxd key delete <id>"] in
      ret (Err (EArgs "missing id argument"))
  | id :: _ =>
      let! st := on_sys openStore in
      match st with
      | Err e => fail_store e "delete"
      | Ok store =>
          let! l := on_sys (on_store store List) in
          let fp := listed_fingerprint id l in
          let! r := on_sys (on_store store (Revoke id)) in
          match r with
          | Err e => fail_store (EKey e) id
          | Ok _ =>
              do! line ToStderr ("  key " +:+ id +:+ " revoked") in
              do! line ToStderr "  hint: the key can no longer be used for authentication" in
              do! show (LogInfo ToStderr "key revoked"
                    [("action", FStr "delete"); ("id", FStr id); ("fingerprint", FStr fp)])%string in
              ret (Ok tt)
          end
      end
  end.
End commands.
