(* ===== verification/CliProofs.v ===== *)
(** * CliProofs: reasoning about what a command prints.

    Rules for the writes of a command, and the agreement between what it returns
    and what it prints. *)

From S2P Require Import Prelude GoText GoEncoding CliOutput.
Open Scope Z_scope.
Open Scope go_scope.

(** ** The console *)

Section console.
Context {S : Type}.
Implicit Types (c : console S) (Q : unit → console S → Prop).

(** More output on the same system. *)
Definition say (os : list out) c : console S := {| sys := sys c; shown := shown c ++ os |}.
Definition with_sys (s : S) c : console S := {| sys := s; shown := shown c |}.

Definition texts (to : stream) (ss : list string) : list out := map (λ s, Text to (s +:+ eol)) ss.

Lemma say_nil c : say [] c = c.
Proof. destruct c. unfold say. simpl. by rewrite app_nil_r. Qed.

Lemma say_say a b c : say b (say a c) = say (a ++ b) c.
Proof. unfold say. simpl. by rewrite app_assoc. Qed.

Lemma wp_show o Q c : Q tt (say [o] c) → wp (show o) Q c.
Proof. done. Qed.

Lemma wp_line to s Q c : Q tt (say (texts to [s]) c) → wp (line to s) Q c.
Proof. done. Qed.

Lemma lines_run to ss c : lines to ss c = (tt, say (texts to ss) c).
Proof.
  revert c. induction ss as [|s ss IH]; intros c; [by rewrite say_nil|].
  cbn [lines]. unfold bind, line, show, modify. rewrite IH. f_equal. apply say_say.
Qed.

Lemma wp_lines to ss Q c : Q tt (say (texts to ss) c) → wp (lines to ss) Q c.
Proof. intros H. unfold wp. by rewrite lines_run. Qed.

Lemma wp_on_sys {A} (m : M S A) (R : A → console S → Prop) c :
  wp m (λ a s, R a (with_sys s c)) (sys c) → wp (on_sys m) R c.
Proof. unfold wp, on_sys, zoom. by destruct (m (sys c)). Qed.
End console.

(** Walking through the writes of a command. *)
Ltac console :=
  repeat lazymatch goal with
    | |- wp (bind _ _) _ _ => apply wp_bind
    | |- wp (show _) _ _ => apply wp_show
    | |- wp (line _ _) _ _ => apply wp_line
    | |- wp (lines _ _) _ _ => apply wp_lines
    | |- wp (ret _) _ _ => apply wp_ret
    end.

(** ** Errors that are printed

    A command complains when it writes a line that begins with [error:] or
    [warning:] to the standard error. *)
Definition complains (o : out) : bool :=
  match o with
  | Text ToStderr s => has_prefix s "error: " || has_prefix s "warning: "
  | _ => false
  end.

Lemma error_complains m : complains (Text ToStderr (("error: " +:+ m) +:+ eol)) = true.
Proof. unfold complains. by rewrite <-str_app_assoc, has_prefix_app. Qed.

(** It fails, in the sense of [ok], exactly when it has complained; and the same
    for a command that returns an error or nothing. *)
Definition reports {S A} (ok : A → bool) (m : M (console S) A) : Prop :=
  ∀ c, wp m (λ a c', ∃ new, shown c' = shown c ++ new ∧ existsb complains new = negb (ok a)) c.
Abbreviation honest := (reports is_ok).

(** It writes nothing of the kind. *)
Definition calm {S A} (m : M (console S) A) : Prop :=
  ∀ c, wp m (λ _ c', ∃ new, shown c' = shown c ++ new ∧ existsb complains new = false) c.

Lemma texts_calm to ss :
  Forall (λ s, complains (Text to (s +:+ eol)) = false) ss → existsb complains (texts to ss) = false.
Proof. induction 1 as [|s ss H Hs IH]; [done|]. unfold texts in *. cbn [map existsb]. by rewrite H, IH. Qed.

Lemma row_calm to n label val : complains (Text to (row n label val +:+ eol)) = false.
Proof. by destruct to. Qed.

Section honesty.
Context {S : Type}.

Lemma calm_on_sys {A} (m : M S A) : calm (on_sys m).
Proof. intros c. apply wp_on_sys. unfold wp. exists []. by rewrite app_nil_r. Qed.

Lemma calm_ret {A} (a : A) : calm (S:=S) (ret a).
Proof. intros c. apply wp_ret. exists []. by rewrite app_nil_r. Qed.

Lemma calm_lines to ss :
  Forall (λ s, complains (Text to (s +:+ eol)) = false) ss → calm (S:=S) (lines to ss).
Proof. intros H c. apply wp_lines. eexists. split; [reflexivity|]. by apply texts_calm. Qed.

Lemma calm_line to s : complains (Text to (s +:+ eol)) = false → calm (S:=S) (line to s).
Proof. intros H c. apply wp_line. eexists. split; [reflexivity|]. by apply texts_calm; constructor. Qed.

Lemma calm_log msg fields to : calm (S:=S) (show (LogInfo to msg fields)).
Proof. intros c. apply wp_show. by eexists. Qed.

Lemma calm_table to h rows : calm (S:=S) (show (Table to h rows)).
Proof. intros c. apply wp_show. by eexists. Qed.

Lemma calm_bind {A B} (m : M (console S) A) (k : A → M (console S) B) :
  calm m → (∀ a, calm (k a)) → calm (bind m k).
Proof.
  intros Hm Hk c. apply wp_bind. eapply wp_mono; [apply Hm|]. intros a c1 (n1 & H1 & Hc1).
  eapply wp_mono; [apply Hk|]. intros b c2 (n2 & H2 & Hc2). exists (n1 ++ n2).
  rewrite H2, H1, app_assoc. split; [done|]. by rewrite existsb_app, Hc1, Hc2.
Qed.

Lemma reports_bind {A B} (ok : A → bool) (m : M (console S) B) (k : B → M (console S) A) :
  calm m → (∀ b, reports ok (k b)) → reports ok (bind m k).
Proof.
  intros Hm Hk c. apply wp_bind. eapply wp_mono; [apply Hm|]. intros a c1 (n1 & H1 & Hc1).
  eapply wp_mono; [apply Hk|]. intros b c2 (n2 & H2 & Hc2). exists (n1 ++ n2).
  rewrite H2, H1, app_assoc. split; [done|]. by rewrite existsb_app, Hc1, Hc2.
Qed.

(** A call whose outcome decides, with a translation of its value. *)
Lemma reports_map {A B} (ok : A → bool) (ok' : B → bool) (m : M (console S) A) (f : A → B) :
  reports ok m → (∀ a, ok' (f a) = ok a) → reports ok' (let! a := m in ret (f a)).
Proof.
  intros Hm Hf c. apply wp_bind. eapply wp_mono; [apply Hm|]. intros a c1 Ha. apply wp_ret.
  by rewrite Hf.
Qed.

Lemma reports_ret {A} (ok : A → bool) (a : A) : ok a = true → reports (S:=S) ok (ret a).
Proof. intros H c. apply wp_ret. exists []. by rewrite app_nil_r, H. Qed.

Lemma honest_Ok {E A} (a : A) : honest (ret (S:=console S) (Ok (E:=E) a)).
Proof. by apply reports_ret. Qed.

(** Lines of which the first is the error. *)
Lemma reports_first {A} (ok : A → bool) (a : A) s ss :
  complains (Text ToStderr (s +:+ eol)) = true → ok a = false →
  reports (S:=S) ok (do! lines ToStderr (s :: ss) in ret a).
Proof.
  intros H Ha c. console. eexists. split; [reflexivity|]. unfold texts. cbn [map existsb]. by rewrite H, Ha.
Qed.
End honesty.

Lemma Forall_map_calm {A} (f : A → string) to (l : list A) :
  (∀ a, complains (Text to (f a +:+ eol)) = false) →
  Forall (λ s, complains (Text to (s +:+ eol)) = false) (map f l).
Proof. intros H. induction l; constructor; auto. Qed.

(** Through a command, write by write. *)
Ltac calm_text :=
  solve [ reflexivity | apply row_calm | auto with go
        | match goal with |- context [if ?b then _ else _] => destruct b; reflexivity end ].
Ltac calm_list :=
  repeat first
    [ apply Forall_app; split | apply Forall_cons; split | apply Forall_nil
    | apply Forall_map_calm; intros ? | progress cbn [map app] | calm_text
    | match goal with |- Forall _ (if ?b then _ else _) => destruct b end ].
Ltac honest_walk :=
  repeat match goal with
    | |- _ => solve [auto with go]
    | |- reports _ (ret _) => apply reports_ret; reflexivity
    | |- reports _ (do! lines ToStderr (_ :: _) in ret _) =>
        apply reports_first; first [reflexivity | apply error_complains]
    | |- reports _ (bind _ _) => apply reports_bind; [|intros ?]
    | |- calm (bind _ _) => apply calm_bind; [|intros ?]
    | |- calm (lines _ _) => apply calm_lines; solve [calm_list]
    | |- calm (line _ _) => apply calm_line; calm_text
    | |- reports _ (match ?x with _ => _ end) => destruct x
    | |- calm (match ?x with _ => _ end) => destruct x
    end.

#[export] Hint Resolve calm_on_sys calm_ret calm_log calm_table row_calm honest_Ok : go.
