(* ===== verification/CliKeyTheorems.v ===== *)
(** * CliKeyTheorems: what the commands on API keys guarantee.

    The body of a new key is written once, to the standard output; a deleted key
    is revoked for good; the table shows exactly the active keys. *)

From S2P Require Import Prelude GoText GoEncoding GoTime GoCrypto GoPath GoOs Config Keystore KeystoreProofs KeystoreHistory KeystoreCodec KeystoreTheorems CliOutput CliKey CliProofs.
Open Scope Z_scope.
Open Scope go_scope.

(** ** The store of a command *)

Section keys.
Context `{JC : JsonCodec} `{JL : !JsonLaws} `{TW : TableWriter}.
Variable getenv : string → string.

Definition empty_store (pth : string) : Store := {| path := pth; usageBuf := ∅ |}.
Definition opened (pth : string) (s : os) : proc := {| p_store := empty_store pth; p_os := s |}.

Lemma wp_openStore Q paths s :
  Paths getenv = Ok paths →
  (∀ s' e, same_disk s s' → os_locks s' = os_locks s → is_corrupt e = true → Q (Err (EKey e)) s') →
  (∀ s', same_disk s s' → os_locks s' = os_locks s → Q (Ok (empty_store (KeysDB paths))) s') →
  wp (openStore getenv) Q s.
Proof.
  intros Hp He Hok. unfold openStore. rewrite Hp. apply wp_bind.
  eapply wp_mono; [apply Open_spec|]. intros [st|e] s' (Hd & Hl & Hr); apply wp_ret; simpl.
  - subst st. by apply Hok.
  - by apply He.
Qed.

Lemma wp_on_store {A} st (m : M proc A) (Q : A → os → Prop) s :
  wp m (λ a p, Q a (p_os p)) {| p_store := st; p_os := s |} → wp (on_store st m) Q s.
Proof. unfold wp, on_store. by destruct (m _). Qed.

(** Printing and returning an error. *)
Definition error_texts (e : key_error) (op : string) : list out :=
  let (m, hints) := store_error_text e op in
  texts ToStderr (("error: " +:+ m) :: map (λ h, "  hint: " +:+ h) hints).

Lemma wp_fail_store {A} e op (Q : result key_error A → console os → Prop) c :
  Q (Err e) (say (error_texts e op) c) → wp (fail_store e op) Q c.
Proof.
  intros H. unfold fail_store, printStoreError, printError, error_texts in *.
  destruct (store_error_text e op) as [m hints]. console. rewrite say_say. exact H.
Qed.

(** ** key create *)

(** The frame around a key. *)
Definition key_box (key : string) : list string :=
  let inner := "  " +:+ key +:+ "  " in
  let bar := repeat_str "─" (rune_count inner) in
  ["┌" +:+ bar +:+ "┐"; "│" +:+ inner +:+ "│"; "└" +:+ bar +:+ "┘"].

(** What is written about a new key beside the key. *)
Definition create_warning : list string :=
  ["  ! WARNING: This key will NOT be shown again. Save it now."; ""]%string.
Definition create_report (id label fp : string) (t : Time) : list out :=
  texts ToStderr [row 9 "id" id; row 9 "label" (label_display label);
                  row 9 "created" (format_date t); ""%string]
  ++ [LogInfo ToStderr "key created"
        [("action", FStr "create"); ("id", FStr id); ("fingerprint", FStr fp)]%string].

(** C15: A new key is disclosed once.  When [key create] succeeds, the key store
    has one more record, of the given label, and the key itself is in the three
    lines of the frame on the standard output and nowhere else: all that goes
    to the standard error is a function of the id, the label, the date and the
    fingerprint.  When it fails the store is as before, and nothing but the
    error is written. *)
Theorem key_create_discloses_once paths fuel name c db :
  Paths getenv = Ok paths → db_at (KeysDB paths) (os_files (sys c)) = Some db →
  db_text_ok db = true → valid_utf8 name = true →
  wp (runKeyCreate getenv fuel name) (λ r c',
    let db' := db_at (KeysDB paths) (os_files (sys c')) in
    match r with
    | Some (Ok _) => ∃ key rec,
        fresh_record key name (os_now (sys c)) (map d_ID (Keys db)) rec
        ∧ db' = Some {| Version := Version db; Keys := Keys db ++ [toDBRecord rec] |}
        ∧ shown c' = shown c ++ texts ToStderr create_warning
            ++ texts ToStdout (key_box key ++ [""%string])
            ++ create_report (ID rec) name (Fingerprint key) (os_now (sys c))
    | Some (Err e) => db' = Some db ∧ shown c' = shown c ++ error_texts e "create"
    | None => db' = Some db ∧ shown c' = shown c
    end) c.
Proof.
  intros Hp Hdb Ht Hn. apply wp_bind, wp_on_sys, (wp_openStore _ paths); [done| |].
  - intros s' e [Hf _] _ _. apply wp_bind, wp_fail_store, wp_ret. simpl. by rewrite Hf.
  - intros s' (Hf & _ & Hnow) Hl. apply wp_bind, wp_on_sys, wp_on_store.
    eapply wp_mono; [apply (Create_spec fuel name _ db)|]; [|done..|].
    { unfold store_db. simpl. by rewrite Hf. }
    intros r p' (Hst & _ & Hr). unfold store_db in Hr. rewrite Hst in Hr. simpl in Hr.
    rewrite Hf, Hdb, Hnow in Hr. destruct r as [[[key rec]|e]|].
    + destruct Hr as (_ & Hrec & Hdb'). unfold printKeyBox. console.
      rewrite !say_say. exists key, rec. split; [done|]. split; [done|].
      destruct Hrec as (-> & -> & _ & _ & _ & -> & _). reflexivity.
    + apply wp_bind, wp_fail_store, wp_ret. by destruct Hr.
    + by apply wp_ret.
Qed.

(** ** key list *)

Definition active_records (db : Database) : list KeyRecord :=
  map fromDBRecord (List.filter (λ d, negb (d_Revoked d)) (Keys db)).

Definition no_keys_out : list out :=
  texts ToStdout ["  No API keys found."%string;
                  "  hint: create your first key with " +:+ quoted "raxd key create --name <label>"].

Definition list_out (rs : list KeyRecord) : list out :=
  match rs with [] => no_keys_out | _ => [Table ToStdout key_header (map key_row rs)] end.

(** What is written of an error of [key list]. *)
Definition list_error (e : key_error) : list out :=
  match e with ETable _ _ => [] | _ => error_texts e "list" end.

Lemma append_rows_error rows e : append_rows rows = Err e → list_error e = [].
Proof.
  induction rows as [|r rows IH]; simpl; [done|].
  destruct (append_error r); [|done]. by intros [= <-].
Qed.

(** [key list] shows exactly the active keys, in the order of the store, one
    row each with the whole id, and changes nothing; without active keys it says
    so.  A failure of the key store is explained on the standard error; one of
    the table library is not. *)
Theorem key_list_shows_active paths c db :
  Paths getenv = Ok paths → db_at (KeysDB paths) (os_files (sys c)) = Some db →
  wp (runKeyList getenv) (λ r c', os_files (sys c') = os_files (sys c) ∧
    shown c' = shown c ++ match r with
                          | Ok _ => list_out (active_records db)
                          | Err e => list_error e
                          end) c.
Proof.
  intros Hp Hdb. apply wp_bind, wp_on_sys, (wp_openStore _ paths); [done| |].
  - intros s' e [Hf _] _ _. by apply wp_fail_store.
  - intros s' (Hf & _) Hl. apply wp_bind, wp_on_sys, wp_on_store.
    eapply wp_mono; [apply (List_spec _ db)|]; [unfold store_db; simpl; by rewrite Hf|].
    intros r p' ([[Hf' _] _] & _ & Hr). simpl in Hf'. rewrite Hf in Hf'.
    destruct r as [rs|e]; [|by apply wp_fail_store]. fold (active_records db) in Hr. subst rs.
    destruct (active_records db) as [|r0 rs] eqn:Ea; [console; by rewrite say_say|].
    rewrite <-Ea. cbv zeta. destruct (append_rows _) eqn:Eap.
    + destruct (render_error _); console; [by rewrite app_nil_r|]. by rewrite Ea.
    + apply append_rows_error in Eap. apply wp_ret. split; [done|]. by rewrite Eap, app_nil_r.
Qed.

(** ** key delete *)

Definition deleted_out (id fp : string) : list out :=
  texts ToStderr ["  key " +:+ id +:+ " revoked";
                  "  hint: the key can no longer be used for authentication"%string]
  ++ [LogInfo ToStderr "key revoked"
        [("action", FStr "delete"); ("id", FStr id); ("fingerprint", FStr fp)]%string].

(** No operation of any process on the store at [pth], from the disk of [s] on,
    will ever find an active record with the id. *)
Definition dead_for_good (pth id : string) (s : os) : Prop :=
  ∀ buf p2, rtc step {| p_store := {| path := pth; usageBuf := buf |}; p_os := s |} p2 →
  ∃ db2, store_db p2 = Some db2 ∧ ∀ e, e ∈ Keys db2 → d_Revoked e = false → d_ID e ≠ id.

(** C26: [key delete] is final.  When it succeeds, no history of whole operations of
    any process on the key store makes the id active again, so that the key is
    never accepted;
    the record was active and the audit line carries its fingerprint, unless the
    list could not be read.  When it fails the store is as before and the error
    is explained. *)
Theorem key_delete_is_final paths id args c db :
  Paths getenv = Ok paths → db_at (KeysDB paths) (os_files (sys c)) = Some db → wf_db db →
  wp (runKeyDelete getenv (id :: args)) (λ r c',
    match r with
    | Ok _ => dead_for_good (KeysDB paths) id (sys c')
        ∧ ∃ fp, shown c' = shown c ++ deleted_out id fp
            ∧ (fp = ""%string ∨ ∃ d, d ∈ Keys db ∧ d_ID d = id ∧ d_Revoked d = false ∧ fp = d_Fingerprint d)
    | Err e => db_at (KeysDB paths) (os_files (sys c')) = Some db
        ∧ ∃ op, op ∈ ["delete"%string; id] ∧ shown c' = shown c ++ error_texts e op
    end) c.
Proof.
  intros Hp Hdb Hwf. apply wp_bind, wp_on_sys, (wp_openStore _ paths); [done| |].
  - intros s' e [Hf _] _ _. apply wp_fail_store. simpl. rewrite Hf. split; [done|].
    exists "delete"%string. split; [left|done].
  - intros s' (Hf & _ & Hnow) Hl. apply wp_bind, wp_on_sys, wp_on_store.
    eapply wp_mono; [apply (List_spec _ db)|]; [unfold store_db; simpl; by rewrite Hf|].
    intros l p1 ([[Hf1 _] _] & _ & Hlist). simpl in Hf1. cbv zeta.
    set (p0 := opened (KeysDB paths) (p_os p1)).
    assert (store_db p0 = Some db) as Hp0
      by (unfold store_db; simpl; by rewrite Hf1, Hf).
    apply wp_bind, wp_on_sys, wp_on_store, wp_intro. fold p0. intros r p2 Hrun.
    pose proof (wp_run _ _ _ _ _ Hrun (Revoke_spec id p0 db Hp0 (proj1 Hwf))) as (Hst & _ & Hr).
    assert (∀ s, store_db {| p_store := p_store p0; p_os := s |}
                 = db_at (KeysDB paths) (os_files s)) as Hat by done.
    destruct r as [[]|e].
    + console. rewrite !say_say. split.
      * intros buf p3 Hs. eapply (revoked_stays id p0 p2); [done..|].
        eapply rtc_l; [apply (step_restart _ buf)|]. by rewrite Hst.
      * eexists. split; [reflexivity|]. destruct l as [rs|]; [|by left]. simpl.
        destruct (find _ rs) as [x|] eqn:Ex; [|by left]. right.
        apply find_some in Ex as [Hin Hid%String.eqb_eq]. subst rs.
        apply in_map_iff in Hin as (d & <- & [Hd Hrv]%filter_In).
        exists d. split_and!; [by apply list_elem_of_In|done| |done].
        by destruct (d_Revoked d).
    + destruct Hr as [Hr _]. apply wp_fail_store. split.
      * trans (store_db p2); [unfold store_db; by rewrite Hst|congruence].
      * exists id. split; [set_solver|done].
Qed.
End keys.

(** ** Instances *)

#[export] Instance demo_table : TableWriter :=
  {| append_error _ := None; render_error _ := None |}.

Definition demo_env (v : string) : string := if String.eqb v "HOME" then "/home/ann" else "".
Definition demo_keys : string := "/home/ann/.local/state/raxd/keys.db".
Definition demo_user_paths : PathSet :=
  {| ConfigDir := "/home/ann/.config/raxd"; ConfigFile := "/home/ann/.config/raxd/config.yaml";
     StateDir := "/home/ann/.local/state/raxd"; KeysDB := demo_keys;
     TLSDir := "/home/ann/.local/state/raxd/tls" |}.

Definition demo_console : console os :=
  {| sys := demo_os {[demo_keys := demo_file]} []; shown := [] |}.

Lemma demo_paths_ok : Paths demo_env = Ok demo_user_paths.
Proof. vm_compute. reflexivity. Qed.

Lemma demo_keys_db : db_at (KeysDB demo_user_paths) (os_files (sys demo_console)) = Some demo_db.
Proof.
  unfold db_at. cbn [sys demo_console os_files demo_os KeysDB demo_user_paths].
  rewrite lookup_singleton_eq. apply db_of_data_encoded.
Qed.

(** The whole console of [key create --name phone]: the key is the second line of
    the frame. *)
Lemma key_create_discloses_once_witness :
  ∃ key rec c', runKeyCreate demo_env 1 "phone" demo_console = (Some (Ok tt), c')
    ∧ shown c' = texts ToStderr create_warning ++ texts ToStdout (key_box key ++ [""%string])
                 ++ create_report (ID rec) "phone" (Fingerprint key) 1000.
Proof.
  pose proof (key_create_discloses_once demo_env demo_user_paths 1 "phone" demo_console demo_db
    demo_paths_ok demo_keys_db eq_refl eq_refl) as H.
  unfold wp in H. destruct (runKeyCreate demo_env 1 "phone" demo_console) as [r c'] eqn:E.
  assert (r = Some (Ok tt)) as ->.
  { trans (runKeyCreate demo_env 1 "phone" demo_console).1; [rewrite E; reflexivity|vm_compute; reflexivity]. }
  cbn [fst snd] in H. destruct H as (key & rec & _ & _ & H).
  exists key, rec, c'. split; [reflexivity|exact H].
Defined.

Lemma key_list_shows_active_witness :
  shown (runKeyList demo_env demo_console).2
  = [Table ToStdout key_header [["  bb"; "laptop"; "0001-01-01"; "never"]%string]].
Proof.
  pose proof (key_list_shows_active demo_env demo_user_paths demo_console demo_db
    demo_paths_ok demo_keys_db) as [_ H].
  assert ((runKeyList demo_env demo_console).1 = Ok tt) as Hr by (vm_compute; reflexivity).
  rewrite Hr in H. rewrite H. vm_compute. reflexivity.
Defined.

Lemma key_delete_is_final_witness :
  ∃ c', runKeyDelete demo_env ["bb"%string] demo_console = (Ok tt, c')
    ∧ dead_for_good demo_keys "bb" (sys c').
Proof.
  pose proof (key_delete_is_final demo_env demo_user_paths "bb" [] demo_console demo_db
    demo_paths_ok demo_keys_db demo_wf) as H.
  unfold wp in H. destruct (runKeyDelete demo_env ["bb"%string] demo_console) as [r c'] eqn:E.
  assert (r = Ok tt) as ->.
  { trans (runKeyDelete demo_env ["bb"%string] demo_console).1; [rewrite E; reflexivity|vm_compute; reflexivity]. }
  cbn [fst snd] in H. destruct H as [H _]. exists c'. split; [reflexivity|exact H].
Defined.
