(* ===== verification/CliService.v ===== *)
(** * CliService: [internal/cli/service.go], the commands on the system service.

    [raxd service install], [uninstall], [start], [stop] and [status]: they build
    the manager of the platform from the configuration, call it, and print its
    outcome.  The destructive [uninstall --purge] is behind a second flag. *)

From S2P Require Import Prelude GoText GoEncoding GoPath GoOs GoJson Config ServiceTemplates Service ServiceSystemd ServiceLaunchd CliOutput CliKey.
Open Scope Z_scope.
Open Scope go_scope.

(** What the commands read of the process: the environment, the platform, the
    path of the program, the configuration file, and the conversions [Load]
    leaves to the libraries. *)
Class Environment (float64 : Type) := {
  f64_of_Z : Z → float64;
  ParseDuration : string → result string Z;
  conversions : casts (float64:=float64);
  getenv : string → string;
  GOOS : string;
  Executable : result string string;
  read_config : PathSet → config_file (float64:=float64);
}.

(** The configuration of a command, once its paths are known. *)
Definition load_config {float64} `{E : Environment float64} (paths : PathSet) :
    result cerr (Config.Config (float64:=float64)) :=
  Load f64_of_Z ParseDuration conversions (read_config paths).

Inductive svc_error :=
| EService (e : serror)
| ELoad (e : cerr)
| ENoYes.

(** [err.Error()], and the sentinel [errors.Is] finds. *)
Definition svc_error_msg (e : svc_error) : string :=
  match e with
  | EService e => err_text e
  | ELoad e => "cannot load configuration: " +:+ cerr_msg e
  | ENoYes => "purge requires --yes flag"
  end.
Definition svc_sentinel (e : svc_error) : option sentinel :=
  match e with EService e => is_sentinel e | _ => None end.

(** ** Messages *)

Record serviceErrorMsg := { m_err : string; m_hints : list string }.

Definition mapManagerError (e : svc_error) : serviceErrorMsg :=
  match svc_sentinel e with
  | Some ErrPermission =>
      {| m_err := "insufficient privileges to install the service";
         m_hints := ["run as root or with sudo: sudo raxd service install";
                     "installation requires root to write system service files"] |}
  | Some ErrManagerUnavailable =>
      {| m_err := "service manager is not available";
         m_hints := ["ensure systemd (Linux) or launchd (macOS) is running"] |}
  | Some ErrUnsupported =>
      {| m_err := "this platform is not supported";
         m_hints := ["raxd service management is available on Linux and macOS only"] |}
  | Some ErrNotInstalled =>
      {| m_err := "raxd service is not installed";
         m_hints := ["install it first with " +:+ quoted "raxd service install"] |}
  | Some ErrAlreadyInstalled =>
      {| m_err := "raxd service is already installed";
         m_hints := ["use " +:+ quoted "raxd service status" +:+ " to check the current state"] |}
  | _ =>
      {| m_err := "service operation failed: " +:+ svc_error_msg e;
         m_hints := ["run " +:+ quoted "raxd service status" +:+ " to check current state"] |}
  end%string.

Definition mapPurgeError (e : svc_error) : serviceErrorMsg :=
  match svc_sentinel e with
  | Some ErrPermission =>
      {| m_err := "insufficient privileges to run purge";
         m_hints := ["run as root or with sudo:"; "        sudo raxd service uninstall --purge --yes"] |}
  | Some ErrUserMismatch =>
      {| m_err := "system user " +:+ quoted "raxd" +:+ " does not match the expected raxd service account";
         m_hints := ["the account may have been modified; inspect it before removing:";
                     "        id raxd"; "        getent passwd raxd"] |}
  | Some ErrSuspiciousPath =>
      {| m_err := "resolved path for state/config directory is outside the expected layout";
         m_hints := ["inspect the raxd configuration for unexpected symlinks or path overrides:";
                     "        raxd service status"] |}
  | Some ErrUnsupported =>
      {| m_err := "this platform is not supported";
         m_hints := ["raxd service management is available on Linux and macOS only"] |}
  | Some ErrManagerUnavailable =>
      {| m_err := "raxd service did not stop within the timeout";
         m_hints := ["check service status and stop it manually before purging:";
                     "        sudo raxd service stop";
                     "        sudo raxd service uninstall --purge --yes"] |}
  | _ =>
      {| m_err := "purge operation failed";
         m_hints := ["run " +:+ quoted "raxd service status" +:+ " to check current state"] |}
  end%string.

Definition printSvcError (m : serviceErrorMsg) : M (console host) unit :=
  do! line ToStderr ("error: " +:+ m_err m) in
  lines ToStderr (map (λ h, "  hint: " +:+ h) (m_hints m)).

(** Printing an error and returning it. *)
Definition fail_svc (e : svc_error) : M (console host) (result svc_error unit) :=
  do! printSvcError (mapManagerError e) in ret (Err e).

Definition unitDisplayPathForOS (goos : string) : string :=
  if String.eqb goos "darwin" then "/Library/LaunchDaemons/tech.oem.raxd.plist"
  else "/etc/systemd/system/raxd.service".

Definition managerNameForOS (goos : string) : string :=
  if String.eqb goos "darwin" then "launchd" else "systemd".

(** ** Status *)

Record jsonStatus := {
  j_Installed : bool; j_Active : bool; j_PID : Z; j_EUID : Z; j_User : string; j_Port : Z;
  j_Autostart : string; j_UnitPath : string; j_State : string; j_Manager : string;
}.

Definition json_status (goos : string) (st : Status) (port : Z) : jsonStatus :=
  {| j_Installed := Installed st; j_Active := Active st; j_PID := PID st; j_EUID := EUID st;
     j_User := if Installed st then "raxd" else ""; j_Port := port;
     j_Autostart := if Installed st then "enabled" else "disabled";
     j_UnitPath := unitDisplayPathForOS goos; j_State := State st;
     j_Manager := managerNameForOS goos |}.

(** The members of the object, by the tags. *)
Definition json_members (js : jsonStatus) : list (string * json) :=
  [("installed", JBool (j_Installed js)); ("active", JBool (j_Active js));
   ("pid", JNum (fmt_d (j_PID js))); ("euid", JNum (fmt_d (j_EUID js)));
   ("user", enc_string (j_User js)); ("port", JNum (fmt_d (j_Port js)));
   ("autostart", enc_string (j_Autostart js)); ("unit_path", enc_string (j_UnitPath js));
   ("state", enc_string (j_State js)); ("manager", enc_string (j_Manager js))]%string.

Definition printStatusJSON (goos : string) (st : Status) (port : Z) : M (console host) (result svc_error unit) :=
  do! line ToStdout (print_indented (json_members (json_status goos st port))) in ret (Ok tt).

Definition positive_row (label : string) (n : Z) : list string :=
  if 0 <? n then [row 12 label (fmt_d n)] else [].

Definition status_rows (goos : string) (st : Status) (port : Z) : list string :=
  if negb (Installed st) then
    [row 12 "installed" "no"; "  hint: install with " +:+ quoted "raxd service install"]
  else
    [row 12 "installed" "yes"; row 12 "running" (if Active st then "yes" else "no");
     row 12 "pid" (if 0 <? PID st then fmt_d (PID st) else "-")]
    ++ positive_row "euid" (EUID st)
    ++ [row 12 "user" "raxd  [not root]"]
    ++ positive_row "port" port
    ++ [row 12 "autostart" "enabled"; row 12 "unit" (unitDisplayPathForOS goos);
        row 12 "manager" (managerNameForOS goos); row 12 "state" (State st)]
    ++ (if Active st then [] else ["  hint: start with " +:+ quoted "raxd service start"]).

Definition printStatusHuman (goos : string) (st : Status) (port : Z) : M (console host) unit :=
  lines ToStdout (status_rows goos st port).

(** ** The manager *)

Section commands.
Context {float64 : Type} `{E : Environment float64}.

(** A default configuration with the port and the program's path. *)
Definition svc_config (port : option Z) : Service.Config :=
  let d := DefaultConfigForGOOS GOOS in
  {| c_ExecPath := match Executable with Ok exe => exe | Err _ => "" end;
     c_Port := match port with Some p => p | None => c_Port d end;
     c_User := c_User d; c_Group := c_Group d; c_Label := c_Label d; c_StateDir := c_StateDir d;
     c_ConfigDir := c_ConfigDir d; c_LogPath := c_LogPath d |}.

(** [resolveManagerWithPort] in production, where no manager is injected. *)
Definition resolveManagerWithPort : result svc_error (ServiceManager * Z) :=
  let build cfg :=
    match New GOOS Executable cfg with
    | Ok m => Ok (m, c_Port cfg)
    | Err e => Err (EService e)
    end in
  match Paths getenv with
  | Err _ => build (svc_config None)
  | Ok paths =>
      match load_config paths with
      | Err e => Err (ELoad e)
      | Ok appCfg => build (svc_config (Some (Config.Port appCfg)))
      end
  end.

(** [RunE] of a command: the manager, or the error that there is none. *)
Definition with_manager (k : ServiceManager → Z → M (console host) (result svc_error unit)) :
    M (console host) (result svc_error unit) :=
  match resolveManagerWithPort with
  | Err e => fail_svc e
  | Ok (m, port) => k m port
  end.

(** ** install *)

Definition installed_rows (port : Z) : list string :=
  [row 14 "installed" "raxd service"; row 14 "unit" (unitDisplayPathForOS GOOS)]
  ++ (if String.eqb GOOS "linux" then [row 14 "drop-in" "/etc/systemd/journald.conf.d/raxd.conf"] else [])
  ++ [row 14 "user" "raxd  [not root]"]
  ++ (if 0 <? port then [row 14 "port" (fmt_d port)] else [])
  ++ [row 14 "autostart" "enabled";
      row 14 "hint:" ("start the service now with " +:+ quoted "raxd service start")].

Definition svc_install (m : ServiceManager) (port : Z) : M (console host) (result svc_error unit) :=
  let! r := on_sys (Install m) in
  match r with
  | Err e =>
      if decide (is_sentinel e = Some ErrAlreadyInstalled) then
        do! line ToStderr "  already installed   raxd service" in
        do! line ToStderr ("  hint: use " +:+ quoted "raxd service status" +:+ " to check the current state") in
        ret (Ok tt)
      else fail_svc (EService e)
  | Ok _ =>
      do! lines ToStderr (installed_rows port) in
      do! show (LogInfo ToStderr "service installed"
            [("action", FStr "install"); ("platform", FStr GOOS);
             ("unit", FStr (unitDisplayPathForOS GOOS)); ("user", FStr "raxd");
             ("port", FInt port)])%string in
      ret (Ok tt)
  end.

Definition runServiceInstall : M (console host) (result svc_error unit) := with_manager svc_install.

(** ** uninstall *)

Definition printPurgeBarrier : M (console host) unit :=
  let cfg := DefaultConfigForGOOS GOOS in
  let prow label v := "    " +:+ pad_right 8 label +:+ " " +:+ v in
  lines ToStderr
    ["warning: this operation is irreversible"; "";
     "  The following will be permanently destroyed:"; "";
     prow "user" "raxd  (system account, no login shell)";
     prow "state" (c_StateDir cfg); prow "config" (c_ConfigDir cfg);
     prow "keys.db" "all API keys and audit log — cannot be recovered"; "";
     "  hint: to confirm, re-run with --yes:";
     "          sudo raxd service uninstall --purge --yes"]%string.

Definition removed_rows : list string :=
  if String.eqb GOOS "linux" then
    [row 14 "removed" "unit file and autostart registration";
     row 14 "removed" "journal size limit drop-in"]
  else [row 14 "removed" "plist file and autostart registration"].

Definition report_rows (r : PurgeReport) : list string :=
  [if Stopped r then row 14 "stopped" "raxd service" else row 14 "not running" "raxd service"; ""%string]
  ++ (if Uninstalled r then row 14 "uninstalled" "raxd service" :: removed_rows
      else [row 14 "not installed" "raxd service  [already unregistered]"])
  ++ [""%string]
  ++ (if UserRemoved r then [row 14 "removed" "user raxd"]
      else if UserAbsent r then [row 14 "absent" "user raxd  [already removed]"] else [])
  ++ map (row 14 "removed") (DirsRemoved r)
  ++ map (row 14 "absent") (DirsAbsent r)
  ++ [""%string;
      if UserRemoved r || (0 <? Z.of_nat (length (DirsRemoved r)))%Z
      then "  purge complete   raxd has been fully removed from this host"
      else "  purge complete   nothing to remove — host is already clean"]%string.

Definition printPurgeReport (r : PurgeReport) : M (console host) unit :=
  do! show (LogInfo ToStderr "purge complete"
        [("action", FStr "purge"); ("platform", FStr (Platform r));
         ("user_removed", FBool (UserRemoved r)); ("user_absent", FBool (UserAbsent r));
         ("dirs_removed", FList (DirsRemoved r)); ("dirs_absent", FList (DirsAbsent r));
         ("stopped", FBool (Stopped r))])%string in
  lines ToStderr (report_rows r).

(** The line [emitPurgeAuditRecord] writes to its sink, which is [stderr] here. *)
Definition audit_out (e : hevent) : list out :=
  match e with
  | HPurgeAudit platform userPresent dirsPresent =>
      [LogInfo ToStderr "purge intent"
         [("action", FStr "purge"); ("phase", FStr "pre-deletion"); ("platform", FStr platform);
          ("user_present", FBool userPresent); ("dirs_present", FList dirsPresent)]]%string
  | _ => []
  end.

(** A call of the manager whose audit sink is [stderr]. *)
Definition audited_call {A} (m : M host A) : M (console host) A := λ c,
  let (a, h) := m (sys c) in
  (a, {| sys := h;
         shown := shown c ++ concat (map audit_out (drop (length (h_log (sys c))) (h_log h))) |}).

Definition runPurgeCmd (m : ServiceManager) : M (console host) (result svc_error unit) :=
  let! r := audited_call (Purge m {| Confirmed := true; AuditOut := true |}) in
  match r with
  | (_, Some e) => do! printSvcError (mapPurgeError (EService e)) in ret (Err (EService e))
  | (report, None) => do! printPurgeReport report in ret (Ok tt)
  end.

Definition uninstalled_rows : list string :=
  [row 14 "uninstalled" "raxd service"] ++ removed_rows
  ++ [row 14 "kept" ("system user " +:+ quoted "raxd" +:+ " (no shell, no home, not running)");
      "  hint: to also remove the user: " +:+
        (if String.eqb GOOS "linux" then "sudo userdel raxd" else "sudo dscl . -delete /Users/raxd");
      "  hint: data in " +:+ c_StateDir (DefaultConfigForGOOS GOOS) +:+
        " is preserved — remove manually if no longer needed"]%string.

Definition svc_uninstall (m : ServiceManager) : M (console host) (result svc_error unit) :=
  let! r := on_sys (Uninstall m) in
  match r with
  | Err e =>
      if decide (is_sentinel e = Some ErrNotInstalled) then
        do! line ToStderr "  not installed   raxd service" in
        do! line ToStderr ("  hint: use " +:+ quoted "raxd service install" +:+ " to set up the service") in
        ret (Ok tt)
      else fail_svc (EService e)
  | Ok _ =>
      do! lines ToStderr uninstalled_rows in
      do! show (LogInfo ToStderr "service uninstalled"
            [("action", FStr "uninstall"); ("platform", FStr GOOS)])%string in
      ret (Ok tt)
  end.

Definition runServiceUninstall (doPurge doYes : bool) : M (console host) (result svc_error unit) :=
  if doPurge && negb doYes then do! printPurgeBarrier in ret (Err ENoYes)
  else with_manager (λ m _, if doPurge && doYes then runPurgeCmd m else svc_uninstall m).

(** ** start, stop, status *)

Definition not_installed_error (e : serror) : M (console host) (result svc_error unit) :=
  if decide (is_sentinel e = Some ErrNotInstalled) then
    do! lines ToStderr ["error: raxd service is not installed"%string;
                        "  hint: install it first with " +:+ quoted "raxd service install"] in
    ret (Err (EService e))
  else fail_svc (EService e).

Definition svc_start (m : ServiceManager) : M (console host) (result svc_error unit) :=
  let! r := on_sys (Start m) in
  match r with
  | Err e => not_installed_error e
  | Ok _ =>
      let! st := on_sys (StatusOf m) in
      do! line ToStderr (row 14 "started" "raxd service") in
      do! lines ToStderr (if 0 <? PID st then [row 14 "pid" (fmt_d (PID st))] else []) in
      do! line ToStderr ("  hint: check status with " +:+ quoted "raxd service status") in
      do! show (LogInfo ToStderr "service started"
            [("action", FStr "start"); ("pid", FInt (PID st))])%string in
      ret (Ok tt)
  end.

Definition runServiceStart : M (console host) (result svc_error unit) :=
  with_manager (λ m _, svc_start m).

Definition svc_stop (m : ServiceManager) : M (console host) (result svc_error unit) :=
  let! r := on_sys (Stop m) in
  match r with
  | Err e => not_installed_error e
  | Ok _ =>
      do! line ToStderr (row 14 "stopped" "raxd service") in
      do! line ToStderr ("  hint: start again with " +:+ quoted "raxd service start") in
      do! show (LogInfo ToStderr "service stopped" [("action", FStr "stop")])%string in
      ret (Ok tt)
  end.

Definition runServiceStop : M (console host) (result svc_error unit) :=
  with_manager (λ m _, svc_stop m).

(** The [Status] of both managers returns no error. *)
Definition svc_status (jsonFlag : bool) (m : ServiceManager) (port : Z) :
    M (console host) (result svc_error unit) :=
  let! st := on_sys (StatusOf m) in
  if jsonFlag then printStatusJSON GOOS st port
  else do! printStatusHuman GOOS st port in ret (Ok tt).

Definition runServiceStatus (jsonFlag : bool) : M (console host) (result svc_error unit) :=
  with_manager (svc_status jsonFlag).
End commands.
