(* ===== verification/CliServiceTheorems.v ===== *)
(** * CliServiceTheorems: what the commands on the service guarantee.

    Every failure is explained; the destructive path is behind two flags; and a
    purge that succeeds ends every API key of the service. *)

From S2P Require Import Prelude GoText GoEncoding GoJson GoJsonProofs GoCrypto GoPath GoOs Config Keystore KeystoreProofs KeystoreCodec KeystoreTheorems ServiceTemplates Service ServiceSystemd ServiceLaunchd ServicePurge ServiceTheorems CliOutput CliKey CliProofs CliService.
Open Scope Z_scope.
Open Scope go_scope.

Section service.
Context {float64 : Type} `{E : Environment float64}.

Lemma honest_svc_error (m : serviceErrorMsg) (e : svc_error) :
  honest (do! printSvcError m in ret (Err (A:=unit) e)).
Proof.
  apply (reports_first _ _ _ (map (λ h, "  hint: " +:+ h) (m_hints m))); [apply error_complains|done].
Qed.

Lemma honest_fail_svc e : honest (fail_svc e).
Proof. apply honest_svc_error. Qed.

Lemma existsb_audit_out evs : existsb complains (concat (map audit_out evs)) = false.
Proof. induction evs as [|[] evs IH]; simpl; rewrite ?existsb_app; auto. Qed.

Lemma calm_audited_call {A} (m : M host A) : calm (audited_call m).
Proof.
  intros c. unfold wp, audited_call. destruct (m (sys c)) as [a h].
  eexists. split; [reflexivity|apply existsb_audit_out].
Qed.
#[local] Hint Resolve honest_svc_error honest_fail_svc calm_audited_call : go.

Lemma honest_with_manager k : (∀ m port, honest (k m port)) → honest (with_manager k).
Proof. intros H. unfold with_manager. destruct resolveManagerWithPort as [[m port]|e]; auto with go. Qed.

Lemma honest_install m port : honest (svc_install m port).
Proof. unfold svc_install, installed_rows. honest_walk. Qed.

Lemma honest_uninstall m : honest (svc_uninstall m).
Proof. unfold svc_uninstall, uninstalled_rows, removed_rows. honest_walk. Qed.

Lemma honest_purge m : honest (runPurgeCmd m).
Proof.
  unfold runPurgeCmd, printPurgeReport, report_rows, removed_rows.
  apply reports_bind; [auto with go|]. intros [r [e|]]; honest_walk.
Qed.

Lemma honest_start m : honest (svc_start m).
Proof. unfold svc_start, not_installed_error. honest_walk. Qed.

Lemma honest_stop m : honest (svc_stop m).
Proof. unfold svc_stop, not_installed_error. honest_walk. Qed.

Lemma honest_status json m port : honest (svc_status json m port).
Proof. unfold svc_status, printStatusJSON, printStatusHuman, status_rows, positive_row. honest_walk. Qed.

Lemma resolve_manager m port :
  resolveManagerWithPort = Ok (m, port) →
  ∃ p, New GOOS Executable (svc_config p) = Ok m ∧ port = c_Port (svc_config p).
Proof.
  unfold resolveManagerWithPort. intros H.
  assert (∀ p, match New GOOS Executable (svc_config p) with
               | Ok m => Ok (m, c_Port (svc_config p)) | Err e => Err (EService e) end = Ok (m, port) →
    ∃ p, New GOOS Executable (svc_config p) = Ok m ∧ port = c_Port (svc_config p)) as Hb.
  { intros p. destruct (New GOOS Executable (svc_config p)) as [m'|e] eqn:En; [|done].
    intros [= -> <-]. by exists p. }
  destruct (Paths getenv) as [paths|]; [|by apply Hb in H].
  destruct (load_config paths) as [cfg|]; [|done]. by apply Hb in H.
Qed.

(** ** Status as a document *)

(** What a program makes of the document, by the same tags. *)
Definition read_jsonStatus (text : string) : option jsonStatus :=
  match scan text with
  | Some (JObj ms) =>
      ms ← member_names ms;
      installed ← dec_field "installed" dec_bool ms false;
      active ← dec_field "active" dec_bool ms false;
      pid ← dec_field "pid" dec_int ms 0;
      euid ← dec_field "euid" dec_int ms 0;
      user ← dec_field "user" dec_string ms ""%string;
      port ← dec_field "port" dec_int ms 0;
      autostart ← dec_field "autostart" dec_string ms ""%string;
      unit_path ← dec_field "unit_path" dec_string ms ""%string;
      state ← dec_field "state" dec_string ms ""%string;
      manager ← dec_field "manager" dec_string ms ""%string;
      Some {| j_Installed := installed; j_Active := active; j_PID := pid; j_EUID := euid;
              j_User := user; j_Port := port; j_Autostart := autostart; j_UnitPath := unit_path;
              j_State := state; j_Manager := manager |}
  | _ => None
  end.

Lemma read_json_members js :
  int64_range (j_PID js) → int64_range (j_EUID js) → int64_range (j_Port js) →
  valid_utf8 (j_User js) = true → valid_utf8 (j_Autostart js) = true →
  valid_utf8 (j_UnitPath js) = true → valid_utf8 (j_State js) = true → valid_utf8 (j_Manager js) = true →
  read_jsonStatus (print_indented (json_members js) +:+ eol) = Some js.
Proof.
  intros H1 H2 H3 H4 H5 H6 H7 H8. unfold read_jsonStatus. rewrite scan_print_indented; [|shelve|done].
  unfold json_members.
  match goal with |- (member_names ?ms ≫= _) = _ => change (member_names ms) with (Some ms) end.
  cbn [mbind option_bind].
  assert (∀ cur z, int64_range z → dec_int cur (JNum (fmt_d z)) = Some z) as Hint
    by (intros cur z Hz; cbn [dec_int]; by rewrite parse_int_fmt_d).
  dec_fields ltac:(first [by apply dec_enc_string|by apply Hint]). by destruct js.
  Unshelve.
  repeat (apply Forall_cons_2; [split_and!; [by apply raw_ok_plain|cbn [snd]; auto with go|done]|]).
  apply Forall_nil_2.
Qed.

(** The numbers of a status come from [strconv]. *)
Lemma atoi_range s : int64_range (atoi s).1.
Proof.
  unfold atoi, parse_int. destruct (match s with String "+" s' => (false, s') | String "-" s' => (true, s')
                                    | _ => (false, s) end) as [neg digits].
  assert (∀ n, 0 ≤ n → 0 ≤ (parse_digits 10 (2 ^ 64 - 1) digits n).1) as Hp.
  { induction digits as [|c u IH]; intros n Hn; simpl; [done|].
    destruct (digit_val c) as [d|] eqn:Ed; [|done]. apply digit_val_nonneg in Ed.
    repeat case_match; [done|done|]. apply IH. lia. }
  assert (0 ≤ (parse_uint digits 10 64).1) as Hu by (unfold parse_uint; destruct digits; [done|by apply Hp]).
  destruct (parse_uint digits 10 64) as [un [[]|]]; simpl in Hu;
    unfold int64_range, min_int64, max_int64; [simpl; lia|..];
    (destruct neg; cbn [negb andb];
     [destruct (Z.ltb_spec (2 ^ (64 - 1)) un)|destruct (Z.leb_spec (2 ^ (64 - 1)) un)]); simpl; lia.
Qed.

Definition ranged (st : Status) : Prop := int64_range (PID st) ∧ int64_range (EUID st).

Lemma zero_range : int64_range 0.
Proof. done. Qed.
#[local] Hint Resolve atoi_range zero_range : go.

Lemma euid_range lines : int64_range (euid_of_lines lines).
Proof. induction lines as [|l ls IH]; simpl; [done|]. repeat case_match; auto with go. Qed.

Lemma pid_range lines : int64_range (pid_of_lines lines).
Proof.
  unfold pid_of_lines. assert (int64_range 0) as H by done. revert H. generalize 0.
  induction lines as [|l ls IH]; intros pid Hp; simpl; [done|]. apply IH. case_match; [|done].
  unfold scan_int. destruct (match skip_spaces _ with EmptyString => _ | String c s' => _ end) as [sign body].
  pose proof (atoi_range (sign +:+ digit_run body)) as Ha.
  destruct (atoi (sign +:+ digit_run body)) as [n [e|]]; simpl in *; done.
Qed.

Lemma status_ranged goos exe cfg m h : New goos exe cfg = Ok m → ranged (StatusOf m h).1.
Proof.
  intros Hm. assert (wp (StatusOf m) (λ st _, ranged st) h) as H; [|exact H].
  assert ((∃ cfg, m = newSystemdManager cfg) ∨ ∃ cfg, m = newLaunchdManager cfg) as [[cfg' ->]|[cfg' ->]]
    by (unfold New in Hm; repeat case_match; simplify_eq; eauto).
  - apply wp_bind, wp_intro. intros r h1 _.
    assert (wp sd_show (λ st _, ranged st) h1) as Hs.
    { apply wp_bind, wp_intro. intros o h2 _. destruct o as [out|e]; [|by apply wp_ret].
      apply wp_bind, wp_intro. intros euid h3 He. apply wp_ret. split; cbn [PID EUID].
      - destruct (_ !! _); [apply atoi_range|done].
      - revert He. case_match; [|by intros [= <- _]].
        unfold readProcEUID. unfold bind. destruct (on_hos _ h2) as [[data|e] h4]; intros [= <- _];
          auto using euid_range with go. }
    destruct r as [?|[]]; first [done|by apply wp_ret].
  - apply wp_bind, wp_intro. intros r h1 _.
    assert (∀ k, wp k (λ st _, ranged st) h1 → wp k (λ st _, ranged st) h1) as Hk by done.
    destruct r as [?|[]]; first [by apply wp_ret|idtac]; apply wp_bind, wp_intro; intros o h2 _;
      (destruct o as [out|e]; apply wp_ret; [split; [apply pid_range|done]|done]).
Qed.

(** C40: [service status --json] prints one document that a program can read,
    whatever the manager of the platform said: the command succeeds, all it
    prints is one text, and [json.Unmarshal] of that text gives back the status,
    field by field.  A state with quotes, markup or control characters does no
    harm; it has to be UTF-8 to come back as it was. *)
Theorem status_json_reads_back m port c :
  resolveManagerWithPort = Ok (m, port) → int64_range port →
  let '(st, h) := StatusOf m (sys c) in
  valid_utf8 (State st) = true →
  ∃ text js, with_manager (svc_status true) c
          = (Ok tt, {| sys := h; shown := shown c ++ [Text ToStdout text] |})
    ∧ read_jsonStatus text = Some js
    ∧ j_Installed js = Installed st ∧ j_Active js = Active st ∧ j_PID js = PID st
    ∧ j_EUID js = EUID st ∧ j_State js = State st ∧ j_Port js = port
    ∧ (j_User js = ""%string ↔ Installed st = false)
    ∧ (j_Autostart js = "enabled"%string ↔ Installed st = true).
Proof.
  intros Hm Hport. unfold with_manager, svc_status, printStatusJSON. rewrite Hm.
  unfold bind at 1, on_sys, zoom.
  destruct (resolve_manager m port Hm) as (p & Hnew & _).
  pose proof (status_ranged _ _ _ m (sys c) Hnew) as [Hpid Heuid].
  destruct (StatusOf m (sys c)) as [st h]. intros Hutf.
  eexists _, (json_status GOOS st port). split; [reflexivity|].
  split; [|split_and!; try done; simpl; by destruct (Installed st)].
  apply read_json_members; try done.
  - cbn [json_status j_User]. by case_match.
  - cbn [json_status j_Autostart]. by case_match.
  - cbn [json_status j_UnitPath]. unfold unitDisplayPathForOS. by case_match.
  - cbn [json_status j_Manager]. unfold managerNameForOS. by case_match.
Qed.

(** ** Uninstalling *)

(** What uninstalling owns on the platform: its service files, and no directory. *)
Definition service_profile : purge_profile :=
  if String.eqb GOOS "linux" then sd_profile_on [] (DefaultConfigForGOOS GOOS)
  else ld_profile_on [] (DefaultConfigForGOOS GOOS).

Lemma Uninstall_safe cfg m : New GOOS Executable cfg = Ok m → safe service_profile (Uninstall m).
Proof.
  intros [[Hg ->]|[Hg ->]]%New_managers; unfold service_profile; rewrite Hg; simpl.
  - apply (sd_Uninstall_safe (DefaultConfigForGOOS "linux")).
  - apply (ld_Uninstall_safe (DefaultConfigForGOOS "darwin")).
Qed.

Lemma fail_svc_sys e c : sys (fail_svc e c).2 = sys c.
Proof. unfold fail_svc, printSvcError, bind, line, show, modify. by rewrite lines_run. Qed.

Lemma svc_uninstall_sys m c : sys (svc_uninstall m c).2 = (Uninstall m (sys c)).2.
Proof.
  unfold svc_uninstall, on_sys, zoom. unfold bind at 1.
  destruct (Uninstall m (sys c)) as [[u|e] h]; [unfold bind; by rewrite lines_run|].
  destruct (decide _); [done|apply fail_svc_sys].
Qed.

Definition barrier_row (label dir : string) : out :=
  Text ToStderr (("    " +:+ pad_right 8 label +:+ " " +:+ dir) +:+ eol).

(** C11: Data is destroyed behind two flags only.  Unless both [--purge] and
    [--yes] are given, [service uninstall] changes no file but the platform's
    own service files, changes no directory, removes nothing recursively and
    runs no command that deletes an account; and [--purge] alone does nothing at
    all, fails, and names the directories that are at stake. *)
Theorem purge_needs_both_flags purge yes c :
  purge && yes = false →
  wp (runServiceUninstall purge yes) (λ r c',
    (∀ p, p ∉ pp_owned service_profile →
       os_files (h_os (sys c')) !! p = os_files (h_os (sys c)) !! p)
    ∧ (∀ d, d ∈ h_dirs (sys c') ↔ d ∈ h_dirs (sys c))
    ∧ (∃ evs, h_log (sys c') = h_log (sys c) ++ evs ∧ Forall (harmless service_profile) evs)
    ∧ (purge = true → sys c' = sys c ∧ r = Err ENoYes ∧ ∃ new, shown c' = shown c ++ new
         ∧ barrier_row "state" (c_StateDir (DefaultConfigForGOOS GOOS)) ∈ new
         ∧ barrier_row "config" (c_ConfigDir (DefaultConfigForGOOS GOOS)) ∈ new)) c.
Proof.
  intros Hpy. unfold runServiceUninstall. rewrite Hpy.
  assert (∀ h', grows service_profile (sys c) h' →
    (∀ p, p ∉ pp_owned service_profile → os_files (h_os h') !! p = os_files (h_os (sys c)) !! p)
    ∧ (∀ d, d ∈ h_dirs h' ↔ d ∈ h_dirs (sys c))
    ∧ ∃ evs, h_log h' = h_log (sys c) ++ evs ∧ Forall (harmless service_profile) evs) as Hgrows.
  { assert (∀ d p, d ∈ pp_dirs service_profile → under d p = false) as Hno.
    { intros d p Hd. exfalso. unfold service_profile in Hd. destruct (String.eqb _ _); simpl in Hd; set_solver. }
    intros h' [F Hl]. split_and!; [|intros d; apply (fr_dirs _ _ _ F); auto|done].
    intros p Hp. apply (fr_files _ _ _ F); auto. }
  destruct purge; simpl in Hpy |- *.
  - subst yes. simpl. apply wp_bind, wp_lines, wp_ret. split; [done|]. split; [done|].
    split; [exists []; by rewrite app_nil_r|]. intros _. split; [done|]. split; [done|].
    eexists. split; [reflexivity|]. unfold texts, barrier_row. simpl. set_solver.
  - unfold wp, with_manager. destruct resolveManagerWithPort as [[m port]|e] eqn:Em.
    + apply resolve_manager in Em as (p & Hm & _). rewrite svc_uninstall_sys.
      destruct (Hgrows _ (Uninstall_safe _ _ Hm (sys c))) as (H1 & H2 & H3). by split_and!.
    + rewrite fail_svc_sys. destruct (Hgrows _ (grows_refl _ _)) as (H1 & H2 & H3). by split_and!.
Qed.
End service.

(** ** Purging *)

Section purge.
Context {float64 : Type} `{E : Environment float64} `{JC : JsonCodec}.

Definition service_state_dir : string := c_StateDir (DefaultConfigForGOOS GOOS).

Lemma runPurgeCmd_spec m c :
  wp (runPurgeCmd m) (λ r c', r = Ok tt →
    ∃ report, Purge m {| Confirmed := true; AuditOut := true |} (sys c) = ((report, None), sys c')) c.
Proof.
  unfold runPurgeCmd, wp, bind. unfold audited_call.
  destruct (Purge m _ (sys c)) as [[report [e|]] h].
  - unfold printSvcError, bind, line, show, modify. by rewrite lines_run.
  - unfold printPurgeReport, bind, show, modify. rewrite lines_run. simpl. eauto.
Qed.

Lemma verify_empty k pth buf s :
  os_files s !! pth = None →
  wp (Verify k) (λ v _, ∀ rec, v ≠ Ok (Some rec))
    {| p_store := {| path := pth; usageBuf := buf |}; p_os := s |}.
Proof.
  intros Hn. eapply wp_mono; [apply (Verify_spec k _ empty_db)|].
  - unfold store_db, db_at. simpl. by rewrite Hn.
  - intros v p' [_ Hv] rec ->. by destruct Hv as (d & Hd & _).
Qed.

(** C27: A purge ends every API key of the service.  When [service uninstall
    --purge --yes] succeeds, no key is accepted any more by a daemon whose key
    store is at or below the state directory of the service, whatever its usage
    buffer holds. *)
Theorem purge_ends_every_key c :
  wp (runServiceUninstall true true) (λ r c', r = Ok tt →
    ∀ pth k buf, under service_state_dir pth = true →
    wp (Verify k) (λ v _, ∀ rec, v ≠ Ok (Some rec))
      {| p_store := {| path := pth; usageBuf := buf |}; p_os := h_os (sys c') |}) c.
Proof.
  unfold runServiceUninstall, with_manager. simpl.
  destruct resolveManagerWithPort as [[m port]|e] eqn:Em.
  2: { unfold wp, fail_svc, printSvcError, bind, line, show, modify. by rewrite lines_run. }
  apply resolve_manager in Em as (p & Hm & _).
  eapply wp_mono; [apply runPurgeCmd_spec|]. intros r c' Hr Hok pth k buf Hu.
  destruct (Hr Hok) as (report & Hp).
  pose proof (wp_run _ _ _ _ _ Hp (New_Purge_spec GOOS Executable _ m _ (sys c) Hm)) as [_ Hd].
  destruct (Hd eq_refl) as [Hg _]. apply verify_empty. rewrite Forall_forall in Hg.
  apply (Hg service_state_dir); [|done].
  unfold profile_of, service_state_dir, settled, with_defaults, svc_config, DefaultConfigForGOOS.
  destruct (String.eqb GOOS "linux"), (String.eqb GOOS "darwin"); apply list_elem_of_here.
Qed.
End purge.

(** ** Instances: a Linux host with the service installed *)

#[export] Instance demo_linux : Environment Z := {|
  f64_of_Z := id;
  ParseDuration := demo_duration;
  conversions := demo_casts;
  getenv v := if String.eqb v "HOME" then "/root"%string else ""%string;
  GOOS := "linux";
  Executable := Ok "/usr/local/bin/raxd"%string;
  read_config _ := NoFile;
|}.

Definition service_console : console host :=
  {| sys := demo_host demo_files demo_dirs; shown := [] |}.

(** A unit in an odd state. *)
Definition status_console : console host :=
  {| sys := {| h_os := demo_os {[unitPath := File 420 []]} []; h_dirs := demo_dirs;
               h_eval := h_eval (demo_host demo_files demo_dirs); h_home := None; h_euid := 0;
               h_exec := λ _ _, {| x_stdout := "MainPID=77" +:+ eol +:+ "ActiveState=reloading" +:+ eol
                                               +:+ "SubState=<" +:+ quoted "é";
                                   x_stderr := ""; x_end := Exited 0 |};
               h_log := [] |};
     shown := [] |}.

Lemma status_json_reads_back_witness :
  ∃ text, shown (with_manager (svc_status true) status_console).2 = [Text ToStdout text]
    ∧ j_PID <$> read_jsonStatus text = Some 77
    ∧ j_State <$> read_jsonStatus text = Some ("reloading (<" +:+ quoted "é" +:+ ")")%string.
Proof.
  set (m := match resolveManagerWithPort with
            | Ok (m, _) => m | Err _ => newSystemdManager (svc_config None) end).
  assert (resolveManagerWithPort = Ok (m, 7822)) as Em by reflexivity.
  assert (int64_range 7822) as Hr by (split; vm_compute; discriminate).
  pose proof (status_json_reads_back m 7822 status_console Em Hr) as H.
  assert (StatusOf m (sys status_console) =
          ({| Installed := true; Active := false; PID := 77; EUID := 0;
              State := "reloading (<" +:+ quoted "é" +:+ ")" |}, (StatusOf m (sys status_console)).2)) as Es.
  { apply injective_projections; [vm_compute; reflexivity|reflexivity]. }
  rewrite Es in H. destruct (H ltac:(reflexivity)) as (text & js & Hrun & Ht & _ & _ & Hpid & _ & Hstate & _).
  exists text. rewrite Hrun, Ht. split; [reflexivity|].
  split; [exact (f_equal Some Hpid)|exact (f_equal Some Hstate)].
Defined.

Lemma purge_needs_both_flags_witness :
  (runServiceUninstall true false service_console).1 = Err ENoYes
  ∧ sys (runServiceUninstall true false service_console).2 = sys service_console.
Proof.
  pose proof (purge_needs_both_flags true false service_console eq_refl) as (_ & _ & _ & H).
  destruct (H eq_refl) as (H1 & H2 & _). split; [exact H2|exact H1].
Defined.

Lemma purge_ends_every_key_witness :
  let c' := (runServiceUninstall true true service_console).2 in
  (runServiceUninstall true true service_console).1 = Ok tt
  ∧ ∀ rec, (Verify demo_key {| p_store := {| path := "/var/lib/raxd/keys.db"; usageBuf := ∅ |};
                               p_os := h_os (sys c') |}).1 ≠ Ok (Some rec).
Proof.
  intros c'. assert ((runServiceUninstall true true service_console).1 = Ok tt) as Hr
    by (vm_compute; reflexivity).
  split; [exact Hr|].
  exact (purge_ends_every_key service_console Hr "/var/lib/raxd/keys.db" demo_key ∅ eq_refl).
Defined.
