(* ===== verification/CliServe.v ===== *)
(** * CliServe: [internal/cli/serve.go], the command that runs the daemon.

    [raxd serve] puts the parts together: the paths and the configuration, the
    key store, the tools with their limits, the server with its certificate; it
    prints the start block once the port is bound, and what ended the run. *)

From S2P Require Import Prelude GoText GoEncoding GoCrypto GoPath GoOs GoFs Config Keystore ServerAudit ServerTLS Server CmdExec FileUpload Mcp ServerRun Daemon.
From S2P Require Import ServiceTemplates Service ServiceSystemd ServiceLaunchd CliOutput CliKey CliService.
Open Scope Z_scope.
Open Scope go_scope.
#[local] Existing Instance daemon_app.

Inductive serve_error :=
| SPaths (e : cerr)
| SKey (e : kerr)
| SUploadRoot (e : oserr)
| SMode (e : uerr)
| STls (e : tlserr)
| SRun (e : runerr).

Definition tlserr_msg (e : tlserr) : string :=
  match e with
  | ErrTLSCert => "TLS certificate or key is corrupted or unreadable"
  | ErrGenerate => "failed to generate TLS certificate"
  end.

(** The error of [server.New]: [ErrTLSCert] and the cause, both wrapped. *)
Definition new_error_chain (e : tlserr) : list tlserr := [ErrTLSCert; e].
Definition new_error_msg (e : tlserr) : string := tlserr_msg ErrTLSCert +:+ ": " +:+ tlserr_msg e.

Definition runerr_msg (e : runerr) : string :=
  match e with
  | ErrPortInUse addr => "address already in use: " +:+ addr
  | ErrServe m => m
  end.

(** [errors.Is err ErrTLSCert] and [errors.Is err ErrPortInUse]. *)
Definition is_tls_cert (chain : list tlserr) : bool :=
  existsb (λ e, match e with ErrTLSCert => true | _ => false end) chain.
Definition is_port_in_use (e : runerr) : bool := match e with ErrPortInUse _ => true | _ => false end.

Section serve.
Context `{RL : RateLimiter} `{JC : JsonCodec} `{GT : GoTables} `{TC : TlsCrypto} `{SDK : McpSdk}.
Context `{E : Environment float64}.
Variable build : BuildInfo.

(** The disk of the uploads and the directories, and the system below the key
    store. *)
Definition on_tree {A} (m : M fsys A) : M world A :=
  zoom (λ w, d_fs (w_app w))
    (λ f w, {| w_proc := w_proc w; w_limiters := w_limiters w; w_audit := w_audit w;
               w_writer := w_writer w;
               w_app := {| d_euid := d_euid (w_app w); d_ctx_end := d_ctx_end (w_app w);
                           d_timeouts := d_timeouts (w_app w); d_machine := d_machine (w_app w);
                           d_fs := f |} |}) m.

Definition set_store (st : Store) : M world unit :=
  modify (λ w, {| w_proc := {| p_store := st; p_os := p_os (w_proc w) |}; w_limiters := w_limiters w;
                  w_audit := w_audit w; w_writer := w_writer w; w_app := w_app w |}).

(** ** The configuration of the tools *)

Definition exec_config (cfg : Config.Config (float64:=float64)) : CmdExec.Config :=
  let x := Config.Exec cfg in
  {| Allowlist := e_Allowlist x; DefaultTimeoutMs := e_DefaultTimeoutMs x;
     MaxTimeoutMs := e_MaxTimeoutMs x; DefaultCwd := e_DefaultCwd x;
     EnvWhitelist := e_EnvWhitelist x; MaxArgs := e_MaxArgs x; MaxArgLen := e_MaxArgLen x;
     MaxOutputBytes := e_MaxOutputBytes x; DenyRoot := e_DenyRoot x |}.

Definition upload_root (cfg : Config.Config (float64:=float64)) (paths : PathSet) : string :=
  let root := u_Root (Config.Upload cfg) in
  if String.eqb root "" then path_join [Config.StateDir paths; "uploads"%string] else root.

Definition upload_config (cfg : Config.Config (float64:=float64)) (root : string) (mode : Z) : FileUpload.Config :=
  let u := Config.Upload cfg in
  {| UploadRoot := comps root; FileUpload.MaxFileBytes := u_MaxFileBytes u;
     MaxTotalBytes := u_MaxTotalBytes u; DefaultMode := mode; u_DenyRoot := up_DenyRoot u |}.

(** ** Output *)

Definition start_rows (ci : CertInfo) (cfg : Config.Config (float64:=float64)) : list string :=
  let status := if Generated ci then "generated"%string else "loaded"%string in
  ["  cert      " +:+ status +:+ "  " +:+ CertPath ci;
   "  key       " +:+ status +:+ "  " +:+ KeyPath ci +:+ (if Generated ci then "  (0600)" else "");
   "  tls       TLS 1.3 only"%string;
   "  listening https://" +:+ BindAddr cfg +:+ ":" +:+ fmt_d (Config.Port cfg)].

Definition no_keys_rows : list string :=
  ["  warning   no API keys found — all connections will be rejected"%string;
   "  hint      create a key with " +:+ quoted "raxd key create --name <label>"].

(** The hook of [SetOnListen]. *)
Definition onListen_rows (ci : CertInfo) (cfg : Config.Config (float64:=float64)) (noKeys : bool) : list string :=
  start_rows ci cfg ++ (if noKeys then no_keys_rows else []) ++ ["  press Ctrl+C to stop"; ""]%string.

Definition stop_rows : list string :=
  ["  shutting down  signal received"; "  draining       waiting for active connections to finish";
   "  flushing       usage data flushed"; "  stopped"; ""]%string.

Definition start_error_rows (e : tlserr) (paths : PathSet) : list string :=
  if is_tls_cert (new_error_chain e) || contains_sub (new_error_msg e) "TLS certificate" then
    ["error: TLS certificate or key is corrupted or unreadable"%string;
     "  hint: remove the files in " +:+ Config.TLSDir paths +:+ " and run " +:+ quoted "raxd serve" +:+
       " again to regenerate"]
  else
    ["error: failed to generate TLS certificate"%string;
     "  hint: check available disk space and write permissions for " +:+ Config.TLSDir paths].

Definition run_error_rows (e : runerr) (cfg : Config.Config (float64:=float64)) : list string :=
  if is_port_in_use e || contains_sub (runerr_msg e) "address already in use" then
    let port := fmt_d (Config.Port cfg) in
    ["error: cannot bind to " +:+ BindAddr cfg +:+ ":" +:+ port +:+ ": address already in use";
     "  hint: check what is using port " +:+ port +:+ " with " +:+ quoted ("lsof -i :" +:+ port) +:+
       " and stop it, or change the port with " +:+ quoted "raxd config port <PORT>"]
  else ["error: " +:+ runerr_msg e].

(** What a run shows: the hook's rows at its place, and the logger's warnings.
    The audit lines are the audit log of the world. *)
Definition event_out (block : list string) (e : sevent) : list out :=
  match e with
  | OnListen _ => map (λ s, Text ToStderr (s +:+ eol)) block
  | LogWarn m err => [LogError ToStderr m err]
  | _ => []
  end.

Definition is_listening (e : sevent) : bool := match e with OnListen _ => true | _ => false end.

(** [srv.Run] with the hook set and none for the tests; also whether the hook was
    called. *)
Definition run_server (srv : ServerT) (env : surroundings) (ts : list traffic) (block : list string) :
    M (console world) (result runerr unit * bool) := λ c,
  let env := {| listen_result := listen_result env; on_listen_set := true; hook_set := false;
                serve_ends := serve_ends env; shutdown_error := shutdown_error env |} in
  let (r, s) := Run srv env ts {| sv_world := sys c; sv_events := [] |} in
  ((r, existsb is_listening (sv_events s)),
   {| sys := sv_world s; shown := shown c ++ concat (map (event_out block) (sv_events s)) |}).

(** ** [runServe] *)

(** Writing some rows and returning an error. *)
Definition fail_serve (rows : list string) (e : serve_error) : M (console world) (result serve_error unit) :=
  do! lines ToStderr rows in ret (Err e).

(** From the moment the server exists. *)
Definition serve_run (cfg : Config.Config (float64:=float64)) (srv : ServerT) (env : surroundings)
    (ts : list traffic) : M (console world) (result serve_error unit) :=
  let! keys := on_sys (on_proc List) in
  let noKeys := match keys with Ok [] => true | _ => false end in
  let! r := run_server srv env ts (onListen_rows (certInfo srv) cfg noKeys) in
  match r with
  | (Err e, _) => fail_serve (run_error_rows e cfg) (SRun e)
  | (Ok _, started) => do! lines ToStderr (if started then stop_rows else []) in ret (Ok tt)
  end.

(** From the moment the key store is open. *)
Definition serve_open (cfg : Config.Config (float64:=float64)) (paths : PathSet) (env : surroundings)
    (ts : list traffic) : M (console world) (result serve_error unit) :=
  let root := upload_root cfg paths in
  let! r := on_sys (on_tree (os_mkdirall root 448)) in
  match r with
  | Err e => fail_serve ["error: cannot create upload root directory: " +:+ oserr_msg e] (SUploadRoot e)
  | Ok _ =>
      match ParseMode (u_DefaultMode (Config.Upload cfg)) with
      | Err e => fail_serve ["error: invalid upload.default_mode: " +:+ uerr_text e] (SMode e)
      | Ok mode =>
          let mcpH := mcpHandler (bi_Version build) (exec_config cfg) (upload_config cfg root mode) in
          let! srv := on_sys (ServerRun.New cfg paths (Some mcpH)) in
          match srv with
          | Err e => fail_serve (start_error_rows e paths) (STls e)
          | Ok srv => serve_run cfg srv env ts
          end
      end
  end.

Definition runServe (env : surroundings) (ts : list traffic) : M (console world) (result serve_error unit) :=
  match Paths getenv with
  | Err e => fail_serve ["error: " +:+ cerr_msg e] (SPaths e)
  | Ok paths =>
      let! d := on_sys (on_tree (EnsureDirs paths)) in
      match d with
      | Err e =>
          fail_serve ["error: cannot create TLS directory: permission denied";
                      "  hint: check that the current user has write access to ~/.local/state/raxd/"]%string
            (SPaths e)
      | Ok _ =>
          match load_config paths with
          | Err e =>
              fail_serve ["error: " +:+ cerr_msg e;
                          "  hint: set a valid address in config.yaml (field: bind_addr), for example " +:+
                            quoted "127.0.0.1" +:+ " or " +:+ quoted "0.0.0.0"] (SPaths e)
          | Ok cfg =>
              let! st := on_sys (on_proc (on_os (Open (Config.KeysDB paths)))) in
              match st with
              | Err e =>
                  fail_serve ["error: key store is corrupted or unreadable"%string;
                              "  hint: check file permissions on the keys.db path shown in " +:+
                                quoted "raxd status";
                              "  hint: do not attempt to repair the file manually — contact support if data recovery is needed"%string]
                    (SKey e)
              | Ok store =>
                  do! on_sys (set_store store) in
                  serve_open cfg paths env ts
              end
          end
      end
  end.
End serve.
