(* ===== verification/CliServeTheorems.v ===== *)
(** * CliServeTheorems: what [raxd serve] guarantees.

    The start block is printed exactly when the port is bound; every command of a
    request that was answered is in the audit log; the check of the default mode in the command
    is never reached with a bad mode. *)

From S2P Require Import Prelude GoText GoEncoding GoCrypto GoPath GoOs GoFs Config Keystore KeystoreProofs KeystoreCodec KeystoreTheorems ServerAudit ServerTLS ServerTLSTheorems Server ServerTheorems CmdExec FileUpload FileUploadTheorems Mcp McpTheorems ServerRun ServerRunTheorems Daemon DaemonTheorems.
From S2P Require Import ServiceTemplates Service ServiceSystemd ServiceLaunchd CliOutput CliKey CliProofs CliKeyTheorems CliService CliServe.
Open Scope Z_scope.
Open Scope go_scope.
#[local] Existing Instance daemon_app.

Section serve.
Context `{RL : RateLimiter} `{JC : JsonCodec} `{GT : GoTables} `{TC : TlsCrypto} `{SDK : McpSdk}.
Context `{E : Environment float64}.
Variable build : BuildInfo.

(** ** The books: commands started and commands logged *)

(** The machine of the commands and the audit log are as before. *)
Definition same_books (w w' : world) : Prop :=
  d_machine (w_app w') = d_machine (w_app w) ∧ w_audit w' = w_audit w.

Lemma same_books_accounted w w' : same_books w w' → accounted w w'.
Proof. intros [H1 H2]. unfold accounted. by rewrite H1, H2. Qed.

Lemma accounted_refl w : accounted w w.
Proof. by apply same_books_accounted. Qed.

Definition accounts {A} (m : M (console world) A) : Prop := ∀ c, accounted (sys c) (sys (m c).2).

Lemma accounts_ret {A} (a : A) : accounts (ret a).
Proof. intros c. apply accounted_refl. Qed.

Lemma accounts_bind {A B} (m : M (console world) A) (k : A → M (console world) B) :
  accounts m → (∀ a, accounts (k a)) → accounts (bind m k).
Proof.
  intros Hm Hk c. unfold bind. specialize (Hm c). destruct (m c) as [a c1].
  eapply accounted_trans; [exact Hm|apply Hk].
Qed.

Lemma accounts_lines to ss : accounts (lines to ss).
Proof. intros c. rewrite lines_run. apply accounted_refl. Qed.

Lemma accounts_fail rows e : accounts (fail_serve rows e).
Proof. apply accounts_bind; [apply accounts_lines|]. intros _. apply accounts_ret. Qed.

Lemma accounts_sys {A} (m : M world A) : (∀ w, same_books w (m w).2) → accounts (on_sys m).
Proof.
  intros Hm c. unfold on_sys, zoom. specialize (Hm (sys c)). destruct (m (sys c)).
  by apply same_books_accounted.
Qed.

Lemma books_on_tree {A} (m : M fsys A) w : same_books w (on_tree m w).2.
Proof. unfold on_tree, zoom. by destruct (m _). Qed.

Lemma books_on_proc {A} (m : M proc A) w : same_books w (on_proc m w).2.
Proof. unfold on_proc, zoom. by destruct (m _). Qed.

Lemma New_spec cfg paths mh w :
  wp (ServerRun.New cfg paths mh) (λ r w', same_books w w' ∧ ∀ srv, r = Ok srv →
    Handler srv = chain (Config.HostAllow cfg) (Config.OriginAllow cfg) (Config.MaxBodyBytes cfg) (mux mh)) w.
Proof.
  unfold ServerRun.New, wp, bind. pose proof (books_on_proc (on_os (loadOrCreateCert (Config.TLSDir paths))) w) as H.
  destruct (on_proc _ w) as [[cr|e] w1]; [|by split].
  split; [exact H|]. by intros srv [= <-].
Qed.

Lemma wp_on_world {A} (m : M world A) Q st :
  wp m (λ a w, Q a {| sv_world := w; sv_events := sv_events st |}) (sv_world st) → wp (on_world m) Q st.
Proof. unfold wp, on_world, zoom. by destruct (m _). Qed.

Lemma shut_down_books env st :
  wp (shut_down env) (λ _ st', same_books (sv_world st) (sv_world st')) st.
Proof.
  unfold shut_down. apply wp_bind, wp_modify, wp_bind.
  apply (wp_mono _ (λ _ st1, sv_world st1 = sv_world st)); [by destruct (shutdown_error env)|].
  intros [] st1 H1. apply wp_bind.
  apply (wp_mono _ (λ _ st2, sv_world st2 = sv_world st)); [by destruct (hook_set env)|].
  intros [] st2 H2. apply wp_bind, wp_modify, wp_bind, wp_on_world. simpl. rewrite H2.
  pose proof (books_on_proc FlushUsage (sv_world st)) as Hf. unfold wp at 1.
  destruct (on_proc FlushUsage (sv_world st)) as [[] w3]; apply wp_bind; exact Hf.
Qed.

(** A run of the server with the daemon's handler. *)
Lemma Run_accounted ver execCfg uplCfg hostAllow originAllow maxBody s env ts st :
  Handler s = daemon_handler ver execCfg uplCfg hostAllow originAllow maxBody →
  wp (Run s env ts) (λ _ st', accounted (sv_world st) (sv_world st')) st.
Proof.
  intros Hh. unfold Run. apply wp_bind, wp_modify, wp_bind, wp_modify.
  destruct (listen_result env) as [addr|msg];
    [|destruct (isAddrInUse _); apply wp_ret, accounted_refl].
  apply wp_bind. apply (wp_mono _ (λ _ st1, sv_world st1 = sv_world st)); [by destruct (on_listen_set env)|].
  intros [] st1 H1. apply wp_bind, wp_modify, wp_bind, wp_on_world. simpl. rewrite Hh, H1.
  pose proof (serve_all_accounted ver execCfg uplCfg hostAllow originAllow maxBody ts (sv_world st)) as H.
  unfold wp at 1. destruct (serve_all _ ts (sv_world st)) as [[] w2]. cbn [fst snd] in *.
  destruct (serve_ends env) as [[] msg|]; [by apply wp_ret..|].
  eapply wp_mono; [apply shut_down_books|]. intros r st' Hb.
  eapply accounted_trans; [exact H|by apply same_books_accounted].
Qed.

(** ** The whole command *)

Lemma serve_run_accounts cfg srv env ts execCfg uplCfg :
  Handler srv = daemon_handler (bi_Version build) execCfg uplCfg (Config.HostAllow cfg)
                  (Config.OriginAllow cfg) (Config.MaxBodyBytes cfg) →
  accounts (serve_run cfg srv env ts).
Proof.
  intros Hh. apply accounts_bind; [apply accounts_sys, books_on_proc|]. intros keys. cbv zeta.
  apply accounts_bind.
  - intros c. unfold run_server. match goal with |- context [Run srv ?e ts ?st] =>
      pose proof (Run_accounted _ _ _ _ _ _ srv e ts st Hh) as H; unfold wp in H;
      destruct (Run srv e ts st) as [r s] end. exact H.
  - intros [[[]|e] started]; [|apply accounts_fail].
    apply accounts_bind; [apply accounts_lines|]. intros _. apply accounts_ret.
Qed.

Lemma serve_open_accounts cfg paths env ts :
  accounts (serve_open build cfg paths env ts).
Proof.
  unfold serve_open. cbv zeta.
  apply accounts_bind; [apply accounts_sys, books_on_tree|].
  intros [_|e]; [|apply accounts_fail]. destruct (ParseMode _) as [mode|e]; [|apply accounts_fail].
  set (mcpH := mcpHandler _ _ _). intros c. unfold bind, on_sys, zoom.
  pose proof (New_spec cfg paths (Some mcpH) (sys c)) as [Hb Hh].
  destruct (ServerRun.New cfg paths (Some mcpH) (sys c)) as [[srv|e] w1]; cbn [fst snd] in *.
  - eapply accounted_trans; [by apply same_books_accounted|].
    by eapply (serve_run_accounts cfg srv env ts), Hh.
  - eapply accounted_trans; [by apply same_books_accounted|]. apply accounts_fail.
Qed.

(** A run of [raxd serve] whose requests are all answered, from the start of the
    process to its end, starts exactly as many commands on the machine as it
    writes records of a successful [execute_command] to the audit log: whether
    the server comes up or not.  (DaemonRun has the runs that end with requests
    under way.) *)
Theorem serve_accounts_for_every_command env ts c :
  wp (runServe build env ts) (λ _ c',
    (started (d_machine (w_app (sys c'))) + logged_runs (w_audit (sys c)) =
     started (d_machine (w_app (sys c))) + logged_runs (w_audit (sys c')))%nat) c.
Proof.
  assert (accounts (runServe build env ts)) as H; [|apply (H c)]. unfold runServe.
  destruct (Paths getenv) as [paths|e]; [|apply accounts_fail].
  apply accounts_bind; [apply accounts_sys, books_on_tree|].
  intros [_|e]; [|apply accounts_fail].
  destruct (load_config paths) as [cfg|e] eqn:El; [|apply accounts_fail].
  apply accounts_bind; [apply accounts_sys, books_on_proc|].
  intros [store|e]; [|apply accounts_fail].
  apply accounts_bind; [by apply accounts_sys|]. intros _.
  by apply serve_open_accounts.
Qed.
End serve.

(** ** What is shown *)

Section shown.
Context `{RL : RateLimiter} `{JC : JsonCodec} `{GT : GoTables} `{TC : TlsCrypto} `{SDK : McpSdk}.
Context `{E : Environment float64}.
Variable build : BuildInfo.

Definition is_warning (o : out) : Prop := match o with LogError ToStderr _ _ => True | _ => False end.

(** The events a piece of [Run] adds show [head] and then warnings only. *)
Definition shows {A} (block : list string) (head : list out) (listening : bool)
    (st : srv) (_ : A) (st' : srv) : Prop :=
  ∃ evs warns, sv_events st' = sv_events st ++ evs
    ∧ concat (map (event_out block) evs) = head ++ warns ∧ Forall is_warning warns
    ∧ existsb is_listening evs = listening.

Lemma shows_nil {A} block st (a : A) : shows block [] false st a st.
Proof. exists [], []. by rewrite app_nil_r. Qed.

Lemma shows_trans {A B} block head b1 b2 st1 st2 st3 (a : A) (b : B) :
  shows block head b1 st1 a st2 → shows block [] b2 st2 b st3 → shows block head (b1 || b2) st1 b st3.
Proof.
  intros (e1 & w1 & H1 & C1 & F1 & L1) (e2 & w2 & H2 & C2 & F2 & L2).
  exists (e1 ++ e2), (w1 ++ w2). simpl in C2. rewrite H2, H1, map_app, concat_app, C1, C2, existsb_app, L1, L2.
  rewrite !app_assoc. do 2 (split; [done|]). split; [by apply Forall_app|done].
Qed.

Lemma shows_event block e st :
  Forall is_warning (event_out block e) → is_listening e = false →
  wp (event e) (λ a, shows block [] false st a) st.
Proof.
  intros Hw Hl. exists [e], (event_out block e). simpl. rewrite app_nil_r, Hl. by split_and!.
Qed.

Lemma wp_shows {A B} (m : M srv A) (k : A → M srv B) block head b1 b2 st :
  wp m (λ a, shows block head b1 st a) st →
  (∀ a st1, wp (k a) (λ b, shows block [] b2 st1 b) st1) →
  wp (bind m k) (λ b, shows block head (b1 || b2) st b) st.
Proof.
  intros Hm Hk. apply wp_bind. eapply wp_mono; [exact Hm|]. intros a st1 H1.
  eapply wp_mono; [apply Hk|]. intros b st2 H2. by eapply shows_trans.
Qed.

Lemma shows_on_world {A} block (m : M world A) st : wp (on_world m) (λ a, shows block [] false st a) st.
Proof.
  unfold wp, on_world, zoom. destruct (m (sv_world st)). exists [], []. simpl. by rewrite app_nil_r.
Qed.

Lemma shows_ret {A} block (a : A) st : wp (ret a) (λ a, shows block [] false st a) st.
Proof. apply wp_ret, shows_nil. Qed.

Lemma shut_down_shows block env st : wp (shut_down env) (λ r, shows block [] false st r) st.
Proof.
  unfold shut_down. apply (wp_shows _ _ _ _ false false); [by apply shows_event|]. intros _ st1.
  apply (wp_shows _ _ _ _ false false).
  { destruct (shutdown_error env); [by apply shows_event; [constructor|]|apply shows_ret]. }
  intros _ st2. apply (wp_shows _ _ _ _ false false).
  { destruct (hook_set env); [by apply shows_event|apply shows_ret]. }
  intros _ st3. apply (wp_shows _ _ _ _ false false); [by apply shows_event|]. intros _ st4.
  apply (wp_shows _ _ _ _ false false); [apply shows_on_world|]. intros r st5.
  apply (wp_shows _ _ _ _ false false).
  { destruct r; [apply shows_ret|by apply shows_event; [constructor|]]. }
  intros _ st6. apply shows_ret.
Qed.

Lemma shows_skip {B} block head l e (k : M srv B) st :
  event_out block e = [] → is_listening e = false →
  (∀ st1, wp k (λ b, shows block head l st1 b) st1) →
  wp (do! event e in k) (λ b, shows block head l st b) st.
Proof.
  intros He Hl Hk. apply wp_bind, wp_modify. eapply wp_mono; [apply Hk|].
  intros b st' (evs & warns & H1 & H2 & H3 & H4). exists (e :: evs), warns. simpl in H1 |- *.
  by rewrite H1, He, Hl, <-app_assoc.
Qed.

(** What a run shows, with the hook set. *)
Definition bound_out (block : list string) (env : surroundings) : list out :=
  match listen_result env with Ok _ => texts ToStderr block | Err _ => [] end.

Lemma Run_shows block s env ts st :
  on_listen_set env = true →
  wp (Run s env ts) (λ r st', shows block (bound_out block env) (is_ok (listen_result env)) st r st'
    ∧ (is_ok (listen_result env) = false → is_ok r = false)) st.
Proof.
  intros Hs. apply wp_and.
  2: { apply wp_intro. unfold Run. unfold bind, event, modify. destruct (listen_result env); [done|].
       intros r st' Hrun _. unfold ret in Hrun. case_match; by simplify_eq. }
  unfold Run, bound_out. rewrite Hs. apply shows_skip; [done..|]. intros st1.
  apply shows_skip; [done..|]. intros st2. destruct (listen_result env) as [addr|msg].
  2: { destruct (isAddrInUse _); apply shows_ret. }
  apply (wp_shows _ _ _ _ true false).
  { exists [OnListen addr], []. simpl. by rewrite !app_nil_r. }
  intros _ st3. apply (wp_shows _ _ _ _ false false); [by apply shows_event|]. intros _ st4.
  apply (wp_shows _ _ _ _ false false); [apply shows_on_world|]. intros _ st5.
  destruct (serve_ends env) as [[] msg|]; [apply shows_ret|apply shows_ret|apply shut_down_shows].
Qed.

(** The start block is printed when the port is bound, and only then.  A run
    whose port cannot be bound prints the error and nothing else; otherwise the
    block comes first, with the certificate, the address and, exactly if the key
    store was read and has no active key, the warning; then warnings of the
    shutdown, and at the end the shutdown block, or the error the server ended
    with. *)
Theorem serve_announces_when_bound cfg srv env ts c db :
  store_db (w_proc (sys c)) = Some db →
  wp (serve_run cfg srv env ts) (λ r c', ∃ noKeys warns,
    (noKeys = true → ∀ d, d ∈ Keys db → d_Revoked d = true)
    ∧ Forall is_warning warns
    ∧ (is_ok (listen_result env) = false → is_ok r = false)
    ∧ shown c' = shown c
        ++ bound_out (onListen_rows (certInfo srv) cfg noKeys) env ++ warns
        ++ (match r with
            | Ok _ => texts ToStderr stop_rows
            | Err (SRun e) => texts ToStderr (run_error_rows e cfg)
            | Err _ => []
            end)) c.
Proof.
  intros Hdb. apply wp_bind, wp_on_sys. unfold wp at 1. unfold on_proc, zoom.
  pose proof (List_spec (w_proc (sys c)) db Hdb) as (_ & _ & Hl).
  destruct (List (w_proc (sys c))) as [keys p1]. cbn [fst snd] in *.
  set (noKeys := match keys with Ok [] => true | _ => false end).
  set (c1 := with_sys _ c). set (rows := onListen_rows (certInfo srv) cfg noKeys).
  assert (noKeys = true → ∀ d, d ∈ Keys db → d_Revoked d = true) as Hno.
  { unfold noKeys. destruct keys as [[|]|]; [|done..]. intros _ d Hd.
    symmetry in Hl. apply map_eq_nil in Hl. destruct (d_Revoked d) eqn:Er; [done|].
    assert (In d (List.filter (λ d, negb (d_Revoked d)) (Keys db))) as Hin
      by (apply filter_In; rewrite Er; split; [by apply list_elem_of_In|done]).
    by rewrite Hl in Hin. }
  apply wp_bind. unfold run_server at 1. unfold wp at 1.
  match goal with |- context [Run srv ?e ts ?st] =>
    pose proof (Run_shows rows srv e ts st eq_refl) as [(evs & warns & He & Ho & Hw & Hli) Hf];
    destruct (Run srv e ts st) as [r s] end.
  cbn [fst snd sv_events listen_result] in *. simpl in He. rewrite He, Ho, Hli.
  change (bound_out rows _) with (bound_out rows env).
  exists noKeys, warns. destruct r as [[]|e]; unfold fail_serve, bind; rewrite lines_run;
    (split; [done|]); (split; [done|]); cbn [fst snd sys shown say ret].
  - destruct (listen_result env); [|by specialize (Hf eq_refl)]. split; [done|].
    simpl. by rewrite <-!app_assoc.
  - split; [done|]. simpl. by rewrite <-!app_assoc.
Qed.

(** *** Failures are explained *)

Lemma calm_run_server srv env ts block :
  Forall (λ s, complains (Text ToStderr (s +:+ eol)) = false) block → calm (run_server srv env ts block).
Proof.
  intros Hb c. unfold wp, run_server. destruct (Run _ _ _ _) as [r s]. eexists. split; [reflexivity|].
  apply texts_calm in Hb. induction (sv_events s) as [|e evs IH]; [done|].
  simpl. rewrite existsb_app, IH, orb_false_r. by destruct e.
Qed.

Lemma honest_fail_serve s ss e :
  complains (Text ToStderr (s +:+ eol)) = true → honest (fail_serve (s :: ss) e).
Proof. intros H. by apply reports_first. Qed.

Lemma run_error_honest e cfg : honest (fail_serve (run_error_rows e cfg) (SRun e)).
Proof. unfold run_error_rows. destruct (_ || _); apply honest_fail_serve; [done|apply error_complains]. Qed.

Lemma start_error_honest e paths : honest (fail_serve (start_error_rows e paths) (STls e)).
Proof. unfold start_error_rows. destruct (_ || _); by apply honest_fail_serve. Qed.

#[local] Hint Resolve run_error_honest start_error_honest : go.
#[local] Hint Extern 2 (honest (fail_serve (_ :: _) _)) =>
  apply honest_fail_serve; first [reflexivity|apply error_complains] : go.

Lemma honest_serve_run cfg srv env ts : honest (serve_run cfg srv env ts).
Proof.
  unfold serve_run. apply reports_bind; [auto with go|]. intros keys. apply reports_bind.
  - apply calm_run_server. unfold onListen_rows, start_rows, no_keys_rows. calm_list.
  - intros [[[]|e] started]; [|auto with go]. apply reports_bind; [|auto with go].
    apply calm_lines. destruct started; unfold stop_rows; calm_list.
Qed.
#[local] Hint Resolve honest_serve_run : go.

Lemma honest_serve env ts : honest (runServe build env ts).
Proof. unfold runServe, serve_open. honest_walk. Qed.
End shown.

(** ** The default mode *)

Section mode.
Context `{RL : RateLimiter} `{JC : JsonCodec} `{GT : GoTables} `{TC : TlsCrypto} `{SDK : McpSdk}.
Context `{E : Environment float64} (Hc : cast_laws conversions).
Variable build : BuildInfo.

(** A configuration that loads never fails later: [raxd serve] does not end
    with the error about the default mode, which it parses a second time, with
    another function. *)
Theorem serve_mode_never_fails env ts c e :
  (runServe build env ts c).1 ≠ Err (SMode e).
Proof.
  unfold runServe, fail_serve. destruct (Paths getenv) as [paths|]; [|unfold bind; by rewrite lines_run].
  unfold bind at 1. destruct (on_sys _ c) as [[|] c1]; [|unfold bind; by rewrite lines_run].
  destruct (load_config paths) as [cfg|] eqn:El; [|unfold bind; by rewrite lines_run].
  destruct (Load_mode _ _ _ Hc _ _ El) as [m Hm].
  unfold bind at 1. destruct (on_sys _ c1) as [[|] c2]; [|unfold bind; by rewrite lines_run].
  unfold bind at 1. destruct (on_sys _ c2) as [? c3].
  unfold serve_open. cbv zeta.
  unfold bind at 1. destruct (on_sys _ c3) as [[|] c4]; [|unfold fail_serve, bind; by rewrite lines_run].
  rewrite Hm. unfold bind at 1.
  destruct (on_sys _ c4) as [[srv|] c5]; [|unfold fail_serve, bind; by rewrite lines_run].
  unfold serve_run. unfold bind at 1. destruct (on_sys _ c5) as [keys c6].
  unfold bind at 1. destruct (run_server _ _ _ _ _) as [[[[]|] ?] c7]; unfold fail_serve, bind;
    by rewrite lines_run.
Qed.
End mode.

(** A certificate that cannot be generated is reported as a corrupt one, with the
    advice to delete the files: [server.New] wraps every cause in [ErrTLSCert]. *)
Theorem generation_failure_reported_as_corruption paths :
  start_error_rows ErrGenerate paths = start_error_rows ErrTLSCert paths.
Proof. reflexivity. Qed.

(** ** Instances: a daemon that allows [echo], and one request that runs it *)

Definition demo_serve_env : Environment Z := {|
  f64_of_Z := id;
  ParseDuration := demo_duration;
  conversions := demo_casts;
  getenv := demo_env;
  GOOS := "linux";
  Executable := Ok "/usr/local/bin/raxd"%string;
  read_config _ := Values {[ "exec.allowlist"%string := Config.VStrings ["echo"%string] ]};
|}.

Definition serve_proc : proc :=
  {| p_store := {| path := ""; usageBuf := ∅ |}; p_os := demo_os {[demo_keys := demo_file]} [] |}.
Definition serve_console : console world := {| sys := demo_daemon_world serve_proc; shown := [] |}.

Definition demo_serve (ts : list traffic) : result serve_error unit * console world :=
  runServe (RL:=int_limiter) (E:=demo_serve_env) build_defaults demo_surroundings ts serve_console.

Lemma serve_accounts_for_every_command_witness :
  started (d_machine (w_app (sys (demo_serve [Req exec_request]).2))) = 1%nat
  ∧ logged_runs (w_audit (sys (demo_serve [Req exec_request]).2)) = 1%nat.
Proof.
  assert (started (d_machine (w_app (sys (demo_serve [Req exec_request]).2))) = 1%nat) as Hs
    by (vm_compute; reflexivity).
  split; [exact Hs|].
  pose proof (serve_accounts_for_every_command (RL:=int_limiter) (E:=demo_serve_env) build_defaults
    demo_surroundings [Req exec_request] serve_console) as H.
  unfold wp in H. change (runServe _ _ _ _) with (demo_serve [Req exec_request]) in H.
  rewrite Hs in H. simpl in H. symmetry. exact H.
Defined.

Lemma serve_mode_never_fails_witness :
  (demo_serve []).1 = Ok tt ∧ ∀ e, (demo_serve []).1 ≠ Err (SMode e).
Proof.
  split; [vm_compute; reflexivity|]. intros e.
  exact (serve_mode_never_fails (RL:=int_limiter) (E:=demo_serve_env) demo_cast_laws build_defaults
    demo_surroundings [] serve_console e).
Defined.

(** A server with the revoked and the active demo key: no warning. *)
Definition run_console : console world := {| sys := demo_daemon_world (demo_proc []); shown := [] |}.
Definition plain_config : Config.Config (float64:=Z) :=
  Eval vm_compute in match load_config (E:=demo_serve_env) demo_user_paths with
                     | Ok cfg => cfg | Err _ => cfg_v6 end.
Definition plain_server : ServerT (RL:=int_limiter) :=
  {| Addr := "127.0.0.1:7822"; Handler := demo_daemon; ServerRun.ReadTimeout := 30;
     ServerRun.ReadHeaderTimeout := 10; ServerRun.WriteTimeout := 30; ServerRun.IdleTimeout := 120;
     ServerRun.MaxHeaderBytes := 1048576; sv_tls := buildTLSConfig ([], []);
     certInfo := {| CertPath := "/tls/cert.pem"; KeyPath := "/tls/key.pem"; Generated := false |} |}.
Definition unbound : surroundings :=
  {| listen_result := Err "bind: address already in use"%string; on_listen_set := true; hook_set := false;
     serve_ends := CtxDone; shutdown_error := None |}.

Lemma serve_announces_when_bound_witness :
  ∃ warns, shown (serve_run plain_config plain_server unbound [] run_console).2
           = warns ++ texts ToStderr (run_error_rows (ErrPortInUse "127.0.0.1:7822") plain_config).
Proof.
  pose proof (serve_announces_when_bound plain_config plain_server unbound [] run_console demo_db
    (demo_store [])) as H.
  unfold wp in H.
  assert ((serve_run plain_config plain_server unbound [] run_console).1
          = Err (SRun (ErrPortInUse "127.0.0.1:7822"))) as Hr by (vm_compute; reflexivity).
  rewrite Hr in H. destruct H as (noKeys & warns & _ & _ & _ & H). exists warns. exact H.
Defined.
