(* ===== verification/Cli.v ===== *)
(** * Cli: the program [raxd].

    [cmd/raxd/main.go] and the root of [internal/cli]: the banner and the
    directories before every command, the small commands [status], [version] and
    [config port], and the exit code.  The dispatch on the arguments is cobra's;
    a [command] is what it resolved them to. *)

From S2P Require Import Prelude GoText GoEncoding GoCrypto GoPath GoOs GoFs Config Keystore ServerAudit ServerTLS Server CmdExec FileUpload Mcp ServerRun Daemon.
From S2P Require Import ServiceTemplates Service ServiceSystemd ServiceLaunchd CliOutput CliKey CliService CliServe.
Open Scope Z_scope.
Open Scope go_scope.
#[local] Existing Instance daemon_app.

Inductive command :=
| KeyCreate (name : string)
| KeyList
| KeyDelete (args : list string)
| ConfigPort
| ServeCmd
| VersionCmd
| StatusCmd
| ServiceInstall
| ServiceUninstall (purge yes : bool)
| ServiceStart
| ServiceStop
| ServiceStatus (json : bool).

(** What [Execute] returns when it is not [nil]. *)
Inductive cli_error :=
| CKey (e : key_error)
| CService (e : svc_error)
| CServe (e : serve_error)
| CPaths (e : cerr)
| CNotImplemented.

Section cli.
Context `{RL : RateLimiter} `{JC : JsonCodec} `{GT : GoTables} `{TC : TlsCrypto} `{SDK : McpSdk}.
Context `{TW : TableWriter} `{E : Environment float64}.

(** The machine a command finds: the daemon's side of it, and what the service
    managers add.  There is one flat disk, the one of the key store; the copy in
    [y_host] is not read. *)
Record system := { y_world : world; y_host : host }.

Definition y_os (y : system) : os := p_os (w_proc (y_world y)).
Definition y_store (y : system) : Store := p_store (w_proc (y_world y)).

Definition set_os (o : os) (w : world) : world :=
  {| w_proc := {| p_store := p_store (w_proc w); p_os := o |}; w_limiters := w_limiters w;
     w_audit := w_audit w; w_writer := w_writer w; w_app := w_app w |}.

Definition as_host (y : system) : host :=
  set_host (y_os y) (h_dirs (y_host y)) (h_log (y_host y)) (y_host y).

Definition put_os (o : os) (y : system) : system :=
  {| y_world := set_os o (y_world y); y_host := y_host y |}.
Definition put_host (h : host) (y : system) : system :=
  {| y_world := set_os (h_os h) (y_world y); y_host := h |}.
Definition put_world (w : world) (y : system) : system := {| y_world := w; y_host := y_host y |}.

(** A command on a part of the system. *)
Definition on_part {S A} (get : system → S) (set : S → system → system) (m : M (console S) A) :
    M (console system) A := λ c,
  let (a, c') := m {| sys := get (sys c); shown := shown c |} in
  (a, {| sys := set (sys c') (sys c); shown := shown c' |}).

(** ** The small commands *)

Section commands.
Variable build : BuildInfo.

Definition runVersion : M (console system) (result cli_error unit) :=
  do! line ToStdout (version_Info build) in ret (Ok tt).

Definition runStub (name : string) : M (console system) (result cli_error unit) :=
  do! lines ToStderr ["error: " +:+ name +:+ ": not implemented yet"] in ret (Err CNotImplemented).

Definition runStatus : M (console system) (result cli_error unit) :=
  match Paths getenv with
  | Err e =>
      do! lines ToStderr ["error: " +:+ cerr_msg e;
                          "  hint: set the HOME environment variable and try again"%string] in
      ret (Err (CPaths e))
  | Ok paths =>
      let! st := on_part y_os put_os (on_sys (stat (Config.ConfigFile paths))) in
      let configSuffix := match st with Err NotExist => "  (not found, defaults applied)" | _ => "" end in
      do! lines ToStdout
            [row 8 "state" "not running"; row 8 "config" (Config.ConfigFile paths +:+ configSuffix);
             row 8 "keys" (Config.KeysDB paths); row 8 "tls" (Config.TLSDir paths)] in
      ret (Ok tt)
  end.

(** ** The root command *)

Definition PersistentPreRun : M (console system) unit :=
  do! line ToStderr (Render build) in
  match Paths getenv with
  | Err _ => ret tt
  | Ok paths =>
      do! on_part y_world put_world (on_sys (on_tree (EnsureDirs paths))) in ret tt
  end.

Definition lift {S A E'} (get : system → S) (set : S → system → system) (f : E' → cli_error)
    (m : M (console S) (result E' A)) : M (console system) (option (result cli_error A)) :=
  let! r := on_part get set m in ret (Some (result_map_err f r)).

(** [RunE] of the command; [None]: [key create] is still drawing ids. *)
Definition run_command (fuel : nat) (env : surroundings) (ts : list traffic) (cmd : command) :
    M (console system) (option (result cli_error unit)) :=
  match cmd with
  | KeyCreate name =>
      let! r := on_part y_os put_os (runKeyCreate getenv fuel name) in
      ret (option_map (result_map_err CKey) r)
  | KeyList => lift y_os put_os CKey (runKeyList getenv)
  | KeyDelete args => lift y_os put_os CKey (runKeyDelete getenv args)
  | ConfigPort => let! r := runStub "config port" in ret (Some r)
  | ServeCmd => lift y_world put_world CServe (runServe build env ts)
  | VersionCmd => let! r := runVersion in ret (Some r)
  | StatusCmd => let! r := runStatus in ret (Some r)
  | ServiceInstall => lift as_host put_host CService runServiceInstall
  | ServiceUninstall purge yes => lift as_host put_host CService (runServiceUninstall purge yes)
  | ServiceStart => lift as_host put_host CService runServiceStart
  | ServiceStop => lift as_host put_host CService runServiceStop
  | ServiceStatus json => lift as_host put_host CService (runServiceStatus json)
  end.

Definition Execute (fuel : nat) (env : surroundings) (ts : list traffic) (cmd : command) :
    M (console system) (option (result cli_error unit)) :=
  do! PersistentPreRun in run_command fuel env ts cmd.
End commands.

(** ** main: the exit code *)

Definition main (buildVersion buildCommit buildDate : string) (fuel : nat) (env : surroundings)
    (ts : list traffic) (cmd : command) : M (console system) (option Z) :=
  let build := version_Set buildVersion buildCommit buildDate build_defaults in
  let! r := Execute build fuel env ts cmd in
  ret (option_map (λ r, if is_ok r then 0 else 1) r).
End cli.
