(* ===== verification/CliTheorems.v ===== *)
(** * CliTheorems: what the program guarantees as a whole. *)

From S2P Require Import Prelude GoText GoEncoding GoCrypto GoPath GoOs GoFs Config Keystore KeystoreCodec KeystoreTheorems ServerAudit ServerTLS ServerTLSTheorems Server ServerTheorems CmdExec FileUpload FileUploadTheorems Mcp McpTheorems ServerRun ServerRunTheorems Daemon DaemonTheorems.
From S2P Require Import ServiceTemplates Service ServiceSystemd ServiceLaunchd ServicePurge ServiceTheorems CliOutput CliKey CliProofs CliKeyTheorems CliService CliServiceTheorems CliServe CliServeTheorems Cli.
Open Scope Z_scope.
Open Scope go_scope.
#[local] Existing Instance daemon_app.

Section cli.
Context `{RL : RateLimiter} `{JC : JsonCodec} `{GT : GoTables} `{TC : TlsCrypto} `{SDK : McpSdk}.
Context `{TW : TableWriter} `{E : Environment float64}.

(** ** The commands on keys *)

Lemma honest_fail_store {A} e op : honest (fail_store (S:=os) (A:=A) e op).
Proof.
  intros c. apply wp_fail_store. unfold error_texts. destruct (store_error_text e op) as [m hints].
  eexists. split; [reflexivity|]. unfold texts. cbn [map existsb]. by rewrite error_complains.
Qed.
#[local] Hint Resolve honest_fail_store : go.

(** [None] is no failure: the command is still running. *)
Definition create_ok (r : option (result key_error unit)) : bool :=
  match r with Some (Err _) => false | _ => true end.

Lemma reports_create env fuel name : reports create_ok (runKeyCreate env fuel name).
Proof.
  unfold runKeyCreate. apply reports_bind; [auto with go|]. intros [st|e].
  2: { apply (reports_map is_ok); [auto with go|]. by intros []. }
  apply reports_bind; [auto with go|]. intros [[[plain rec]|e]|]; [| |by apply reports_ret].
  2: { apply (reports_map is_ok); [auto with go|]. by intros []. }
  unfold printKeyBox. honest_walk.
Qed.

(** Whether a line complains tells whether the result is a failure, but for
    failures with an excuse. *)
Definition tells (excuse : Prop) (failed complained : bool) : Prop :=
  complained = failed ∨ failed = true ∧ complained = false ∧ excuse.

Definition telling {S A} (excuse : Prop) (failed : A → bool) (m : M (console S) A) : Prop :=
  ∀ c, wp m (λ a c', ∃ new, shown c' = shown c ++ new
    ∧ tells excuse (failed a) (existsb complains new)) c.

Lemma reports_telling {S A} excuse (ok : A → bool) (m : M (console S) A) :
  reports ok m → telling excuse (λ a, negb (ok a)) m.
Proof.
  intros Hm c. eapply wp_mono; [apply Hm|]. intros a c' (new & Hs & Hn). exists new.
  split; [done|]. by left.
Qed.

Lemma telling_bind {S A B} excuse (failed : A → bool) (m : M (console S) B) (k : B → M (console S) A) :
  calm m → (∀ b, telling excuse failed (k b)) → telling excuse failed (bind m k).
Proof.
  intros Hm Hk c. apply wp_bind. eapply wp_mono; [apply Hm|]. intros a c1 (n1 & H1 & Hc1).
  eapply wp_mono; [apply Hk|]. intros b c2 (n2 & H2 & Hc2). exists (n1 ++ n2).
  rewrite H2, H1, app_assoc. split; [done|]. by rewrite existsb_app, Hc1.
Qed.

Lemma telling_silent {S A} (excuse : Prop) (failed : A → bool) (a : A) :
  failed a = true → excuse → telling (S:=S) excuse failed (ret a).
Proof. intros Ha H c. apply wp_ret. exists []. rewrite app_nil_r. split; [done|]. by right. Qed.

(** The excuse of [key list]: it does not print the errors of the table library. *)
Definition table_fails : Prop :=
  (∃ r, append_error r ≠ None) ∨ ∃ rows, render_error rows ≠ None.

Lemma append_rows_fails rows e : append_rows rows = Err e → table_fails.
Proof.
  induction rows as [|r rows IH]; simpl; [done|]. destruct (append_error r) eqn:Er; [|done].
  intros _. left. exists r. by rewrite Er.
Qed.

Lemma telling_list env : telling table_fails (λ r, negb (is_ok r)) (runKeyList env).
Proof.
  unfold runKeyList. apply telling_bind; [auto with go|].
  intros [st|e]; [|apply reports_telling; auto with go].
  apply telling_bind; [auto with go|].
  intros [[|r rs]|e]; [apply reports_telling; honest_walk| |apply reports_telling; auto with go].
  cbv zeta. destruct (append_rows _) as [[]|e] eqn:Ea; [|by eapply telling_silent, append_rows_fails].
  destruct (render_error _) as [e|] eqn:Er; [|apply reports_telling; honest_walk].
  apply telling_silent; [done|]. right. eexists. by rewrite Er.
Qed.

Lemma honest_delete env args : honest (runKeyDelete env args).
Proof.
  unfold runKeyDelete. destruct args as [|id args].
  - unfold printError. intros c. console. rewrite say_say. by eexists.
  - honest_walk.
Qed.

(** ** Any command *)

Lemma reports_on_part {S A} (get : system → S) set (ok : A → bool) (m : M (console S) A) :
  reports ok m → reports ok (on_part get set m).
Proof.
  intros Hm c. unfold wp, on_part. specialize (Hm {| sys := get (sys c); shown := shown c |}).
  unfold wp in Hm. by destruct (m _).
Qed.

(** A command that is still running has not failed. *)
Definition command_ok (r : option (result cli_error unit)) : bool :=
  match r with Some (Err _) => false | _ => true end.

Lemma reports_lift {S E'} (get : system → S) set (f : E' → cli_error) (m : M (console S) (result E' unit)) :
  honest m → reports command_ok (lift get set f m).
Proof. intros Hm. apply (reports_map is_ok); [by apply reports_on_part|]. by intros []. Qed.

Lemma reports_some (m : M (console system) (result cli_error unit)) :
  honest m → reports command_ok (let! r := m in ret (Some r)).
Proof. intros Hm. apply (reports_map is_ok); [done|]. by intros []. Qed.

Lemma calm_on_part {S A} (get : system → S) set (m : M (console S) A) : calm m → calm (on_part get set m).
Proof.
  intros Hm c. unfold wp, on_part. specialize (Hm {| sys := get (sys c); shown := shown c |}).
  unfold wp in Hm. by destruct (m _).
Qed.
#[local] Hint Resolve calm_on_part : go.

Lemma telling_lift {S E'} (get : system → S) set (f : E' → cli_error) excuse
    (m : M (console S) (result E' unit)) :
  telling excuse (λ r, negb (is_ok r)) m → telling excuse (λ r, negb (command_ok r)) (lift get set f m).
Proof.
  intros Hm c. apply wp_bind. unfold on_part, wp at 1.
  specialize (Hm {| sys := get (sys c); shown := shown c |}). unfold wp in Hm.
  destruct (m _) as [r c']. destruct Hm as (new & Hs & Ht). apply wp_ret.
  exists new. split; [exact Hs|]. by destruct r.
Qed.

Lemma reports_command build fuel env ts cmd :
  cmd ≠ KeyList → reports command_ok (run_command build fuel env ts cmd).
Proof.
  intros Hc. destruct cmd; simpl.
  - apply (reports_map create_ok); [apply reports_on_part, reports_create|]. by intros [[]|].
  - done.
  - apply reports_lift, honest_delete.
  - apply reports_some. unfold runStub. honest_walk.
  - apply reports_lift, honest_serve.
  - apply reports_some. unfold runVersion. honest_walk.
  - apply reports_some. unfold runStatus. honest_walk.
  - apply reports_lift, honest_with_manager, honest_install.
  - apply reports_lift. unfold runServiceUninstall, printPurgeBarrier. destruct (purge && negb yes).
    + cbv zeta. by apply reports_first.
    + apply honest_with_manager. intros m port. destruct (purge && yes); [apply honest_purge|apply honest_uninstall].
  - apply reports_lift, honest_with_manager. intros m port. apply honest_start.
  - apply reports_lift, honest_with_manager. intros m port. apply honest_stop.
  - apply reports_lift, honest_with_manager. intros m port. apply honest_status.
Qed.

Lemma telling_command build fuel env ts cmd :
  telling (cmd = KeyList ∧ table_fails) (λ r, negb (command_ok r)) (run_command build fuel env ts cmd).
Proof.
  assert (cmd = KeyList ∨ cmd ≠ KeyList) as [->|Hc] by (destruct cmd; first [by left|by right]).
  - apply telling_lift. intros c. eapply wp_mono; [apply telling_list|].
    intros r c' (new & Hs & [Ht|(Hf & Hn & Ht)]); exists new; (split; [done|]); [by left|by right].
  - by apply reports_telling, reports_command.
Qed.

Lemma PersistentPreRun_calm build : calm (PersistentPreRun build).
Proof. unfold PersistentPreRun. honest_walk. Qed.

(** C19: The exit code tells whether the command failed, and but for one case no
    failure is silent.  Whatever the command, it exits with 1 exactly when a line
    that begins with [error:] or [warning:] has been written to the standard
    error, and with 0 otherwise.  The one case is [key list] when the table
    library fails to append a row or to render the table: it exits with 1 and
    writes no such line.  Only [key create] can fail to end, while it draws ids. *)
Theorem exit_code_tells buildVersion buildCommit buildDate fuel env ts cmd c :
  wp (main buildVersion buildCommit buildDate fuel env ts cmd) (λ code c', ∃ new,
    shown c' = shown c ++ new
    ∧ match code with
      | Some n =>
          n = (if existsb complains new then 1 else 0)
          ∨ n = 1 ∧ existsb complains new = false ∧ cmd = KeyList
            ∧ ((∃ r, append_error r ≠ None) ∨ ∃ rows, render_error rows ≠ None)
      | None => (∃ name, cmd = KeyCreate name) ∧ existsb complains new = false
      end) c.
Proof.
  unfold main. apply wp_bind. eapply wp_mono.
  { apply wp_and.
    - eapply (telling_bind _ (λ r, negb (command_ok r))); [apply PersistentPreRun_calm|].
      intros _. apply telling_command.
    - apply wp_intro. intros r c' Hrun. assert (r = None → ∃ name, cmd = KeyCreate name) as H; [|exact H].
      intros ->. unfold Execute, bind in Hrun. destruct (PersistentPreRun _ c) as [_ c1].
      destruct cmd; [by eauto|..]; exfalso; simpl in Hrun; unfold lift, bind, ret in Hrun;
        match type of Hrun with (let (_, _) := ?x in _) = _ => destruct x end; discriminate. }
  intros r c' [(new & Hs & Hn) Hnone]. apply wp_ret. exists new. split; [done|].
  destruct r as [[[]|e]|]; destruct Hn as [Hn|(Hf & Hn & Hc & Ht)]; simpl in *; try done;
    rewrite Hn; eauto.
Qed.
End cli.

(** ** Instances *)

Definition demo_system : console system :=
  {| sys := {| y_world := demo_daemon_world serve_proc; y_host := demo_host ∅ demo_dirs |}; shown := [] |}.

Definition demo_main (cmd : command) : option Z * console system :=
  main (RL:=int_limiter) (E:=demo_serve_env) "1.0" "" "" 1 demo_surroundings [] cmd demo_system.

(** Of the commands that end: a purge without confirmation fails, the status does
    not. *)
Example exit_codes :
  map (λ cmd, (demo_main cmd).1)
    [ServiceUninstall true false; ServiceStatus true; ConfigPort; KeyList; KeyDelete []; KeyDelete ["bb"%string];
     KeyCreate "phone"; VersionCmd; StatusCmd; ServeCmd; ServiceStart]
  = [Some 1; Some 0; Some 1; Some 0; Some 1; Some 0; Some 0; Some 0; Some 0; Some 0; Some 1].
Proof. vm_compute. reflexivity. Qed.

Lemma exit_code_tells_witness :
  ∃ new, shown (demo_main (ServiceUninstall true false)).2 = new ∧ existsb complains new = true.
Proof.
  pose proof (exit_code_tells (RL:=int_limiter) (E:=demo_serve_env)
    "1.0" "" "" 1 demo_surroundings [] (ServiceUninstall true false) demo_system) as H.
  unfold wp in H. change (main _ _ _ _ _ _ _ _) with (demo_main (ServiceUninstall true false)) in H.
  assert ((demo_main (ServiceUninstall true false)).1 = Some 1) as Hr by (vm_compute; reflexivity).
  rewrite Hr in H. destruct H as (new & Hs & [Hn|(_ & _ & Hn & _)]); [|discriminate Hn].
  exists new. split; [exact Hs|]. destruct (existsb complains new); [reflexivity|discriminate].
Defined.

(** The one silent failure: [key list] on a terminal the table cannot be written
    to.  The banner is all that is shown. *)
Example table_failure_is_silent :
  let r := main (RL:=int_limiter) (E:=demo_serve_env)
    (TW:={| append_error _ := None; render_error _ := Some "broken pipe"%string |})
    "1.0" "" "" 1 demo_surroundings [] KeyList demo_system in
  (r.1, length (shown r.2), existsb complains (shown r.2)) = (Some 1, 1%nat, false).
Proof. vm_compute. reflexivity. Qed.

(** The frame of the banner counts bytes, and two columns too many for a line
    without the wide characters of the first two: the third line sticks out. *)
Example banner_third_line_sticks_out :
  map (λ s, Z.of_nat (rune_count s) - Z.of_nat (rune_count (hd ""%string (banner_rows build_defaults))))
    (banner_rows build_defaults) = [0; 0; 0; 2; 0].
Proof. vm_compute. reflexivity. Qed.

(** A limit of the output below zero passes [config.Load], and every command then
    panics before it starts. *)
Example negative_output_limit_panics :
  let (r, m) := CmdExec.Run None
    {| Allowlist := ["echo"%string]; DefaultTimeoutMs := 1; MaxTimeoutMs := 1; DefaultCwd := "/tmp";
       EnvWhitelist := []; MaxArgs := 1; MaxArgLen := 1; MaxOutputBytes := -1; DenyRoot := false |}
    {| Command := "echo"; Args := []; Cwd := "" |} demo_machine in
  r = None ∧ m_events m = [].
Proof. vm_compute. done. Qed.
